(* ===== verification/_CoqProject ===== *)
-Q . S2P
Prelude.v
Disk.v
Protocol.v
Inode.v
InodeFacts.v
FileRead.v
FileWrite.v
FileRemove.v
FileAppend.v
FileLarge.v
FileTheorems.v
Extent.v
ExtentFacts.v
BlockFacts.v
DirFormat.v
DirFacts.v
Yfs.v
YfsFacts.v
YfsTheorems.v
Fuse.v
FuseFacts.v
FuseTheorems.v
LockServer.v
LockCache.v
LockCacheFacts.v
Rpc.v
Fifo.v
LockClient.v
Handle.v
Protobuf.v
ProtobufFacts.v
WireFormat.v
WireFormatFacts.v
RepeatedField.v
RepeatedFieldFacts.v
GeneratedCode.v
RepeatedPtrField.v
RepeatedPtrFacts.v
Runtime.v
GeneratedFacts.v
GeneratedProgress.v
GeneratedTyped.v
Protos.v
RepeatedTheorems.v
GeneratedTheorems.v
Hrpc.v
HrpcFacts.v
Messages.v
MessageFacts.v
MessageSize.v
NameServer.v
NameServerFacts.v
Datanode.v
DatanodeFacts.v
DataServer.v
DataServerFacts.v
Namenode.v
NameService.v
OpRequests.v
OpRequestFacts.v
RecoveryFacts.v
MemberFacts.v
NamenodeFacts.v
HdfsFacts.v
NamespaceFacts.v
HdfsTheorems.v
ReplyFacts.v
HdfsWire.v
WireTheorems.v
ServerTheorems.v
HdfsWireTheorems.v
