(* ===== verification/Prelude.v ===== *)
(** * Verification of the yfs distributed file system

    yfs (src/yfs) is a file system in C++ whose disk, locks and directories
    are served over remote calls.  This development translates the program
    into Rocq functions on explicit states and proves what they do.

    ** Parts of the program, and the files that model them

    - Disk and inodes (inode_manager.h, inode_manager.cc).  A disk of 2048
      blocks of 16384 bytes, a bitmap of free blocks, 1024 inodes with 100
      direct blocks and one block of indirect ones.  [Disk] has the disk and
      the block manager, [Inode] every operation of [inode_manager] on the
      bytes of the disk.  [InodeFacts] gives the abstraction: [file b i] is
      the type and the contents of inode [i], and [fs_ok] the invariant that
      every block has one owner.  [FileRead], [FileWrite], [FileRemove],
      [FileAppend] and [FileLarge] prove each operation against [file];
      [FileTheorems] states the properties.
    - Extent service (extent_protocol.h, extent_server.cc, extent_client.cc).
      [Protocol] has the status codes and attributes, [Extent] the handlers
      and the client's stubs over a network that delivers a call, loses it, or
      loses the reply.  Class [ExtentClient] lists the operations, classes
      [ExtentLaws] and [BlockLaws] what a client may rely on, the second one
      for blocks by their numbers, whether they belong to a file or not;
      [ExtentFacts] and [BlockFacts] prove the laws for the code when no call is
      lost and the memory behind the strings that [put] is given can be read: the
      code reads whole blocks from them.
    - File system client (yfs_client.h, yfs_client.cc).  [DirFormat] has the
      text format of directories, with its scanning loops, and decimal inode
      numbers; [DirFacts] its round trips.  [Yfs] has every operation, over
      any [ExtentClient] and the set of locks the operation holds; [YfsFacts]
      and [YfsTheorems] prove the operations from [ExtentLaws] alone.
    - FUSE server (fuse.cc).  [Fuse] has every request handler with its reply,
      [FuseFacts] and [FuseTheorems] their properties.
    - Locks (lock_server.cc; lock_client.cc; lock_client_cache.cc,
      lock_server_cache.cc).  [LockServer] has the plain server, [LockClient]
      its stubs, [LockCache] the caching client and server as a system of
      threads, messages and failing calls, [LockCacheFacts] its invariant.  Both
      systems are step functions on events, and the theorems hold for every
      schedule.
    - Remote calls (rpc/rpc.h, rpc/marshall.h, rpc/fifo.h; handle.h,
      handle.cc).  [Rpc] has the call and handler templates and the container
      operators, [Fifo] the blocking queue, [Handle] the cache of connections
      on a heap with frees, and the threads of a process that use it.
    - HDFS (namenode.h, namenode.cc, namenode_base.cc; datanode.h, datanode.cc,
      datanode_base.cc; hrpc.h).  [Namenode] has every request handler on the
      fields it reads, [NameService] the messages around the handlers and the
      requests with which blocks are copied to a new data node, [NameServer] the
      dispatch of requests and the loop of a connection, with the requests of a
      data node; [Datanode] has blocks and packets, [DataServer] the operations
      of a connection to a data node on the bytes it carries; [Hrpc] the frames
      on a socket.  The repository has no client: the theorems quantify over the
      requests, and [OpRequests] has some for the examples.  [HrpcFacts], [DatanodeFacts], [DataServerFacts],
      [NameServerFacts], [MemberFacts], [NamenodeFacts], [HdfsFacts],
      [NamespaceFacts], [OpRequestFacts], [RecoveryFacts], [ReplyFacts] and
      [HdfsWire] prove them; [HdfsTheorems], [WireTheorems], [ServerTheorems] and
      [HdfsWireTheorems] state the properties.
    - Protocol messages (proto/common.proto, datanode.proto, namenode.proto, the
      generated .pb.cc files, and the protobuf headers under proto/output/google).
      [WireFormat] has the inline functions that read and write values of every
      type; [GeneratedCode] the code that protoc generates for a class, as
      functions of the list of its fields; [Protos] the fields of every message
      of the .proto files; [Messages] the objects of these classes with their
      accessors, which the servers above use; [Protobuf] the packet header
      message function by function.  [RepeatedField] and [RepeatedPtrField] have the
      containers of repeated_field.h, with their arrays, sizes and heap.
      [ProtobufFacts], [WireFormatFacts], [GeneratedFacts], [GeneratedProgress],
      [GeneratedTyped], [MessageFacts], [MessageSize] (a bound on the size of a message from the
      sizes of its parts), [RepeatedFieldFacts] and [RepeatedPtrFacts] prove them, [GeneratedTheorems]
      and [RepeatedTheorems] state the properties.  [Runtime] is an implementation
      of the runtime's functions for the examples.

    ** How the code is translated

    Integers are [Z] with the wrap-around of their width written out ([u32],
    [u64], [sint]); memory is lists of bytes.  An operation gives an [outcome]:
    [Ret], [Undef] for undefined behaviour, [Abort] for a failed [VERIFY], an
    exception nobody catches or an exit, and [Stuck] for a wait that never
    ends or fuel that runs out.  Time, the content of fresh memory, the memory
    that can be read behind a string, and the fate of remote calls are inputs
    ([env], [network]).  The state of the file
    system client is passed by monad [M], that of the name node by monad [NM],
    whose values include [HdfsException].  Printing is left out.

    ** What is proved

    - Inode manager: writing, reading, removing and appending, for all files
      up to 100 blocks, with the contents of every other file unchanged and the
      invariant preserved; allocation finds the first free block or inode; what
      goes wrong for larger files and on a full disk.
    - Extent service: put then get through server and disk; failed calls; that
      put reads past the end of its string.
    - Directories and the file system client: round trips of the format;
      create, mkdir, lookup, readdir, read, write, setattr, unlink and links
      against the abstract files, with their locks released; error paths.
    - FUSE: what the kernel sees after create, write and unlink; paging through
      a directory.
    - Locks: mutual exclusion for every schedule of both lock systems, that no
      check of the caching locks fails while calls do not; and the schedules on
      which a wake-up is lost, the owner is lost, or a failed call blocks a client.
    - HDFS: for all requests that store a file and fetch it again, the threads of
      the name node and of a data node answer with its bytes; path lookup refines a
      relation on directories; delete removes a tree; rename; the data nodes that
      are reported are those that an abstract history calls alive.
    - Data nodes: a part of a block written over a connection is read back over
      it; a write with any number of targets reaches the store of each data node
      of the pipeline; the blocks that a new data node gets from the first one,
      on the request of the name node, are the first one's.
    - Wire: round trips of packet headers and packet streams; the thread of a
      connection to the name node serves the requests in order, if each arrives in
      one segment; the threads of both nodes end on every input, unless a handler
      waits; frames that arrive in pieces are refused; answers without a required
      field are refused.
    - Messages: for every class of the protocol, an object is read back from its
      bytes, parsing ends on every input and gives an object whose fields are set
      and have values of their types, and parsing two objects in a row is
      [MergeFrom]; the code for the packet header is an instance.  The containers
      refine lists, their capacity is bounded, and the objects behind pointers are
      neither lost nor deleted twice.
    - Remote calls: a call is the method on the caller's arguments; the extent
      client's abstraction of a call is what the templates compute; the queue
      is first in first out and loses no wake-up; no freed connection is used by
      handles that are not copied.

    Theorems on the laws of a class hold for the code because instances
    discharge them: [extent_client_laws] and [extent_block_laws].  The classes
    for code without source ([FuseLib], [ProtobufRuntime], [WireRuntime],
    [FailedParse], [PtrArray], [Marshal], [OkDone], [Message]) have laws that
    state its documented behaviour, and the runs in the theorem files instantiate
    them.

    ** Fuel

    Loops over lists and counters are structural.  [path_loop] and the scans of
    directories have the length of the string as fuel, which they cannot
    exceed since every turn moves the position.  [merge_loop], [serve],
    [write_loop] and the data node's [worker] have the length of the input plus
    one, and are proved never to run out; so has [read_stream].
    [RecursiveDelete] has the number of inodes, a bound on the depth of a tree.
    The generated parser has the length of the input plus one for its loops and
    the recursion limit of protobuf, 100, for messages in messages; it is proved
    to end, and the nesting of the protocol's classes is below the limit.
    [capacity_loop] has as many turns as there are elements.
    [varint_loop] has four turns before its last byte, enough for 32 bits, and
    [dec_loop] twenty, enough for 64.  [read_packets] has the length of the block.

    ** Not modelled

    The main functions, sockets and thread creation: a new thread always starts,
    and what is written to a socket is sent.  The thread that registers a data
    node is an operation of its own, after the request that started it.  What
    another data node answers is a parameter of an operation; the theorems on
    pipelines and on copying give it the bytes that a data node sends.

    Assumed of the process: a thread that registers a data node is not interrupted
    by requests for new blocks, whose numbers it walks through without a lock;
    handles are not copied, and the flag [del] of a connection, which two mutexes
    guard, is read and written atomically; an argument of [Add] and [Resize] of a
    repeated field is not one of its own elements; and a stream does not end
    inside a packed group before the limit of its message.

    Left out: the rpc library behind its headers, libfuse and the slow paths of
    protobuf, which have no source here; descriptors, reflection, arenas, groups
    and the iterators of protobuf; the testers and demos; printing and clocks. *)

From Stdlib Require Export ZArith Lia Strings.Byte.
From stdpp Require Export prelude list gmap strings.

#[global] Open Scope Z_scope.

(* ------------------------------------------------------------------ *)
(** ** Outcomes of C++ code

    [Ret a] is a normal return; [Undef] is undefined behaviour (an access
    outside an object, a dereferenced NULL pointer); [Abort] is a stopped
    process (a failed [VERIFY], [exit], an exception nobody catches);
    [Stuck] is a thread that waits for ever on a lock it already holds. *)
Inductive outcome (A : Type) : Type :=
| Ret (a : A)
| Undef
| Abort
| Stuck.
Arguments Ret {A} a.
Arguments Undef {A}.
Arguments Abort {A}.
Arguments Stuck {A}.

#[global] Instance outcome_ret : MRet outcome := fun A a => Ret a.
#[global] Instance outcome_bind : MBind outcome := fun A B k m =>
  match m with
  | Ret a => k a
  | Undef => Undef
  | Abort => Abort
  | Stuck => Stuck
  end.

(** An array access [l[i]], undefined outside the array. *)
Definition load {A} (l : list A) (i : Z) : outcome A :=
  if i <? 0 then Undef else
  match l !! Z.to_nat i with Some x => Ret x | None => Undef end.

(** An array assignment [l[i] = x], undefined outside the array. *)
Definition store {A} (l : list A) (i : Z) (x : A) : outcome (list A) :=
  if (0 <=? i) && (i <? Z.of_nat (length l)) then Ret (<[Z.to_nat i := x]> l)
  else Undef.

(** [for (i = lo; i < hi; i++) body] over a loop state [s]. *)
Fixpoint for_n {S} (n : nat) (i : Z) (body : Z -> S -> outcome S) (s : S)
    : outcome S :=
  match n with
  | O => Ret s
  | Datatypes.S n => s' ← body i s; for_n n (i + 1) body s'
  end.

Definition for_ {S} (lo hi : Z) (body : Z -> S -> outcome S) (s : S) : outcome S :=
  for_n (Z.to_nat (hi - lo)) lo body s.

(* ------------------------------------------------------------------ *)
(** ** Machine integers and bytes *)

Definition u32 (z : Z) : Z := z mod 2 ^ 32.
Definition u64 (z : Z) : Z := z mod 2 ^ 64.
(** Conversion of an integer to a signed type of [w] bits. *)
Definition sint (w z : Z) : Z :=
  let r := z mod 2 ^ w in if r <? 2 ^ (w - 1) then r else r - 2 ^ w.

(** The value of a byte as [unsigned char] and as (signed) [char]. *)
Definition byte_val (b : byte) : Z := Z.of_N (Byte.to_N b).
Definition char_val (b : byte) : Z :=
  if byte_val b <? 128 then byte_val b else byte_val b - 256.
(** Conversion of an integer to [char]: its low eight bits. *)
Definition to_byte (z : Z) : byte :=
  default x00 (Byte.of_N (Z.to_N (z mod 256))).

(** The little-endian bytes of an integer of [n] bytes, and its value. *)
Fixpoint le_bytes (n : nat) (z : Z) : list byte :=
  match n with
  | O => []
  | S n => to_byte z :: le_bytes n (z / 256)
  end.

Fixpoint le_val (l : list byte) : Z :=
  match l with
  | [] => 0
  | b :: l => byte_val b + 256 * le_val l
  end.

(** [htonl] and [htons] followed by a copy of the bytes, and back. *)
Definition be_bytes (n : nat) (z : Z) : list byte := rev (le_bytes n z).
Definition be_val (l : list byte) : Z := le_val (rev l).

(** A [blockid_t] array read from, and written to, raw memory. *)
Definition u32s_of_bytes (n : nat) (l : list byte) : list Z :=
  (fun i => le_val (take 4 (drop (4 * i) l))) <$> seq 0 n.

Definition bytes_of_u32s (l : list Z) : list byte := l ≫= le_bytes 4.

(* ------------------------------------------------------------------ *)
(** ** Hints and tactics *)

Create HintDb yfs discriminated.
Create Rewrite HintDb len.

#[export] Instance byte_eq_dec' : EqDecision byte := Byte.byte_eq_dec.

#[export] Hint Rewrite @length_app @length_drop @length_take @length_fmap
  @length_replicate @length_insert @length_seq : len.

(** Length goals: push [length] inwards and finish with [lia]. *)
Ltac len := autorewrite with len in *; simpl length in *; try lia.

(** Case analysis on every boolean test of the goal, with its meaning. *)
Ltac case_tests :=
  repeat match goal with
  | |- context [?a <? ?b] => destruct (Z.ltb_spec a b)
  | |- context [?a <=? ?b] => destruct (Z.leb_spec a b)
  | |- context [?a =? ?b] => destruct (Z.eqb_spec a b)
  end; try lia.

(** Split a monadic equation [(x ← m; k x) = Ret r]. *)
Ltac bind_inv H :=
  match type of H with
  | (?m ≫= _) = Ret _ =>
      let E := fresh "Hbind" in
      destruct m eqn:E; simpl in H; try discriminate H
  end.

(* ------------------------------------------------------------------ *)
(** ** Lemmas on outcomes and loops *)

Lemma bind_Ret {A B} (a : A) (k : A -> outcome B) : (Ret a ≫= k) = k a.
Proof. reflexivity. Qed.

Lemma bind_Ret_inv {A B} (m : outcome A) (k : A -> outcome B) b :
  (m ≫= k) = Ret b -> exists a, m = Ret a /\ k a = Ret b.
Proof. destruct m; simpl; try discriminate; eauto. Qed.

Lemma load_Ret {A} (l : list A) i x :
  0 <= i -> l !! Z.to_nat i = Some x -> load l i = Ret x.
Proof. intros Hi E. unfold load. case_tests. by rewrite E. Qed.

Lemma load_Ret_inv {A} (l : list A) i x :
  load l i = Ret x -> 0 <= i /\ l !! Z.to_nat i = Some x.
Proof.
  unfold load. destruct (Z.ltb_spec i 0); [discriminate|].
  destruct (l !! Z.to_nat i) eqn:E; [|discriminate].
  intros [= ->]. auto.
Qed.

Lemma store_Ret {A} (l : list A) i x :
  0 <= i < Z.of_nat (length l) -> store l i x = Ret (<[Z.to_nat i := x]> l).
Proof. intros Hi. unfold store. case_tests. done. Qed.

(** The loop rule: an invariant that every iteration re-establishes gives
    a loop that returns, with the invariant at the upper bound. *)
Lemma for_inv {S} (I : Z -> S -> Prop) lo hi (body : Z -> S -> outcome S) s :
  lo <= hi -> I lo s ->
  (forall i s, lo <= i < hi -> I i s -> exists s', body i s = Ret s' /\ I (i + 1) s') ->
  exists s', for_ lo hi body s = Ret s' /\ I hi s'.
Proof.
  unfold for_. intros Hle HI Hstep.
  remember (Z.to_nat (hi - lo)) as n eqn:En.
  assert (forall m i s, Z.of_nat m = hi - i -> lo <= i -> I i s ->
    exists s', for_n m i body s = Ret s' /\ I hi s') as H.
  { induction m as [|m IH]; intros i s0 Hm Hi HI0; cbn [for_n].
    - exists s0. split; [done|]. by replace hi with i by lia.
    - destruct (Hstep i s0) as (s1 & -> & HI1); [lia|done|]. simpl.
      apply IH; [lia|lia|done]. }
  apply H; [lia|lia|done].
Qed.

Lemma for_empty {S} lo hi (body : Z -> S -> outcome S) s :
  hi <= lo -> for_ lo hi body s = Ret s.
Proof. intros. unfold for_. by replace (Z.to_nat (hi - lo)) with O by lia. Qed.

(** The last turn of a loop. *)
Lemma for_last {S} lo hi (body : Z -> S -> outcome S) s : lo < hi ->
  for_ lo hi body s = (s' ← for_ lo (hi - 1) body s; body (hi - 1) s').
Proof.
  intros Hlt. unfold for_. replace (Z.to_nat (hi - lo)) with (Datatypes.S (Z.to_nat (hi - 1 - lo))) by lia.
  remember (Z.to_nat (hi - 1 - lo)) as n eqn:En. assert (hi - 1 = lo + Z.of_nat n) as -> by lia.
  clear Hlt En. revert lo s. induction n as [|n IH]; intros lo s.
  - cbn [for_n]. rewrite Z.add_0_r, bind_Ret. by destruct (body lo s).
  - remember (Datatypes.S n) as m eqn:Em. cbn [for_n]. subst m. cbn [for_n]. cbn [for_n] in IH.
    destruct (body lo s) as [s'| | |]; [|reflexivity..]. rewrite !bind_Ret, IH.
    by replace (lo + 1 + Z.of_nat n) with (lo + Z.of_nat (Datatypes.S n)) by lia.
Qed.

(* ------------------------------------------------------------------ *)
(** ** Lemmas on bytes *)

Lemma u32_id z : 0 <= z < 2 ^ 32 -> u32 z = z.
Proof. apply Z.mod_small. Qed.

(** Signed integers survive the conversion to unsigned ones and back. *)
Lemma sint_mod w v : 0 < w -> - 2 ^ (w - 1) <= v < 2 ^ (w - 1) -> sint w (v mod 2 ^ w) = v.
Proof.
  intros Hw Hv. unfold sint. assert (2 ^ w = 2 * 2 ^ (w - 1)) as E by (rewrite <-Z.pow_succ_r; [f_equal|]; lia).
  rewrite Z.mod_mod by lia. destruct (Z.le_gt_cases 0 v).
  - rewrite Z.mod_small by lia. case_tests.
  - assert (v mod 2 ^ w = v + 2 ^ w) as -> by (rewrite <-(Z.mod_add v 1), Z.mod_small by lia; lia).
    case_tests.
Qed.

Lemma sint_range w z : 0 < w -> - 2 ^ (w - 1) <= sint w z < 2 ^ (w - 1).
Proof.
  intros Hw. unfold sint. assert (2 ^ w = 2 * 2 ^ (w - 1)) as E by (rewrite <-Z.pow_succ_r; [f_equal|]; lia).
  assert (0 < 2 ^ (w - 1)) by (apply Z.pow_pos_nonneg; lia).
  pose proof (Z.mod_pos_bound z (2 ^ w) ltac:(lia)). cbv zeta.
  match goal with |- context [if ?a <? ?b then _ else _] => destruct (Z.ltb_spec a b) end; lia.
Qed.

Lemma sint_small w z : 0 < w -> 0 <= z < 2 ^ (w - 1) -> sint w z = z.
Proof.
  intros Hw Hz. assert (2 ^ w = 2 * 2 ^ (w - 1)) as E by (rewrite <-Z.pow_succ_r; [f_equal|]; lia).
  rewrite <-(Z.mod_small z (2 ^ w)) at 1 by lia. apply sint_mod; lia.
Qed.

Lemma byte_val_range b : 0 <= byte_val b < 256.
Proof. unfold byte_val. pose proof (Byte.to_N_bounded b). lia. Qed.

Lemma byte_val_inj a b : byte_val a = byte_val b -> a = b.
Proof.
  unfold byte_val. intros E%N2Z.inj.
  pose proof (Byte.of_to_N a) as Ha. pose proof (Byte.of_to_N b) as Hb. congruence.
Qed.

Lemma to_byte_val b : to_byte (byte_val b) = b.
Proof.
  unfold to_byte, byte_val.
  rewrite Z.mod_small by apply byte_val_range.
  by rewrite N2Z.id, Byte.of_to_N.
Qed.

Lemma val_to_byte z : byte_val (to_byte z) = z mod 256.
Proof.
  unfold to_byte. pose proof (Z.mod_pos_bound z 256 ltac:(lia)) as Hm.
  destruct (Byte.of_N (Z.to_N (z mod 256))) as [b|] eqn:E; simpl.
  - apply Byte.to_of_N in E. unfold byte_val. rewrite E. lia.
  - apply Byte.of_N_None_iff in E. lia.
Qed.

Lemma length_le_bytes n z : length (le_bytes n z) = n.
Proof. revert z. induction n; intros; simpl; auto. Qed.
#[export] Hint Rewrite length_le_bytes : len.

Lemma le_val_bytes n z : le_val (le_bytes n z) = z mod 256 ^ Z.of_nat n.
Proof.
  revert z. induction n as [|n IH]; intros z; cbn [le_bytes le_val].
  - by rewrite Z.pow_0_r, Z.mod_1_r.
  - rewrite IH, val_to_byte.
    replace (Z.of_nat (S n)) with (1 + Z.of_nat n) by lia.
    rewrite Z.pow_add_r, Z.pow_1_r by lia.
    rewrite (Z.rem_mul_r z 256 (256 ^ Z.of_nat n)) by lia. lia.
Qed.

Lemma length_be_bytes n z : length (be_bytes n z) = n.
Proof. unfold be_bytes. by rewrite length_rev, length_le_bytes. Qed.

Lemma be_val_bytes n z : be_val (be_bytes n z) = z mod 256 ^ Z.of_nat n.
Proof. unfold be_val, be_bytes. by rewrite rev_involutive, le_val_bytes. Qed.

Lemma le_val_range l : 0 <= le_val l < 256 ^ Z.of_nat (length l).
Proof.
  induction l as [|b l IH]; cbn [le_val length]; [simpl; lia|].
  pose proof (byte_val_range b).
  replace (Z.of_nat (S (length l))) with (1 + Z.of_nat (length l)) by lia.
  rewrite Z.pow_add_r, Z.pow_1_r by lia. nia.
Qed.

Lemma le_bytes_val l : le_bytes (length l) (le_val l) = l.
Proof.
  induction l as [|b l IH]; cbn [le_val length le_bytes]; [done|].
  pose proof (byte_val_range b).
  f_equal.
  - rewrite <-(to_byte_val b) at 2. apply byte_val_inj. rewrite !val_to_byte.
    rewrite (Z.mul_comm 256), Z.mod_add by lia. done.
  - rewrite (Z.mul_comm 256), Z.div_add by lia.
    rewrite (Z.div_small (byte_val b)) by lia. by rewrite Z.add_0_l, IH.
Qed.

(* ------------------------------------------------------------------ *)
(** ** Lemmas on [blockid_t] arrays *)

Lemma length_bytes_of_u32s l : length (bytes_of_u32s l) = (4 * length l)%nat.
Proof.
  induction l as [|x l IH]; [done|].
  change (bytes_of_u32s (x :: l)) with (le_bytes 4 x ++ bytes_of_u32s l).
  rewrite length_app, IH, length_le_bytes. simpl length. lia.
Qed.
#[export] Hint Rewrite length_bytes_of_u32s : len.

Lemma length_u32s_of_bytes n l : length (u32s_of_bytes n l) = n.
Proof. unfold u32s_of_bytes. by rewrite length_fmap, length_seq. Qed.
#[export] Hint Rewrite length_u32s_of_bytes : len.

Lemma u32s_of_bytes_lookup n l i :
  (i < n)%nat -> u32s_of_bytes n l !! i = Some (le_val (take 4 (drop (4 * i) l))).
Proof. intros. unfold u32s_of_bytes. by rewrite list_lookup_fmap, lookup_seq_lt. Qed.

Lemma drop_bytes_of_u32s i l :
  drop (4 * i) (bytes_of_u32s l) = bytes_of_u32s (drop i l).
Proof.
  revert i. induction l as [|x l IH]; intros [|i]; [done|by rewrite drop_nil|done|].
  change (bytes_of_u32s (x :: l)) with (le_bytes 4 x ++ bytes_of_u32s l).
  replace (4 * S i)%nat with (length (le_bytes 4 x) + 4 * i)%nat
    by (rewrite length_le_bytes; lia).
  rewrite drop_app_add. apply IH.
Qed.

Lemma u32s_of_bytes_of_u32s l rest :
  Forall (fun x => 0 <= x < 2 ^ 32) l ->
  u32s_of_bytes (length l) (bytes_of_u32s l ++ rest) = l.
Proof.
  intros Hl. apply list_eq. intros i.
  destruct (decide (i < length l)%nat) as [Hi|Hi].
  - destruct (lookup_lt_is_Some_2 l i Hi) as [x Hx]. rewrite Hx.
    rewrite u32s_of_bytes_lookup by done. f_equal.
    rewrite drop_app_le by len. rewrite drop_bytes_of_u32s.
    rewrite (drop_S _ _ _ Hx).
    change (bytes_of_u32s (x :: drop (S i) l)) with (le_bytes 4 x ++ bytes_of_u32s (drop (S i) l)).
    rewrite <-app_assoc. rewrite take_app_length' by len.
    rewrite le_val_bytes. apply Z.mod_small.
    by apply (Forall_lookup_1 _ _ _ _ Hl Hx).
  - rewrite !lookup_ge_None_2; [done|lia|len].
Qed.

Lemma u32s_of_bytes_range n l :
  Forall (fun x => 0 <= x < 2 ^ 32) (u32s_of_bytes n l).
Proof.
  unfold u32s_of_bytes. apply Forall_fmap, Forall_true. intros i.
  change (0 <= le_val (take 4 (drop (4 * i) l)) < 256 ^ 4).
  pose proof (le_val_range (take 4 (drop (4 * i) l))) as H.
  assert (256 ^ Z.of_nat (length (take 4 (drop (4 * i) l))) <= 256 ^ 4).
  { apply Z.pow_le_mono_r; [lia|]. rewrite length_take. lia. }
  lia.
Qed.

(** Bits of a byte: [char] and [unsigned char] agree on the low eight, and
    storing an integer in a byte keeps its low eight. *)
Lemma testbit_to_byte z j : 0 <= j < 8 -> Z.testbit (byte_val (to_byte z)) j = Z.testbit z j.
Proof. intros. rewrite val_to_byte. change 256 with (2 ^ 8). apply Z.mod_pow2_bits_low; lia. Qed.

Lemma testbit_char c j : 0 <= j < 8 -> Z.testbit (char_val c) j = Z.testbit (byte_val c) j.
Proof.
  intros. rewrite <-(testbit_to_byte (char_val c) j) by done. f_equal.
  rewrite val_to_byte. pose proof (byte_val_range c). unfold char_val.
  case_tests; [by rewrite Z.mod_small by lia|].
  replace (byte_val c - 256) with (byte_val c + (-1) * 256) by lia.
  rewrite Z.mod_add by lia. by rewrite Z.mod_small by lia.
Qed.

Lemma testbit_shiftl_1 k j : 0 <= k -> 0 <= j -> Z.testbit (Z.shiftl 1 k) j = (j =? k).
Proof.
  intros. rewrite Z.shiftl_1_l. rewrite Z.pow2_bits_eqb by done. apply Z.eqb_sym.
Qed.

(* ------------------------------------------------------------------ *)
(** ** Lemmas on lists *)

Lemma filter_ext_in {A} (P Q : A -> Prop) `{!forall x, Decision (P x), !forall x, Decision (Q x)}
    (l : list A) : (forall x, x ∈ l -> P x <-> Q x) -> filter P l = filter Q l.
Proof.
  induction l as [|x l IH]; intros HP; [done|]. rewrite !filter_cons.
  assert (P x <-> Q x) as HPQ by (apply HP; by left).
  rewrite IH by (intros; apply HP; by right).
  repeat case_decide; tauto.
Qed.

Lemma filter_all {A} (P : A -> Prop) `{!forall x, Decision (P x)} (l : list A) :
  (forall x, x ∈ l -> P x) -> filter P l = l.
Proof.
  induction l as [|x l IH]; intros HP; [done|].
  rewrite filter_cons_True by (apply HP; by left). f_equal. apply IH.
  intros; apply HP; by right.
Qed.

Lemma NoDup_take {A} (l : list A) n : NoDup l -> NoDup (take n l).
Proof. intros H. eapply sublist_NoDup; [exact H|apply sublist_take]. Qed.

Lemma NoDup_drop {A} (l : list A) n : NoDup l -> NoDup (drop n l).
Proof. intros H. eapply sublist_NoDup; [exact H|apply sublist_drop]. Qed.

Lemma elem_of_take_incl {A} (l : list A) n x : x ∈ take n l -> x ∈ l.
Proof. intros (k & Hk & _)%elem_of_take. by eapply list_elem_of_lookup_2. Qed.

Lemma elem_of_drop_incl {A} (l : list A) n x : x ∈ drop n l -> x ∈ l.
Proof. intros H. rewrite <-(take_drop n l). apply elem_of_app. by right. Qed.
