(* ===== verification/Disk.v ===== *)
(** * The disk and the block manager

    [disk] and [block_manager] of inode_manager.h / inode_manager.cc: the
    array of blocks, the superblock, and the bitmap allocator
    [alloc_block] / [free_block].  The allocator is modelled bit by bit, on
    the bytes of the bitmap block, and specified by the set of used blocks. *)

From S2P Require Import Prelude.

(* ------------------------------------------------------------------ *)
(** ** Constants of inode_manager.h *)

Definition DISK_SIZE : Z := 1024 * 1024 * 32.
Definition BLOCK_SIZE : Z := 1024 * 16.
Definition BLOCK_NUM : Z := DISK_SIZE / BLOCK_SIZE.
Definition INODE_NUM : Z := 1024.
Definition IPB : Z := 1.
Definition BPB : Z := BLOCK_SIZE * 8.
Definition IBLOCK (i nblocks : Z) : Z := u32 (nblocks / BPB + i / IPB + 3).
Definition BBLOCK (b : Z) : Z := u32 (b / BPB + 2).

(** The number of bytes of a block, as a list length. *)
Definition BS : nat := Z.to_nat BLOCK_SIZE.
Definition zero_block : list byte := replicate BS x00.

(* ------------------------------------------------------------------ *)
(** ** class disk *)

Record disk : Type := mkDisk { blocks : list (list byte) }.

(** [disk::disk]: all blocks zero. *)
Definition disk_init : disk := mkDisk (replicate (Z.to_nat BLOCK_NUM) zero_block).

(** [disk::read_block(id, buf)]: the new contents of [buf], where [None] is
    the NULL pointer; out of range, the buffer is left as it was. *)
Definition disk_read_block (d : disk) (id : Z) (buf : option (list byte))
    : option (list byte) :=
  match buf with
  | None => None
  | Some old =>
      if (id <? 0) || (id >=? BLOCK_NUM) then Some old
      else match blocks d !! Z.to_nat id with
           | Some blk => Some blk
           | None => Some old
           end
  end.

(** [disk::write_block(id, buf)]: [buf] is the memory readable from the
    pointer on; copying [BLOCK_SIZE] bytes from less memory is undefined. *)
Definition disk_write_block (d : disk) (id : Z) (buf : option (list byte))
    : outcome disk :=
  match buf with
  | None => Ret d
  | Some mem =>
      if (id <? 0) || (id >=? BLOCK_NUM) then Ret d
      else if Z.of_nat (length mem) <? BLOCK_SIZE then Undef
      else Ret (mkDisk (<[Z.to_nat id := take BS mem]> (blocks d)))
  end.

(* ------------------------------------------------------------------ *)
(** ** class block_manager *)

Record superblock : Type := mkSB { sb_size : Z; nblocks : Z; ninodes : Z }.

Record block_manager : Type := mkBM { bm_disk : disk; sb : superblock }.

(** [block_manager::block_manager]: a zeroed disk and the superblock. *)
Definition block_manager_init : block_manager :=
  mkBM disk_init (mkSB (u32 (BLOCK_SIZE * BLOCK_NUM)) BLOCK_NUM INODE_NUM).

Definition read_block (b : block_manager) (id : Z) (buf : list byte) : list byte :=
  default buf (disk_read_block (bm_disk b) id (Some buf)).

Definition write_block (b : block_manager) (id : Z) (buf : list byte)
    : outcome block_manager :=
  d ← disk_write_block (bm_disk b) id (Some buf);
  Ret (mkBM d (sb b)).

(** [(bufByte >> (7 - bitPos)) & 0x1] for the bit [idx] of a bitmap block. *)
Definition bit_is_set (per : list byte) (idx : Z) : outcome bool :=
  let bytePos := idx / 8 in
  let bitPos := idx - 8 * bytePos in
  bufByte ← load per bytePos;
  Ret (Z.land (Z.shiftr (char_val bufByte) (7 - bitPos)) 1 =? 1).

(** [bufByte | (0x1 << (7 - bitPos))], stored back. *)
Definition set_bit (per : list byte) (idx : Z) : outcome (list byte) :=
  let bytePos := idx / 8 in
  let bitPos := idx - 8 * bytePos in
  bufByte ← load per bytePos;
  store per bytePos (to_byte (Z.lor (char_val bufByte) (Z.shiftl 1 (7 - bitPos)))).

(** [target_byte & ~(0x1 << (7 - bit_index))], stored back. *)
Definition clear_bit (per : list byte) (idx : Z) : outcome (list byte) :=
  let byte_index := idx / 8 in
  let bit_index := idx mod 8 in
  target_byte ← load per byte_index;
  store per byte_index
    (to_byte (Z.land (char_val target_byte) (Z.lnot (Z.shiftl 1 (7 - bit_index))))).

(** The inner loop of [alloc_block]: the first clear bit from [idx] on. *)
Fixpoint scan_bitmap (fuel : nat) (per : list byte) (idx : Z) : outcome (option Z) :=
  match fuel with
  | O => Ret None
  | S fuel =>
      is_block_free ← bit_is_set per idx;
      if (is_block_free : bool) then scan_bitmap fuel per (idx + 1) else Ret (Some idx)
  end.

(** The outer loop over the bitmap blocks, with the early return. *)
Fixpoint alloc_loop (fuel : nat) (b : block_manager) (per : list byte)
    (block_index idx : Z) : outcome (block_manager * Z) :=
  match fuel with
  | O => Ret (b, 0)
  | S fuel =>
      let per := read_block b block_index per in
      found ← scan_bitmap (Z.to_nat (BLOCK_SIZE * 8 - idx)) per idx;
      match found with
      | Some i =>
          per' ← set_bit per i;
          b' ← write_block b block_index per';
          Ret (b', u32 ((block_index - 2) * (8 * BLOCK_SIZE) + i))
      | None => alloc_loop fuel b per (block_index + 1) 0
      end
  end.

(** [block_manager::alloc_block]; [mem] is the memory malloc returned. *)
Definition alloc_block (mem : list byte) (b : block_manager)
    : outcome (block_manager * Z) :=
  let fir_data_blockid := u32 (IBLOCK (ninodes (sb b)) (nblocks (sb b)) + 1) in
  let fin_bitmap_blockid := BBLOCK (nblocks (sb b)) in
  let fir_bitmap_blockid := BBLOCK fir_data_blockid in
  alloc_loop (Z.to_nat (fin_bitmap_blockid - fir_bitmap_blockid + 1)) b mem
    fir_bitmap_blockid (fir_data_blockid mod (BLOCK_SIZE * 8)).

(** [block_manager::free_block]. *)
Definition free_block (mem : list byte) (b : block_manager) (id : Z)
    : outcome block_manager :=
  let target_bitmap_block := BBLOCK id in
  let per := read_block b target_bitmap_block mem in
  per' ← clear_bit per (id mod (8 * BLOCK_SIZE));
  write_block b target_bitmap_block per'.

(* ------------------------------------------------------------------ *)
(** ** Well-formed disks and the set of used blocks *)

(** The first data block: [IBLOCK(ninodes, nblocks) + 1]. *)
Definition FIRST_DATA : Z := 1028.

(** The block that holds the bitmap of the whole disk. *)
Definition BITMAP : Z := 2.

Definition blk (b : block_manager) (id : Z) : list byte :=
  default [] (blocks (bm_disk b) !! Z.to_nat id).

Definition set_blk (b : block_manager) (id : Z) (x : list byte) : block_manager :=
  mkBM (mkDisk (<[Z.to_nat id := x]> (blocks (bm_disk b)))) (sb b).

Record bm_ok (b : block_manager) : Prop := {
  ok_sb : sb b = sb block_manager_init;
  ok_len : length (blocks (bm_disk b)) = Z.to_nat BLOCK_NUM;
  ok_blk : Forall (fun x => length x = BS) (blocks (bm_disk b));
}.

(** Bit [idx] of a bitmap block, most significant bit first. *)
Definition block_bit (per : list byte) (idx : Z) : bool :=
  Z.testbit (byte_val (default x00 (per !! Z.to_nat (idx / 8)))) (7 - idx mod 8).

(** A block is used when its bit in the bitmap is set. *)
Definition used (b : block_manager) (id : Z) : bool := block_bit (blk b BITMAP) id.

(* ------------------------------------------------------------------ *)
(** ** Block accesses *)

Lemma BS_BLOCK_SIZE : Z.of_nat BS = BLOCK_SIZE.
Proof. unfold BS. apply Z2Nat.id. unfold BLOCK_SIZE. lia. Qed.

(** The same as inequalities, which no tactic tries to compute with. *)
Lemma BS_bounds : BLOCK_SIZE <= Z.of_nat BS <= BLOCK_SIZE.
Proof. by rewrite BS_BLOCK_SIZE. Qed.

Lemma BLOCK_SIZE_val : BLOCK_SIZE = 16384.
Proof. reflexivity. Qed.

Lemma BLOCK_NUM_val : BLOCK_NUM = 2048.
Proof. reflexivity. Qed.

Lemma length_zero_block : length zero_block = BS.
Proof. apply length_replicate. Qed.
#[export] Hint Rewrite length_zero_block : len.

(** Keep tactics from computing with the unary block size. *)
#[global] Opaque BS.

(** Make the sizes of the disk visible to [lia]. *)
Ltac sizes :=
  pose proof BS_bounds; pose proof BLOCK_SIZE_val; pose proof BLOCK_NUM_val.

(** Side conditions: an assumption, or a block number in range. *)
Ltac rng := first [assumption | lia | unfold BITMAP, FIRST_DATA, BPB in *; sizes; lia].

Lemma block_manager_init_ok : bm_ok block_manager_init.
Proof.
  split; [done| |].
  - apply length_replicate.
  - apply Forall_replicate, length_replicate.
Qed.

Lemma write_block_out b id buf : BLOCK_NUM <= id -> write_block b id buf = Ret b.
Proof.
  intros Hid. unfold write_block, disk_write_block. rewrite Z.geb_leb.
  case_tests; simpl; by destruct b.
Qed.

Section access.
Context (b : block_manager) (Hok : bm_ok b).
#[local] Set Default Proof Using "Hok".

Lemma blk_lookup id : 0 <= id < BLOCK_NUM ->
  blocks (bm_disk b) !! Z.to_nat id = Some (blk b id).
Proof.
  intros Hid. unfold blk.
  destruct (lookup_lt_is_Some_2 (blocks (bm_disk b)) (Z.to_nat id)) as [x Hx].
  { rewrite (ok_len _ Hok). lia. }
  by rewrite Hx.
Qed.

Lemma blk_length id : 0 <= id < BLOCK_NUM -> length (blk b id) = BS.
Proof.
  intros Hid. pose proof (ok_blk _ Hok) as HF.
  exact (Forall_lookup_1 _ _ _ _ HF (blk_lookup id Hid)).
Qed.

Lemma read_block_in id buf : 0 <= id < BLOCK_NUM -> read_block b id buf = blk b id.
Proof.
  intros Hid. unfold read_block, disk_read_block. rewrite Z.geb_leb.
  case_tests. simpl. by rewrite blk_lookup.
Qed.

Lemma write_block_in id buf : 0 <= id < BLOCK_NUM -> (BS <= length buf)%nat ->
  write_block b id buf = Ret (set_blk b id (take BS buf)).
Proof using Type.
  intros Hid Hlen. sizes. unfold write_block, disk_write_block. rewrite Z.geb_leb.
  case_tests. done.
Qed.

Lemma set_blk_ok id x : length x = BS -> bm_ok (set_blk b id x).
Proof.
  intros Hx. destruct Hok as [H1 H2 H3]. split; simpl; [done| |].
  - by rewrite length_insert.
  - by apply Forall_insert.
Qed.

Lemma blk_set_eq id x : 0 <= id < BLOCK_NUM -> blk (set_blk b id x) id = x.
Proof.
  intros Hid. unfold blk, set_blk. simpl.
  rewrite list_lookup_insert_eq; [done|]. rewrite (ok_len _ Hok). lia.
Qed.

Lemma blk_set_ne id id' x : 0 <= id -> 0 <= id' -> id <> id' ->
  blk (set_blk b id x) id' = blk b id'.
Proof using Type.
  intros. unfold blk, set_blk. simpl. rewrite list_lookup_insert_ne; [done|lia].
Qed.
End access.
#[export] Hint Resolve block_manager_init_ok set_blk_ok blk_length : yfs.

(* ------------------------------------------------------------------ *)
(** ** Bits of a bitmap block *)

(** The bits of a byte, as the code's shifts and masks see them. *)
Lemma char_bit c k : 0 <= k < 8 ->
  (Z.land (Z.shiftr (char_val c) k) 1 =? 1) = Z.testbit (byte_val c) k.
Proof.
  intros Hk. rewrite <-testbit_char by done.
  change 1 with (Z.ones 1) at 1. rewrite Z.land_ones by lia.
  rewrite <-Z.bit0_mod, Z.shiftr_spec by lia. rewrite Z.add_0_l.
  by destruct (Z.testbit (char_val c) k).
Qed.

Lemma char_set_bit c k j : 0 <= k < 8 -> 0 <= j < 8 ->
  Z.testbit (byte_val (to_byte (Z.lor (char_val c) (Z.shiftl 1 k)))) j
    = (j =? k) || Z.testbit (byte_val c) j.
Proof.
  intros. rewrite testbit_to_byte, Z.lor_spec, testbit_char, testbit_shiftl_1 by lia.
  apply orb_comm.
Qed.

Lemma char_clear_bit c k j : 0 <= k < 8 -> 0 <= j < 8 ->
  Z.testbit (byte_val (to_byte (Z.land (char_val c) (Z.lnot (Z.shiftl 1 k))))) j
    = negb (j =? k) && Z.testbit (byte_val c) j.
Proof.
  intros. rewrite testbit_to_byte, Z.land_spec, testbit_char, Z.lnot_spec,
    testbit_shiftl_1 by lia. apply andb_comm.
Qed.

Lemma idx_bit idx : idx - 8 * (idx / 8) = idx mod 8 /\ 0 <= 7 - idx mod 8 < 8.
Proof.
  pose proof (Z.div_mod idx 8). pose proof (Z.mod_pos_bound idx 8). lia.
Qed.

Lemma same_bit idx j : j / 8 = idx / 8 -> (7 - j mod 8 =? 7 - idx mod 8) = (j =? idx).
Proof.
  intros E. pose proof (Z.div_mod idx 8). pose proof (Z.div_mod j 8).
  destruct (Z.eqb_spec j idx); case_tests.
Qed.

Section bits.
Context (per : list byte) (Hper : length per = BS).

Lemma byte_index idx : 0 <= idx < BPB ->
  per !! Z.to_nat (idx / 8) = Some (default x00 (per !! Z.to_nat (idx / 8))).
Proof using Hper.
  intros Hidx. unfold BPB in Hidx. sizes.
  destruct (lookup_lt_is_Some_2 per (Z.to_nat (idx / 8))) as [x Hx].
  { rewrite Hper. pose proof (Z.div_lt_upper_bound idx 8 BLOCK_SIZE). lia. }
  by rewrite Hx.
Qed.

Lemma load_byte idx : 0 <= idx < BPB ->
  load per (idx / 8) = Ret (default x00 (per !! Z.to_nat (idx / 8))).
Proof using Hper.
  intros Hidx. apply load_Ret; [apply Z.div_pos; lia|by apply byte_index].
Qed.

Lemma bit_is_set_spec idx : 0 <= idx < BPB -> bit_is_set per idx = Ret (block_bit per idx).
Proof using Hper.
  intros Hidx. pose proof (idx_bit idx) as [E Hb].
  unfold bit_is_set. rewrite load_byte by done.
  simpl. rewrite E. f_equal. by apply char_bit.
Qed.

(** Writing one byte [c'] back changes the bits that [c'] changes. *)
Lemma block_bit_insert c' idx j : 0 <= idx < BPB -> 0 <= j ->
  block_bit (<[Z.to_nat (idx / 8) := c']> per) j =
  if j / 8 =? idx / 8 then Z.testbit (byte_val c') (7 - j mod 8) else block_bit per j.
Proof using Hper.
  intros Hidx Hj. unfold block_bit. unfold BPB in Hidx. sizes.
  pose proof (Z.div_lt_upper_bound idx 8 BLOCK_SIZE).
  pose proof (Z.div_pos idx 8). pose proof (Z.div_pos j 8).
  destruct (Z.eqb_spec (j / 8) (idx / 8)) as [->|Hne].
  - rewrite list_lookup_insert_eq by lia. done.
  - rewrite list_lookup_insert_ne by lia. done.
Qed.

Lemma set_bit_spec idx : 0 <= idx < BPB ->
  exists per', set_bit per idx = Ret per' /\ length per' = BS /\
    forall j, 0 <= j -> block_bit per' j = (j =? idx) || block_bit per j.
Proof using Hper.
  intros Hidx. pose proof (idx_bit idx) as [E Hb]. pose proof (byte_index _ Hidx) as Hl.
  pose proof (lookup_lt_Some _ _ _ Hl). pose proof (Z.div_pos idx 8).
  unfold set_bit. rewrite load_byte by done. simpl.
  rewrite store_Ret by lia. eexists. split; [done|]. split; [len|].
  intros j Hj. rewrite block_bit_insert by lia. pose proof (idx_bit j).
  destruct (Z.eqb_spec (j / 8) (idx / 8)) as [Ej|Hne].
  - rewrite E. rewrite char_set_bit by lia.
    rewrite same_bit by done. unfold block_bit. by rewrite Ej.
  - destruct (Z.eqb_spec j idx); [congruence|done].
Qed.

Lemma clear_bit_spec idx : 0 <= idx < BPB ->
  exists per', clear_bit per idx = Ret per' /\ length per' = BS /\
    forall j, 0 <= j -> block_bit per' j = negb (j =? idx) && block_bit per j.
Proof using Hper.
  intros Hidx. pose proof (idx_bit idx) as [E Hb]. pose proof (byte_index _ Hidx) as Hl.
  pose proof (lookup_lt_Some _ _ _ Hl). pose proof (Z.div_pos idx 8).
  unfold clear_bit. rewrite load_byte by done. simpl.
  rewrite store_Ret by lia. eexists. split; [done|]. split; [len|].
  intros j Hj. rewrite block_bit_insert by lia. pose proof (idx_bit j).
  destruct (Z.eqb_spec (j / 8) (idx / 8)) as [Ej|Hne].
  - rewrite char_clear_bit by lia.
    rewrite same_bit by done. unfold block_bit. by rewrite Ej.
  - destruct (Z.eqb_spec j idx); [congruence|done].
Qed.

(** The scan returns the first clear bit, or [None] when there is none. *)
Lemma scan_bitmap_spec fuel idx :
  0 <= idx -> Z.of_nat fuel = BPB - idx ->
  exists r, scan_bitmap fuel per idx = Ret r /\
    match r with
    | Some i => idx <= i < BPB /\ block_bit per i = false /\
                forall j, idx <= j < i -> block_bit per j = true
    | None => forall j, idx <= j < BPB -> block_bit per j = true
    end.
Proof using Hper.
  revert idx. induction fuel as [|fuel IH]; intros idx Hidx Hf; cbn [scan_bitmap].
  - exists None. split; [done|]. intros; lia.
  - rewrite bit_is_set_spec by lia. simpl.
    destruct (block_bit per idx) eqn:Eb.
    + destruct (IH (idx + 1)) as (r & Hr & Hpost); [lia|lia|].
      exists r. split; [done|]. destruct r as [i|].
      * destruct Hpost as (Hi & Hc & Hall). repeat split; [lia|lia|done|].
        intros j Hj. destruct (decide (j = idx)) as [->|]; [done|]. apply Hall. lia.
      * intros j Hj. destruct (decide (j = idx)) as [->|]; [done|]. apply Hpost. lia.
    + exists (Some idx). repeat split; [lia|lia|done|]. intros; lia.
Qed.
End bits.

(* ------------------------------------------------------------------ *)
(** ** The allocator *)

(** Equality of two disks outside the bitmap block. *)
Definition same_but_bitmap (b b' : block_manager) : Prop :=
  forall id, 0 <= id -> id <> BITMAP -> blk b' id = blk b id.

Lemma same_but_bitmap_refl b : same_but_bitmap b b.
Proof. done. Qed.

Lemma same_but_bitmap_trans b1 b2 b3 :
  same_but_bitmap b1 b2 -> same_but_bitmap b2 b3 -> same_but_bitmap b1 b3.
Proof. intros H1 H2 id Hid Hne. rewrite H2, H1; done. Qed.

Lemma same_but_bitmap_set b x : same_but_bitmap b (set_blk b BITMAP x).
Proof. intros id Hid Hne. apply blk_set_ne; unfold BITMAP in *; lia. Qed.
#[export] Hint Resolve same_but_bitmap_refl same_but_bitmap_set : yfs.

Lemma BBLOCK_bitmap id : 0 <= id < BPB -> BBLOCK id = BITMAP.
Proof.
  intros Hid. unfold BBLOCK, u32, BITMAP. rewrite Z.div_small by done. reflexivity.
Qed.

(** What [alloc_block] does: it takes the first clear bit from the first
    data block on and sets it; only when the whole bitmap block is set does
    it return 0 and leave the disk alone. *)
Lemma alloc_block_spec mem b : bm_ok b ->
  exists b' id, alloc_block mem b = Ret (b', id) /\ bm_ok b' /\
    same_but_bitmap b b' /\
    ((id = 0 /\ b' = b /\ forall j, FIRST_DATA <= j < BPB -> used b j = true) \/
     (FIRST_DATA <= id < BPB /\ used b id = false /\
      (forall j, FIRST_DATA <= j < id -> used b j = true) /\
      forall j, 0 <= j -> used b' j = (j =? id) || used b j)).
Proof.
  intros Hok. sizes. unfold alloc_block. rewrite (ok_sb _ Hok).
  change (Z.to_nat _) with 1%nat. cbn [alloc_loop].
  change (BBLOCK (u32 (IBLOCK _ _ + 1))) with BITMAP.
  change (u32 (IBLOCK _ _ + 1) mod (BLOCK_SIZE * 8)) with FIRST_DATA.
  rewrite read_block_in by rng.
  assert (length (blk b BITMAP) = BS) as Hlen by (apply blk_length; rng).
  destruct (scan_bitmap_spec _ Hlen (Z.to_nat (BLOCK_SIZE * 8 - FIRST_DATA)) FIRST_DATA)
    as (r & -> & Hr); [unfold FIRST_DATA; lia|unfold BPB, FIRST_DATA; lia|]. simpl.
  destruct r as [i|].
  - destruct Hr as (Hi & Hbit & Hfirst). unfold FIRST_DATA in Hi.
    destruct (set_bit_spec _ Hlen i) as (per' & -> & Hl' & Hbits); [lia|]. simpl.
    rewrite write_block_in by rng. simpl.
    rewrite take_ge by lia.
    eexists _, i. split; [|split; [|split; [|right; split; [|split; [|split]]]]].
    + do 2 f_equal. unfold BITMAP, u32. rewrite Z.mod_small; [lia|]. unfold BPB in Hi. lia.
    + auto with yfs.
    + auto with yfs.
    + done.
    + done.
    + exact Hfirst.
    + intros j Hj. unfold used at 1. rewrite blk_set_eq by rng.
      by apply Hbits.
  - exists b, 0. repeat (split; [by auto with yfs|]). left. auto.
Qed.

(** What [free_block] does to a block of the bitmap: it clears its bit. *)
Lemma free_block_spec mem b id : bm_ok b -> 0 <= id < BPB ->
  exists b', free_block mem b id = Ret b' /\ bm_ok b' /\ same_but_bitmap b b' /\
    forall j, 0 <= j -> used b' j = negb (j =? id) && used b j.
Proof.
  intros Hok Hid. sizes. unfold free_block. rewrite BBLOCK_bitmap by done.
  rewrite read_block_in by rng.
  assert (length (blk b BITMAP) = BS) as Hlen by (apply blk_length; rng).
  replace (id mod (8 * BLOCK_SIZE)) with id
    by (symmetry; apply Z.mod_small; unfold BPB in Hid; lia).
  destruct (clear_bit_spec _ Hlen id Hid) as (per' & -> & Hl' & Hbits). simpl.
  rewrite write_block_in by rng. rewrite take_ge by lia.
  eexists. split; [done|]. split; [auto with yfs|]. split; [auto with yfs|].
  intros j Hj. unfold used at 1. rewrite blk_set_eq by rng.
  by apply Hbits.
Qed.
