(* ===== verification/Protocol.v ===== *)
(** * Wire protocol constants

    The enumerations and structures of extent_protocol.h and
    lock_protocol.h that clients and servers share. *)

From S2P Require Import Prelude.

(** ** extent_protocol.h *)
Module extent_protocol.
Definition OK : Z := 0.
Definition RPCERR : Z := 1.
Definition NOENT : Z := 2.
Definition IOERR : Z := 3.

Definition T_DIR : Z := 1.
Definition T_FILE : Z := 2.
Definition T_SYMLINK : Z := 3.

(** struct attr *)
Record attr : Type := mkAttr {
  a_type : Z; a_atime : Z; a_mtime : Z; a_ctime : Z; a_size : Z
}.

Definition attr_zero : attr := mkAttr 0 0 0 0 0.
End extent_protocol.

(** ** lock_protocol.h *)
Module lock_protocol.
Definition OK : Z := 0.
Definition RETRY : Z := 1.
Definition RPCERR : Z := 2.
Definition NOENT : Z := 3.
Definition IOERR : Z := 4.
End lock_protocol.

Module rlock_protocol.
Definition OK : Z := 0.
Definition RPCERR : Z := 1.
Definition REVOKE : Z := 2.
End rlock_protocol.

(** ** rpc.h *)
Module rpc_const.
(** The failures of a remote call. *)
Inductive failure : Type :=
| timeout_failure
| unmarshal_args_failure
| unmarshal_reply_failure
| atmostonce_failure
| oldsrv_failure
| bind_failure
| cancel_failure.

Definition code (f : failure) : Z :=
  match f with
  | timeout_failure => -1
  | unmarshal_args_failure => -2
  | unmarshal_reply_failure => -3
  | atmostonce_failure => -4
  | oldsrv_failure => -5
  | bind_failure => -6
  | cancel_failure => -7
  end.

Lemma code_neg f : code f < 0.
Proof. by destruct f. Qed.
End rpc_const.
