(* ===== verification/Inode.v ===== *)
(** * The inode manager

    [inode_manager] of inode_manager.h / inode_manager.cc.  Its only field
    is the block manager, so its state is a [block_manager].  An inode is
    kept on disk as the bytes of [struct inode]; files of up to [NDIRECT]
    blocks list their blocks in the inode, larger ones through an indirect
    block.  This file holds the definitions; InodeFacts.v and the files
    after it hold the theorems. *)

From S2P Require Import Prelude Disk Protocol.
Import extent_protocol.

(* ------------------------------------------------------------------ *)
(** ** struct inode and its bytes on disk *)

Definition NDIRECT : Z := 100.
Definition NINDIRECT : Z := BLOCK_SIZE / 4.
Definition MAXFILE : Z := NDIRECT + NINDIRECT.

(** [struct inode]; [i_blocks] has [NDIRECT + 1] entries. *)
Record inode : Type := mkInode {
  i_type : Z; i_size : Z; i_atime : Z; i_mtime : Z; i_ctime : Z;
  i_blocks : list Z
}.

(** [sizeof(struct inode)]: a two-byte [short], two bytes of padding, four
    [unsigned int] and [NDIRECT + 1] block numbers. *)
Definition sizeof_inode : nat := 424.

(** The structure at the start of a piece of memory. *)
Definition decode_inode (m : list byte) : inode :=
  mkInode (sint 16 (le_val (take 2 m)))
          (le_val (take 4 (drop 4 m)))
          (le_val (take 4 (drop 8 m)))
          (le_val (take 4 (drop 12 m)))
          (le_val (take 4 (drop 16 m)))
          (u32s_of_bytes 101 (drop 20 m)).

(** Structure assignment into memory; the padding keeps its bytes. *)
Definition encode_inode (m : list byte) (ino : inode) : list byte :=
  le_bytes 2 (i_type ino) ++ take 2 (drop 2 m) ++
  le_bytes 4 (i_size ino) ++ le_bytes 4 (i_atime ino) ++
  le_bytes 4 (i_mtime ino) ++ le_bytes 4 (i_ctime ino) ++
  bytes_of_u32s (i_blocks ino) ++ drop sizeof_inode m.

(** [(struct inode* )buf + inum%IPB]: the byte offset of the inode. *)
Definition inode_offset (inum : Z) : nat := (Z.to_nat (inum mod IPB) * sizeof_inode)%nat.

(* ------------------------------------------------------------------ *)
(** ** What the code reads from outside

    [time_now n] is the result of the [n]-th call of [time(NULL)] of an
    operation; [fresh site i] is the content of the memory that the
    [malloc] or the stack array number [site] of the operation holds before
    it is written, in iteration [i] of the loop around it; [behind] is the
    memory that can be read behind the terminator of a string's buffer.  The
    language promises none, [behind E = []]; an allocator may have mapped it. *)
Record env : Type := mkEnv {
  time_now : nat -> Z; fresh : nat -> Z -> list byte; behind : list byte
}.

Definition now (E : env) (n : nat) : Z := u32 (time_now E n).

(** [malloc(n)]: [n] bytes of any content. *)
Definition malloc (E : env) (site : nat) (i : Z) (n : nat) : list byte :=
  resize n x00 (fresh E site i).

(* ------------------------------------------------------------------ *)
(** ** Reading and writing inodes *)

Definition get_inode (mem : list byte) (b : block_manager) (inum : Z) : option inode :=
  if (inum <? 0) || (inum >=? INODE_NUM) then None
  else
    let buf := read_block b (IBLOCK inum (nblocks (sb b))) mem in
    let ino_disk := decode_inode (drop (inode_offset inum) buf) in
    if i_type ino_disk =? 0 then None else Some ino_disk.

Definition put_inode (mem : list byte) (b : block_manager) (inum : Z) (ino : option inode)
    : outcome block_manager :=
  match ino with
  | None => Ret b
  | Some ino =>
      let buf := read_block b (IBLOCK inum (nblocks (sb b))) mem in
      let k := inode_offset inum in
      write_block b (IBLOCK inum (nblocks (sb b)))
        (take k buf ++ encode_inode (drop k buf) ino)
  end.

(** The loop of [alloc_inode] over the inode numbers. *)
Fixpoint alloc_inode_loop (fuel : nat) (E : env) (type : Z) (b : block_manager) (i_inode : Z)
    : outcome (block_manager * Z) :=
  match fuel with
  | O => Ret (b, 0)
  | S fuel =>
      match get_inode (malloc E 0 i_inode BS) b i_inode with
      | None =>
          let new_inode := decode_inode (malloc E 1 i_inode sizeof_inode) in
          let new_inode :=
            mkInode (sint 16 type) 0 (now E 0) (now E 1) (now E 2) (i_blocks new_inode) in
          b' ← put_inode (malloc E 2 i_inode BS) b i_inode (Some new_inode);
          Ret (b', i_inode)
      | Some _ => alloc_inode_loop fuel E type b (i_inode + 1)
      end
  end.

Definition alloc_inode (E : env) (type : Z) (b : block_manager) : outcome (block_manager * Z) :=
  alloc_inode_loop (Z.to_nat (ninodes (sb b) - 1)) E type b 1.

(** [inode_manager::inode_manager]: the root directory must get inode 1. *)
Definition inode_manager_init (E : env) : outcome block_manager :=
  '(b, root_dir) ← alloc_inode E T_DIR block_manager_init;
  if root_dir =? 1 then Ret b else Abort.

Definition zero_inode : inode := mkInode 0 0 0 0 0 (replicate 101 0).

Definition free_inode (E : env) (b : block_manager) (inum : Z) : outcome block_manager :=
  match get_inode (malloc E 10 0 BS) b inum with
  | Some _ => put_inode (malloc E 11 0 BS) b inum (Some zero_inode)
  | None => Ret b
  end.

Definition getattr (E : env) (b : block_manager) (inum : Z) : attr :=
  match get_inode (malloc E 0 0 BS) b inum with
  | None => mkAttr 0 0 0 0 0
  | Some target_inode =>
      mkAttr (u32 (i_type target_inode)) (i_atime target_inode) (i_atime target_inode)
             (i_ctime target_inode) (i_size target_inode)
  end.

(* ------------------------------------------------------------------ *)
(** ** Reading files *)

(** [size % BLOCK_SIZE == 0 ? size / BLOCK_SIZE : size / BLOCK_SIZE + 1]
    on an unsigned size. *)
Definition block_count (size : Z) : Z :=
  if size mod BLOCK_SIZE =? 0 then size / BLOCK_SIZE else size / BLOCK_SIZE + 1.

(** A block as an array of block numbers, a [blockid_t] pointer. *)
Definition block_ids (blk : list byte) : list Z := u32s_of_bytes (Z.to_nat NINDIRECT) blk.

(** [read_block(id, buf + off)] on a larger buffer. *)
Definition read_at (b : block_manager) (id : Z) (buf : list byte) (off : Z) : list byte :=
  let k := Z.to_nat off in
  take k buf ++ read_block b id (take BS (drop k buf)) ++ drop (k + BS) buf.

(** Read blocks [ids[0] .. ids[n-1]] to [buf] from offset [off] on. *)
Definition read_blocks (b : block_manager) (ids : list Z) (n : Z) (buf : list byte) (off : Z)
    : outcome (list byte * Z) :=
  for_ 0 n (fun i '(buf, off) =>
    id ← load ids i;
    Ret (read_at b id buf off, off + BLOCK_SIZE)) (buf, off).

(** The buffer [read_file] fills, for an inode that exists. *)
Definition read_content (E : env) (b : block_manager) (ino : inode) : outcome (list byte) :=
  if i_size ino <=? BLOCK_SIZE then
    id ← load (i_blocks ino) 0;
    Ret (read_block b id (malloc E 1 0 BS))
  else
    let read_time := block_count (i_size ino) in
    let buf_out := malloc E 1 0 (Z.to_nat (BLOCK_SIZE * read_time)) in
    if read_time <=? NDIRECT then
      '(buf, _) ← read_blocks b (i_blocks ino) read_time buf_out 0;
      Ret buf
    else
      '(buf, off) ← read_blocks b (i_blocks ino) NDIRECT buf_out 0;
      ind ← load (i_blocks ino) NDIRECT;
      let indirect_block_id := block_ids (read_block b ind (malloc E 2 0 BS)) in
      '(buf, _) ← read_blocks b indirect_block_id (read_time - NDIRECT) buf off;
      Ret buf.

(** [read_file(inum, &buf_out, &size)]: [None] when the inode does not exist
    and the two out parameters keep their values. *)
Definition read_file (E : env) (b : block_manager) (inum : Z)
    : outcome (block_manager * option (list byte * Z)) :=
  match get_inode (malloc E 0 0 BS) b inum with
  | None => Ret (b, None)
  | Some target_inode =>
      let size := sint 32 (i_size target_inode) in
      buf_out ← read_content E b target_inode;
      let ino := mkInode (i_type target_inode) (i_size target_inode) (now E 0)
                   (i_mtime target_inode) (i_ctime target_inode) (i_blocks target_inode) in
      b' ← put_inode (malloc E 3 0 BS) b inum (Some ino);
      Ret (b', Some (buf_out, size))
  end.

(* ------------------------------------------------------------------ *)
(** ** Writing files *)

(** [for (i = lo; i < hi; i++) ids[i] = bm->alloc_block();] *)
Definition alloc_blocks (E : env) (site : nat) (b : block_manager) (ids : list Z) (lo hi : Z)
    : outcome (block_manager * list Z) :=
  for_ lo hi (fun i '(b, ids) =>
    '(b, id) ← alloc_block (malloc E site i BS) b;
    ids ← store ids i id;
    Ret (b, ids)) (b, ids).

(** [for (i = lo; i < hi; i++) bm->free_block(ids[i]);] *)
Definition free_blocks (E : env) (site : nat) (b : block_manager) (ids : list Z) (lo hi : Z)
    : outcome block_manager :=
  for_ lo hi (fun i b =>
    id ← load ids i;
    free_block (malloc E site i BS) b id) b.

(** The loop that writes the direct blocks: each block is zeroed and then
    gets [BLOCK_SIZE] bytes of [buf] from [buf_offset] on. *)
Definition write_direct (b : block_manager) (blks : list Z) (buf : list byte) (n : Z)
    : outcome (block_manager * Z) :=
  for_ 0 n (fun i '(b, buf_offset) =>
    id ← load blks i;
    b ← write_block b id zero_block;
    b ← write_block b id (drop (Z.to_nat buf_offset) buf);
    Ret (b, buf_offset + BLOCK_SIZE)) (b, 0).

(** The loop that writes the indirect blocks.  The block it zeroes is
    [blocks[i]] of the inode, not the indirect block it writes. *)
Definition write_indirect (b : block_manager) (blks indirect_blockid : list Z)
    (buf : list byte) (buf_offset n : Z) : outcome (block_manager * Z) :=
  for_ 0 n (fun i '(b, buf_offset) =>
    id0 ← load blks i;
    b ← write_block b id0 zero_block;
    id ← load indirect_blockid i;
    b ← write_block b id (drop (Z.to_nat buf_offset) buf);
    Ret (b, buf_offset + BLOCK_SIZE)) (b, buf_offset).

(** The common tail of the cases: size and times are set and the inode is
    written back. *)
Definition write_back (E : env) (b : block_manager) (inum : Z) (target_inode : inode)
    (blks : list Z) (size : Z) : outcome block_manager :=
  put_inode (malloc E 9 0 BS) b inum
    (Some (mkInode (i_type target_inode) (u32 size) (i_atime target_inode)
             (now E 1) (now E 0) blks)).

(** The tail of the cases with indirect blocks: direct blocks, indirect
    blocks, the block that lists them, and the inode. *)
Definition write_large (E : env) (b : block_manager) (inum : Z) (target_inode : inode)
    (blks indirect_blockid : list Z) (buf : list byte) (size need_block_num : Z)
    : outcome block_manager :=
  '(b, buf_offset) ← write_direct b blks buf NDIRECT;
  '(b, _) ← write_indirect b blks indirect_blockid buf buf_offset (need_block_num - NDIRECT);
  ind ← load blks NDIRECT;
  b ← write_block b ind (bytes_of_u32s indirect_blockid);
  write_back E b inum target_inode blks size.

(** case 1-1: the file grows and stays within the direct blocks. *)
Definition write_case1_1 E b inum (target_inode : inode) buf size need origin :=
  '(b, blks) ← alloc_blocks E 1 b (i_blocks target_inode) origin need;
  '(b, _) ← write_direct b blks buf need;
  write_back E b inum target_inode blks size.

(** case 1-2: same number of direct blocks. *)
Definition write_case1_2 E b inum (target_inode : inode) buf size need :=
  '(b, _) ← write_direct b (i_blocks target_inode) buf need;
  write_back E b inum target_inode (i_blocks target_inode) size.

(** case 1-3: the file shrinks within the direct blocks. *)
Definition write_case1_3 E b inum (target_inode : inode) buf size need origin :=
  b ← free_blocks E 2 b (i_blocks target_inode) need origin;
  '(b, _) ← write_direct b (i_blocks target_inode) buf need;
  write_back E b inum target_inode (i_blocks target_inode) size.

(** case 1-4: the file shrinks from indirect to direct blocks only. *)
Definition write_case1_4 E b inum (target_inode : inode) buf size need origin :=
  ind ← load (i_blocks target_inode) NDIRECT;
  let indirect_blockid := block_ids (read_block b ind (malloc E 3 0 BS)) in
  b ← free_blocks E 4 b indirect_blockid 0 (origin - NDIRECT);
  b ← free_blocks E 5 b (i_blocks target_inode) need (NDIRECT + 1);
  '(b, _) ← write_direct b (i_blocks target_inode) buf need;
  write_back E b inum target_inode (i_blocks target_inode) size.

(** case 2-1: from fewer than [NDIRECT] blocks to indirect blocks. *)
Definition write_case2_1 E b inum (target_inode : inode) buf size need origin :=
  '(b, blks) ← alloc_blocks E 1 b (i_blocks target_inode) origin NDIRECT;
  let indirect_blockid := block_ids (malloc E 3 0 BS) in
  '(b, ind) ← alloc_block (malloc E 6 0 BS) b;
  blks ← store blks NDIRECT ind;
  '(b, indirect_blockid) ← alloc_blocks E 7 b indirect_blockid 0 (need - NDIRECT);
  write_large E b inum target_inode blks indirect_blockid buf size need.

(** case 2-2: more blocks, from [NDIRECT] or more. *)
Definition write_case2_2 E b inum (target_inode : inode) buf size need origin :=
  ind ← load (i_blocks target_inode) NDIRECT;
  let indirect_blockid := block_ids (read_block b ind (malloc E 3 0 BS)) in
  '(b, indirect_blockid) ←
     for_ origin need (fun i '(b, ids) =>
       '(b, id) ← alloc_block (malloc E 7 i BS) b;
       ids ← store ids (i - NDIRECT) id;
       Ret (b, ids)) (b, indirect_blockid);
  write_large E b inum target_inode (i_blocks target_inode) indirect_blockid buf size need.

(** case 2-3: same number of blocks, more than [NDIRECT]. *)
Definition write_case2_3 E b inum (target_inode : inode) buf size need :=
  ind ← load (i_blocks target_inode) NDIRECT;
  let indirect_blockid := block_ids (read_block b ind (malloc E 3 0 BS)) in
  write_large E b inum target_inode (i_blocks target_inode) indirect_blockid buf size need.

(** case 2-4: fewer blocks, still more than [NDIRECT]. *)
Definition write_case2_4 E b inum (target_inode : inode) buf size need origin :=
  ind ← load (i_blocks target_inode) NDIRECT;
  let indirect_blockid := block_ids (read_block b ind (malloc E 3 0 BS)) in
  b ← free_blocks E 8 b indirect_blockid (need - NDIRECT) (origin - NDIRECT);
  write_large E b inum target_inode (i_blocks target_inode) indirect_blockid buf size need.

(** The number of blocks for an [int] size, converted to unsigned. *)
Definition need_block_count (size : Z) : Z :=
  u32 (if Z.rem size BLOCK_SIZE =? 0 then Z.quot size BLOCK_SIZE
       else Z.quot size BLOCK_SIZE + 1).

(** [write_file(inum, buf, size)]; [buf] is the memory readable from the
    pointer on, which may be longer than [size]. *)
Definition write_file (E : env) (b : block_manager) (inum : Z) (buf : list byte) (size : Z)
    : outcome block_manager :=
  match get_inode (malloc E 0 0 BS) b inum with
  | None => Ret b
  | Some target_inode =>
      let need := need_block_count size in
      if MAXFILE <? need then Ret b
      else
        let origin := block_count (i_size target_inode) in
        if need <=? NDIRECT then
          if origin <? need then write_case1_1 E b inum target_inode buf size need origin
          else if origin =? need then write_case1_2 E b inum target_inode buf size need
          else if (need <? origin) && (origin <=? NDIRECT)
          then write_case1_3 E b inum target_inode buf size need origin
          else write_case1_4 E b inum target_inode buf size need origin
        else
          if (NDIRECT <? need) && (origin <? NDIRECT)
          then write_case2_1 E b inum target_inode buf size need origin
          else if (origin <? need) && (NDIRECT <=? origin)
          then write_case2_2 E b inum target_inode buf size need origin
          else if need =? origin then write_case2_3 E b inum target_inode buf size need
          else write_case2_4 E b inum target_inode buf size need origin
  end.

(* ------------------------------------------------------------------ *)
(** ** Removing files, and the block-level operations of the name node *)

(** The block count [remove_file] computes: its two branches are the other
    way round than in [block_count]. *)
Definition remove_block_count (size : Z) : Z :=
  if size mod BLOCK_SIZE =? 0 then size / BLOCK_SIZE + 1 else size / BLOCK_SIZE.

Definition remove_file (E : env) (b : block_manager) (inum : Z) : outcome block_manager :=
  match get_inode (malloc E 0 0 BS) b inum with
  | None => Ret b
  | Some target_inode =>
      let target_block_num := remove_block_count (i_size target_inode) in
      if target_block_num <? NDIRECT then
        b ← free_blocks E 1 b (i_blocks target_inode) 0 target_block_num;
        free_inode E b inum
      else
        ind ← load (i_blocks target_inode) NDIRECT;
        let indirect_blockid := block_ids (read_block b ind (malloc E 2 0 BS)) in
        b ← free_blocks E 3 b indirect_blockid 0 (target_block_num - NDIRECT);
        b ← free_blocks E 4 b (i_blocks target_inode) 0 (NDIRECT + 1);
        free_inode E b inum
  end.

(** [append_block(inum, bid)]: the new disk and the new value of [bid]. *)
Definition append_block (E : env) (b : block_manager) (inum bid : Z)
    : outcome (block_manager * Z) :=
  match get_inode (malloc E 0 0 BS) b inum with
  | None => Ret (b, bid)
  | Some target_inode =>
      let block_index := block_count (i_size target_inode) in
      if MAXFILE <? block_index then Ret (b, bid)
      else
        '(b, bid) ← alloc_block (malloc E 1 0 BS) b;
        '(b, blks) ←
          (if block_index <? NDIRECT then
             blks ← store (i_blocks target_inode) block_index bid;
             Ret (b, blks)
           else
             '(b, blks) ←
               (if block_index =? NDIRECT then
                  '(b, ind) ← alloc_block (malloc E 2 0 BS) b;
                  blks ← store (i_blocks target_inode) NDIRECT ind;
                  Ret (b, blks)
                else Ret (b, i_blocks target_inode));
             ind ← load blks NDIRECT;
             let indirect_blockid := block_ids (read_block b ind (malloc E 3 0 BS)) in
             indirect_blockid ← store indirect_blockid (block_index - NDIRECT) bid;
             b ← write_block b ind (bytes_of_u32s indirect_blockid);
             Ret (b, blks));
        b ← put_inode (malloc E 4 0 BS) b inum
              (Some (mkInode (i_type target_inode) (u32 (i_size target_inode + BLOCK_SIZE))
                       (i_atime target_inode) (i_mtime target_inode) (i_ctime target_inode) blks));
        Ret (b, bid)
  end.

(** [for (i = 0; i < n; i++) block_ids.push_back(ids[i]);] *)
Definition push_ids (ids : list Z) (n : Z) (acc : list Z) : outcome (list Z) :=
  for_ 0 n (fun i acc => id ← load ids i; Ret (acc ++ [id])) acc.

(** [get_block_ids]: the inode pointer is used without a NULL check. *)
Definition get_block_ids (E : env) (b : block_manager) (inum : Z) (acc : list Z)
    : outcome (list Z) :=
  match get_inode (malloc E 0 0 BS) b inum with
  | None => Undef
  | Some target_inode =>
      let block_num := block_count (i_size target_inode) in
      if block_num <=? NDIRECT then push_ids (i_blocks target_inode) block_num acc
      else
        acc ← push_ids (i_blocks target_inode) NDIRECT acc;
        ind ← load (i_blocks target_inode) NDIRECT;
        let indirect_block_id := block_ids (read_block b ind (malloc E 1 0 BS)) in
        push_ids indirect_block_id (block_num - NDIRECT) acc
  end.

(** [complete]: the inode pointer is used without a NULL check. *)
Definition complete (E : env) (b : block_manager) (inum size : Z) : outcome block_manager :=
  match get_inode (malloc E 0 0 BS) b inum with
  | None => Undef
  | Some target_inode =>
      put_inode (malloc E 1 0 BS) b inum
        (Some (mkInode (i_type target_inode) size (now E 0) (now E 1) (now E 2)
                 (i_blocks target_inode)))
  end.

(** [inode_manager::read_block] and [write_block]: the name node's and data
    nodes' access to single blocks. *)
Definition im_read_block (b : block_manager) (id : Z) (buf : list byte) : list byte :=
  read_block b id buf.

Definition im_write_block (b : block_manager) (id : Z) (buf : list byte) : outcome block_manager :=
  write_block b id buf.
