(* ===== verification/InodeFacts.v ===== *)
(** * Inodes on disk, and well-formed file systems

    The round trip of [struct inode] through its bytes, what [get_inode] and
    [put_inode] do to a disk, the invariant [fs_ok] of the blocks that the
    files of a disk own, and the contents of a file. *)

From S2P Require Import Prelude Disk Protocol Inode.

Lemma MAXFILE_val : MAXFILE = 4196.
Proof. reflexivity. Qed.

Lemma NDIRECT_val : NDIRECT = 100.
Proof. reflexivity. Qed.

Lemma NINDIRECT_val : NINDIRECT = 4096.
Proof. reflexivity. Qed.

(** Make the limits of files visible to [lia]. *)
Ltac fsizes :=
  sizes; pose proof MAXFILE_val; pose proof NDIRECT_val; pose proof NINDIRECT_val.

(* ------------------------------------------------------------------ *)
(** ** struct inode *)

(** The values a [struct inode] can hold. *)
Record inode_ok (ino : inode) : Prop := {
  ok_type : - 2 ^ 15 <= i_type ino < 2 ^ 15;
  ok_size : 0 <= i_size ino < 2 ^ 32;
  ok_atime : 0 <= i_atime ino < 2 ^ 32;
  ok_mtime : 0 <= i_mtime ino < 2 ^ 32;
  ok_ctime : 0 <= i_ctime ino < 2 ^ 32;
  ok_nblocks : length (i_blocks ino) = 101%nat;
  ok_blocks : Forall (fun x => 0 <= x < 2 ^ 32) (i_blocks ino);
}.

Lemma u32_range z : 0 <= u32 z < 2 ^ 32.
Proof. apply Z.mod_pos_bound. lia. Qed.

Lemma sint32_id z : 0 <= z < 2 ^ 31 -> sint 32 z = z.
Proof. intros. unfold sint. rewrite Z.mod_small by lia. case_tests. Qed.

Lemma le_val4 l : 0 <= le_val (take 4 l) < 2 ^ 32.
Proof.
  pose proof (le_val_range (take 4 l)) as H.
  assert (256 ^ Z.of_nat (length (take 4 l)) <= 256 ^ 4).
  { apply Z.pow_le_mono_r; [lia|]. rewrite length_take. lia. }
  change (2 ^ 32) with (256 ^ 4). lia.
Qed.

Lemma decode_inode_ok m : inode_ok (decode_inode m).
Proof.
  split; cbn [decode_inode i_type i_size i_atime i_mtime i_ctime i_blocks];
    try apply le_val4; try apply length_u32s_of_bytes; try apply u32s_of_bytes_range.
  apply (sint_range 16). lia.
Qed.

Lemma le_val_le_bytes n z : 0 <= z < 256 ^ Z.of_nat n -> le_val (le_bytes n z) = z.
Proof. intros. rewrite le_val_bytes. by apply Z.mod_small. Qed.

(** An inode survives being stored to memory and read back. *)
Lemma decode_encode m ino : inode_ok ino -> (4 <= length m)%nat ->
  decode_inode (encode_inode m ino) = ino.
Proof.
  intros [Ht Hs Ha Hm Hc Hl Hb] Hlen.
  do 4 (destruct m as [|? m]; [simpl in Hlen; lia|]).
  unfold decode_inode, encode_inode.
  cbn [le_bytes app firstn skipn]. rewrite !take_0. cbn [app firstn skipn].
  rewrite ?take_0, ?drop_0.
  repeat match goal with
  | |- context [le_val [to_byte ?z; to_byte (?z / 256); to_byte (?z / 256 / 256);
                        to_byte (?z / 256 / 256 / 256)]] =>
      change (le_val [to_byte z; to_byte (z / 256); to_byte (z / 256 / 256);
                      to_byte (z / 256 / 256 / 256)]) with (le_val (le_bytes 4 z));
      rewrite (le_val_le_bytes 4 z) by done
  | |- context [le_val [to_byte ?z; to_byte (?z / 256)]] =>
      change (le_val [to_byte z; to_byte (z / 256)]) with (le_val (le_bytes 2 z));
      rewrite le_val_bytes; change (256 ^ Z.of_nat 2) with (2 ^ 16);
      rewrite (sint_mod 16 z) by done
  end.
  rewrite <-Hl, u32s_of_bytes_of_u32s by done. by destruct ino.
Qed.

Lemma length_encode_inode m ino : inode_ok ino -> (sizeof_inode <= length m)%nat ->
  length (encode_inode m ino) = length m.
Proof.
  intros Hok Hlen. unfold encode_inode. pose proof (ok_nblocks _ Hok) as Hn.
  unfold sizeof_inode in *. autorewrite with len. rewrite Hn. lia.
Qed.

(* ------------------------------------------------------------------ *)
(** ** Inodes of a disk *)

(** The block of an inode, and the inode a block holds. *)
Definition iblock (inum : Z) : Z := inum + 3.
Definition ino_at (b : block_manager) (inum : Z) : inode := decode_inode (blk b (iblock inum)).
Definition put_ino (b : block_manager) (inum : Z) (ino : inode) : block_manager :=
  set_blk b (iblock inum) (encode_inode (blk b (iblock inum)) ino).

Definition inum_ok (inum : Z) : Prop := 0 <= inum < INODE_NUM.

Lemma inode_offset_0 inum : inode_offset inum = 0%nat.
Proof. unfold inode_offset, IPB. rewrite Z.mod_1_r. reflexivity. Qed.

Lemma IBLOCK_iblock b inum : bm_ok b -> inum_ok inum -> IBLOCK inum (nblocks (sb b)) = iblock inum.
Proof.
  intros Hok Hi. unfold inum_ok, INODE_NUM in Hi. rewrite (ok_sb _ Hok). unfold IBLOCK, IPB, iblock.
  change (nblocks _ / BPB) with 0. rewrite Z.div_1_r. rewrite u32_id by lia. lia.
Qed.

Lemma iblock_range inum : inum_ok inum ->
  0 <= iblock inum < BLOCK_NUM /\ iblock inum <> BITMAP /\ iblock inum < FIRST_DATA.
Proof. unfold inum_ok, INODE_NUM, iblock. rewrite BLOCK_NUM_val. unfold BITMAP, FIRST_DATA. lia. Qed.

Section inodes.
Context (b : block_manager) (Hok : bm_ok b) (inum : Z) (Hi : inum_ok inum).
#[local] Set Default Proof Using "Hok Hi".

Lemma iblk_length : length (blk b (iblock inum)) = BS.
Proof. apply blk_length; [done|]. by apply iblock_range. Qed.

Lemma get_inode_spec mem :
  get_inode mem b inum =
  if i_type (ino_at b inum) =? 0 then None else Some (ino_at b inum).
Proof.
  unfold get_inode. rewrite Z.geb_leb. pose proof Hi as Hi'. unfold inum_ok in Hi'.
  destruct (Z.ltb_spec inum 0), (Z.leb_spec INODE_NUM inum); try lia. cbn [orb].
  rewrite IBLOCK_iblock, inode_offset_0 by done.
  rewrite read_block_in; [|done|by apply iblock_range]. done.
Qed.

Lemma put_inode_spec mem ino : inode_ok ino ->
  put_inode mem b inum (Some ino) = Ret (put_ino b inum ino).
Proof.
  intros Hino. pose proof iblk_length as Hlen. sizes.
  unfold put_inode. rewrite IBLOCK_iblock, inode_offset_0 by done.
  rewrite read_block_in; [|done|by apply iblock_range]. rewrite take_0, drop_0. cbn [app].
  assert (length (encode_inode (blk b (iblock inum)) ino) = BS) as HL.
  { rewrite length_encode_inode; [done|done|]. unfold sizeof_inode. lia. }
  rewrite write_block_in; [|by apply iblock_range|lia].
  by rewrite (take_ge (encode_inode _ _)) by lia.
Qed.

Lemma put_ino_ok ino : inode_ok ino -> bm_ok (put_ino b inum ino).
Proof.
  intros Hino. apply set_blk_ok; [done|]. pose proof iblk_length as Hlen. sizes.
  rewrite length_encode_inode; [done|done|]. unfold sizeof_inode. lia.
Qed.

Lemma ino_at_put_eq ino : inode_ok ino -> ino_at (put_ino b inum ino) inum = ino.
Proof.
  intros Hino. unfold ino_at, put_ino. rewrite blk_set_eq; [|done|by apply iblock_range].
  apply decode_encode; [done|]. rewrite iblk_length. sizes. lia.
Qed.
End inodes.

Lemma blk_put_ino b inum ino id : inum_ok inum -> 0 <= id -> id <> iblock inum ->
  blk (put_ino b inum ino) id = blk b id.
Proof. intros Hi Hid Hne. unfold put_ino. apply blk_set_ne; [|done|done]. by apply iblock_range. Qed.

Lemma used_put_ino b inum ino id : inum_ok inum -> used (put_ino b inum ino) id = used b id.
Proof.
  intros Hi. unfold used. rewrite blk_put_ino; [done|done|unfold BITMAP; lia|].
  apply not_eq_sym. by apply iblock_range.
Qed.

Lemma get_inode_bad mem b inum : ~ inum_ok inum -> get_inode mem b inum = None.
Proof.
  intros Hi. unfold inum_ok in Hi. unfold get_inode. rewrite Z.geb_leb.
  destruct (Z.ltb_spec inum 0), (Z.leb_spec INODE_NUM inum); done || lia.
Qed.

(* ------------------------------------------------------------------ *)
(** ** Files: the blocks they own and their contents *)

(** An inode in use. *)
Definition live (b : block_manager) (i : Z) : Prop :=
  inum_ok i /\ i_type (ino_at b i) <> 0.

#[export] Instance live_dec b i : Decision (live b i).
Proof. unfold live, inum_ok. apply _. Defined.

(** The block that lists the indirect blocks. *)
Definition ind_id (ino : inode) : Z := default 0 (i_blocks ino !! Z.to_nat NDIRECT).

(** The data blocks of a file, in file order. *)
Definition file_ids (b : block_manager) (ino : inode) : list Z :=
  let n := block_count (i_size ino) in
  if n <=? NDIRECT then take (Z.to_nat n) (i_blocks ino)
  else take (Z.to_nat NDIRECT) (i_blocks ino) ++
       take (Z.to_nat (n - NDIRECT)) (block_ids (blk b (ind_id ino))).

(** All blocks of a file: its data blocks and the indirect block. *)
Definition owned (b : block_manager) (ino : inode) : list Z :=
  file_ids b ino ++
  (if block_count (i_size ino) <=? NDIRECT then [] else [ind_id ino]).

(** The bytes of a list of blocks, and the contents of a file. *)
Definition blocks_bytes (b : block_manager) (ids : list Z) : list byte := concat (blk b <$> ids).

Definition content (b : block_manager) (i : Z) : list byte :=
  take (Z.to_nat (i_size (ino_at b i))) (blocks_bytes b (file_ids b (ino_at b i))).

(** The abstract view of a disk: the type and the contents of each file. *)
Definition file (b : block_manager) (i : Z) : option (Z * list byte) :=
  if decide (live b i) then Some (i_type (ino_at b i), content b i) else None.

(** The invariant: the blocks of the files are data blocks, marked in the
    bitmap, and no block belongs to two files or twice to one. *)
Record fs_ok (b : block_manager) : Prop := {
  fs_bm : bm_ok b;
  fs_size : forall i, live b i -> block_count (i_size (ino_at b i)) <= MAXFILE;
  fs_nodup : forall i, live b i -> NoDup (owned b (ino_at b i));
  fs_data : forall i id, live b i -> id ∈ owned b (ino_at b i) ->
    FIRST_DATA <= id < BLOCK_NUM /\ used b id = true;
  fs_disj : forall i j id, live b i -> live b j ->
    id ∈ owned b (ino_at b i) -> id ∈ owned b (ino_at b j) -> i = j;
}.

Lemma ino_at_ok b i : inode_ok (ino_at b i).
Proof. apply decode_inode_ok. Qed.
#[export] Hint Resolve ino_at_ok fs_bm : yfs.

(** A disk that agrees on the blocks a file owns agrees on the file. *)
Section frame.
Context (b b' : block_manager) (ino : inode).
Context (Hsame : forall id, id ∈ owned b ino -> blk b' id = blk b id).

Lemma file_ids_frame : file_ids b' ino = file_ids b ino.
Proof using Hsame.
  unfold file_ids. destruct (block_count (i_size ino) <=? NDIRECT) eqn:E; [done|].
  rewrite Hsame; [done|]. unfold owned. rewrite E. set_solver.
Qed.

Lemma owned_frame : owned b' ino = owned b ino.
Proof using Hsame. unfold owned. by rewrite file_ids_frame. Qed.

Lemma bytes_frame : blocks_bytes b' (file_ids b' ino) = blocks_bytes b (file_ids b ino).
Proof using Hsame.
  rewrite file_ids_frame. unfold blocks_bytes. f_equal. apply list_fmap_ext.
  intros k id Hk. apply Hsame. unfold owned.
  apply elem_of_app. left. eapply list_elem_of_lookup_2, Hk.
Qed.
End frame.

(** The update principle: a step that touches inode [i] and blocks no other
    file owns keeps the invariant and every other file. *)
Section update.
Context (b b' : block_manager) (i : Z).
Context (Hfs : fs_ok b) (Hbm : bm_ok b').
Context (Hino : forall j, inum_ok j -> j <> i -> ino_at b' j = ino_at b j).
Context (Hoth : forall j id, j <> i -> live b j -> id ∈ owned b (ino_at b j) ->
  blk b' id = blk b id /\ used b' id = true).
Context (Hnew : live b' i ->
  block_count (i_size (ino_at b' i)) <= MAXFILE /\
  NoDup (owned b' (ino_at b' i)) /\
  forall id, id ∈ owned b' (ino_at b' i) ->
    FIRST_DATA <= id < BLOCK_NUM /\ used b' id = true /\
    forall j, j <> i -> live b j -> id ∉ owned b (ino_at b j)).

Lemma live_other j : j <> i -> live b' j <-> live b j.
Proof using Hino.
  intros Hj. unfold live. split; intros [Hjo Ht]; (split; [done|]);
    [rewrite Hino in Ht|rewrite Hino]; done.
Qed.

Lemma owned_other j : j <> i -> live b j -> owned b' (ino_at b' j) = owned b (ino_at b j).
Proof using Hino Hoth.
  intros Hj Hl. rewrite Hino by (done || apply Hl). apply owned_frame.
  intros id Hid. by eapply Hoth.
Qed.

Lemma file_other j : j <> i -> file b' j = file b j.
Proof using Hino Hoth.
  intros Hj. unfold file. destruct (decide (live b j)) as [Hl|Hl].
  - rewrite decide_True by (by apply live_other). unfold content.
    rewrite !Hino by (done || apply Hl). do 3 f_equal. apply bytes_frame.
    intros id Hid. by eapply Hoth.
  - rewrite decide_False; [done|]. by rewrite live_other.
Qed.

Lemma fs_ok_update : fs_ok b'.
Proof using Hfs Hbm Hino Hoth Hnew.
  split; [done|..].
  - intros j Hl. destruct (decide (j = i)) as [->|Hj]; [by apply Hnew|].
    apply live_other in Hl; [|done]. rewrite Hino by (done || apply Hl). by apply fs_size.
  - intros j Hl. destruct (decide (j = i)) as [->|Hj]; [by apply Hnew|].
    apply live_other in Hl; [|done]. rewrite owned_other by done. by apply fs_nodup.
  - intros j id Hl Hid. destruct (decide (j = i)) as [->|Hj].
    { destruct (Hnew Hl) as (_ & _ & H). by destruct (H _ Hid) as (? & ? & _). }
    apply live_other in Hl; [|done]. rewrite owned_other in Hid by done.
    split; [by eapply fs_data|by eapply Hoth].
  - intros j k id Hj Hk Hidj Hidk. destruct (decide (j = i)), (decide (k = i)); subst; [done|..].
    + apply live_other in Hk; [|done]. rewrite owned_other in Hidk by done.
      destruct (Hnew Hj) as (_ & _ & H). destruct (H _ Hidj) as (_ & _ & H').
      by destruct (H' k).
    + apply live_other in Hj; [|done]. rewrite owned_other in Hidj by done.
      destruct (Hnew Hk) as (_ & _ & H). destruct (H _ Hidk) as (_ & _ & H').
      by destruct (H' j).
    + apply live_other in Hj, Hk; [|done..]. rewrite !owned_other in * by done.
      by eapply (fs_disj b Hfs).
Qed.
End update.

(** Writing back an inode with the same size and blocks changes no contents. *)
Lemma owned_size_blocks b ino ino' :
  i_size ino' = i_size ino -> i_blocks ino' = i_blocks ino ->
  file_ids b ino' = file_ids b ino /\ owned b ino' = owned b ino.
Proof. intros E1 E2. unfold owned, file_ids, ind_id. by rewrite E1, E2. Qed.

(** Data blocks are not blocks of the bitmap or of the inode table. *)
Lemma data_block id inum : FIRST_DATA <= id -> inum_ok inum ->
  0 <= id /\ id <> iblock inum /\ id <> BITMAP.
Proof. intros H1 H2. pose proof (iblock_range inum H2). unfold FIRST_DATA, BITMAP in *. lia. Qed.

Lemma ino_at_put_ne b i j ino : inum_ok i -> inum_ok j -> j <> i ->
  ino_at (put_ino b i ino) j = ino_at b j.
Proof.
  intros Hi Hj Hne. unfold ino_at. rewrite blk_put_ino; [done|done| |unfold iblock; lia].
  unfold iblock, inum_ok in *. lia.
Qed.

(** A metadata-only update of an inode. *)
Lemma put_ino_meta b i ino' : fs_ok b -> live b i -> inode_ok ino' ->
  i_type ino' = i_type (ino_at b i) -> i_size ino' = i_size (ino_at b i) ->
  i_blocks ino' = i_blocks (ino_at b i) ->
  fs_ok (put_ino b i ino') /\ forall j, file (put_ino b i ino') j = file b j.
Proof.
  intros Hfs Hl Hok Et Es Eb. pose proof Hl as [Hi Ht].
  assert (forall j, inum_ok j -> j <> i -> ino_at (put_ino b i ino') j = ino_at b j) as Hino
    by (intros; by apply ino_at_put_ne).
  assert (forall j id, live b j -> id ∈ owned b (ino_at b j) ->
    blk (put_ino b i ino') id = blk b id /\ used (put_ino b i ino') id = true) as Hoth.
  { intros j id Hj Hid. destruct (fs_data b Hfs j id Hj Hid) as [Hr Hu].
    destruct (data_block id i) as (? & ? & ?); [lia|done|].
    split; [by apply blk_put_ino|by rewrite used_put_ino]. }
  assert (ino_at (put_ino b i ino') i = ino') as Ei
    by (apply ino_at_put_eq; auto with yfs).
  destruct (owned_size_blocks b (ino_at b i) ino' Es Eb) as [Ef Eo].
  assert (forall id, id ∈ owned b ino' -> blk (put_ino b i ino') id = blk b id) as Hsame
    by (intros id Hid; rewrite Eo in Hid; by apply (Hoth i)).
  split.
  - apply (fs_ok_update b _ i); [done|by apply put_ino_ok; auto with yfs|done|by eauto|].
    intros _. rewrite Ei, (owned_frame b _ ino' Hsame), Eo, Es.
    split; [by apply fs_size|]. split; [by apply fs_nodup|].
    intros id Hid. destruct (fs_data b Hfs i id Hl Hid) as [Hr Hu].
    split; [done|]. split; [by apply (Hoth i)|].
    intros j Hj Hlj Hidj. apply Hj. by eapply fs_disj.
  - intros j. destruct (decide (j = i)) as [->|Hj].
    + unfold file. rewrite !decide_True by (done || (split; [done|by rewrite Ei, Et])).
      unfold content. rewrite Ei, (bytes_frame b _ ino' Hsame), Ef, Et, Es. done.
    + apply (file_other b _ i); [exact Hino|intros; by eapply Hoth|done].
Qed.
