(* ===== verification/FileRead.v ===== *)
(** * Creating and reading files

    Correctness of [alloc_inode], [getattr], [get_block_ids] and
    [read_file] on a well-formed disk: they implement creation and reading
    of the abstract files of [InodeFacts.file]. *)

From S2P Require Import Prelude Disk Protocol Inode InodeFacts.
Import extent_protocol.

(* ------------------------------------------------------------------ *)
(** ** Block counts and the bytes of blocks *)

Lemma block_count_bounds size : 0 <= size ->
  0 <= block_count size /\ size <= block_count size * BLOCK_SIZE < size + BLOCK_SIZE.
Proof.
  intros Hs. sizes. unfold block_count.
  pose proof (Z.div_mod size BLOCK_SIZE). pose proof (Z.mod_pos_bound size BLOCK_SIZE).
  pose proof (Z.div_pos size BLOCK_SIZE). case_tests.
Qed.

Lemma block_count_le size n : 0 <= size -> block_count size <= n <-> size <= n * BLOCK_SIZE.
Proof. intros Hs. pose proof (block_count_bounds size Hs). sizes. nia. Qed.

Lemma length_blocks_bytes b ids : bm_ok b ->
  (forall id, id ∈ ids -> 0 <= id < BLOCK_NUM) ->
  length (blocks_bytes b ids) = (length ids * BS)%nat.
Proof.
  intros Hok Hids. induction ids as [|id ids IH]; [done|].
  unfold blocks_bytes in *. cbn [fmap list_fmap concat length]. rewrite length_app, IH.
  - rewrite blk_length; [lia|done|]. apply Hids. by left.
  - intros. apply Hids. by right.
Qed.

Lemma blocks_bytes_ext b b' ids : (forall id, id ∈ ids -> blk b' id = blk b id) ->
  blocks_bytes b' ids = blocks_bytes b ids.
Proof.
  intros H. unfold blocks_bytes. f_equal. apply list_fmap_ext. intros k id Hk.
  apply H. by eapply list_elem_of_lookup_2.
Qed.

Lemma blocks_bytes_app b ids ids' :
  blocks_bytes b (ids ++ ids') = blocks_bytes b ids ++ blocks_bytes b ids'.
Proof. unfold blocks_bytes. by rewrite fmap_app, concat_app. Qed.

Lemma length_malloc E site i n : length (malloc E site i n) = n.
Proof. apply length_resize. Qed.
#[export] Hint Rewrite length_malloc : len.

Lemma elem_of_take_le (ids : list Z) (n m : nat) id :
  (n <= m)%nat -> id ∈ take n ids -> id ∈ take m ids.
Proof.
  intros Hle (k & Hk)%list_elem_of_lookup. apply list_elem_of_lookup. exists k.
  apply lookup_take_Some in Hk as [Hk Hlt]. rewrite lookup_take_lt by lia. done.
Qed.

Lemma blocks_bytes_take_S b ids i id : ids !! i = Some id ->
  blocks_bytes b (take (S i) ids) = blocks_bytes b (take i ids) ++ blk b id.
Proof.
  intros Hid. rewrite (take_S_r _ _ _ Hid), blocks_bytes_app. f_equal.
  unfold blocks_bytes. cbn. apply app_nil_r.
Qed.

Lemma read_at_spec b id pre rest off : bm_ok b -> 0 <= id < BLOCK_NUM -> 0 <= off ->
  Z.of_nat (length pre) = off ->
  read_at b id (pre ++ rest) off = pre ++ blk b id ++ drop BS rest.
Proof.
  intros Hok Hid Hoff Hpre. unfold read_at. rewrite read_block_in by done.
  rewrite take_app_length' by lia. f_equal. f_equal.
  rewrite drop_app_ge by lia. f_equal. lia.
Qed.

(** The loop that reads blocks into a buffer. *)
Lemma read_blocks_spec b ids n buf off : bm_ok b -> 0 <= off -> 0 <= n ->
  n <= Z.of_nat (length ids) -> off + n * BLOCK_SIZE <= Z.of_nat (length buf) ->
  (forall id, id ∈ take (Z.to_nat n) ids -> 0 <= id < BLOCK_NUM) ->
  read_blocks b ids n buf off =
  Ret (take (Z.to_nat off) buf ++ blocks_bytes b (take (Z.to_nat n) ids) ++
       drop (Z.to_nat (off + n * BLOCK_SIZE)) buf, off + n * BLOCK_SIZE).
Proof.
  intros Hok Hoff Hn Hlen Hbuf Hids. sizes. unfold read_blocks.
  destruct (for_inv (fun i '(buf', off') => off' = off + i * BLOCK_SIZE /\
      buf' = take (Z.to_nat off) buf ++ blocks_bytes b (take (Z.to_nat i) ids) ++
             drop (Z.to_nat (off + i * BLOCK_SIZE)) buf) 0 n
      (fun i '(buf, off) => id ← load ids i; Ret (read_at b id buf off, off + BLOCK_SIZE))
      (buf, off)) as ([buf' off'] & -> & -> & ->); [done| | |done].
  - rewrite take_0, Z.add_0_r. split; [lia|]. cbn. by rewrite take_drop.
  - intros i [buf' off'] Hi [-> ->].
    destruct (lookup_lt_is_Some_2 ids (Z.to_nat i)) as [id Hid]; [lia|].
    rewrite (load_Ret _ _ id) by (lia || done). cbn. eexists. split; [done|]. split; [lia|].
    assert (id ∈ take (Z.to_nat n) ids) as Hin.
    { apply list_elem_of_lookup_2 with (Z.to_nat i). by rewrite lookup_take_lt by lia. }
    assert (length (blocks_bytes b (take (Z.to_nat i) ids)) = (Z.to_nat i * BS)%nat) as HL.
    { rewrite length_blocks_bytes; [rewrite length_take; lia|done|].
      intros id' Hid'. apply Hids. eapply elem_of_take_le; [|exact Hid']. lia. }
    rewrite app_assoc, read_at_spec; [|done|by apply Hids|lia|].
    2: { rewrite length_app, length_take, HL. nia. }
    replace (Z.to_nat (i + 1)) with (S (Z.to_nat i)) by lia.
    rewrite (blocks_bytes_take_S _ _ _ _ Hid), <-!app_assoc. do 3 f_equal.
    rewrite drop_drop. f_equal. lia.
Qed.

(* ------------------------------------------------------------------ *)
(** ** Reading *)

Lemma load_ind_id ino : inode_ok ino -> load (i_blocks ino) NDIRECT = Ret (ind_id ino).
Proof.
  intros Hok. pose proof (ok_nblocks _ Hok) as Hn. unfold ind_id.
  destruct (lookup_lt_is_Some_2 (i_blocks ino) (Z.to_nat NDIRECT)) as [x Hx].
  { rewrite Hn. unfold NDIRECT. lia. }
  rewrite (load_Ret _ _ x); [by rewrite Hx|unfold NDIRECT; lia|done].
Qed.

Lemma length_block_ids blk : length (block_ids blk) = Z.to_nat NINDIRECT.
Proof. apply length_u32s_of_bytes. Qed.

(** The blocks of a file are within the disk. *)
Lemma owned_range b i id : fs_ok b -> live b i -> id ∈ owned b (ino_at b i) ->
  0 <= id < BLOCK_NUM.
Proof. intros Hfs Hl Hid. destruct (fs_data b Hfs i id Hl Hid). unfold FIRST_DATA in *. lia. Qed.

Section read.
Context (b : block_manager) (Hfs : fs_ok b) (i : Z) (Hl : live b i).
#[local] Abbreviation ino := (ino_at b i).
#[local] Abbreviation n := (block_count (i_size ino)).

Lemma file_ids_owned id : id ∈ file_ids b ino -> id ∈ owned b ino.
Proof using Type. intros. unfold owned. apply elem_of_app. by left. Qed.

Lemma size_bound : 0 <= i_size ino < 2 ^ 31.
Proof using Hfs Hl.
  pose proof (ok_size _ (ino_at_ok b i)) as Hs. pose proof (fs_size b Hfs i Hl) as Hm.
  apply block_count_le in Hm; [|lia]. rewrite MAXFILE_val, BLOCK_SIZE_val in Hm.
  lia.
Qed.

Lemma nblocks_bound : 0 <= n <= MAXFILE.
Proof using Hfs Hl.
  pose proof size_bound. pose proof (block_count_bounds (i_size ino)).
  pose proof (fs_size b Hfs i Hl). lia.
Qed.

(** A file within the direct blocks. *)
Lemma read_direct buf : n <= NDIRECT -> Z.of_nat (length buf) = n * BLOCK_SIZE ->
  read_blocks b (i_blocks ino) n buf 0 = Ret (blocks_bytes b (file_ids b ino), n * BLOCK_SIZE).
Proof using Hfs Hl.
  intros Hn Hbuf. pose proof nblocks_bound. sizes.
  assert (file_ids b ino = take (Z.to_nat n) (i_blocks ino)) as Ef.
  { unfold file_ids. by rewrite (proj2 (Z.leb_le _ _) Hn). }
  rewrite read_blocks_spec; [|eauto with yfs|lia|lia| |lia|].
  - rewrite Ef, take_0, Z.add_0_l. rewrite (drop_ge buf) by lia. by rewrite app_nil_r.
  - rewrite (ok_nblocks _ (ino_at_ok b i)). unfold NDIRECT in *. lia.
  - intros id Hid. eapply owned_range; [done|done|]. apply file_ids_owned. by rewrite Ef.
Qed.

(** The blocks of a file with indirect blocks. *)
Lemma large_ids : NDIRECT < n ->
  file_ids b ino = take (Z.to_nat NDIRECT) (i_blocks ino) ++
    take (Z.to_nat (n - NDIRECT)) (block_ids (blk b (ind_id ino))) /\
  (forall id, id ∈ take (Z.to_nat NDIRECT) (i_blocks ino) -> 0 <= id < BLOCK_NUM) /\
  (forall id, id ∈ take (Z.to_nat (n - NDIRECT)) (block_ids (blk b (ind_id ino))) ->
     0 <= id < BLOCK_NUM) /\
  ind_id ino ∈ owned b ino.
Proof using Hfs Hl.
  intros Hn. assert (forall id, id ∈ owned b ino -> 0 <= id < BLOCK_NUM) as Hr
    by (intros; by eapply owned_range).
  revert Hr. unfold owned, file_ids. destruct (Z.leb_spec n NDIRECT); [lia|].
  intros Hr. split; [done|]. split; [|split].
  - intros id Hid. apply Hr. rewrite !elem_of_app. auto.
  - intros id Hid. apply Hr. rewrite !elem_of_app. auto.
  - rewrite elem_of_app. right. by left.
Qed.

(** A file with indirect blocks: the two reading loops. *)
Lemma read_large E buf : NDIRECT < n -> Z.of_nat (length buf) = n * BLOCK_SIZE ->
  ('(buf, off) ← read_blocks b (i_blocks ino) NDIRECT buf 0;
   ind ← load (i_blocks ino) NDIRECT;
   '(buf, _) ← read_blocks b (block_ids (read_block b ind (malloc E 2 0 BS)))
                 (n - NDIRECT) buf off;
   Ret buf) = Ret (blocks_bytes b (file_ids b ino)).
Proof using Hfs Hl.
  intros Hn Hbuf. pose proof nblocks_bound as Hmax. fsizes.
  destruct (large_ids Hn) as (Ef & Hr1 & Hr2 & Hind). rewrite Ef, blocks_bytes_app.
  rewrite read_blocks_spec; [|eauto with yfs|lia|lia| |lia|done].
  2: { rewrite (ok_nblocks _ (ino_at_ok b i)). lia. }
  rewrite bind_Ret, load_ind_id, bind_Ret by apply ino_at_ok.
  rewrite read_block_in by eauto using owned_range with yfs.
  assert (Z.of_nat (length (blocks_bytes b (take (Z.to_nat NDIRECT) (i_blocks ino))))
          = NDIRECT * BLOCK_SIZE) as HL.
  { rewrite length_blocks_bytes; [|eauto with yfs|done].
    rewrite length_take, (ok_nblocks _ (ino_at_ok b i)). lia. }
  revert HL. generalize (blocks_bytes b (take (Z.to_nat NDIRECT) (i_blocks ino))).
  intros d HL. rewrite take_0, Z.add_0_l, app_nil_l.
  rewrite read_blocks_spec; [|eauto with yfs|lia|lia| | |done].
  - rewrite bind_Ret. rewrite take_app_length' by lia.
    rewrite (drop_ge (d ++ _)); [by rewrite app_nil_r|].
    rewrite length_app, length_drop. lia.
  - rewrite length_block_ids. lia.
  - rewrite length_app, length_drop. lia.
Qed.

(** [read_content] returns a buffer that starts with the file's bytes. *)
Lemma read_content_spec E :
  exists buf, read_content E b ino = Ret buf /\ take (Z.to_nat (i_size ino)) buf = content b i.
Proof using Hfs Hl.
  pose proof size_bound as Hs. pose proof (block_count_bounds (i_size ino)) as Hb.
  sizes. unfold read_content, content.
  destruct (Z.leb_spec (i_size ino) BLOCK_SIZE) as [Hle|Hgt].
  - destruct (lookup_lt_is_Some_2 (i_blocks ino) 0) as [id Hid].
    { rewrite (ok_nblocks _ (ino_at_ok b i)). lia. }
    rewrite (load_Ret _ _ id) by (lia || done). rewrite bind_Ret. eexists. split; [done|].
    destruct (Z.eqb_spec (i_size ino) 0) as [E0|Hne]; [by rewrite E0, !take_0|].
    assert (n = 1) as E1 by nia.
    assert (file_ids b ino = [id]) as Ef.
    { unfold file_ids. rewrite E1. cbn [Z.leb]. change (Z.to_nat 1) with 1%nat.
      destruct (i_blocks ino); [discriminate Hid|]. by injection Hid as ->. }
    rewrite read_block_in; [|eauto with yfs|].
    + rewrite Ef. unfold blocks_bytes. cbn. by rewrite app_nil_r.
    + eapply owned_range; [done|done|]. apply file_ids_owned. rewrite Ef. by left.
  - destruct (Z.leb_spec n NDIRECT) as [Hd|Hd].
    + rewrite read_direct; [|done|]. { rewrite bind_Ret. eauto. }
      rewrite length_malloc. lia.
    + rewrite read_large; [eauto|done|]. rewrite length_malloc. lia.
Qed.
End read.

(** The inode after [read_file]: its access time is set. *)
Definition touch_atime (ino : inode) (t : Z) : inode :=
  mkInode (i_type ino) (i_size ino) t (i_mtime ino) (i_ctime ino) (i_blocks ino).

Lemma touch_atime_ok ino t : inode_ok ino -> 0 <= t < 2 ^ 32 -> inode_ok (touch_atime ino t).
Proof. intros []; split; done. Qed.

Lemma length_file_ids b i : fs_ok b -> live b i ->
  Z.of_nat (length (file_ids b (ino_at b i))) = block_count (i_size (ino_at b i)).
Proof.
  intros Hfs Hl. pose proof (nblocks_bound b Hfs i Hl). fsizes. unfold file_ids.
  case_tests; rewrite ?length_app, !length_take, (ok_nblocks _ (ino_at_ok b i)),
    ?length_block_ids; lia.
Qed.

Lemma length_content b i : fs_ok b -> live b i ->
  Z.of_nat (length (content b i)) = i_size (ino_at b i).
Proof.
  intros Hfs Hl. pose proof (size_bound b Hfs i Hl) as Hs.
  pose proof (block_count_bounds (i_size (ino_at b i))). pose proof (length_file_ids b i Hfs Hl).
  sizes. unfold content. rewrite length_take, length_blocks_bytes; [nia|eauto with yfs|].
  intros id Hid. eapply owned_range; [done|done|]. unfold owned. apply elem_of_app. by left.
Qed.

Lemma file_Some b i t c : file b i = Some (t, c) ->
  live b i /\ t = i_type (ino_at b i) /\ c = content b i.
Proof. unfold file. destruct (decide (live b i)); [|discriminate]. intros [= <- <-]. auto. Qed.

Lemma file_None b i : file b i = None <-> ~ live b i.
Proof. unfold file. destruct (decide (live b i)); split; done. Qed.

Lemma get_inode_live mem b i : bm_ok b -> live b i -> get_inode mem b i = Some (ino_at b i).
Proof.
  intros Hok [Hi Ht]. rewrite get_inode_spec by done.
  destruct (Z.eqb_spec (i_type (ino_at b i)) 0); done.
Qed.

Lemma get_inode_dead mem b i : bm_ok b -> ~ live b i -> get_inode mem b i = None.
Proof.
  intros Hok Hl. destruct (decide (0 <= i < INODE_NUM)) as [Hi|Hi].
  - rewrite get_inode_spec by done. destruct (Z.eqb_spec (i_type (ino_at b i)) 0); [done|].
    by destruct Hl.
  - by apply get_inode_bad.
Qed.

(** reading an existing file returns its size and a buffer that begins
    with exactly its bytes; no file changes and the invariant is kept. *)
Lemma read_file_spec E b i t c :
  fs_ok b -> file b i = Some (t, c) ->
  exists b' buf, read_file E b i = Ret (b', Some (buf, Z.of_nat (length c))) /\
    take (length c) buf = c /\ fs_ok b' /\ (forall j, file b' j = file b j) /\
    forall j, used b' j = used b j.
Proof.
  intros Hfs (Hl & -> & ->)%file_Some.
  destruct (read_content_spec b Hfs i Hl E) as (buf & Eb & Et).
  pose proof (length_content b i Hfs Hl) as HL.
  unfold read_file. rewrite get_inode_live by eauto with yfs.
  rewrite Eb, bind_Ret. fold (touch_atime (ino_at b i) (now E 0)).
  assert (inode_ok (touch_atime (ino_at b i) (now E 0))) as Hok
    by (apply touch_atime_ok; [apply ino_at_ok|apply u32_range]).
  rewrite put_inode_spec; [|eauto with yfs|apply Hl|done]. rewrite bind_Ret.
  destruct (put_ino_meta b i (touch_atime (ino_at b i) (now E 0))) as [Hfs' Hfile]; try done.
  eexists _, buf. split; [|split].
  - by rewrite HL, sint32_id by (by apply size_bound).
  - rewrite <-(Nat2Z.id (length _)), HL. done.
  - split; [done|]. split; [done|]. intros j. apply used_put_ino, Hl.
Qed.

(** reading a file that does not exist changes nothing and leaves the
    caller's buffer and size as they were. *)
Lemma read_file_dead E b i :
  fs_ok b -> file b i = None -> read_file E b i = Ret (b, None).
Proof.
  intros Hfs Hl%file_None. unfold read_file. by rewrite get_inode_dead by eauto with yfs.
Qed.

(* ------------------------------------------------------------------ *)
(** ** Creating *)

(** The inode number [alloc_inode] finds: the first dead one from 1 on. *)
Definition first_dead (b : block_manager) (i : Z) : Prop :=
  1 <= i < INODE_NUM /\ ~ live b i /\ forall j, 1 <= j < i -> live b j.

(** The inode of a new, empty file. *)
Definition fresh_inode (E : env) (type i : Z) : inode :=
  mkInode (sint 16 type) 0 (now E 0) (now E 1) (now E 2)
    (i_blocks (decode_inode (malloc E 1 i sizeof_inode))).

(** An inode with new attributes and the blocks of another one. *)
Lemma mkInode_ok ino type size at_ mt ct :
  inode_ok ino -> - 2 ^ 15 <= type < 2 ^ 15 -> 0 <= size < 2 ^ 32 ->
  0 <= at_ < 2 ^ 32 -> 0 <= mt < 2 ^ 32 -> 0 <= ct < 2 ^ 32 ->
  inode_ok (mkInode type size at_ mt ct (i_blocks ino)).
Proof. intros []; by split. Qed.

Lemma fresh_inode_ok E type i : inode_ok (fresh_inode E type i).
Proof.
  apply mkInode_ok; try apply u32_range; [apply decode_inode_ok| |lia].
  apply (sint_range 16). lia.
Qed.

Lemma alloc_inode_loop_spec E type b fuel i : bm_ok b -> 1 <= i ->
  Z.of_nat fuel = INODE_NUM - i ->
  (exists k, i <= k < INODE_NUM /\ ~ live b k /\ (forall j, i <= j < k -> live b j) /\
     alloc_inode_loop fuel E type b i = Ret (put_ino b k (fresh_inode E type k), k)) \/
  ((forall j, i <= j < INODE_NUM -> live b j) /\
     alloc_inode_loop fuel E type b i = Ret (b, 0)).
Proof.
  intros Hok. revert i. induction fuel as [|fuel IH]; intros i Hi Hf; cbn [alloc_inode_loop].
  - right. split; [|done]. intros; lia.
  - destruct (decide (live b i)) as [Hl|Hl].
    + rewrite get_inode_live by done.
      destruct (IH (i + 1)) as [(k & Hk & Hd & Hall & E')|[Hall E']]; [lia|lia|..].
      * left. exists k. split; [lia|]. split; [done|]. split; [|done].
        intros j Hj. destruct (decide (j = i)) as [->|]; [done|]. apply Hall. lia.
      * right. split; [|done].
        intros j Hj. destruct (decide (j = i)) as [->|]; [done|]. apply Hall. lia.
    + left. exists i. split; [lia|]. split; [done|]. split; [intros; lia|].
      rewrite get_inode_dead by done. cbv zeta. fold (fresh_inode E type i).
      rewrite put_inode_spec; [done|done|unfold inum_ok; lia|apply fresh_inode_ok].
Qed.

Lemma owned_empty b ino : i_size ino = 0 -> owned b ino = [] /\ file_ids b ino = [].
Proof. intros E. unfold owned, file_ids. rewrite E. by cbn. Qed.

(** creating a file on a well-formed disk takes the first free inode
    number from 1 on; the new file has the given type and is empty, whatever
    was in the memory of the new inode; every other file is unchanged. *)
Lemma alloc_inode_spec E type b i :
  fs_ok b -> first_dead b i -> 0 < type < 2 ^ 15 ->
  exists b', alloc_inode E type b = Ret (b', i) /\ fs_ok b' /\
    file b' i = Some (type, []) /\ (forall j, j <> i -> file b' j = file b j) /\
    forall j, used b' j = used b j.
Proof.
  intros Hfs (Hi & Hd & Hall) Ht. pose proof (fs_bm b Hfs) as Hok.
  assert (inum_ok i) as Hio by (unfold inum_ok; lia).
  unfold alloc_inode. rewrite (ok_sb _ Hok).
  destruct (alloc_inode_loop_spec E type b (Z.to_nat (INODE_NUM - 1)) 1) as
    [(k & Hk & Hkd & Hkall & Ek)|[Hall' _]]; [done|lia|unfold INODE_NUM; lia| |].
  2: { exfalso. apply Hd, Hall'. lia. }
  assert (k = i) as ->.
  { destruct (Z.lt_trichotomy k i) as [?|[?|?]]; [|done|].
    - exfalso. apply Hkd, Hall. lia.
    - exfalso. apply Hd, Hkall. lia. }
  change (ninodes (sb block_manager_init)) with INODE_NUM. rewrite Ek.
  set (b' := put_ino b i (fresh_inode E type i)).
  assert (ino_at b' i = fresh_inode E type i) as Ei
    by (apply ino_at_put_eq; [done|done|apply fresh_inode_ok]).
  destruct (owned_empty b' (ino_at b' i)) as [Eo Ef]; [by rewrite Ei|].
  assert (forall j, inum_ok j -> j <> i -> ino_at b' j = ino_at b j) as Hino
    by (intros; by apply ino_at_put_ne).
  assert (forall j id, j <> i -> live b j -> id ∈ owned b (ino_at b j) ->
    blk b' id = blk b id /\ used b' id = true) as Hoth.
  { intros j id _ Hj Hid. destruct (fs_data b Hfs j id Hj Hid) as [Hr Hu].
    destruct (data_block id i) as (? & ? & ?); [lia|done|].
    split; [by apply blk_put_ino|]. unfold b'. by rewrite used_put_ino. }
  exists b'. split; [done|]. split; [|split; [|split]].
  - apply (fs_ok_update b _ i); [done|by apply put_ino_ok, fresh_inode_ok|done|done|].
    intros _. rewrite Eo, Ei. cbn. split; [by rewrite MAXFILE_val|].
    split; [by constructor|]. intros id Hid. by apply not_elem_of_nil in Hid.
  - assert (i_type (ino_at b' i) = type) as Et.
    { rewrite Ei. cbn. unfold sint. rewrite Z.mod_small by lia. case_tests. }
    unfold file. rewrite decide_True by (split; [done|]; rewrite Et; lia).
    unfold content. rewrite Ef, Et. change (blocks_bytes b' []) with (@nil byte).
    by rewrite take_nil.
  - intros j Hj. by apply (file_other b _ i).
  - intros j. by apply used_put_ino.
Qed.

(** The disk after the creation. *)
Lemma alloc_inode_put E type b b' i : bm_ok b -> alloc_inode E type b = Ret (b', i) -> i <> 0 ->
  b' = put_ino b i (fresh_inode E type i).
Proof.
  intros Hok Ha Hi. unfold alloc_inode in Ha. rewrite (ok_sb _ Hok) in Ha.
  destruct (alloc_inode_loop_spec E type b (Z.to_nat (INODE_NUM - 1)) 1) as
    [(k & Hk & _ & _ & Ek)|[_ Ek]]; [done|lia|unfold INODE_NUM; lia|..];
    change (ninodes (sb block_manager_init)) with INODE_NUM in Ha; rewrite Ek in Ha.
  - by injection Ha as <- <-.
  - by injection Ha as <- <-.
Qed.

(** when every inode from 1 on is in use, creation fails with inode
    number 0 and changes nothing. *)
Lemma alloc_inode_none E type b :
  fs_ok b -> (forall j, 1 <= j < INODE_NUM -> live b j) -> alloc_inode E type b = Ret (b, 0).
Proof.
  intros Hfs Hall. pose proof (fs_bm b Hfs) as Hok. unfold alloc_inode. rewrite (ok_sb _ Hok).
  destruct (alloc_inode_loop_spec E type b (Z.to_nat (INODE_NUM - 1)) 1) as
    [(k & Hk & Hkd & _)|[_ ?]]; [done|lia|unfold INODE_NUM; lia| |done].
  exfalso. apply Hkd, Hall. lia.
Qed.

(* ------------------------------------------------------------------ *)
(** ** The initial file system *)

Lemma blk_init id : 0 <= id < BLOCK_NUM -> blk block_manager_init id = zero_block.
Proof.
  intros Hid. unfold blk, block_manager_init, disk_init. cbn [bm_disk blocks].
  rewrite lookup_replicate_2; [done|]. lia.
Qed.

Lemma not_live_init i : ~ live block_manager_init i.
Proof.
  intros [Hi Ht]. apply Ht. unfold ino_at. rewrite blk_init by (by apply iblock_range).
  unfold decode_inode, zero_block. cbn [i_type]. rewrite take_replicate.
  replace (min 2 BS) with 2%nat by (sizes; lia). reflexivity.
Qed.

Lemma used_init j : used block_manager_init j = false.
Proof.
  unfold used. rewrite blk_init by rng. unfold block_bit, zero_block.
  destruct (replicate BS x00 !! Z.to_nat (j / 8)) eqn:E;
    [apply lookup_replicate in E as [-> _]|]; apply Z.testbit_0_l.
Qed.

Lemma fs_ok_init : fs_ok block_manager_init.
Proof.
  split; [apply block_manager_init_ok|..]; intros; exfalso; by eapply not_live_init.
Qed.

(** the constructor of the inode manager returns a well-formed disk
    whose only file is the root directory, inode 1, empty. *)
Lemma inode_manager_init_spec E :
  exists b, inode_manager_init E = Ret b /\ fs_ok b /\
    file b 1 = Some (T_DIR, []) /\ (forall j, j <> 1 -> file b j = None) /\
    forall j, used b j = false.
Proof.
  destruct (alloc_inode_spec E T_DIR block_manager_init 1) as (b & E1 & Hfs & H1 & Hj & Hu).
  - apply fs_ok_init.
  - split; [unfold INODE_NUM; lia|]. split; [apply not_live_init|]. intros; lia.
  - unfold T_DIR. lia.
  - exists b. unfold inode_manager_init. rewrite E1. cbn. split; [done|]. split; [done|].
    split; [done|]. split.
    + intros j Hne. rewrite Hj by done. apply file_None, not_live_init.
    + intros j. rewrite Hu. apply used_init.
Qed.
