(* ===== verification/FileWrite.v ===== *)
(** * Writing and removing files

    The loops that allocate, free and write blocks, and the correctness of
    [write_file] and [remove_file] on a well-formed disk for files within
    the direct blocks. *)

From S2P Require Import Prelude Disk Protocol Inode InodeFacts FileRead.
Import extent_protocol.

(* ------------------------------------------------------------------ *)
(** ** The free list *)

(** The unused data blocks of the disk, in increasing order. *)
Definition free_list (b : block_manager) : list Z :=
  filter (fun id => used b id = false) (seqZ FIRST_DATA (BLOCK_NUM - FIRST_DATA)).

Lemma elem_of_free_list b id :
  id ∈ free_list b <-> FIRST_DATA <= id < BLOCK_NUM /\ used b id = false.
Proof.
  unfold free_list. rewrite list_elem_of_filter, elem_of_seqZ. rewrite BLOCK_NUM_val.
  unfold FIRST_DATA. intuition lia.
Qed.

Lemma free_list_NoDup b : NoDup (free_list b).
Proof. apply NoDup_filter, NoDup_seqZ. Qed.

(** The head of the free list is its least element. *)
Lemma filter_seqZ_head (P : Z -> Prop) `{!forall x, Decision (P x)} m n x l :
  filter P (seqZ m n) = x :: l -> forall y, y ∈ filter P (seqZ m n) -> x <= y.
Proof.
  destruct (decide (0 <= n)) as [Hn|Hn].
  2: { unfold seqZ. replace (Z.to_nat n) with O by lia. done. }
  revert m. pattern n. apply natlike_ind; [| |done].
  - done.
  - clear n Hn. intros n Hn IH m. rewrite seqZ_cons by lia.
    rewrite filter_cons. case_decide as HP.
    + intros [= -> <-] y [->|Hy]%elem_of_cons; [lia|].
      apply list_elem_of_filter in Hy as [_ Hy%elem_of_seqZ]. lia.
    + replace (Z.pred (Z.succ n)) with n by lia. apply IH.
Qed.

(** Allocation pops the free list. *)
Lemma alloc_block_free mem b id rest : bm_ok b -> free_list b = id :: rest ->
  exists b', alloc_block mem b = Ret (b', id) /\ bm_ok b' /\ same_but_bitmap b b' /\
    free_list b' = rest /\ (forall j, 0 <= j -> used b' j = (j =? id) || used b j).
Proof.
  intros Hok Hfree.
  assert (id ∈ free_list b) as Hin by (rewrite Hfree; by left).
  apply elem_of_free_list in Hin as [Hid Hu]. fsizes.
  destruct (alloc_block_spec mem b Hok) as
    (b' & k & E1 & Hok' & Hsame & [(-> & -> & Hall)|(Hk & Hku & Hfirst & Hused)]).
  { rewrite Hall in Hu; [done|]. unfold BPB. lia. }
  assert (k = id) as ->.
  { destruct (Z.lt_trichotomy k id) as [Hlt|[?|Hgt]]; [|done|].
    - assert (id <= k); [|lia]. eapply filter_seqZ_head; [exact Hfree|].
      apply (elem_of_free_list b k). split; [lia|done].
    - rewrite Hfirst in Hu; [done|lia]. }
  exists b'. split; [done|]. split; [done|]. split; [done|]. split; [|done].
  assert (free_list b' = filter (fun j => j <> id) (free_list b)) as ->.
  { unfold free_list. rewrite list_filter_filter. apply filter_ext_in.
    intros j Hj%elem_of_seqZ. rewrite Hused by (unfold FIRST_DATA in Hj; lia).
    destruct (Z.eqb_spec j id); cbn [orb]; intuition congruence. }
  pose proof (free_list_NoDup b) as Hnd. rewrite Hfree in Hnd |- *.
  apply NoDup_cons in Hnd as [Hni Hnd].
  rewrite filter_cons_False by congruence. apply filter_all.
  intros j Hj ->. done.
Qed.

(* ------------------------------------------------------------------ *)
(** ** The loops over blocks *)

(** [ids[lo] .. ids[hi-1]] *)
Definition sub {A} (l : list A) (lo hi : Z) : list A :=
  take (Z.to_nat (hi - lo)) (drop (Z.to_nat lo) l).

Lemma sub_snoc {A} (l : list A) lo i x : 0 <= lo <= i -> l !! Z.to_nat i = Some x ->
  sub l lo (i + 1) = sub l lo i ++ [x].
Proof.
  intros Hlo Hx. unfold sub. replace (Z.to_nat (i + 1 - lo)) with (S (Z.to_nat (i - lo))) by lia.
  apply take_S_r. rewrite lookup_drop.
  replace (Z.to_nat lo + Z.to_nat (i - lo))%nat with (Z.to_nat i) by lia. done.
Qed.

Lemma sub_nil {A} (l : list A) lo : sub l lo lo = [].
Proof. unfold sub. by rewrite Z.sub_diag, take_0. Qed.

Lemma elem_of_sub {A} (l : list A) lo hi x : 0 <= lo -> x ∈ sub l lo hi -> x ∈ take (Z.to_nat hi) l.
Proof.
  intros Hlo. unfold sub. intros (k & Hk)%list_elem_of_lookup.
  apply lookup_take_Some in Hk as [Hk Hlt]. rewrite lookup_drop in Hk.
  apply list_elem_of_lookup. exists (Z.to_nat lo + k)%nat. rewrite lookup_take_lt by lia. done.
Qed.

(** Allocating into a range of an array takes blocks off the free list. *)
Lemma alloc_blocks_spec E site b ids lo hi :
  bm_ok b -> 0 <= lo <= hi -> hi <= Z.of_nat (length ids) ->
  hi - lo <= Z.of_nat (length (free_list b)) ->
  let new := take (Z.to_nat (hi - lo)) (free_list b) in
  exists b', alloc_blocks E site b ids lo hi =
      Ret (b', take (Z.to_nat lo) ids ++ new ++ drop (Z.to_nat hi) ids) /\
    bm_ok b' /\ same_but_bitmap b b' /\
    free_list b' = drop (Z.to_nat (hi - lo)) (free_list b) /\
    (forall j, 0 <= j -> used b' j = true <-> used b j = true \/ j ∈ new).
Proof.
  intros Hok Hlo Hhi Hfree new. unfold alloc_blocks.
  destruct (for_inv (fun i '(b', ids') =>
      let new := take (Z.to_nat (i - lo)) (free_list b) in
      ids' = take (Z.to_nat lo) ids ++ new ++ drop (Z.to_nat i) ids /\
      bm_ok b' /\ same_but_bitmap b b' /\
      free_list b' = drop (Z.to_nat (i - lo)) (free_list b) /\
      (forall j, 0 <= j -> used b' j = true <-> used b j = true \/ j ∈ new)) lo hi
    (fun i '(b, ids) => '(b, id) ← alloc_block (malloc E site i BS) b;
       ids ← store ids i id; Ret (b, ids)) (b, ids))
    as ([b' ids'] & Eq & -> & Hrest); [lia| | |].
  - cbv zeta. rewrite Z.sub_diag, take_0, drop_0, app_nil_l, take_drop.
    split; [done|]. split; [done|]. split; [apply same_but_bitmap_refl|]. split; [done|].
    intros j Hj. rewrite elem_of_nil. tauto.
  - intros i [b1 ids1] Hi. cbv zeta. intros (-> & Hok1 & Hs1 & Hf1 & Hu1).
    set (k := Z.to_nat (i - lo)) in *.
    destruct (lookup_lt_is_Some_2 (free_list b) k) as [id Hid]; [lia|].
    assert (free_list b1 = id :: drop (S k) (free_list b)) as Hpop
      by (rewrite Hf1; by apply drop_S).
    destruct (alloc_block_free (malloc E site i BS) b1 id _ Hok1 Hpop)
      as (b2 & -> & Hok2 & Hs2 & Hf2 & Hu2).
    destruct (lookup_lt_is_Some_2 ids (Z.to_nat i)) as [x Hx]; [lia|].
    rewrite (drop_S _ _ _ Hx), app_assoc. rewrite bind_Ret.
    assert (length (take (Z.to_nat lo) ids ++ take k (free_list b)) = Z.to_nat i) as HL
      by (rewrite length_app, !length_take; lia).
    rewrite store_Ret by (rewrite length_app; cbn [length]; lia). rewrite bind_Ret.
    eexists. split; [done|]. cbv zeta.
    replace (Z.to_nat (i + 1 - lo)) with (S k) by lia.
    replace (Z.to_nat (i + 1)) with (S (Z.to_nat i)) by lia.
    rewrite (take_S_r _ _ _ Hid).
    split; [|split; [done|split; [by eapply same_but_bitmap_trans|split; [done|]]]].
    + rewrite insert_app_r_alt by lia.
      replace (Z.to_nat i - length _)%nat with O by lia. cbn. by rewrite <-!app_assoc.
    + intros j Hj. rewrite Hu2, orb_true_iff, Z.eqb_eq, Hu1 by done.
      rewrite elem_of_app, list_elem_of_singleton. tauto.
  - rewrite Eq. eauto.
Qed.

(** Freeing a range of an array clears exactly the bits of its blocks. *)
Lemma free_blocks_spec E site b ids lo hi :
  bm_ok b -> 0 <= lo <= hi -> hi <= Z.of_nat (length ids) ->
  (forall id, id ∈ sub ids lo hi -> 0 <= id < BPB) ->
  exists b', free_blocks E site b ids lo hi = Ret b' /\ bm_ok b' /\ same_but_bitmap b b' /\
    (forall j, 0 <= j -> used b' j = true <-> used b j = true /\ j ∉ sub ids lo hi).
Proof.
  intros Hok Hlo Hhi Hids. unfold free_blocks.
  apply (for_inv (fun i b' => bm_ok b' /\ same_but_bitmap b b' /\
    (forall j, 0 <= j -> used b' j = true <-> used b j = true /\ j ∉ sub ids lo i))); [lia| |].
  - split; [done|]. split; [apply same_but_bitmap_refl|].
    intros j Hj. rewrite sub_nil, elem_of_nil. tauto.
  - intros i b1 Hi (Hok1 & Hs1 & Hu1).
    destruct (lookup_lt_is_Some_2 ids (Z.to_nat i)) as [id Hid]; [lia|].
    rewrite (load_Ret _ _ id) by (lia || done). rewrite bind_Ret.
    assert (0 <= id < BPB) as Hr.
    { apply Hids. unfold sub. apply list_elem_of_lookup.
      exists (Z.to_nat (i - lo)). rewrite lookup_take_lt by lia. rewrite lookup_drop.
      by replace (Z.to_nat lo + Z.to_nat (i - lo))%nat with (Z.to_nat i) by lia. }
    destruct (free_block_spec (malloc E site i BS) b1 id Hok1 Hr) as (b2 & -> & Hok2 & Hs2 & Hu2).
    eexists. split; [done|]. split; [done|]. split; [by eapply same_but_bitmap_trans|].
    intros j Hj. rewrite Hu2, andb_true_iff, negb_true_iff, Z.eqb_neq, Hu1 by done.
    rewrite (sub_snoc _ lo i id) by (lia || done).
    rewrite elem_of_app, list_elem_of_singleton. tauto.
Qed.

(** Writing the direct blocks stores the buffer, block by block. *)
Lemma write_direct_spec b ids buf n :
  bm_ok b -> 0 <= n <= Z.of_nat (length ids) -> n * BLOCK_SIZE <= Z.of_nat (length buf) ->
  NoDup (take (Z.to_nat n) ids) ->
  (forall id, id ∈ take (Z.to_nat n) ids -> 0 <= id < BLOCK_NUM) ->
  exists b', write_direct b ids buf n = Ret (b', n * BLOCK_SIZE) /\ bm_ok b' /\
    (forall id, 0 <= id -> id ∉ take (Z.to_nat n) ids -> blk b' id = blk b id) /\
    blocks_bytes b' (take (Z.to_nat n) ids) = take (Z.to_nat (n * BLOCK_SIZE)) buf.
Proof.
  intros Hok Hn Hbuf Hnd Hids. sizes. unfold write_direct.
  destruct (for_inv (fun i '(b', off) => off = i * BLOCK_SIZE /\ bm_ok b' /\
      (forall id, 0 <= id -> id ∉ take (Z.to_nat i) ids -> blk b' id = blk b id) /\
      blocks_bytes b' (take (Z.to_nat i) ids) = take (Z.to_nat (i * BLOCK_SIZE)) buf) 0 n
    (fun i '(b, buf_offset) => id ← load ids i; b ← write_block b id zero_block;
       b ← write_block b id (drop (Z.to_nat buf_offset) buf);
       Ret (b, buf_offset + BLOCK_SIZE)) (b, 0)) as ([b' off] & -> & -> & ?); [lia| | |eauto].
  - split; [lia|]. split; [done|]. split; [done|]. by rewrite Z.mul_0_l, !take_0.
  - intros i [b1 off] Hi (-> & Hok1 & Hs1 & Hb1).
    destruct (lookup_lt_is_Some_2 ids (Z.to_nat i)) as [id Hid]; [lia|].
    rewrite (load_Ret _ _ id) by (lia || done). rewrite bind_Ret.
    assert (take (Z.to_nat (i + 1)) ids = take (Z.to_nat i) ids ++ [id]) as Et.
    { replace (Z.to_nat (i + 1)) with (S (Z.to_nat i)) by lia. by apply take_S_r. }
    assert (id ∈ take (Z.to_nat n) ids) as Hin.
    { apply (elem_of_take_le _ (Z.to_nat (i + 1))); [lia|]. rewrite Et, elem_of_app.
      right. by left. }
    pose proof (Hids id Hin) as Hr.
    assert (id ∉ take (Z.to_nat i) ids) as Hni.
    { replace (Z.to_nat n) with (Z.to_nat (i + 1) + (Z.to_nat n - Z.to_nat (i + 1)))%nat in Hnd by lia.
      rewrite <-take_take_drop, Et in Hnd. apply NoDup_app in Hnd as (Hnd & _ & _).
      apply NoDup_app in Hnd as (_ & Hd & _). intros Hx. apply (Hd id Hx). by left. }
    rewrite write_block_in by (len || done). rewrite bind_Ret.
    assert (bm_ok (set_blk b1 id (take BS zero_block))) as Hokz.
    { apply set_blk_ok; [done|]. rewrite length_take, length_zero_block. lia. }
    rewrite write_block_in by (done || (rewrite length_drop; lia)). rewrite bind_Ret.
    eexists. split; [done|].
    set (blk' := take BS (drop (Z.to_nat (i * BLOCK_SIZE)) buf)).
    assert (length blk' = BS) as HL by (unfold blk'; rewrite length_take, length_drop; lia).
    split; [lia|]. split; [by apply set_blk_ok|].
    assert (forall id', 0 <= id' -> id' <> id ->
      blk (set_blk (set_blk b1 id (take BS zero_block)) id blk') id' = blk b1 id') as Hne.
    { intros id' H' Hne. rewrite !blk_set_ne by lia. done. }
    rewrite Et. split.
    + intros id' H' Hni'. rewrite elem_of_app, list_elem_of_singleton in Hni'.
      rewrite Hne by tauto. apply Hs1; tauto.
    + rewrite blocks_bytes_app. unfold blocks_bytes at 2. cbn [fmap list_fmap concat].
      rewrite app_nil_r, blk_set_eq by done.
      replace (blocks_bytes _ (take (Z.to_nat i) ids)) with (take (Z.to_nat (i * BLOCK_SIZE)) buf).
      2: { rewrite <-Hb1. unfold blocks_bytes. f_equal. apply list_fmap_ext.
           intros k id' Hk. symmetry. apply list_elem_of_lookup_2 in Hk.
           apply Hne; [|intros ->; done]. apply Hids.
           eapply elem_of_take_le; [|exact Hk]. lia. }
      unfold blk'. rewrite take_take_drop. f_equal. lia.
Qed.

(* ------------------------------------------------------------------ *)
(** ** Writing a file within the direct blocks *)

Lemma need_block_count_spec size : 0 <= size < 2 ^ 31 -> need_block_count size = block_count size.
Proof.
  intros Hs. pose proof (block_count_bounds size ltac:(lia)) as Hb. sizes.
  unfold need_block_count. rewrite Z.rem_mod_nonneg, Z.quot_div_nonneg by lia.
  fold (block_count size). apply u32_id. nia.
Qed.

(** The end of every write: the inode of file [i] is replaced on a disk [b2]
    on which the blocks of the new inode are written and everything that
    other files use is as before. *)
Lemma finish_write b i b2 ino' : fs_ok b -> live b i -> bm_ok b2 -> inode_ok ino' ->
  i_type ino' <> 0 ->
  (forall id, 0 <= id < FIRST_DATA -> id <> BITMAP -> blk b2 id = blk b id) ->
  (forall j id, j <> i -> live b j -> id ∈ owned b (ino_at b j) ->
     blk b2 id = blk b id /\ used b2 id = true) ->
  block_count (i_size ino') <= MAXFILE -> NoDup (owned b2 ino') ->
  (forall id, id ∈ owned b2 ino' -> FIRST_DATA <= id < BLOCK_NUM /\ used b2 id = true /\
     forall j, j <> i -> live b j -> id ∉ owned b (ino_at b j)) ->
  let b' := put_ino b2 i ino' in
  fs_ok b' /\
  file b' i = Some (i_type ino',
    take (Z.to_nat (i_size ino')) (blocks_bytes b2 (file_ids b2 ino'))) /\
  (forall j, j <> i -> file b' j = file b j) /\ (forall j, used b' j = used b2 j).
Proof.
  intros Hfs [Hi _] Hok2 Hino' Ht Hmeta Hother Hmax Hnd Hown b'.
  assert (ino_at b' i = ino') as Ei by (by apply ino_at_put_eq).
  assert (forall j, used b' j = used b2 j) as Hused by (intros; by apply used_put_ino).
  assert (forall id, FIRST_DATA <= id -> blk b' id = blk b2 id) as Hput.
  { intros id Hid. destruct (data_block id i) as (? & ? & ?); [done|done|]. by apply blk_put_ino. }
  assert (forall id, id ∈ owned b2 ino' -> blk b' id = blk b2 id) as Hframe.
  { intros id Hid. apply Hput. by destruct (Hown id Hid) as [[? _] _]. }
  assert (forall j, inum_ok j -> j <> i -> ino_at b' j = ino_at b j) as Hino.
  { intros j Hj Hne. unfold b'. rewrite ino_at_put_ne by done. unfold ino_at. f_equal.
    pose proof (iblock_range j Hj) as (? & ? & ?). apply Hmeta; [lia|done]. }
  assert (forall j id, j <> i -> live b j -> id ∈ owned b (ino_at b j) ->
    blk b' id = blk b id /\ used b' id = true) as Hoth'.
  { intros j id Hne Hj Hid. destruct (fs_data b Hfs j id Hj Hid) as [Hd _].
    rewrite Hused, Hput by lia. by eapply Hother. }
  split; [|split; [|split; [|done]]].
  - apply (fs_ok_update b b' i); try done; [by apply put_ino_ok|].
    intros _. rewrite Ei, (owned_frame b2 b' ino' Hframe). split; [done|]. split; [done|].
    intros id Hid. rewrite Hused. by apply Hown.
  - unfold file. rewrite decide_True by (split; [done|by rewrite Ei]). unfold content.
    by rewrite Ei, (bytes_frame b2 b' ino' Hframe).
  - intros j Hj. by apply (file_other b b' i).
Qed.

(** What a writer has prepared when the direct blocks are to be written:
    the bitmap of [b1] differs from that of [b], [blks] lists [need] distinct
    used data blocks that no other file owns, and the blocks of other files
    are still marked. *)
Record prepared (b : block_manager) (i : Z) (b1 : block_manager) (blks : list Z) (need : Z)
    : Prop := {
  pr_bm : bm_ok b1;
  pr_same : same_but_bitmap b b1;
  pr_len : length blks = 101%nat;
  pr_u32 : Forall (fun x => 0 <= x < 2 ^ 32) blks;
  pr_nodup : NoDup (take (Z.to_nat need) blks);
  pr_ids : forall id, id ∈ take (Z.to_nat need) blks ->
    FIRST_DATA <= id < BLOCK_NUM /\ used b1 id = true /\
    forall j, j <> i -> live b j -> id ∉ owned b (ino_at b j);
  pr_oth : forall j id, j <> i -> live b j -> id ∈ owned b (ino_at b j) -> used b1 id = true;
}.

(** The inode [write_back] stores. *)
Definition written (E : env) (ino : inode) (blks : list Z) (size : Z) : inode :=
  mkInode (i_type ino) (u32 size) (i_atime ino) (now E 1) (now E 0) blks.

Lemma written_ok E ino blks size : inode_ok ino -> length blks = 101%nat ->
  Forall (fun x => 0 <= x < 2 ^ 32) blks -> inode_ok (written E ino blks size).
Proof. intros [] ? ?. split; cbn [written i_type i_size i_atime i_mtime i_ctime i_blocks]; try done;
  apply u32_range. Qed.

Lemma write_back_spec E b2 i ino blks size : bm_ok b2 -> inum_ok i ->
  inode_ok (written E ino blks size) ->
  write_back E b2 i ino blks size = Ret (put_ino b2 i (written E ino blks size)).
Proof. intros. unfold write_back. fold (written E ino blks size). by apply put_inode_spec. Qed.

(** The tail of the cases without indirect blocks. *)
Lemma write_tail_spec E b i b1 blks buf size :
  fs_ok b -> live b i -> 0 <= size -> block_count size <= NDIRECT ->
  block_count size * BLOCK_SIZE <= Z.of_nat (length buf) ->
  prepared b i b1 blks (block_count size) ->
  exists b', ('(b2, _) ← write_direct b1 blks buf (block_count size);
              write_back E b2 i (ino_at b i) blks size) = Ret b' /\
    fs_ok b' /\ file b' i = Some (i_type (ino_at b i), take (Z.to_nat size) buf) /\
    (forall j, j <> i -> file b' j = file b j) /\ (forall j, used b' j = used b1 j).
Proof.
  intros Hfs Hl Hs Hn Hbuf [Hok1 Hsame Hlen Hu32 Hnd Hids Hoth]. fsizes.
  pose proof (block_count_bounds size Hs) as Hb. pose proof Hl as [Hi Ht].
  assert (forall id, 0 <= id < FIRST_DATA -> id ∉ take (Z.to_nat (block_count size)) blks) as Hmeta.
  { intros id Hid Hin. destruct (Hids id Hin) as [? _]. lia. }
  destruct (write_direct_spec b1 blks buf (block_count size)) as (b2 & -> & Hok2 & Hkeep & Hbytes);
    [done|lia|done|done| |].
  { intros id Hid. destruct (Hids id Hid) as [? _]. rng. }
  set (ino' := written E (ino_at b i) blks size).
  assert (inode_ok ino') as Hino' by (apply written_ok; done || apply ino_at_ok).
  rewrite bind_Ret, write_back_spec by done.
  assert (i_size ino' = size) as Es by (apply u32_id; nia).
  assert (file_ids b2 ino' = take (Z.to_nat (block_count size)) blks) as Ef.
  { unfold file_ids. rewrite Es. case_tests. done. }
  assert (owned b2 ino' = take (Z.to_nat (block_count size)) blks) as Eo.
  { unfold owned. rewrite Ef, Es. case_tests. apply app_nil_r. }
  assert (forall j, used b2 j = used b1 j) as Hused.
  { intros j. unfold used. rewrite Hkeep; [done|rng|]. apply Hmeta. rng. }
  destruct (finish_write b i b2 ino') as (Hfs' & Hf' & Ho' & Hu'); try done.
  - intros id Hid Hne. rewrite Hkeep; [|lia|by apply Hmeta]. apply Hsame; [lia|done].
  - intros j id Hj Hlj Hid. rewrite Hused. split; [|by eapply Hoth].
    destruct (fs_data b Hfs j id Hlj Hid) as [Hd _].
    rewrite Hkeep; [apply Hsame; rng|rng|]. intros Hin.
    destruct (Hids id Hin) as (_ & _ & Hno). by apply (Hno j).
  - rewrite Es. lia.
  - by rewrite Eo.
  - intros id. rewrite Eo, Hused. apply Hids.
  - exists (put_ino b2 i ino'). split; [done|]. split; [done|]. split; [|split; [done|]].
    + rewrite Hf', Es, Ef, Hbytes, take_take. do 3 f_equal. lia.
    + intros j. by rewrite Hu'.
Qed.

(** The blocks of file [i] that are kept, or that were free, may be used by
    a writer of file [i]. *)
Lemma own_block b i id : fs_ok b -> live b i -> id ∈ owned b (ino_at b i) ->
  FIRST_DATA <= id < BLOCK_NUM /\ used b id = true /\
  forall j, j <> i -> live b j -> id ∉ owned b (ino_at b j).
Proof.
  intros Hfs Hl Hid. destruct (fs_data b Hfs i id Hl Hid). split; [done|]. split; [done|].
  intros j Hj Hlj Hin. apply Hj. by eapply fs_disj.
Qed.

Lemma free_block_owned b j id : fs_ok b -> live b j -> id ∈ free_list b -> id ∉ owned b (ino_at b j).
Proof.
  intros Hfs Hl [_ Hu]%elem_of_free_list Hid. destruct (fs_data b Hfs j id Hl Hid). congruence.
Qed.

Lemma direct_owned b i k : fs_ok b -> live b i -> block_count (i_size (ino_at b i)) <= NDIRECT ->
  owned b (ino_at b i) =
  take (Z.to_nat (block_count (i_size (ino_at b i)))) (i_blocks (ino_at b i)) /\
  (k <= Z.to_nat (block_count (i_size (ino_at b i))) ->
   NoDup (take k (i_blocks (ino_at b i))))%nat.
Proof.
  intros Hfs Hl Hn. assert (owned b (ino_at b i) =
    take (Z.to_nat (block_count (i_size (ino_at b i)))) (i_blocks (ino_at b i))) as Eo.
  { unfold owned, file_ids. case_tests. apply app_nil_r. }
  split; [done|]. intros Hk. pose proof (fs_nodup b Hfs i Hl) as Hnd. rewrite Eo in Hnd.
  replace k with (min k (Z.to_nat (block_count (i_size (ino_at b i))))) by lia.
  rewrite <-take_take. by apply NoDup_take.
Qed.

(** Growing within the direct blocks (case 1-1). *)
Lemma prepared_grow b i b1 need (n := block_count (i_size (ino_at b i)))
    (new := take (Z.to_nat (need - n)) (free_list b)) :
  fs_ok b -> live b i -> n <= need <= NDIRECT -> need - n <= Z.of_nat (length (free_list b)) ->
  bm_ok b1 -> same_but_bitmap b b1 ->
  (forall j, 0 <= j -> used b1 j = true <-> used b j = true \/ j ∈ new) ->
  prepared b i b1 (take (Z.to_nat n) (i_blocks (ino_at b i)) ++ new ++
                   drop (Z.to_nat need) (i_blocks (ino_at b i))) need.
Proof.
  intros Hfs Hl Hn Hfree Hok1 Hs1 Hu1. fsizes. unfold n in *. clear n.
  pose proof (nblocks_bound b Hfs i Hl) as Hmax.
  destruct (direct_owned b i (Z.to_nat (block_count (i_size (ino_at b i))))) as [Eo Hnd];
    [done|done|lia|].
  pose proof (ok_nblocks _ (ino_at_ok b i)) as Hlen.
  pose proof (ok_blocks _ (ino_at_ok b i)) as Hu32.
  assert (forall id, id ∈ new -> id ∈ free_list b) as Hnew
    by (intros id; apply elem_of_take_incl).
  set (old := take (Z.to_nat (block_count (i_size (ino_at b i)))) (i_blocks (ino_at b i))) in *.
  assert (take (Z.to_nat need) (old ++ new ++ drop (Z.to_nat need) (i_blocks (ino_at b i))) =
    old ++ new) as Et.
  { rewrite app_assoc. apply take_app_length'. unfold old, new.
    rewrite length_app, !length_take. lia. }
  split; [done|done|..].
  - unfold old, new. rewrite !length_app, !length_take, length_drop. lia.
  - unfold old. rewrite !Forall_app. split; [by apply Forall_take|]. split; [|by apply Forall_drop].
    apply Forall_forall. intros id Hid%Hnew%elem_of_free_list. rng.
  - rewrite Et. apply NoDup_app. split; [by apply Hnd|]. split.
    + intros id Hid Hin%Hnew. rewrite <-Eo in Hid. by eapply free_block_owned.
    + apply NoDup_take, free_list_NoDup.
  - rewrite Et. intros id [Hid|Hid]%elem_of_app.
    + rewrite <-Eo in Hid. destruct (own_block b i id Hfs Hl Hid) as (Hd & Hu & Hno).
      split; [done|]. split; [|done]. apply Hu1; [rng|by left].
    + pose proof (Hnew id Hid) as Hf. pose proof Hf as [Hd _]%elem_of_free_list.
      split; [done|]. split; [apply Hu1; [rng|by right]|]. intros j _ Hlj. by apply free_block_owned.
  - intros j id Hj Hlj Hid. destruct (fs_data b Hfs j id Hlj Hid). apply Hu1; [rng|by left].
Qed.

(** The first [need] blocks of a file are direct ones. *)
Lemma take_owned b i need : fs_ok b -> live b i ->
  0 <= need <= block_count (i_size (ino_at b i)) -> need <= NDIRECT ->
  take (Z.to_nat need) (owned b (ino_at b i)) = take (Z.to_nat need) (i_blocks (ino_at b i)).
Proof.
  intros Hfs Hl Hn Hd. pose proof (ok_nblocks _ (ino_at_ok b i)) as Hlen. fsizes.
  unfold owned, file_ids. case_tests.
  - rewrite app_nil_r, take_take. f_equal. lia.
  - rewrite <-app_assoc, take_app_le by (rewrite length_take; lia).
    rewrite take_take. f_equal. lia.
Qed.

(** Shrinking: the blocks after the first [need] are given back (cases
    1-2, 1-3 and 1-4). *)
Lemma prepared_shrink b i b1 need (n := block_count (i_size (ino_at b i))) :
  fs_ok b -> live b i -> 0 <= need <= n -> need <= NDIRECT ->
  bm_ok b1 -> same_but_bitmap b b1 ->
  (forall j, 0 <= j -> used b1 j = true <->
     used b j = true /\ j ∉ drop (Z.to_nat need) (owned b (ino_at b i))) ->
  prepared b i b1 (i_blocks (ino_at b i)) need.
Proof.
  intros Hfs Hl Hn Hd Hok1 Hs1 Hu1.
  pose proof (take_owned b i need Hfs Hl Hn Hd) as Et.
  pose proof (fs_nodup b Hfs i Hl) as Hnd.
  rewrite <-(take_drop (Z.to_nat need) (owned b (ino_at b i))), Et in Hnd.
  apply NoDup_app in Hnd as (Hnd & Hdisj & _).
  split; [done|done|apply ino_at_ok|apply ino_at_ok|done|..].
  - intros id Hid. assert (id ∈ owned b (ino_at b i)) as Ho.
    { apply (elem_of_take_incl _ (Z.to_nat need)). by rewrite Et. }
    destruct (own_block b i id Hfs Hl Ho) as (Hr & Hu & Hno).
    split; [done|]. split; [|done]. apply Hu1; [rng|]. auto.
  - intros j id Hj Hlj Hid. destruct (own_block b j id Hfs Hlj Hid) as (Hr & Hu & Hno).
    apply Hu1; [rng|]. split; [done|]. intros Hin%elem_of_drop_incl. by apply (Hno i).
Qed.

(** The number of blocks a file of a given size owns. *)
Definition blocks_for (size : Z) : Z :=
  block_count size + (if block_count size <=? NDIRECT then 0 else 1).

Lemma length_owned b i : fs_ok b -> live b i ->
  Z.of_nat (length (owned b (ino_at b i))) = blocks_for (i_size (ino_at b i)).
Proof.
  intros Hfs Hl. unfold owned, blocks_for. rewrite length_app, Nat2Z.inj_add.
  rewrite length_file_ids by done. case_tests; done.
Qed.

(** Giving back blocks of a file puts them on the free list. *)
Lemma free_list_release b i b1 (F : list Z) : fs_ok b -> live b i -> NoDup F ->
  (forall id, id ∈ F -> id ∈ owned b (ino_at b i)) ->
  (forall j, 0 <= j -> used b1 j = true <-> used b j = true /\ j ∉ F) ->
  free_list b1 ≡ₚ free_list b ++ F.
Proof.
  intros Hfs Hl Hnd HF Hu1. apply NoDup_Permutation.
  - apply free_list_NoDup.
  - apply NoDup_app. split; [apply free_list_NoDup|]. split; [|done].
    intros id Hid Hin%HF. by eapply free_block_owned.
  - intros id. rewrite elem_of_app, !elem_of_free_list, <-!not_true_iff_false.
    destruct (decide (id ∈ F)) as [Hin|Hin].
    + destruct (own_block b i id Hfs Hl (HF id Hin)) as (Hr & _ & _).
      rewrite Hu1 by rng. tauto.
    + split; [|intros [[Hr ?]|?]; [|done]]; rewrite ?Hu1 by rng; [|tauto].
      intros [Hr Hn]. left. rewrite Hu1 in Hn by rng. tauto.
Qed.

Lemma free_list_ext b b' : (forall j, used b' j = used b j) -> free_list b' = free_list b.
Proof. intros H. unfold free_list. apply filter_ext_in. intros id _. by rewrite H. Qed.

(** The four cases of [write_file] for at most [NDIRECT] blocks end in
    [write_tail_spec] with these disks. *)
Definition small_write (E : env) (b : block_manager) (i : Z) (buf : list byte) (size : Z)
    (r : outcome block_manager) : Prop :=
  exists b1 blks, prepared b i b1 blks (block_count size) /\
    Z.of_nat (length (free_list b1)) + block_count size =
    Z.of_nat (length (free_list b)) + blocks_for (i_size (ino_at b i)) /\
    r = ('(b2, _) ← write_direct b1 blks buf (block_count size);
         write_back E b2 i (ino_at b i) blks size).

Section small.
Context (E : env) (b : block_manager) (i : Z) (buf : list byte) (size : Z).
Context (Hfs : fs_ok b) (Hl : live b i) (Hs : 0 <= size).
#[local] Abbreviation ino := (ino_at b i).
#[local] Abbreviation n := (block_count (i_size ino)).
#[local] Abbreviation need := (block_count size).
Context (Hsmall : need <= NDIRECT).

Lemma case1_1_spec : n < need -> need - n <= Z.of_nat (length (free_list b)) ->
  small_write E b i buf size (write_case1_1 E b i ino buf size need n).
Proof using Hfs Hl Hs Hsmall.
  intros Hgrow Hfree. fsizes. pose proof (nblocks_bound b Hfs i Hl) as Hmax.
  pose proof (ok_nblocks _ (ino_at_ok b i)) as Hlen. unfold write_case1_1.
  destruct (alloc_blocks_spec E 1 b (i_blocks ino) n need) as (b1 & -> & Hok1 & Hs1 & Hf1 & Hu1);
    [eauto with yfs|lia|lia|done|].
  rewrite bind_Ret. eexists b1, _. split; [apply prepared_grow; lia || done|]. split; [|done].
  rewrite Hf1, length_drop. unfold blocks_for. case_tests.
Qed.

Lemma shrink_spec b1 : need <= n -> bm_ok b1 -> same_but_bitmap b b1 ->
  (forall j, 0 <= j -> used b1 j = true <->
     used b j = true /\ j ∉ drop (Z.to_nat need) (owned b ino)) ->
  small_write E b i buf size
    ('(b2, _) ← write_direct b1 (i_blocks ino) buf need;
     write_back E b2 i ino (i_blocks ino) size).
Proof using Hfs Hl Hs Hsmall.
  intros Hle Hok1 Hs1 Hu1. pose proof (block_count_bounds size Hs) as Hb.
  exists b1, (i_blocks ino). split; [apply prepared_shrink; lia || done|]. split; [|done].
  rewrite (free_list_release b i b1 (drop (Z.to_nat need) (owned b ino))); [|done|done|..|done].
  - rewrite length_app, length_drop. pose proof (length_owned b i Hfs Hl) as Hlo.
    revert Hlo. unfold blocks_for. case_tests.
  - by apply NoDup_drop, fs_nodup.
  - intros id. apply elem_of_drop_incl.
Qed.

Lemma case1_2_spec : n = need ->
  small_write E b i buf size (write_case1_2 E b i ino buf size need).
Proof using Hfs Hl Hs Hsmall.
  intros Heq. unfold write_case1_2. apply shrink_spec; [lia|eauto with yfs|done|].
  intros j Hj. rewrite drop_ge; [rewrite elem_of_nil; tauto|].
  pose proof (length_owned b i Hfs Hl) as Hlo. unfold blocks_for in Hlo.
  revert Hlo. case_tests.
Qed.

Lemma case1_3_spec : need < n -> n <= NDIRECT ->
  small_write E b i buf size (write_case1_3 E b i ino buf size need n).
Proof using Hfs Hl Hs Hsmall.
  intros Hlt Hle. fsizes. pose proof (block_count_bounds size Hs) as Hb.
  pose proof (ok_nblocks _ (ino_at_ok b i)) as Hlen.
  destruct (direct_owned b i O Hfs Hl Hle) as [Eo _].
  assert (sub (i_blocks ino) need n = drop (Z.to_nat need) (owned b ino)) as Esub.
  { unfold sub. rewrite Eo, skipn_firstn_comm. f_equal. lia. }
  unfold write_case1_3.
  destruct (free_blocks_spec E 2 b (i_blocks ino) need n) as (b1 & -> & Hok1 & Hs1 & Hu1);
    [eauto with yfs|lia|lia| |].
  { intros id Hid. rewrite Esub in Hid. apply elem_of_drop_incl in Hid.
    pose proof (owned_range b i id Hfs Hl Hid). rng. }
  rewrite Esub in Hu1. rewrite bind_Ret. apply shrink_spec; lia || done.
Qed.

Lemma blocks_ind : i_blocks ino = take (Z.to_nat NDIRECT) (i_blocks ino) ++ [ind_id ino].
Proof using Type.
  pose proof (ok_nblocks _ (ino_at_ok b i)) as Hlen. unfold ind_id.
  destruct (lookup_lt_is_Some_2 (i_blocks ino) (Z.to_nat NDIRECT)) as [x Hx];
    [rewrite Hlen; unfold NDIRECT; lia|].
  rewrite Hx. change (default 0 (Some x)) with x. rewrite <-(take_S_r _ _ _ Hx). symmetry. apply take_ge.
  rewrite Hlen. unfold NDIRECT. lia.
Qed.

(** The blocks case 1-4 gives back: the indirect ones, and those of the
    inode from [need] on, the block that lists the indirect ones included. *)
Lemma large_release id : NDIRECT < n ->
  id ∈ drop (Z.to_nat need) (owned b ino) <->
  id ∈ sub (block_ids (blk b (ind_id ino))) 0 (n - NDIRECT) \/
  id ∈ sub (i_blocks ino) need (NDIRECT + 1).
Proof using Hfs Hl Hs Hsmall.
  intros Hn. fsizes. pose proof (block_count_bounds size Hs) as Hb.
  pose proof (ok_nblocks _ (ino_at_ok b i)) as Hlen.
  destruct (large_ids b Hfs i Hl Hn) as (Ef & _).
  assert (owned b ino = take (Z.to_nat NDIRECT) (i_blocks ino) ++
    take (Z.to_nat (n - NDIRECT)) (block_ids (blk b (ind_id ino))) ++ [ind_id ino]) as Eo.
  { unfold owned. rewrite Ef, <-app_assoc. case_tests. done. }
  assert (sub (i_blocks ino) need (NDIRECT + 1) =
    drop (Z.to_nat need) (take (Z.to_nat NDIRECT) (i_blocks ino)) ++ [ind_id ino]) as Esub.
  { unfold sub. rewrite take_ge by (rewrite length_drop; lia).
    rewrite blocks_ind at 1. rewrite drop_app_le; [done|]. rewrite length_take. lia. }
  rewrite Esub, Eo, drop_app_le by (rewrite length_take; lia).
  unfold sub. rewrite Z.sub_0_r, drop_0, !elem_of_app. tauto.
Qed.

Lemma case1_4_spec : NDIRECT < n ->
  small_write E b i buf size (write_case1_4 E b i ino buf size need n).
Proof using Hfs Hl Hs Hsmall.
  intros Hn. fsizes. pose proof (block_count_bounds size Hs) as Hb.
  pose proof (nblocks_bound b Hfs i Hl) as Hmax.
  pose proof (ok_nblocks _ (ino_at_ok b i)) as Hlen.
  destruct (large_ids b Hfs i Hl Hn) as (_ & _ & _ & Hind).
  pose proof (owned_range b i _ Hfs Hl Hind) as Hir.
  assert (forall id, id ∈ drop (Z.to_nat need) (owned b ino) -> 0 <= id < BPB) as Hr.
  { intros id Hid%elem_of_drop_incl. pose proof (owned_range b i id Hfs Hl Hid). rng. }
  unfold write_case1_4. rewrite load_ind_id, bind_Ret by apply ino_at_ok.
  rewrite read_block_in by (done || eauto with yfs).
  destruct (free_blocks_spec E 4 b (block_ids (blk b (ind_id ino))) 0 (n - NDIRECT))
    as (b1 & -> & Hok1 & Hs1 & Hu1); [eauto with yfs|lia|rewrite length_block_ids; lia| |].
  { intros id Hid. apply Hr. apply large_release; auto. }
  rewrite bind_Ret.
  destruct (free_blocks_spec E 5 b1 (i_blocks ino) need (NDIRECT + 1))
    as (b2 & -> & Hok2 & Hs2 & Hu2); [done|lia|lia| |].
  { intros id Hid. apply Hr. apply large_release; auto. }
  rewrite bind_Ret. apply shrink_spec; [lia|done|by eapply same_but_bitmap_trans|].
  intros j Hj. rewrite Hu2, Hu1, large_release by done. tauto.
Qed.
End small.

(** All of [write_file] for at most [NDIRECT] blocks. *)
Lemma write_file_small E b i buf size : fs_ok b -> live b i -> 0 <= size -> block_count size <= NDIRECT ->
  block_count size - blocks_for (i_size (ino_at b i)) <= Z.of_nat (length (free_list b)) ->
  small_write E b i buf size (write_file E b i buf size).
Proof.
  intros Hfs Hl Hs Hn Hfree. fsizes. pose proof (block_count_bounds size Hs) as Hb.
  unfold write_file. rewrite get_inode_live by eauto with yfs.
  rewrite need_block_count_spec by nia. unfold blocks_for in Hfree.
  destruct (Z.ltb_spec MAXFILE (block_count size)); [lia|].
  destruct (Z.leb_spec (block_count size) NDIRECT); [|lia].
  destruct (Z.ltb_spec (block_count (i_size (ino_at b i))) (block_count size)).
  { apply case1_1_spec; try done. revert Hfree. case_tests. }
  destruct (Z.eqb_spec (block_count (i_size (ino_at b i))) (block_count size)).
  { by apply case1_2_spec. }
  destruct (Z.ltb_spec (block_count size) (block_count (i_size (ino_at b i)))); [|lia].
  destruct (Z.leb_spec (block_count (i_size (ino_at b i))) NDIRECT); cbn [andb];
    [by apply case1_3_spec|by apply case1_4_spec].
Qed.

(** A buffer that ends inside the last block is read past its end. *)
Lemma write_direct_short b ids buf n :
  bm_ok b -> 0 < n <= Z.of_nat (length ids) -> (n - 1) * BLOCK_SIZE <= Z.of_nat (length buf) < n * BLOCK_SIZE ->
  NoDup (take (Z.to_nat n) ids) ->
  (forall id, id ∈ take (Z.to_nat n) ids -> 0 <= id < BLOCK_NUM) ->
  write_direct b ids buf n = Undef.
Proof.
  intros Hok Hn Hbuf Hnd Hids. sizes. unfold write_direct. rewrite for_last by lia.
  assert (take (Z.to_nat n) ids = take (Z.to_nat (n - 1)) ids ++ drop (Z.to_nat (n - 1)) (take (Z.to_nat n) ids)) as Et.
  { rewrite <-(take_drop (Z.to_nat (n - 1)) (take (Z.to_nat n) ids)) at 1. f_equal. rewrite take_take. f_equal. lia. }
  destruct (write_direct_spec b ids buf (n - 1)) as (b' & E & Hok' & _); [done|lia|lia| |..].
  { rewrite Et in Hnd. by apply NoDup_app in Hnd as [? _]. }
  { intros id Hid. apply Hids. rewrite Et, elem_of_app. by left. }
  unfold write_direct in E. rewrite E, bind_Ret.
  destruct (lookup_lt_is_Some_2 ids (Z.to_nat (n - 1))) as [id Hid]; [lia|].
  rewrite (load_Ret _ _ id) by (lia || done). rewrite bind_Ret.
  assert (0 <= id < BLOCK_NUM) as Hr.
  { apply Hids, (list_elem_of_lookup_2 _ (Z.to_nat (n - 1))). rewrite lookup_take_lt by lia. done. }
  rewrite write_block_in by (len || done). rewrite bind_Ret.
  unfold write_block at 1, disk_write_block. rewrite Z.geb_leb, length_drop. case_tests. done.
Qed.

Lemma write_file_short E b i t c buf size :
  fs_ok b -> file b i = Some (t, c) -> 0 <= size -> block_count size <= NDIRECT ->
  block_count size - blocks_for (Z.of_nat (length c)) <= Z.of_nat (length (free_list b)) ->
  size <= Z.of_nat (length buf) -> Z.of_nat (length buf) < block_count size * BLOCK_SIZE ->
  write_file E b i buf size = Undef.
Proof.
  intros Hfs (Hl & -> & ->)%file_Some Hs Hn. rewrite length_content by done. intros Hfree Hsz Hbuf.
  destruct (write_file_small E b i buf size Hfs Hl Hs Hn Hfree) as (b1 & blks & Hp & _ & ->).
  destruct Hp as [Hok1 _ Hlen _ Hnd Hids _]. fsizes. pose proof (block_count_bounds size Hs) as Hb.
  rewrite write_direct_short; [done|done|lia|lia|done|].
  intros id Hid. destruct (Hids id Hid) as [? _]. rng.
Qed.

(** Writing a file of at most [NDIRECT] blocks. *)
Lemma write_file_spec E b i t c buf size :
  fs_ok b -> file b i = Some (t, c) -> 0 <= size -> block_count size <= NDIRECT ->
  block_count size * BLOCK_SIZE <= Z.of_nat (length buf) ->
  block_count size - blocks_for (Z.of_nat (length c)) <= Z.of_nat (length (free_list b)) ->
  exists b', write_file E b i buf size = Ret b' /\ fs_ok b' /\
    file b' i = Some (t, take (Z.to_nat size) buf) /\
    (forall j, j <> i -> file b' j = file b j) /\
    Z.of_nat (length (free_list b')) + block_count size =
    Z.of_nat (length (free_list b)) + blocks_for (Z.of_nat (length c)).
Proof.
  intros Hfs (Hl & -> & ->)%file_Some Hs Hn Hbuf. rewrite length_content by done. intros Hfree.
  fsizes. pose proof (block_count_bounds size Hs) as Hb.
  destruct (write_file_small E b i buf size Hfs Hl Hs Hn Hfree) as (b1 & blks & Hp & Hc & ->).
  destruct (write_tail_spec E b i b1 blks buf size) as (b' & -> & Hfs' & Hf & Ho & Hu); try done.
  exists b'. rewrite (free_list_ext b1 b' Hu). done.
Qed.
