(* ===== verification/FileRemove.v ===== *)
(** * Removing files and the operations on block lists

    Correctness of [remove_file], [getattr], [get_block_ids],
    [append_block] and [complete] on a well-formed disk. *)

From S2P Require Import Prelude Disk Protocol Inode InodeFacts FileRead FileWrite.
Import extent_protocol.

(* ------------------------------------------------------------------ *)
(** ** Removing *)

Lemma zero_inode_ok : inode_ok zero_inode.
Proof. split; cbn [zero_inode i_type i_size i_atime i_mtime i_ctime i_blocks]; try lia; [done|].
  by apply Forall_replicate.
Qed.

Lemma same_ino_at b b1 j : same_but_bitmap b b1 -> inum_ok j -> ino_at b1 j = ino_at b j.
Proof.
  intros Hs Hj. unfold ino_at. f_equal. pose proof (iblock_range j Hj) as (? & ? & ?).
  apply Hs; lia.
Qed.

Lemma same_live b b1 j : same_but_bitmap b b1 -> live b1 j <-> live b j.
Proof.
  intros Hs. unfold live. split; intros [Hj Ht]; (split; [done|]);
    rewrite (same_ino_at b b1) in * by done; done.
Qed.

(** Clearing an inode after some of its blocks were given back. *)
Lemma free_inode_spec E b i b1 (F : list Z) : fs_ok b -> live b i -> bm_ok b1 -> same_but_bitmap b b1 ->
  (forall id, id ∈ F -> id ∈ owned b (ino_at b i)) ->
  (forall j, 0 <= j -> used b1 j = true <-> used b j = true /\ j ∉ F) ->
  exists b', free_inode E b1 i = Ret b' /\ fs_ok b' /\ file b' i = None /\
    (forall j, j <> i -> file b' j = file b j) /\ (forall j, used b' j = used b1 j).
Proof.
  intros Hfs Hl Hok1 Hs1 HF Hu1. pose proof Hl as [Hi _].
  unfold free_inode. rewrite get_inode_live by (done || by apply (same_live b b1)).
  rewrite put_inode_spec by (done || apply zero_inode_ok).
  set (b' := put_ino b1 i zero_inode).
  assert (ino_at b' i = zero_inode) as Ei by (apply ino_at_put_eq; done || apply zero_inode_ok).
  assert (~ live b' i) as Hdead by (intros [_ Ht]; by rewrite Ei in Ht).
  assert (forall j, used b' j = used b1 j) as Hused by (intros; by apply used_put_ino).
  assert (forall j, inum_ok j -> j <> i -> ino_at b' j = ino_at b j) as Hino.
  { intros j Hj Hne. unfold b'. rewrite ino_at_put_ne by done. by apply same_ino_at. }
  assert (forall j id, j <> i -> live b j -> id ∈ owned b (ino_at b j) ->
    blk b' id = blk b id /\ used b' id = true) as Hother.
  { intros j id Hne Hj Hid. destruct (own_block b j id Hfs Hj Hid) as (Hr & Hu & Hno).
    destruct (data_block id i) as (? & ? & ?); [lia|done|]. split.
    - unfold b'. rewrite blk_put_ino by done. by apply Hs1.
    - rewrite Hused. apply Hu1; [done|]. split; [done|]. intros Hin%HF. by apply (Hno i). }
  exists b'. split; [done|]. split; [|split; [by apply file_None|split; [|done]]].
  - apply (fs_ok_update b b' i); try done. apply put_ino_ok; done || apply zero_inode_ok.
  - intros j Hj. by apply (file_other b b' i).
Qed.

Lemma remove_block_count_spec size : 0 <= size -> size mod BLOCK_SIZE <> 0 ->
  remove_block_count size = block_count size - 1.
Proof.
  intros Hs Hm. unfold remove_block_count, block_count.
  destruct (Z.eqb_spec (size mod BLOCK_SIZE) 0); lia.
Qed.

(** A large file's blocks: the direct ones, the indirect ones, and the block
    that lists them. *)
Lemma large_owned b i (n := block_count (i_size (ino_at b i))) :
  fs_ok b -> live b i -> NDIRECT < n ->
  owned b (ino_at b i) = take (Z.to_nat NDIRECT) (i_blocks (ino_at b i)) ++
    take (Z.to_nat (n - NDIRECT)) (block_ids (blk b (ind_id (ino_at b i)))) ++
    [ind_id (ino_at b i)].
Proof.
  intros Hfs Hl Hn. destruct (large_ids b Hfs i Hl Hn) as (Ef & _).
  unfold owned. rewrite Ef, <-app_assoc. unfold n in *. case_tests. done.
Qed.

(** The blocks [remove_file] gives back for a size that is not a multiple of
    the block size: all but the last data block. *)
Definition removed (b : block_manager) (ino : inode) : list Z :=
  let k := remove_block_count (i_size ino) in
  if k <? NDIRECT then take (Z.to_nat k) (i_blocks ino)
  else take (Z.to_nat (k - NDIRECT)) (block_ids (blk b (ind_id ino))) ++ i_blocks ino.

Lemma removed_spec b i : fs_ok b -> live b i -> i_size (ino_at b i) mod BLOCK_SIZE <> 0 ->
  exists last, owned b (ino_at b i) ≡ₚ removed b (ino_at b i) ++ [last].
Proof.
  intros Hfs Hl Hm. pose proof (size_bound b Hfs i Hl) as Hs.
  pose proof (nblocks_bound b Hfs i Hl) as Hmax. fsizes.
  pose proof (ok_nblocks _ (ino_at_ok b i)) as Hlen. unfold removed.
  rewrite remove_block_count_spec by lia. set (n := block_count (i_size (ino_at b i))) in *.
  assert (1 <= n).
  { pose proof (block_count_bounds (i_size (ino_at b i))).
    assert (i_size (ino_at b i) <> 0) by (intros E; by rewrite E in Hm). lia. }
  destruct (Z.ltb_spec (n - 1) NDIRECT).
  - destruct (direct_owned b i O Hfs Hl) as [-> _]; [lia|]. fold n.
    destruct (lookup_lt_is_Some_2 (i_blocks (ino_at b i)) (Z.to_nat (n - 1))) as [x Hx]; [lia|].
    exists x. rewrite <-(take_S_r _ _ _ Hx). f_equiv. f_equal. lia.
  - rewrite large_owned by (done || lia). fold n.
    set (ids := block_ids _).
    destruct (lookup_lt_is_Some_2 ids (Z.to_nat (n - 1 - NDIRECT))) as [x Hx].
    { unfold ids. rewrite length_block_ids. lia. }
    exists x. rewrite (blocks_ind b i) at 2.
    replace (Z.to_nat (n - NDIRECT)) with (S (Z.to_nat (n - 1 - NDIRECT))) by lia.
    rewrite (take_S_r _ _ _ Hx). solve_Permutation.
Qed.

Lemma removed_owned b i : fs_ok b -> live b i -> i_size (ino_at b i) mod BLOCK_SIZE <> 0 ->
  NoDup (removed b (ino_at b i)) /\
  (forall id, id ∈ removed b (ino_at b i) -> id ∈ owned b (ino_at b i)) /\
  Z.of_nat (length (removed b (ino_at b i))) = blocks_for (i_size (ino_at b i)) - 1.
Proof.
  intros Hfs Hl Hm. destruct (removed_spec b i Hfs Hl Hm) as [x Hp].
  rewrite <-(length_owned b i Hfs Hl). pose proof (fs_nodup b Hfs i Hl) as Hnd.
  rewrite Hp in Hnd |- *. apply NoDup_app in Hnd as (? & _ & _).
  split; [done|]. split; [intros id Hid; rewrite Hp; apply elem_of_app; by left|].
  rewrite length_app. cbn. lia.
Qed.

Lemma sub_take (ids : list Z) n : sub ids 0 n = take (Z.to_nat n) ids.
Proof. unfold sub. by rewrite Z.sub_0_r, drop_0. Qed.

(** The block-freeing part of [remove_file]. *)
Lemma remove_blocks_spec E b i k (F := removed b (ino_at b i)) :
  fs_ok b -> live b i -> k = remove_block_count (i_size (ino_at b i)) ->
  i_size (ino_at b i) mod BLOCK_SIZE <> 0 ->
  exists b1, bm_ok b1 /\ same_but_bitmap b b1 /\
    (forall j, 0 <= j -> used b1 j = true <-> used b j = true /\ j ∉ F) /\
    remove_file E b i = free_inode E b1 i.
Proof.
  intros Hfs Hl Hk Hm. pose proof (size_bound b Hfs i Hl) as Hs.
  pose proof (nblocks_bound b Hfs i Hl) as Hmax. fsizes.
  pose proof (ok_nblocks _ (ino_at_ok b i)) as Hlen.
  destruct (removed_owned b i Hfs Hl Hm) as (_ & HF & _).
  assert (forall id, id ∈ F -> 0 <= id < BPB) as Hr.
  { intros id Hid%HF. pose proof (owned_range b i id Hfs Hl Hid). rng. }
  unfold F, removed in Hr |- *. unfold remove_file. rewrite get_inode_live by eauto with yfs.
  rewrite <-Hk in *. rewrite remove_block_count_spec in Hk by lia.
  pose proof (block_count_bounds (i_size (ino_at b i))) as Hb.
  assert (0 <= k).
  { assert (i_size (ino_at b i) <> 0) by (intros E0; by rewrite E0 in Hm). nia. }
  destruct (Z.ltb_spec k NDIRECT).
  - destruct (free_blocks_spec E 1 b (i_blocks (ino_at b i)) 0 k) as (b1 & -> & Hok & Hs1 & Hu1);
      [eauto with yfs|lia|lia|by rewrite sub_take|].
    rewrite sub_take in Hu1. eauto.
  - destruct (large_ids b Hfs i Hl) as (_ & _ & _ & Hind); [lia|].
    pose proof (owned_range b i _ Hfs Hl Hind) as Hir.
    rewrite load_ind_id, bind_Ret by apply ino_at_ok.
    rewrite read_block_in by (done || eauto with yfs).
    destruct (free_blocks_spec E 3 b (block_ids (blk b (ind_id (ino_at b i)))) 0 (k - NDIRECT))
      as (b1 & -> & Hok & Hs1 & Hu1); [eauto with yfs|lia|rewrite length_block_ids; lia| |].
    { intros id Hid. apply Hr, elem_of_app. left. by rewrite <-sub_take. }
    rewrite bind_Ret.
    assert (sub (i_blocks (ino_at b i)) 0 (NDIRECT + 1) = i_blocks (ino_at b i)) as Ea
      by (rewrite sub_take; apply take_ge; lia).
    destruct (free_blocks_spec E 4 b1 (i_blocks (ino_at b i)) 0 (NDIRECT + 1))
      as (b2 & -> & Hok2 & Hs2 & Hu2); [done|lia|lia| |].
    { intros id Hid. apply Hr, elem_of_app. right. by rewrite <-Ea. }
    exists b2. split; [done|]. split; [by eapply same_but_bitmap_trans|]. split; [|done].
    intros j Hj. rewrite Hu2, Hu1, Ea, sub_take, elem_of_app by done. tauto.
Qed.

(** Removing a file whose size is not a multiple of the block size. *)
Lemma remove_file_spec E b i t c : fs_ok b -> file b i = Some (t, c) ->
  Z.of_nat (length c) mod BLOCK_SIZE <> 0 ->
  exists b', remove_file E b i = Ret b' /\ fs_ok b' /\ file b' i = None /\
    (forall j, j <> i -> file b' j = file b j) /\
    Z.of_nat (length (free_list b')) + 1 =
    Z.of_nat (length (free_list b)) + blocks_for (Z.of_nat (length c)).
Proof.
  intros Hfs (Hl & -> & ->)%file_Some. rewrite length_content by done. intros Hm.
  destruct (removed_owned b i Hfs Hl Hm) as (Hnd & HF & Hlen).
  destruct (remove_blocks_spec E b i _ Hfs Hl eq_refl Hm) as (b1 & Hok1 & Hs1 & Hu1 & ->).
  destruct (free_inode_spec E b i b1 _ Hfs Hl Hok1 Hs1 HF Hu1) as (b' & -> & Hfs' & Hf & Ho & Hu).
  exists b'. do 4 (split; [done|]). rewrite (free_list_ext b1 b' Hu).
  rewrite (free_list_release b i b1 _ Hfs Hl Hnd HF Hu1), length_app. lia.
Qed.

Lemma remove_file_dead E b i : fs_ok b -> file b i = None -> remove_file E b i = Ret b.
Proof.
  intros Hfs Hl%file_None. unfold remove_file. by rewrite get_inode_dead by eauto with yfs.
Qed.

Lemma write_file_dead E b i buf size : fs_ok b -> file b i = None ->
  write_file E b i buf size = Ret b.
Proof.
  intros Hfs Hl%file_None. unfold write_file. by rewrite get_inode_dead by eauto with yfs.
Qed.

(** Removing an empty file gives back [blocks[0]] of its inode, which was never
    written. *)
Lemma remove_empty_spec E b i id : fs_ok b -> live b i -> i_size (ino_at b i) = 0 ->
  i_blocks (ino_at b i) !! 0%nat = Some id -> FIRST_DATA <= id < BLOCK_NUM ->
  exists b', remove_file E b i = Ret b' /\ bm_ok b' /\ used b' id = false /\
    (forall j, 0 <= j -> j <> id -> used b' j = used b j) /\
    forall j, j <> i -> live b j -> live b' j /\ owned b' (ino_at b' j) = owned b (ino_at b j).
Proof.
  intros Hfs Hl Hs Hid Hr. fsizes. pose proof Hl as [Hi _].
  assert (sub (i_blocks (ino_at b i)) 0 1 = [id]) as Esub.
  { rewrite sub_take. change (Z.to_nat 1) with 1%nat.
    destruct (i_blocks (ino_at b i)) as [|x l]; [done|]. by injection Hid as ->. }
  unfold remove_file. rewrite get_inode_live by eauto with yfs. rewrite Hs.
  change (remove_block_count 0) with 1. change (1 <? NDIRECT) with true. cbv iota.
  destruct (free_blocks_spec E 1 b (i_blocks (ino_at b i)) 0 1) as (b1 & -> & Hok1 & Hs1 & Hu1);
    [eauto with yfs|lia|rewrite (ok_nblocks _ (ino_at_ok b i)); lia| |].
  { rewrite Esub. intros x ->%list_elem_of_singleton. rng. }
  rewrite Esub in Hu1. rewrite bind_Ret. unfold free_inode.
  rewrite get_inode_live by (done || by apply (same_live b b1)).
  rewrite put_inode_spec by (done || apply zero_inode_ok).
  eexists. split; [done|]. split; [apply put_ino_ok; done || apply zero_inode_ok|].
  assert (forall j, 0 <= j -> used (put_ino b1 i zero_inode) j = true <->
    used b j = true /\ j ∉ [id]) as Hu by (intros; rewrite used_put_ino by done; by apply Hu1).
  split; [|split].
  - apply not_true_iff_false. rewrite Hu by rng. intros [_ Hx]. apply Hx. by left.
  - intros j Hj Hne. apply eq_true_iff_eq. rewrite Hu by done. rewrite list_elem_of_singleton. tauto.
  - intros j Hj Hlj.
    assert (forall j, inum_ok j -> j <> i -> ino_at (put_ino b1 i zero_inode) j = ino_at b j) as Hino.
    { intros j' Hj' Hne. rewrite ino_at_put_ne by done. by apply same_ino_at. }
    split; [by apply (live_other b _ i Hino j Hj)|].
    rewrite Hino by (done || apply Hlj). apply owned_frame. intros x Hx.
    destruct (fs_data b Hfs j x Hlj Hx) as [Hd _].
    destruct (data_block x i) as (? & ? & ?); [lia|done|]. rewrite blk_put_ino by done. by apply Hs1.
Qed.

(* ------------------------------------------------------------------ *)
(** ** Attributes and block lists *)

Lemma getattr_spec E b i t c : fs_ok b -> file b i = Some (t, c) -> 0 <= t ->
  exists at_ ct, getattr E b i = mkAttr t at_ at_ ct (Z.of_nat (length c)).
Proof.
  intros Hfs (Hl & -> & ->)%file_Some Ht. unfold getattr.
  rewrite get_inode_live by eauto with yfs. rewrite length_content by done.
  rewrite u32_id; [eauto|]. pose proof (ok_type _ (ino_at_ok b i)). lia.
Qed.

Lemma getattr_dead E b i : fs_ok b -> file b i = None -> getattr E b i = attr_zero.
Proof.
  intros Hfs Hl%file_None. unfold getattr. by rewrite get_inode_dead by eauto with yfs.
Qed.

Lemma push_ids_spec ids n acc : 0 <= n <= Z.of_nat (length ids) ->
  push_ids ids n acc = Ret (acc ++ take (Z.to_nat n) ids).
Proof.
  intros Hn. unfold push_ids.
  destruct (for_inv (fun k acc' => acc' = acc ++ take (Z.to_nat k) ids) 0 n
    (fun i acc => id ← load ids i; Ret (acc ++ [id])) acc) as (? & -> & ->); [lia| | |done].
  - by rewrite take_0, app_nil_r.
  - intros k ? Hk ->. destruct (lookup_lt_is_Some_2 ids (Z.to_nat k)) as [x Hx]; [lia|].
    rewrite (load_Ret _ _ x) by (lia || done). eexists. split; [done|].
    replace (Z.to_nat (k + 1)) with (S (Z.to_nat k)) by lia.
    by rewrite (take_S_r _ _ _ Hx), app_assoc.
Qed.

Lemma get_block_ids_spec E b i acc : fs_ok b -> live b i ->
  get_block_ids E b i acc = Ret (acc ++ file_ids b (ino_at b i)).
Proof.
  intros Hfs Hl. fsizes. pose proof (nblocks_bound b Hfs i Hl) as Hmax.
  pose proof (ok_nblocks _ (ino_at_ok b i)) as Hlen.
  unfold get_block_ids. rewrite get_inode_live by eauto with yfs.
  destruct (Z.leb_spec (block_count (i_size (ino_at b i))) NDIRECT) as [Hd|Hd].
  - rewrite push_ids_spec by lia. unfold file_ids. case_tests. done.
  - destruct (large_ids b Hfs i Hl) as (-> & _ & _ & Hind); [lia|].
    rewrite push_ids_spec, bind_Ret by lia. rewrite load_ind_id, bind_Ret by apply ino_at_ok.
    rewrite read_block_in by eauto using owned_range with yfs.
    rewrite push_ids_spec by (rewrite length_block_ids; lia). by rewrite app_assoc.
Qed.

Lemma get_block_ids_dead E b i acc : fs_ok b -> file b i = None -> get_block_ids E b i acc = Undef.
Proof.
  intros Hfs Hl%file_None. unfold get_block_ids. by rewrite get_inode_dead by eauto with yfs.
Qed.

(* ------------------------------------------------------------------ *)
(** ** complete: the size of a file is lowered *)

Lemma block_count_mono s1 s2 : 0 <= s1 <= s2 -> block_count s1 <= block_count s2.
Proof.
  intros Hs. apply block_count_le; [lia|]. pose proof (block_count_bounds s2). lia.
Qed.

Lemma shrink_ids b ino ino' : inode_ok ino -> i_blocks ino' = i_blocks ino ->
  0 <= i_size ino' <= i_size ino ->
  file_ids b ino' = take (Z.to_nat (block_count (i_size ino'))) (file_ids b ino) /\
  owned b ino' `sublist_of` owned b ino.
Proof.
  intros Hok Eb Hs. pose proof (block_count_mono _ _ Hs) as Hn. fsizes.
  pose proof (block_count_bounds (i_size ino')) as Hn'. pose proof (ok_nblocks _ Hok) as Hlen.
  assert (ind_id ino' = ind_id ino) as Ei by (unfold ind_id; by rewrite Eb).
  assert (file_ids b ino' = take (Z.to_nat (block_count (i_size ino'))) (file_ids b ino)) as Ef.
  { unfold file_ids. rewrite Eb, Ei. case_tests.
    - rewrite take_take. f_equal. lia.
    - rewrite take_app_le by (rewrite length_take; lia). rewrite take_take. f_equal. lia.
    - rewrite take_app_ge by (rewrite length_take; lia). f_equal.
      rewrite take_take, length_take. f_equal. lia. }
  split; [done|]. unfold owned. rewrite Ef, Ei.
  pose proof (sublist_take (file_ids b ino) (Z.to_nat (block_count (i_size ino')))).
  case_tests; [by apply sublist_app|rewrite app_nil_r; by apply sublist_inserts_r|].
  by apply sublist_app.
Qed.

(** Setting the size of a file to a smaller one truncates it; no other file
    changes, but the blocks beyond the new size stay marked. *)
Lemma complete_spec E b i t c size : fs_ok b -> file b i = Some (t, c) ->
  0 <= size <= Z.of_nat (length c) ->
  exists b', complete E b i size = Ret b' /\ fs_ok b' /\
    file b' i = Some (t, take (Z.to_nat size) c) /\
    (forall j, j <> i -> file b' j = file b j) /\ free_list b' = free_list b.
Proof.
  intros Hfs (Hl & -> & ->)%file_Some. rewrite length_content by done. intros Hs.
  pose proof (size_bound b Hfs i Hl) as Hmax. pose proof Hl as [Hi Ht].
  unfold complete. rewrite get_inode_live by eauto with yfs.
  set (ino' := mkInode _ _ _ _ _ _).
  assert (inode_ok ino') as Hok'.
  { apply mkInode_ok; try apply u32_range; [apply ino_at_ok|apply ino_at_ok|lia]. }
  rewrite put_inode_spec by eauto with yfs. set (b' := put_ino b i ino').
  destruct (shrink_ids b (ino_at b i) ino') as [Ef Hsub]; [apply ino_at_ok|done|done|].
  assert (ino_at b' i = ino') as Ei by (apply ino_at_put_eq; eauto with yfs).
  assert (forall j id, live b j -> id ∈ owned b (ino_at b j) ->
    blk b' id = blk b id /\ used b' id = true) as Hoth.
  { intros j id Hj Hid. destruct (fs_data b Hfs j id Hj Hid) as [Hr Hu].
    destruct (data_block id i) as (? & ? & ?); [lia|done|].
    split; [by apply blk_put_ino|unfold b'; by rewrite used_put_ino]. }
  assert (forall j, inum_ok j -> j <> i -> ino_at b' j = ino_at b j) as Hino
    by (intros; by apply ino_at_put_ne).
  assert (forall id, id ∈ owned b ino' -> id ∈ owned b (ino_at b i)) as Hin.
  { intros id Hid. by eapply elem_of_sublist. }
  assert (forall id, id ∈ owned b ino' -> blk b' id = blk b id) as Hsame
    by (intros id Hid%Hin; by eapply Hoth).
  exists b'. split; [done|]. split; [|split; [|split]].
  - apply (fs_ok_update b b' i); [done|by apply put_ino_ok; eauto with yfs|done|by eauto|].
    intros _. rewrite Ei, (owned_frame b b' ino' Hsame).
    split; [|split].
    + pose proof (fs_size b Hfs i Hl). etrans; [apply block_count_mono|done]. exact Hs.
    + eapply sublist_NoDup; [by apply (fs_nodup b Hfs i)|done].
    + intros id Hid%Hin. destruct (own_block b i id Hfs Hl Hid) as (? & ? & ?).
      destruct (Hoth i id Hl Hid). done.
  - unfold file. rewrite decide_True by (split; [done|rewrite Ei; exact Ht]).
    unfold content. rewrite Ei, (bytes_frame b b' ino' Hsame), Ef.
    change (i_size ino') with size. change (i_type ino') with (i_type (ino_at b i)).
    do 2 f_equal. rewrite take_take. replace (min _ _) with (Z.to_nat size) by lia.
    rewrite <-(take_drop (Z.to_nat (block_count size)) (file_ids b (ino_at b i))) at 2.
    rewrite blocks_bytes_app, take_app_le; [done|].
    rewrite length_blocks_bytes; [|eauto with yfs|].
    + rewrite length_take. pose proof (length_file_ids b i Hfs Hl).
      pose proof (block_count_mono _ _ Hs). pose proof (block_count_bounds size). sizes. nia.
    + intros id Hid%elem_of_take_incl. eapply owned_range; [done|done|].
      unfold owned. apply elem_of_app. by left.
  - intros j Hj. by apply (file_other b b' i); eauto.
  - apply free_list_ext. intros j. by apply used_put_ino.
Qed.
