(* ===== verification/FileAppend.v ===== *)
(** * Appending a block

    Correctness of [append_block] on a well-formed disk: the file gets one
    more block, taken from the free list, and keeps its bytes. *)

From S2P Require Import Prelude Disk Protocol Inode InodeFacts FileRead FileWrite FileRemove.

(** A step that gives file [i] the free blocks [new], the data block [bid]
    among them, and writes only blocks of file [i]. *)
Record appended (b : block_manager) (i : Z) (b' : block_manager) (bid : Z) (new : list Z) : Prop := {
  ap_bm : bm_ok b';
  ap_type : i_type (ino_at b' i) = i_type (ino_at b i);
  ap_size : i_size (ino_at b' i) = i_size (ino_at b i) + BLOCK_SIZE;
  ap_ino : forall j, inum_ok j -> j <> i -> ino_at b' j = ino_at b j;
  ap_used : forall j, 0 <= j -> used b' j = true <-> used b j = true \/ j ∈ new;
  ap_ids : file_ids b' (ino_at b' i) = file_ids b (ino_at b i) ++ [bid];
  ap_own : owned b' (ino_at b' i) ≡ₚ owned b (ino_at b i) ++ new;
  ap_blk : forall id, FIRST_DATA <= id -> id ∉ owned b (ino_at b i) -> id ∉ new ->
    blk b' id = blk b id;
  ap_data : forall id, id ∈ file_ids b (ino_at b i) -> blk b' id = blk b id;
}.

Lemma block_count_add s : 0 <= s -> block_count (s + BLOCK_SIZE) = block_count s + 1.
Proof.
  intros Hs. pose proof (block_count_bounds s Hs). pose proof (block_count_bounds (s + BLOCK_SIZE)).
  sizes. nia.
Qed.

Lemma appended_ok b i b' bid new : fs_ok b -> live b i ->
  block_count (i_size (ino_at b i)) < MAXFILE -> NoDup new ->
  (forall id, id ∈ new -> id ∈ free_list b) -> appended b i b' bid new ->
  fs_ok b' /\ (forall j, j <> i -> file b' j = file b j) /\
  exists pad, file b' i = Some (i_type (ino_at b i), content b i ++ pad) /\
    Z.of_nat (length pad) = BLOCK_SIZE.
Proof.
  intros Hfs Hl Hn Hnd Hnew []. pose proof (size_bound b Hfs i Hl) as Hs. sizes.
  assert (forall j id, j <> i -> live b j -> id ∈ owned b (ino_at b j) ->
    blk b' id = blk b id /\ used b' id = true) as Hoth.
  { intros j id Hj Hlj Hid. destruct (own_block b j id Hfs Hlj Hid) as (Hr & Hu & Hno).
    split; [|apply ap_used0; [rng|by left]]. apply ap_blk0; [lia| |].
    - intros Hin. by apply (Hno i).
    - intros Hin%Hnew. by eapply free_block_owned. }
  assert (live b' i) as Hl' by (split; [apply Hl|rewrite ap_type0; apply Hl]).
  assert (fs_ok b') as Hfs'.
  { apply (fs_ok_update b b' i); try done. intros _. rewrite ap_size0, block_count_add by lia.
    split; [lia|]. rewrite ap_own0. split.
    - apply NoDup_app. split; [by apply fs_nodup|]. split; [|done].
      intros id Hid Hin%Hnew. by eapply free_block_owned.
    - intros id. rewrite ap_own0. intros [Hid|Hid]%elem_of_app.
      + destruct (own_block b i id Hfs Hl Hid) as (Hr & Hu & Hno).
        split; [done|]. split; [|done]. apply ap_used0; [rng|by left].
      + pose proof (Hnew id Hid) as Hf. pose proof Hf as [Hr _]%elem_of_free_list.
        split; [done|]. split; [apply ap_used0; [rng|by right]|].
        intros j _ Hlj. by apply free_block_owned. }
  split; [done|]. split; [intros j Hj; by apply (file_other b b' i)|].
  assert (blocks_bytes b' (file_ids b (ino_at b i)) = blocks_bytes b (file_ids b (ino_at b i))) as Eb.
  { unfold blocks_bytes. f_equal. apply list_fmap_ext. intros k id Hk.
    apply ap_data0. by eapply list_elem_of_lookup_2. }
  pose proof (length_content b' i Hfs' Hl') as Hlen'. pose proof (length_content b i Hfs Hl) as Hlen.
  exists (drop (length (content b i)) (content b' i)). split.
  - unfold file. rewrite decide_True by done. rewrite ap_type0. do 2 f_equal.
    rewrite <-(take_drop (length (content b i)) (content b' i)) at 1. f_equal.
    unfold content at 2. rewrite take_take, ap_ids0, blocks_bytes_app, Eb.
    assert (Z.of_nat (length (blocks_bytes b (file_ids b (ino_at b i)))) =
      block_count (i_size (ino_at b i)) * BLOCK_SIZE) as HL.
    { rewrite length_blocks_bytes; [|eauto with yfs|].
      - rewrite <-(length_file_ids b i Hfs Hl). nia.
      - intros id Hid. apply (owned_range b i); [done|done|]. by apply (file_ids_owned b i). }
    pose proof (block_count_bounds (i_size (ino_at b i))).
    rewrite take_app_le by lia. unfold content at 2. f_equal. lia.
  - rewrite length_drop. lia.
Qed.

(** Append to a file with room in the inode: the first step of the proof of
    [append_block_spec] for [n < NDIRECT]. *)
Section append.
Context (E : env) (b : block_manager) (i : Z) (Hfs : fs_ok b) (Hl : live b i).
#[local] Abbreviation ino := (ino_at b i).
#[local] Abbreviation n := (block_count (i_size ino)).

(** The inode after the append. *)
Definition grown (blks : list Z) : inode :=
  mkInode (i_type ino) (u32 (i_size ino + BLOCK_SIZE)) (i_atime ino) (i_mtime ino) (i_ctime ino) blks.

Lemma grown_size blks : i_size (grown blks) = i_size ino + BLOCK_SIZE.
Proof using Hfs Hl.
  unfold grown. cbn [i_size]. apply u32_id. pose proof (size_bound b Hfs i Hl). sizes. lia.
Qed.

Lemma grown_count blks : block_count (i_size (grown blks)) = n + 1.
Proof using Hfs Hl.
  rewrite grown_size. apply block_count_add. by apply size_bound.
Qed.

Lemma grown_ok k x : 0 <= x < BLOCK_NUM -> inode_ok (grown (<[k:=x]> (i_blocks ino))).
Proof using Type.
  intros Hx. sizes. destruct (ino_at_ok b i). split; cbn [grown i_type i_size i_atime i_mtime i_ctime i_blocks];
    try done; [apply u32_range|by rewrite length_insert|].
  apply Forall_insert; [done|]. lia.
Qed.

Lemma append_direct bid rest : free_list b = bid :: rest -> n < NDIRECT -> forall bid0,
  exists b', append_block E b i bid0 = Ret (b', bid) /\ appended b i b' bid [bid].
Proof using Hfs Hl.
  intros Hfree Hn bid0. fsizes. pose proof (nblocks_bound b Hfs i Hl) as Hmax.
  pose proof (ok_nblocks _ (ino_at_ok b i)) as Hlen. pose proof Hl as [Hi _].
  assert (bid ∈ free_list b) as Hb by (rewrite Hfree; by left).
  pose proof Hb as [Hr _]%elem_of_free_list.
  unfold append_block. rewrite get_inode_live by eauto with yfs.
  destruct (Z.ltb_spec MAXFILE n); [lia|].
  destruct (alloc_block_free (malloc E 1 0 BS) b bid rest) as (b1 & -> & Hok1 & Hs1 & _ & Hu1);
    [eauto with yfs|done|]. rewrite bind_Ret.
  destruct (Z.ltb_spec n NDIRECT); [|lia].
  rewrite store_Ret, !bind_Ret by lia. fold (grown (<[Z.to_nat n:=bid]> (i_blocks ino))).
  set (ino' := grown _). assert (inode_ok ino') as Hok' by (apply grown_ok; rng).
  rewrite put_inode_spec by done. rewrite bind_Ret.
  eexists. split; [done|]. set (b' := put_ino b1 i ino').
  assert (ino_at b' i = ino') as Ei by (by apply ino_at_put_eq).
  assert (file_ids b' ino' = file_ids b ino ++ [bid]) as Ef.
  { unfold file_ids, ino'. rewrite grown_count. case_tests. cbn [grown i_blocks].
    replace (Z.to_nat (n + 1)) with (S (Z.to_nat n)) by lia.
    rewrite (take_S_r _ _ bid) by (apply list_lookup_insert_eq; lia).
    by rewrite take_insert_ge by lia. }
  assert (forall id, FIRST_DATA <= id -> blk b' id = blk b id) as Hblk.
  { intros id Hid. destruct (data_block id i) as (? & ? & ?); [done|done|].
    unfold b'. rewrite blk_put_ino by done. by apply Hs1. }
  split.
  - by apply put_ino_ok.
  - by rewrite Ei.
  - rewrite Ei. apply grown_size.
  - intros j Hj Hne. unfold b'. rewrite ino_at_put_ne by done. by apply same_ino_at.
  - intros j Hj. unfold b'. rewrite used_put_ino, Hu1, orb_true_iff, Z.eqb_eq by done.
    rewrite list_elem_of_singleton. tauto.
  - by rewrite Ei.
  - rewrite Ei. unfold owned. rewrite Ef. unfold ino' at 1. rewrite grown_count.
    case_tests. by rewrite !app_nil_r.
  - intros id Hid _ _. by apply Hblk.
  - intros id Hid. apply Hblk. apply (file_ids_owned b i) in Hid.
    destruct (fs_data b Hfs i id Hl Hid). lia.
Qed.

Lemma block_ids_bytes ids : length ids = Z.to_nat NINDIRECT ->
  Forall (fun x => 0 <= x < 2 ^ 32) ids -> block_ids (bytes_of_u32s ids) = ids.
Proof using Type.
  intros Hlen Hr. unfold block_ids. rewrite <-Hlen, <-(app_nil_r (bytes_of_u32s ids)).
  by apply u32s_of_bytes_of_u32s.
Qed.

(** The tail of [append_block] for a block listed in the indirect block. *)
Lemma append_tail (b2 : block_manager) (blks new : list Z) (ind bid : Z) :
  NDIRECT <= n < MAXFILE -> bm_ok b2 -> same_but_bitmap b b2 -> inode_ok (grown blks) ->
  ind_id (grown blks) = ind -> FIRST_DATA <= ind < BLOCK_NUM -> 0 <= bid < BLOCK_NUM ->
  file_ids b ino =
    take (Z.to_nat NDIRECT) blks ++ take (Z.to_nat (n - NDIRECT)) (block_ids (blk b ind)) ->
  ind ∉ file_ids b ino -> file_ids b ino ++ [bid; ind] ≡ₚ owned b ino ++ new ->
  (forall j, 0 <= j -> used b2 j = true <-> used b j = true \/ j ∈ new) ->
  exists b', ('(b, blks) ←
      (ind ← load blks NDIRECT;
       indirect_blockid ← store (block_ids (read_block b2 ind (malloc E 3 0 BS))) (n - NDIRECT) bid;
       b ← write_block b2 ind (bytes_of_u32s indirect_blockid);
       Ret (b, blks));
     b ← put_inode (malloc E 4 0 BS) b i (Some (grown blks));
     Ret (b, bid)) = Ret (b', bid) /\ appended b i b' bid new.
Proof using Hfs Hl.
  intros Hn Hok2 Hs2 Hok' Hind Hir Hbr Hids Hni Hown Hu2. fsizes. pose proof Hl as [Hi _].
  assert (load blks NDIRECT = Ret ind) as -> by (rewrite <-Hind; by apply (load_ind_id (grown blks))).
  assert (blk b2 ind = blk b ind) as Eind by (apply Hs2; rng).
  rewrite bind_Ret, read_block_in, Eind by (done || rng).
  set (ids := block_ids (blk b ind)) in *.
  assert (length ids = Z.to_nat NINDIRECT) as Hlen by apply length_block_ids.
  rewrite store_Ret, bind_Ret by lia. set (ids' := <[_ := bid]> ids).
  assert (length ids' = Z.to_nat NINDIRECT) as Hlen' by (unfold ids'; by rewrite length_insert).
  assert (Forall (fun x => 0 <= x < 2 ^ 32) ids') as Hr'.
  { apply Forall_insert; [apply u32s_of_bytes_range|]. lia. }
  assert (length (bytes_of_u32s ids') = BS) as HL by (rewrite length_bytes_of_u32s; lia).
  rewrite write_block_in, !bind_Ret by (rng || lia). rewrite take_ge by lia.
  set (b3 := set_blk b2 ind (bytes_of_u32s ids')).
  assert (bm_ok b3) as Hok3 by (by apply set_blk_ok).
  rewrite put_inode_spec by done. rewrite bind_Ret. eexists. split; [done|].
  set (b' := put_ino b3 i (grown blks)).
  assert (ino_at b' i = grown blks) as Ei by (by apply ino_at_put_eq).
  assert (blk b' ind = bytes_of_u32s ids') as Eb'.
  { destruct (data_block ind i) as (? & ? & ?); [lia|done|].
    unfold b'. rewrite blk_put_ino by done. unfold b3. rewrite blk_set_eq; [done|done|lia]. }
  assert (forall id, FIRST_DATA <= id -> id <> ind -> blk b' id = blk b id) as Hblk.
  { intros id Hid Hne. destruct (data_block id i) as (? & ? & ?); [done|done|].
    unfold b'. rewrite blk_put_ino by done. unfold b3. rewrite blk_set_ne by rng. by apply Hs2. }
  assert (file_ids b' (grown blks) = file_ids b ino ++ [bid]) as Ef.
  { rewrite Hids. unfold file_ids. rewrite grown_count, Hind, Eb'. case_tests.
    rewrite block_ids_bytes by done. rewrite <-app_assoc. f_equal.
    replace (Z.to_nat (n + 1 - NDIRECT)) with (S (Z.to_nat (n - NDIRECT))) by lia.
    unfold ids'. rewrite (take_S_r _ _ bid) by (apply list_lookup_insert_eq; lia).
    by rewrite take_insert_ge by lia. }
  assert (forall j, used b' j = used b2 j) as Hused.
  { intros j. unfold b'. rewrite used_put_ino by done. unfold used, b3. by rewrite blk_set_ne by rng. }
  split.
  - by apply put_ino_ok.
  - by rewrite Ei.
  - rewrite Ei. apply grown_size.
  - intros j Hj Hne. unfold b'. rewrite ino_at_put_ne by done. unfold ino_at. f_equal.
    pose proof (iblock_range j Hj) as (? & ? & ?).
    unfold b3. rewrite blk_set_ne by rng. apply Hs2; lia.
  - intros j Hj. rewrite Hused. by apply Hu2.
  - by rewrite Ei.
  - rewrite Ei, <-Hown. unfold owned. rewrite Ef, grown_count, Hind.
    case_tests. by rewrite <-app_assoc.
  - intros id Hid Ho Hno. apply Hblk; [done|]. intros ->.
    assert (ind ∈ owned b ino ++ new) as Hx.
    { rewrite <-Hown, elem_of_app. right. right. by left. }
    apply elem_of_app in Hx. tauto.
  - intros id Hid. apply Hblk; [|by intros ->]. apply (file_ids_owned b i) in Hid.
    destruct (fs_data b Hfs i id Hl Hid). lia.
Qed.

(** The first indirect block also needs the block that lists them. *)
Lemma append_first bid ind rest : free_list b = bid :: ind :: rest -> n = NDIRECT -> forall bid0,
  exists b', append_block E b i bid0 = Ret (b', bid) /\ appended b i b' bid [bid; ind].
Proof using Hfs Hl.
  intros Hfree Hn bid0. fsizes.
  pose proof (ok_nblocks _ (ino_at_ok b i)) as Hlen.
  assert (bid ∈ free_list b) as Hb by (rewrite Hfree; by left).
  assert (ind ∈ free_list b) as Hi by (rewrite Hfree; right; by left).
  pose proof Hb as [Hr _]%elem_of_free_list. pose proof Hi as [Hir _]%elem_of_free_list.
  destruct (direct_owned b i O Hfs Hl) as [Eo _]; [lia|].
  unfold append_block. rewrite get_inode_live by eauto with yfs.
  destruct (Z.ltb_spec MAXFILE n); [lia|].
  destruct (alloc_block_free (malloc E 1 0 BS) b bid _ (fs_bm b Hfs) Hfree)
    as (b1 & -> & Hok1 & Hs1 & Hf1 & Hu1). rewrite bind_Ret.
  destruct (Z.ltb_spec n NDIRECT); [lia|]. destruct (Z.eqb_spec n NDIRECT); [|lia].
  destruct (alloc_block_free (malloc E 2 0 BS) b1 ind rest) as (b2 & -> & Hok2 & Hs2 & _ & Hu2);
    [done|done|]. rewrite bind_Ret. rewrite store_Ret, !bind_Ret by lia.
  set (blks := <[_ := ind]> (i_blocks ino)). fold (grown blks).
  assert (file_ids b ino = take (Z.to_nat NDIRECT) (i_blocks ino)) as Ef.
  { unfold file_ids. rewrite Hn. case_tests. done. }
  apply (append_tail b2 blks [bid; ind] ind bid); [lia|done|by eapply same_but_bitmap_trans|..].
  - apply grown_ok. rng.
  - unfold ind_id, blks. cbn [grown i_blocks]. rewrite list_lookup_insert_eq by lia. done.
  - lia.
  - rng.
  - rewrite Ef, Hn, Z.sub_diag, take_0, app_nil_r. unfold blks. by rewrite take_insert_ge by lia.
  - intros Hin%(file_ids_owned b i). by eapply free_block_owned.
  - rewrite Eo, Hn, Ef. done.
  - intros j Hj. rewrite Hu2, Hu1, !orb_true_iff, !Z.eqb_eq by done.
    rewrite !elem_of_cons, elem_of_nil. tauto.
Qed.

(** Later indirect blocks. *)
Lemma append_more bid rest : free_list b = bid :: rest -> NDIRECT < n < MAXFILE -> forall bid0,
  exists b', append_block E b i bid0 = Ret (b', bid) /\ appended b i b' bid [bid].
Proof using Hfs Hl.
  intros Hfree Hn bid0. fsizes.
  assert (bid ∈ free_list b) as Hb by (rewrite Hfree; by left).
  pose proof Hb as [Hr _]%elem_of_free_list.
  destruct (large_ids b Hfs i Hl) as (Ef & _ & _ & Hind); [lia|].
  destruct (own_block b i _ Hfs Hl Hind) as (Hir & _ & _).
  pose proof (large_owned b i Hfs Hl ltac:(lia)) as Eo.
  unfold append_block. rewrite get_inode_live by eauto with yfs.
  destruct (Z.ltb_spec MAXFILE n); [lia|].
  destruct (alloc_block_free (malloc E 1 0 BS) b bid _ (fs_bm b Hfs) Hfree)
    as (b1 & -> & Hok1 & Hs1 & Hf1 & Hu1). rewrite bind_Ret.
  destruct (Z.ltb_spec n NDIRECT); [lia|]. destruct (Z.eqb_spec n NDIRECT); [lia|].
  rewrite bind_Ret. fold (grown (i_blocks ino)).
  apply (append_tail b1 (i_blocks ino) [bid] (ind_id ino) bid); [lia|done|done|..]; try done.
  - unfold grown. destruct (ino_at_ok b i). split; cbn [i_type i_size i_atime i_mtime i_ctime i_blocks];
      try done. apply u32_range.
  - rng.
  - pose proof (fs_nodup b Hfs i Hl) as Hnd. rewrite Eo, app_assoc, <-Ef in Hnd.
    apply NoDup_app in Hnd as (_ & Hd & _). intros Hin. apply (Hd _ Hin). by left.
  - rewrite Eo, app_assoc, <-Ef. solve_Permutation.
  - intros j Hj. rewrite Hu1, orb_true_iff, Z.eqb_eq by done.
    rewrite list_elem_of_singleton. tauto.
Qed.
End append.

(** The block and the indirect block that an append takes. *)
Lemma append_block_appended E b i bid bid0 rest : fs_ok b -> live b i ->
  block_count (i_size (ino_at b i)) < MAXFILE -> free_list b = bid :: rest ->
  (block_count (i_size (ino_at b i)) = NDIRECT -> rest <> []) ->
  exists b' new, append_block E b i bid0 = Ret (b', bid) /\ appended b i b' bid new /\
    NoDup new /\ (forall id, id ∈ new -> id ∈ free_list b) /\ bid ∈ new /\
    length new = if block_count (i_size (ino_at b i)) =? NDIRECT then 2%nat else 1%nat.
Proof.
  intros Hfs Hl Hmax Hfree Hroom. pose proof (free_list_NoDup b) as Hnd.
  destruct (Z.lt_trichotomy (block_count (i_size (ino_at b i))) NDIRECT) as [Hn|[Hn|Hn]].
  - destruct (append_direct E b i Hfs Hl bid rest Hfree Hn bid0) as (b' & E1 & Hap).
    exists b', [bid]. rewrite Hfree, (proj2 (Z.eqb_neq _ _)) by lia. split; [done|]. split; [done|].
    split; [apply NoDup_singleton|]. split; [|split; [left|done]].
    intros id ->%list_elem_of_singleton. by left.
  - destruct rest as [|ind rest]; [by destruct (Hroom Hn)|].
    destruct (append_first E b i Hfs Hl bid ind rest Hfree Hn bid0) as (b' & E1 & Hap).
    exists b', [bid; ind]. rewrite Hn, Z.eqb_refl. split; [done|]. split; [done|].
    rewrite Hfree in Hnd |- *. split; [by apply (NoDup_take _ 2) in Hnd|].
    split; [|split; [left|done]]. intros id. rewrite !elem_of_cons, elem_of_nil. tauto.
  - destruct (append_more E b i Hfs Hl bid rest Hfree ltac:(lia) bid0) as (b' & E1 & Hap).
    exists b', [bid]. rewrite Hfree, (proj2 (Z.eqb_neq _ _)) by lia. split; [done|]. split; [done|].
    split; [apply NoDup_singleton|]. split; [|split; [left|done]].
    intros id ->%list_elem_of_singleton. by left.
Qed.

(** Appending a block to a file with fewer than [MAXFILE] blocks. *)
Lemma append_block_spec E b i t c bid bid0 rest : fs_ok b -> file b i = Some (t, c) ->
  block_count (Z.of_nat (length c)) < MAXFILE -> free_list b = bid :: rest ->
  (block_count (Z.of_nat (length c)) = NDIRECT -> rest <> []) ->
  exists b' pad, append_block E b i bid0 = Ret (b', bid) /\ fs_ok b' /\
    file b' i = Some (t, c ++ pad) /\ Z.of_nat (length pad) = BLOCK_SIZE /\
    file_ids b' (ino_at b' i) = file_ids b (ino_at b i) ++ [bid] /\
    forall j, j <> i -> file b' j = file b j.
Proof.
  intros Hfs (Hl & -> & ->)%file_Some. rewrite length_content by done. intros Hmax Hfree Hroom.
  destruct (append_block_appended E b i bid bid0 rest)
    as (b' & new & E1 & Hap & Hnd & Hnew & _); [done..|].
  destruct (appended_ok b i b' bid new) as (Hfs' & Ho & pad & Hf & Hp); try done.
  exists b', pad. do 4 (split; [done|]). split; [apply Hap|done].
Qed.
