(* ===== verification/FileLarge.v ===== *)
(** * Files with indirect blocks

    What [write_file] stores for a file of more than [NDIRECT] blocks: the
    loop over the indirect blocks zeroes [blocks[i]] of the inode, a direct
    block that has just been written, instead of the block it is about to
    write.  The contents after the write therefore begin with zeroes. *)

From S2P Require Import Prelude Disk Protocol Inode InodeFacts FileRead FileWrite FileRemove FileAppend.

(** A loop whose body never returns at some index does not return. *)
Lemma for_stops {S} (body : Z -> S -> outcome S) lo hi k s r : lo <= k < hi ->
  (forall s s', body k s <> Ret s') -> for_ lo hi body s <> Ret r.
Proof.
  intros Hk Hb. unfold for_. remember (Z.to_nat (hi - lo)) as n eqn:Hn.
  revert lo s Hk Hn. induction n as [|n IH]; intros lo s Hk Hn; [lia|]. cbn [for_n].
  destruct (decide (lo = k)) as [->|Hne].
  - destruct (body k s) eqn:E; try discriminate. by apply Hb in E.
  - destruct (body lo s) as [s'| | |]; try discriminate. cbn. apply IH; lia.
Qed.

(** With more than [NDIRECT + 1] indirect blocks the loop reads past the end
    of the inode's array. *)
Lemma write_indirect_overrun b blks ids buf off n r : length blks = 101%nat -> 101 < n ->
  write_indirect b blks ids buf off n <> Ret r.
Proof.
  intros Hlen Hn. unfold write_indirect. apply (for_stops _ 0 n 101); [lia|].
  assert (load blks 101 = Undef) as E.
  { unfold load. rewrite (lookup_ge_None_2 blks (Z.to_nat 101)) by lia. done. }
  intros [b1 off1] s'. by rewrite E.
Qed.

(** One turn of the loop over the indirect blocks, after [P] was zeroed and [Q]
    was written: [id0] is zeroed, and [id] gets [chunk]. *)
Ltac mem := rewrite ?elem_of_app, ?list_elem_of_singleton; tauto.

Section turn.
Context (b : block_manager) (P Q : list Z) (id0 id : Z) (chunk : list byte).
Context (Hnd : NoDup ((P ++ [id0]) ++ Q ++ [id])).
Context (Hr : forall x, x ∈ (P ++ [id0]) ++ Q ++ [id] -> 0 <= x < BLOCK_NUM).
#[local] Abbreviation b' := (set_blk (set_blk b id0 zero_block) id chunk).

Lemma turn_range : 0 <= id0 < BLOCK_NUM /\ 0 <= id < BLOCK_NUM.
Proof using Hr. split; apply Hr; mem. Qed.

Lemma turn_distinct : id0 <> id /\ (forall x, x ∈ P -> x <> id) /\ (forall x, x ∈ Q -> x <> id0 /\ x <> id).
Proof using Hnd.
  clear Hr. rewrite !NoDup_app in Hnd. destruct Hnd as (_ & Hd & (_ & Hq & _)).
  split; [intros ->; apply (Hd id); mem|]. split; [intros x Hx ->; apply (Hd id); revert Hx; mem|].
  intros x Hx. split; intros ->; [apply (Hd id0)|apply (Hq id)]; revert Hx; mem.
Qed.

Lemma turn_keeps x : 0 <= x -> x <> id0 -> x <> id -> blk b' x = blk b x.
Proof using Hr. intros. destruct turn_range. by rewrite !blk_set_ne by lia. Qed.

Lemma turn_zero : bm_ok b -> (forall x, x ∈ P -> blk b x = zero_block) ->
  forall x, x ∈ P ++ [id0] -> blk b' x = zero_block.
Proof using Hnd Hr.
  intros Hok Hz x Hx. destruct turn_range as [H0 H1], turn_distinct as (Hne & Hp & _).
  assert (0 <= x < BLOCK_NUM) by (apply Hr; revert Hx; mem). apply elem_of_app in Hx.
  rewrite blk_set_ne; [|lia..|destruct Hx as [Hx| ->%list_elem_of_singleton]; [by apply not_eq_sym, Hp|by apply not_eq_sym]].
  destruct (decide (x = id0)) as [->|Hx0]; [by rewrite blk_set_eq|]. rewrite blk_set_ne by (lia || done).
  apply Hz. destruct Hx as [?|?%list_elem_of_singleton]; done.
Qed.

Lemma turn_bytes : bm_ok b -> blocks_bytes b' (Q ++ [id]) = blocks_bytes b Q ++ chunk.
Proof using Hnd Hr.
  intros Hok. destruct turn_range as [H0 H1], turn_distinct as (_ & _ & Hq).
  rewrite blocks_bytes_app. unfold blocks_bytes at 2. cbn [fmap list_fmap concat]. rewrite app_nil_r.
  rewrite blk_set_eq; [|apply set_blk_ok; [done|apply length_zero_block]|done]. f_equal.
  apply blocks_bytes_ext. intros x Hx. destruct (Hq x Hx). apply turn_keeps; [|done..].
  apply Hr. revert Hx. mem.
Qed.
End turn.

(** What holds before turn [i] of the loop, which starts at [off] of [buf]. *)
Record indirect_inv (b : block_manager) (blks ids : list Z) (buf : list byte) (off i : Z)
    (s : block_manager * Z) : Prop := {
  ii_off : s.2 = off + i * BLOCK_SIZE;
  ii_bm : bm_ok s.1;
  ii_keep : forall id, 0 <= id -> id ∉ take (Z.to_nat i) blks ++ take (Z.to_nat i) ids ->
    blk s.1 id = blk b id;
  ii_zero : forall id, id ∈ take (Z.to_nat i) blks -> blk s.1 id = zero_block;
  ii_bytes : blocks_bytes s.1 (take (Z.to_nat i) ids) =
    take (Z.to_nat (i * BLOCK_SIZE)) (drop (Z.to_nat off) buf);
}.

Section indirect.
Context (b : block_manager) (blks ids : list Z) (buf : list byte) (off k : Z).
Context (Hok : bm_ok b) (Hk : 0 <= k <= Z.of_nat (length blks)) (Hki : k <= Z.of_nat (length ids)).
Context (Hoff : 0 <= off) (Hbuf : off + k * BLOCK_SIZE <= Z.of_nat (length buf)).
Context (Hnd : NoDup (take (Z.to_nat k) blks ++ take (Z.to_nat k) ids)).
Context (Hr : forall id, id ∈ take (Z.to_nat k) blks ++ take (Z.to_nat k) ids -> 0 <= id < BLOCK_NUM).

(** The blocks of the first turns are among those of all turns. *)
Lemma first_turns i : 0 <= i < k ->
  sublist (take (S (Z.to_nat i)) blks ++ take (S (Z.to_nat i)) ids)
          (take (Z.to_nat k) blks ++ take (Z.to_nat k) ids).
Proof using Type.
  intros Hi. clear - Hi. apply sublist_app;
    (replace (S (Z.to_nat i)) with (min (S (Z.to_nat i)) (Z.to_nat k)) by lia;
     rewrite <-take_take; apply sublist_take).
Qed.

Lemma indirect_turn i s : 0 <= i < k -> indirect_inv b blks ids buf off i s ->
  exists s', (let '(b, buf_offset) := s in
     id0 ← load blks i; b ← write_block b id0 zero_block;
     id ← load ids i; b ← write_block b id (drop (Z.to_nat buf_offset) buf);
     Ret (b, buf_offset + BLOCK_SIZE)) = Ret s' /\ indirect_inv b blks ids buf off (i + 1) s'.
Proof using Hk Hki Hoff Hbuf Hnd Hr.
  destruct s as [b1 o]. intros Hi [Ho Hok1 Hs1 Hz1 Hb1]. cbn [fst snd] in *. subst o. sizes.
  destruct (lookup_lt_is_Some_2 blks (Z.to_nat i)) as [id0 Hid0]; [lia|].
  destruct (lookup_lt_is_Some_2 ids (Z.to_nat i)) as [id Hid]; [lia|].
  pose proof (first_turns i Hi) as Hsub. pose proof (sublist_NoDup _ _ Hnd Hsub) as Hnd'.
  assert (forall x, x ∈ take (S (Z.to_nat i)) blks ++ take (S (Z.to_nat i)) ids -> 0 <= x < BLOCK_NUM) as Hr'.
  { intros x Hx. apply Hr. by eapply elem_of_submseteq; [|apply sublist_submseteq]. }
  rewrite (take_S_r _ _ _ Hid0), (take_S_r _ _ _ Hid) in Hnd', Hr'.
  destruct (turn_range _ _ _ _ Hr') as [Hx0 Hx1].
  set (chunk := take BS (drop (Z.to_nat (off + i * BLOCK_SIZE)) buf)).
  assert (length chunk = BS) as HL by (unfold chunk; rewrite length_take, length_drop; lia).
  exists (set_blk (set_blk b1 id0 zero_block) id chunk, off + i * BLOCK_SIZE + BLOCK_SIZE). split.
  - rewrite (load_Ret blks _ id0), bind_Ret by (lia || done).
    rewrite write_block_in, bind_Ret by (len || done).
    rewrite (load_Ret ids _ id), bind_Ret by (lia || done).
    rewrite write_block_in, bind_Ret by (done || (rewrite length_drop; lia)).
    by rewrite (take_ge zero_block) by (rewrite length_zero_block; lia).
  - split; cbn [fst snd]; replace (Z.to_nat (i + 1)) with (S (Z.to_nat i)) by lia;
      rewrite ?(take_S_r _ _ _ Hid0), ?(take_S_r _ _ _ Hid).
    + lia.
    + apply set_blk_ok; [|done]. apply set_blk_ok; [done|]. apply length_zero_block.
    + intros x Hx. rewrite !elem_of_app, !list_elem_of_singleton. intros Hx'.
      rewrite (turn_keeps b1 _ _ _ _ chunk Hr') by tauto. apply Hs1; [done|]. rewrite elem_of_app. tauto.
    + by apply (turn_zero b1 _ _ _ _ chunk Hnd' Hr').
    + rewrite (turn_bytes b1 _ _ _ _ chunk Hnd' Hr'), Hb1 by done. unfold chunk.
      replace (Z.to_nat (off + i * BLOCK_SIZE))
        with (Z.to_nat off + Z.to_nat (i * BLOCK_SIZE))%nat by lia.
      rewrite <-drop_drop, take_take_drop. f_equal. lia.
Qed.

(** The loop over the indirect blocks. *)
Lemma write_indirect_spec :
  exists b', write_indirect b blks ids buf off k = Ret (b', off + k * BLOCK_SIZE) /\
    indirect_inv b blks ids buf off k (b', off + k * BLOCK_SIZE).
Proof using Hok Hk Hki Hoff Hbuf Hnd Hr.
  destruct (for_inv (indirect_inv b blks ids buf off) 0 k
    (fun i '(b, buf_offset) => id0 ← load blks i; b ← write_block b id0 zero_block;
       id ← load ids i; b ← write_block b id (drop (Z.to_nat buf_offset) buf);
       Ret (b, buf_offset + BLOCK_SIZE)) (b, off)) as ([b' o] & E & Hi); [lia| |exact indirect_turn|].
  - split; cbn [fst snd]; rewrite ?take_0; [lia|done|done|by intros ? ?%elem_of_nil|done].
  - pose proof (ii_off _ _ _ _ _ _ _ Hi) as Ho. cbn [snd] in Ho. subst o. eauto.
Qed.
End indirect.

(* ------------------------------------------------------------------ *)
(** ** The tail of the cases with indirect blocks *)

(** What a writer has prepared: [blks] holds the direct blocks and the block
    that lists the indirect ones, [ids] the indirect blocks. *)
Record prepared_large (b : block_manager) (i : Z) (b1 : block_manager) (blks ids : list Z)
    (need : Z) : Prop := {
  pl_bm : bm_ok b1;
  pl_same : same_but_bitmap b b1;
  pl_len : length blks = 101%nat;
  pl_u32 : Forall (fun x => 0 <= x < 2 ^ 32) blks;
  pl_ilen : length ids = Z.to_nat NINDIRECT;
  pl_iu32 : Forall (fun x => 0 <= x < 2 ^ 32) ids;
  pl_nodup : NoDup (blks ++ take (Z.to_nat (need - NDIRECT)) ids);
  pl_ids : forall id, id ∈ blks ++ take (Z.to_nat (need - NDIRECT)) ids ->
    FIRST_DATA <= id < BLOCK_NUM /\ used b1 id = true /\
    forall j, j <> i -> live b j -> id ∉ owned b (ino_at b j);
  pl_oth : forall j id, j <> i -> live b j -> id ∈ owned b (ino_at b j) -> used b1 id = true;
}.

(** The contents after a write of [need] blocks, [NDIRECT < need]: zeroes in
    place of the first [need - NDIRECT] blocks. *)
Definition large_content (buf : list byte) (size need : Z) : list byte :=
  take (Z.to_nat size)
    (replicate (Z.to_nat ((need - NDIRECT) * BLOCK_SIZE)) x00 ++
     drop (Z.to_nat ((need - NDIRECT) * BLOCK_SIZE)) buf).

Lemma zero_blocks b ids : (forall id, id ∈ ids -> blk b id = zero_block) ->
  blocks_bytes b ids = replicate (length ids * BS) x00.
Proof.
  induction ids as [|id ids IH]; intros Hz; [done|].
  change (blocks_bytes b (id :: ids)) with (blk b id ++ blocks_bytes b ids).
  rewrite IH by (intros; apply Hz; by right). rewrite Hz by (by left).
  unfold zero_block. rewrite <-replicate_add. done.
Qed.

Lemma blocks_nat n : 0 <= n -> Z.to_nat (n * BLOCK_SIZE) = (Z.to_nat n * BS)%nat.
Proof. intros Hn. sizes. nia. Qed.

Section large.
Context (E : env) (b : block_manager) (i : Z) (b1 : block_manager) (blks ids : list Z).
Context (buf : list byte) (size need : Z).
Context (Hfs : fs_ok b) (Hl : live b i) (Hp : prepared_large b i b1 blks ids need).
Context (Hs : 0 <= size) (Hneed : need = block_count size) (Hn : NDIRECT < need <= 2 * NDIRECT).
Context (Hbuf : need * BLOCK_SIZE <= Z.of_nat (length buf)).
#[local] Abbreviation k := (need - NDIRECT).
#[local] Abbreviation direct := (take (Z.to_nat NDIRECT) blks).
#[local] Abbreviation indirect := (take (Z.to_nat (need - NDIRECT)) ids).

Lemma blks_split : exists ind, load blks NDIRECT = Ret ind /\ blks = direct ++ [ind].
Proof using Hp.
  clear - Hp. pose proof (pl_len _ _ _ _ _ _ Hp) as Hlen. fsizes.
  destruct (lookup_lt_is_Some_2 blks (Z.to_nat NDIRECT)) as [ind Hind]; [lia|].
  exists ind. split; [apply load_Ret; lia || done|].
  rewrite <-(take_S_r _ _ _ Hind). symmetry. apply take_ge. lia.
Qed.

(** The two writing loops. *)
Lemma large_loops ind : blks = direct ++ [ind] ->
  exists b3, ('(b, buf_offset) ← write_direct b1 blks buf NDIRECT;
              write_indirect b blks ids buf buf_offset k) = Ret (b3, need * BLOCK_SIZE) /\
    bm_ok b3 /\ (forall id, 0 <= id -> id ∉ direct ++ indirect -> blk b3 id = blk b1 id) /\
    blocks_bytes b3 (direct ++ indirect) =
      replicate (Z.to_nat (k * BLOCK_SIZE)) x00 ++
      drop (Z.to_nat (k * BLOCK_SIZE)) (take (Z.to_nat (need * BLOCK_SIZE)) buf).
Proof using Hp Hn Hbuf.
  clear Hneed. intros Hb. destruct Hp as [Hok1 _ Hlen _ Hilen _ Hnd Hids _]. fsizes.
  assert (NoDup (direct ++ indirect)) as Hnd2.
  { eapply sublist_NoDup; [exact Hnd|]. apply sublist_app; [apply sublist_take|done]. }
  assert (forall id, id ∈ direct ++ indirect -> 0 <= id < BLOCK_NUM) as Hr.
  { intros id Hid. destruct (Hids id) as [? _]; [|rng]. revert Hid. rewrite !elem_of_app.
    intros [Hid|?]; [left; by eapply elem_of_take_incl|by right]. }
  destruct (write_direct_spec b1 blks buf NDIRECT) as (b2 & -> & Hok2 & Hkeep2 & Hbytes2);
    [done|lia|lia|by apply NoDup_app in Hnd2 as [? _]| |].
  { intros id Hid. apply Hr, elem_of_app. by left. }
  rewrite bind_Ret.
  assert (take (Z.to_nat k) blks = take (Z.to_nat k) direct) as Ek.
  { rewrite take_take. f_equal. lia. }
  destruct (write_indirect_spec b2 blks ids buf (NDIRECT * BLOCK_SIZE) k)
    as (b3 & -> & [_ Hok3 Hkeep3 Hzero3 Hbytes3]); [done|lia|lia|lia|lia| | |cbn [fst] in *].
  { rewrite Ek. eapply sublist_NoDup; [exact Hnd2|]. apply sublist_app; [apply sublist_take|done]. }
  { intros id. rewrite Ek, elem_of_app. intros [Hid|Hid]; apply Hr, elem_of_app; [left|by right].
    by eapply elem_of_take_incl. }
  exists b3. split; [do 2 f_equal; lia|]. split; [done|]. split.
  - intros id Hid. rewrite elem_of_app. intros Hni. rewrite Hkeep3, Hkeep2; [done|done|tauto|done|].
    rewrite Ek, elem_of_app. intros [Hin%elem_of_take_incl|?]; tauto.
  - rewrite blocks_bytes_app, Hbytes3.
    rewrite <-(take_drop (Z.to_nat k) direct) at 1. rewrite blocks_bytes_app.
    rewrite zero_blocks by (intros id; rewrite <-Ek; apply Hzero3).
    rewrite (blocks_bytes_ext b2 b3).
    2: { intros id Hid. apply Hkeep3.
         - assert (0 <= id < BLOCK_NUM); [|lia]. apply Hr, elem_of_app. left.
           by eapply elem_of_drop_incl.
         - rewrite Ek, elem_of_app. apply NoDup_app in Hnd2 as (Hnd3 & Hd & _).
           rewrite <-(take_drop (Z.to_nat k) direct) in Hnd3. apply NoDup_app in Hnd3 as (_ & Hd3 & _).
           intros [Hx|Hx]; [by apply (Hd3 id)|]. apply (Hd id); [by eapply elem_of_drop_incl|done]. }
    rewrite <-app_assoc. f_equal.
    { f_equal. rewrite blocks_nat by lia. f_equal. rewrite !length_take. lia. }
    assert (blocks_bytes b2 (drop (Z.to_nat k) direct) =
      drop (Z.to_nat (k * BLOCK_SIZE)) (take (Z.to_nat (NDIRECT * BLOCK_SIZE)) buf)) as ->.
    { rewrite <-Hbytes2. rewrite <-(take_drop (Z.to_nat k) direct) at 2. rewrite blocks_bytes_app.
      rewrite drop_app_length'; [done|]. rewrite length_blocks_bytes; [|done|].
      - rewrite blocks_nat by lia. f_equal. rewrite !length_take. lia.
      - intros id Hid. apply Hr, elem_of_app. left. by eapply elem_of_take_incl. }
    replace (Z.to_nat (need * BLOCK_SIZE))
      with (Z.to_nat (NDIRECT * BLOCK_SIZE) + Z.to_nat (k * BLOCK_SIZE))%nat by lia.
    rewrite <-(take_take_drop buf). rewrite drop_app_le; [done|]. rewrite length_take. lia.
Qed.

Lemma direct_incl id : id ∈ direct ++ indirect -> id ∈ blks ++ indirect.
Proof using Type. clear. rewrite !elem_of_app. intros [Hin%elem_of_take_incl|?]; tauto. Qed.

Lemma ind_fresh ind : blks = direct ++ [ind] -> ind ∉ direct ++ indirect.
Proof using Hp.
  intros Hsplit. pose proof (pl_nodup _ _ _ _ _ _ Hp) as Hnd.
  rewrite Hsplit in Hnd at 1. rewrite <-app_assoc in Hnd. cbn [app] in Hnd.
  apply NoDup_app in Hnd as (_ & Hd & [Hnx _]%NoDup_cons). rewrite elem_of_app.
  intros [Hx|Hx]; [apply (Hd ind Hx); by left|done].
Qed.

(** The blocks after the loops and the write of the list of indirect blocks. *)
Section stored.
Context (ind : Z) (b3 : block_manager) (Hsplit : blks = direct ++ [ind]) (Hok3 : bm_ok b3).
Context (Hkeep3 : forall id, 0 <= id -> id ∉ direct ++ indirect -> blk b3 id = blk b1 id).
#[local] Abbreviation b4 := (set_blk b3 ind (bytes_of_u32s ids)).

Lemma ind_range : FIRST_DATA <= ind < BLOCK_NUM.
Proof using Hp Hsplit.
  apply (pl_ids _ _ _ _ _ _ Hp). apply elem_of_app. left. rewrite Hsplit. apply elem_of_app. right. by left.
Qed.

Lemma stored_keeps id : FIRST_DATA <= id -> id ∉ blks ++ indirect -> blk b4 id = blk b1 id.
Proof using Hp Hsplit Hkeep3.
  clear - Hp Hsplit Hkeep3. intros Hid Hout. pose proof ind_range. fsizes. rewrite blk_set_ne; [|rng|rng|].
  - apply Hkeep3; [rng|]. intros Hin. by apply Hout, direct_incl.
  - intros ->. apply Hout, elem_of_app. left. rewrite Hsplit. apply elem_of_app. right. by left.
Qed.

Lemma stored_meta id : 0 <= id < FIRST_DATA -> blk b4 id = blk b1 id.
Proof using Hp Hsplit Hkeep3.
  clear - Hp Hsplit Hkeep3. intros Hid. pose proof ind_range. fsizes. rewrite blk_set_ne by rng. apply Hkeep3; [lia|].
  intros Hin%direct_incl. destruct (pl_ids _ _ _ _ _ _ Hp id Hin) as [? _]. lia.
Qed.

Lemma stored_bytes : blocks_bytes b4 (direct ++ indirect) = blocks_bytes b3 (direct ++ indirect).
Proof using Hp Hsplit.
  clear - Hp Hsplit. pose proof ind_range. fsizes. apply blocks_bytes_ext. intros id Hid. apply blk_set_ne; [rng| |].
  - destruct (pl_ids _ _ _ _ _ _ Hp id (direct_incl id Hid)) as [? _]. rng.
  - intros <-. by apply (ind_fresh ind).
Qed.

(** The blocks of the inode that is written back. *)
Lemma stored_ids : let ino' := written E (ino_at b i) blks size in
  inode_ok ino' /\ i_size ino' = size /\ file_ids b4 ino' = direct ++ indirect /\
  owned b4 ino' ≡ₚ blks ++ indirect.
Proof using Hp Hsplit Hok3 Hs Hneed Hn Hfs Hl.
  clear Hbuf. destruct Hp as [_ _ Hlen Hu32 Hilen Hiu32 _ _ _]. pose proof ind_range. fsizes.
  pose proof (block_count_bounds size Hs) as Hb. intros ino'.
  assert (inode_ok ino') as Hino' by (apply written_ok; done || apply ino_at_ok).
  assert (i_size ino' = size) as Es by (apply u32_id; nia).
  assert (ind_id ino' = ind) as Eind.
  { pose proof (load_ind_id ino' Hino') as El. cbn [ino' written i_blocks] in El.
    destruct blks_split as (x & Hload & Hx). rewrite Hsplit in Hx at 1. apply app_inj_2 in Hx as [_ [= ->]]; [|done].
    congruence. }
  assert (blk b4 ind = bytes_of_u32s ids) as Eb4 by (apply blk_set_eq; [done|rng]).
  assert (file_ids b4 ino' = direct ++ indirect) as Ef.
  { unfold file_ids. rewrite Es, <-Hneed, Eind, Eb4. case_tests. by rewrite block_ids_bytes. }
  split; [done|]. split; [done|]. split; [done|].
  unfold owned. rewrite Ef, Es, <-Hneed, Eind. case_tests. rewrite Hsplit at 2. solve_Permutation.
Qed.
End stored.

Lemma write_large_spec :
  exists b', write_large E b1 i (ino_at b i) blks ids buf size need = Ret b' /\ fs_ok b' /\
    file b' i = Some (i_type (ino_at b i), large_content buf size need) /\
    (forall j, j <> i -> file b' j = file b j) /\ (forall j, used b' j = used b1 j).
Proof using Hfs Hl Hp Hs Hneed Hn Hbuf.
  destruct blks_split as (ind & Hload & Hsplit).
  destruct (large_loops ind Hsplit) as (b3 & Eloops & Hok3 & Hkeep3 & Hbytes3).
  destruct (stored_ids ind b3 Hsplit Hok3) as (Hino' & Es & Ef & Eo).
  pose proof (ind_range ind Hsplit) as Hir. pose proof (stored_keeps ind b3 Hsplit Hkeep3) as Hkeep.
  pose proof (stored_meta ind b3 Hsplit Hkeep3) as Hmeta. pose proof (stored_bytes ind b3 Hsplit) as Hbytes.
  destruct Hp as [_ Hsame _ _ Hilen _ _ Hids Hoth]. fsizes.
  pose proof (block_count_bounds size Hs) as Hb. pose proof Hl as [Hi Ht].
  unfold write_large. revert Eloops.
  destruct (write_direct b1 blks buf NDIRECT) as [[b2 off]| | |]; try discriminate. intros Eloops.
  change (write_indirect b2 blks ids buf off k = Ret (b3, need * BLOCK_SIZE)) in Eloops.
  rewrite bind_Ret, Eloops, bind_Ret, Hload, bind_Ret.
  assert (length (bytes_of_u32s ids) = BS) as HL by (rewrite length_bytes_of_u32s; lia).
  rewrite write_block_in, bind_Ret by (rng || lia). rewrite take_ge by lia.
  set (b4 := set_blk b3 ind (bytes_of_u32s ids)) in *. set (ino' := written E (ino_at b i) blks size) in *.
  assert (bm_ok b4) as Hok4 by (by apply set_blk_ok). rewrite write_back_spec by done.
  assert (forall j, used b4 j = used b1 j) as Hused by (intros j; unfold used; by rewrite Hmeta by rng).
  destruct (finish_write b i b4 ino') as (Hfs' & Hf' & Ho' & Hu'); try done.
  - intros id Hid Hne. rewrite Hmeta by done. apply Hsame; [lia|done].
  - intros j id Hj Hlj Hid. rewrite Hused. split; [|by eapply Hoth].
    destruct (fs_data b Hfs j id Hlj Hid) as [Hd _].
    rewrite Hkeep; [apply Hsame; rng|lia|]. intros Hin.
    destruct (Hids id Hin) as (_ & _ & Hno). by apply (Hno j).
  - rewrite Es. lia.
  - rewrite Eo. by apply (pl_nodup _ _ _ _ _ _ Hp).
  - intros id. rewrite Eo, Hused. apply Hids.
  - exists (put_ino b4 i ino'). split; [done|]. split; [done|]. split; [|split; [done|]].
    + rewrite Hf', Es, Ef, Hbytes, Hbytes3. cbn [ino' written i_type]. do 2 f_equal.
      unfold large_content. rewrite !take_app, length_replicate. f_equal.
      rewrite skipn_firstn_comm, take_take. f_equal. lia.
    + intros j. by rewrite Hu'.
Qed.
End large.

(* ------------------------------------------------------------------ *)
(** ** Overwriting with the same number of blocks, and growing *)

Lemma own_blocks_large b i : fs_ok b -> live b i -> NDIRECT < block_count (i_size (ino_at b i)) ->
  i_blocks (ino_at b i) ++
    take (Z.to_nat (block_count (i_size (ino_at b i)) - NDIRECT))
      (block_ids (blk b (ind_id (ino_at b i)))) ≡ₚ owned b (ino_at b i).
Proof.
  intros Hfs Hl Hn. rewrite large_owned by done. rewrite (blocks_ind b i) at 1. solve_Permutation.
Qed.

Lemma prepared_same b i need : fs_ok b -> live b i -> need = block_count (i_size (ino_at b i)) ->
  NDIRECT < need ->
  prepared_large b i b (i_blocks (ino_at b i)) (block_ids (blk b (ind_id (ino_at b i)))) need.
Proof.
  intros Hfs Hl -> Hn. pose proof (own_blocks_large b i Hfs Hl Hn) as Hperm.
  split; [eauto with yfs|done|apply ino_at_ok|apply ino_at_ok|apply length_block_ids
    |apply u32s_of_bytes_range|..].
  - rewrite Hperm. by apply fs_nodup.
  - intros id. rewrite Hperm. by apply own_block.
  - intros j id _ Hlj Hid. by destruct (fs_data b Hfs j id Hlj Hid).
Qed.

(** The blocks case 2-1 has allocated: the rest of the direct blocks, the
    block that lists the indirect ones, and the indirect ones. *)
Lemma prepared_new b i b3 need ind rest ids (n := block_count (i_size (ino_at b i)))
    (new := take (Z.to_nat (NDIRECT - n)) (free_list b))
    (new' := take (Z.to_nat (need - NDIRECT)) rest) :
  fs_ok b -> live b i -> n < NDIRECT -> NDIRECT < need ->
  drop (Z.to_nat (NDIRECT - n)) (free_list b) = ind :: rest ->
  need - NDIRECT <= Z.of_nat (length rest) -> length ids = Z.to_nat NINDIRECT ->
  need - NDIRECT <= NINDIRECT -> Forall (fun x => 0 <= x < 2 ^ 32) ids ->
  bm_ok b3 -> same_but_bitmap b b3 ->
  (forall j, 0 <= j -> used b3 j = true <-> used b j = true \/ j ∈ new ++ ind :: new') ->
  prepared_large b i b3 (take (Z.to_nat n) (i_blocks (ino_at b i)) ++ new ++ [ind])
    (new' ++ drop (Z.to_nat (need - NDIRECT)) ids) need.
Proof.
  intros Hfs Hl Hn Hneed Hfl Hrest Hil Hmax Hiu Hok3 Hs3 Hu3. fsizes. unfold n in *. clear n.
  pose proof (nblocks_bound b Hfs i Hl) as Hnb.
  destruct (direct_owned b i O Hfs Hl ltac:(lia)) as [Eo _].
  pose proof (ok_nblocks _ (ino_at_ok b i)) as Hlen.
  set (old := take (Z.to_nat (block_count (i_size (ino_at b i)))) (i_blocks (ino_at b i))) in *.
  assert (length (free_list b) = length new + S (length rest))%nat as Hfll.
  { rewrite <-(take_drop (Z.to_nat (NDIRECT - block_count (i_size (ino_at b i)))) (free_list b)).
    rewrite length_app, Hfl. done. }
  assert (length new = Z.to_nat (NDIRECT - block_count (i_size (ino_at b i)))) as Hnl.
  { pose proof (f_equal length Hfl) as HL. rewrite length_drop in HL. cbn [length] in HL.
    unfold new. rewrite length_take. lia. }
  assert (length new' = Z.to_nat (need - NDIRECT)) as Hnl' by (unfold new'; rewrite length_take; lia).
  assert (NoDup (new ++ ind :: new') /\ forall id, id ∈ new ++ ind :: new' -> id ∈ free_list b)
    as [Hndn Hsub].
  { assert (new ++ ind :: new' `sublist_of` free_list b) as Hs.
    { rewrite <-(take_drop (Z.to_nat (NDIRECT - block_count (i_size (ino_at b i)))) (free_list b)).
      rewrite Hfl. apply sublist_app; [done|]. constructor. apply sublist_take. }
    split; [eapply sublist_NoDup; [apply free_list_NoDup|done]|].
    intros id Hid. by eapply elem_of_sublist. }
  assert (take (Z.to_nat (need - NDIRECT)) (new' ++ drop (Z.to_nat (need - NDIRECT)) ids) = new')
    as Et by (apply take_app_length'; lia).
  assert ((old ++ new ++ [ind]) ++ new' = old ++ new ++ ind :: new') as Ea.
  { by rewrite <-!app_assoc. }
  assert (forall x, x ∈ free_list b -> 0 <= x < 2 ^ 32) as Hfr.
  { intros x [Hx _]%elem_of_free_list. rng. }
  split; [done|done|..].
  - rewrite !length_app, Hnl. unfold old. rewrite length_take. cbn [length]. lia.
  - rewrite !Forall_app. split; [apply Forall_take, ino_at_ok|].
    split; [|apply Forall_singleton]; [apply Forall_forall; intros x Hx|]; apply Hfr, Hsub;
      rewrite elem_of_app; [by left|right; by left].
  - rewrite length_app, length_drop, Hnl'. lia.
  - apply Forall_app. split; [|by apply Forall_drop]. apply Forall_forall. intros x Hx.
    apply Hfr, Hsub. rewrite elem_of_app. right. by right.
  - rewrite Et, Ea. apply NoDup_app. split; [rewrite <-Eo; by apply fs_nodup|]. split; [|done].
    intros id Hid Hin%Hsub. rewrite <-Eo in Hid. by eapply free_block_owned.
  - rewrite Et, Ea. intros id [Hid|Hid]%elem_of_app.
    + rewrite <-Eo in Hid. destruct (own_block b i id Hfs Hl Hid) as (Hd & Hu & Hno).
      split; [done|]. split; [|done]. apply Hu3; [rng|by left].
    + pose proof (Hsub id Hid) as Hf. pose proof Hf as [Hd _]%elem_of_free_list.
      split; [done|]. split; [apply Hu3; [rng|by right]|]. intros j _ Hlj. by apply free_block_owned.
  - intros j id Hj Hlj Hid. destruct (fs_data b Hfs j id Hlj Hid). apply Hu3; [rng|by left].
Qed.

(** The allocations of case 2-1. *)
Lemma case2_1_spec E b i buf size need (n := block_count (i_size (ino_at b i))) :
  fs_ok b -> live b i -> 0 <= size -> need = block_count size -> n < NDIRECT ->
  NDIRECT < need <= 2 * NDIRECT -> need * BLOCK_SIZE <= Z.of_nat (length buf) ->
  need - n + 1 <= Z.of_nat (length (free_list b)) ->
  exists b', write_case2_1 E b i (ino_at b i) buf size need n = Ret b' /\ fs_ok b' /\
    file b' i = Some (i_type (ino_at b i), large_content buf size need) /\
    (forall j, j <> i -> file b' j = file b j).
Proof.
  intros Hfs Hl Hs Hneed Hn Hmax Hbuf Hfree. fsizes. unfold n in *. clear n.
  pose proof (nblocks_bound b Hfs i Hl) as Hnb. pose proof (ok_nblocks _ (ino_at_ok b i)) as Hlen.
  unfold write_case2_1.
  destruct (alloc_blocks_spec E 1 b (i_blocks (ino_at b i)) (block_count (i_size (ino_at b i))) NDIRECT)
    as (b1 & -> & Hok1 & Hs1 & Hf1 & Hu1); [eauto with yfs|lia|lia|lia|]. rewrite bind_Ret.
  destruct (drop (Z.to_nat (NDIRECT - block_count (i_size (ino_at b i)))) (free_list b))
    as [|ind rest] eqn:Efl.
  { apply (f_equal length) in Efl. rewrite length_drop in Efl. cbn [length] in Efl. lia. }
  assert (Z.of_nat (length rest) = Z.of_nat (length (free_list b)) - (NDIRECT - block_count (i_size (ino_at b i))) - 1) as Hrl.
  { apply (f_equal length) in Efl. rewrite length_drop in Efl. cbn [length] in Efl. lia. }
  destruct (alloc_block_free (malloc E 6 0 BS) b1 ind rest Hok1 Hf1)
    as (b2 & -> & Hok2 & Hs2 & Hf2 & Hu2). rewrite bind_Ret.
  set (new := take (Z.to_nat (NDIRECT - block_count (i_size (ino_at b i)))) (free_list b)) in *.
  set (old := take (Z.to_nat (block_count (i_size (ino_at b i)))) (i_blocks (ino_at b i))).
  assert (length (old ++ new) = Z.to_nat NDIRECT) as Hon.
  { unfold old, new. rewrite length_app, !length_take. lia. }
  destruct (drop (Z.to_nat NDIRECT) (i_blocks (ino_at b i))) as [|x [|? ?]] eqn:Ed;
    [apply (f_equal length) in Ed; rewrite length_drop in Ed; cbn [length] in Ed; lia| |
     apply (f_equal length) in Ed; rewrite length_drop in Ed; cbn [length] in Ed; lia].
  rewrite app_assoc, store_Ret, bind_Ret by (rewrite length_app, Hon; cbn [length]; lia).
  rewrite insert_app_r_alt by lia.
  replace (Z.to_nat NDIRECT - length (old ++ new))%nat with 0%nat by lia. cbn [list_insert insert].
  destruct (alloc_blocks_spec E 7 b2 (block_ids (malloc E 3 0 BS)) 0 (need - NDIRECT))
    as (b3 & -> & Hok3 & Hs3 & Hf3 & Hu3); [done|lia|rewrite length_block_ids; lia|rewrite Hf2; lia|].
  rewrite bind_Ret. rewrite take_0, app_nil_l, Z.sub_0_r, Hf2 in *.
  rewrite <-app_assoc.
  destruct (write_large_spec E b i b3 (old ++ new ++ [ind])
    (take (Z.to_nat (need - NDIRECT)) rest ++
     drop (Z.to_nat (need - NDIRECT)) (block_ids (malloc E 3 0 BS))) buf size need)
    as (b' & E' & Hfs' & Hf' & Ho & _); try done; [|eauto].
  apply prepared_new; try done;
    [lia|lia|lia|apply u32s_of_bytes_range| |].
  - by eapply same_but_bitmap_trans; [eapply same_but_bitmap_trans|].
  - intros j Hj. rewrite Hu3, Hu2, orb_true_iff, Z.eqb_eq, Hu1 by done.
    fold new. rewrite elem_of_app, elem_of_cons. tauto.
Qed.

(** [write_file] for [NDIRECT < need <= 2 * NDIRECT] blocks, growing from
    fewer than [NDIRECT] blocks or overwriting the same number of them. *)
Lemma write_file_large_spec E b i t c buf size (need := block_count size)
    (n := block_count (Z.of_nat (length c))) :
  fs_ok b -> file b i = Some (t, c) -> 0 <= size -> NDIRECT < need <= 2 * NDIRECT ->
  n < NDIRECT \/ n = need -> need * BLOCK_SIZE <= Z.of_nat (length buf) ->
  need - n + 1 <= Z.of_nat (length (free_list b)) \/ n = need ->
  exists b', write_file E b i buf size = Ret b' /\ fs_ok b' /\
    file b' i = Some (t, large_content buf size need) /\
    (forall j, j <> i -> file b' j = file b j).
Proof.
  unfold need, n. clear need n.
  intros Hfs (Hl & -> & ->)%file_Some Hs Hneed. rewrite length_content by done.
  intros Hn Hbuf Hfree. fsizes. pose proof (block_count_bounds size Hs) as Hb.
  unfold write_file. rewrite get_inode_live by eauto with yfs.
  rewrite need_block_count_spec by nia.
  destruct (Z.ltb_spec MAXFILE (block_count size)); [lia|].
  destruct (Z.leb_spec (block_count size) NDIRECT); [lia|].
  destruct (Z.ltb_spec NDIRECT (block_count size)); [|lia].
  destruct (Z.ltb_spec (block_count (i_size (ino_at b i))) NDIRECT) as [Hlt|Hge]; cbn [andb].
  - apply case2_1_spec; try done; lia.
  - destruct (Z.ltb_spec (block_count (i_size (ino_at b i))) (block_count size)); [lia|].
    cbn [andb]. destruct (Z.eqb_spec (block_count size) (block_count (i_size (ino_at b i)))); [|lia].
    destruct (large_ids b Hfs i Hl) as (_ & _ & _ & Hind); [lia|].
    unfold write_case2_3. rewrite load_ind_id, bind_Ret by apply ino_at_ok.
    rewrite read_block_in by eauto using owned_range with yfs.
    destruct (write_large_spec E b i b (i_blocks (ino_at b i))
      (block_ids (blk b (ind_id (ino_at b i)))) buf size (block_count size))
      as (b' & E' & Hfs' & Hf' & Ho & _); try done; [|eauto].
    apply prepared_same; lia || done.
Qed.
