(* ===== verification/FileTheorems.v ===== *)
(** * Theorems on the block and inode managers

    The properties of inode_manager.cc, each with a run of the code on the
    disk that the constructor creates. *)

From S2P Require Import Prelude Disk Protocol Inode InodeFacts.
From S2P Require Import FileRead FileWrite FileRemove FileAppend FileLarge.
Import extent_protocol.

(* ------------------------------------------------------------------ *)
(** ** The disk of the runs *)

(** Time 7, and memory that is zero when it is not initialised. *)
Definition demo_env : env := mkEnv (fun _ => 7) (fun _ _ => []) (replicate BS x00).

Definition demo_disk : block_manager :=
  match inode_manager_init demo_env with Ret b => b | _ => block_manager_init end.

Lemma demo_disk_spec : fs_ok demo_disk /\ file demo_disk 1 = Some (T_DIR, []) /\
  (forall j, j <> 1 -> file demo_disk j = None) /\ (forall j, used demo_disk j = false).
Proof.
  unfold demo_disk. destruct (inode_manager_init_spec demo_env) as (b & -> & H). exact H.
Qed.

Lemma demo_ok : fs_ok demo_disk.
Proof. apply demo_disk_spec. Qed.

Lemma demo_root : file demo_disk 1 = Some (T_DIR, []).
Proof. apply demo_disk_spec. Qed.

Lemma demo_none j : j <> 1 -> file demo_disk j = None.
Proof. apply demo_disk_spec. Qed.

Lemma free_list_unused b : (forall j, used b j = false) ->
  free_list b = seqZ FIRST_DATA (BLOCK_NUM - FIRST_DATA).
Proof. intros H. unfold free_list. apply filter_all. intros id _. apply H. Qed.

Lemma demo_free : free_list demo_disk = seqZ FIRST_DATA (BLOCK_NUM - FIRST_DATA).
Proof. apply free_list_unused, demo_disk_spec. Qed.

Lemma demo_free_cons : exists id rest, free_list demo_disk = FIRST_DATA :: id :: rest.
Proof.
  rewrite demo_free, seqZ_cons, seqZ_cons by (rewrite BLOCK_NUM_val; unfold FIRST_DATA; lia).
  eauto.
Qed.

Lemma demo_free_length : Z.of_nat (length (free_list demo_disk)) = 1020.
Proof. rewrite demo_free, length_seqZ. reflexivity. Qed.

(** A file of [n] bytes as inode 1 of that disk. *)
Lemma demo_write n : (n <= 100 * BS)%nat ->
  exists b', fs_ok b' /\ file b' 1 = Some (T_DIR, replicate n x41) /\
    Z.of_nat (length (free_list b')) + block_count (Z.of_nat n) = 1020 /\
    (forall j, j <> 1 -> file b' j = None).
Proof.
  intros Hn. fsizes. pose proof (block_count_bounds (Z.of_nat n) ltac:(lia)) as Hb.
  destruct (write_file_spec demo_env demo_disk 1 T_DIR [] (replicate (n + BS) x41) (Z.of_nat n))
    as (b' & _ & Hfs & Hf & Ho & Hr); [apply demo_ok|apply demo_root|lia| | | |].
  - apply block_count_le; lia.
  - rewrite length_replicate. lia.
  - rewrite demo_free_length. change (blocks_for _) with 0.
    assert (block_count (Z.of_nat n) <= 100) by (apply block_count_le; lia). lia.
  - exists b'. split; [done|]. split; [|split].
    + rewrite Hf, Nat2Z.id, take_replicate. do 3 f_equal. lia.
    + rewrite Hr, demo_free_length. reflexivity.
    + intros j Hj. by rewrite Ho, demo_none.
Qed.

(* ------------------------------------------------------------------ *)
(** ** Inodes on disk *)

(** An inode stored with [put_inode] is read back by [get_inode] with the
    same fields, through its bytes on disk, and every other inode reads as
    before. *)
Theorem put_get_inode mem mem' b inum ino :
  bm_ok b -> inum_ok inum -> inode_ok ino -> i_type ino <> 0 ->
  exists b', put_inode mem b inum (Some ino) = Ret b' /\ bm_ok b' /\
    get_inode mem' b' inum = Some ino /\
    forall mem'' j, inum_ok j -> j <> inum -> get_inode mem'' b' j = get_inode mem'' b j.
Proof.
  intros Hok Hi Hino Ht. rewrite put_inode_spec by done. eexists. split; [done|].
  pose proof (put_ino_ok b Hok inum Hi ino Hino) as Hok'. split; [done|]. split.
  - rewrite get_inode_spec, ino_at_put_eq by done. by rewrite (proj2 (Z.eqb_neq _ _) Ht).
  - intros mem'' j Hj Hne. by rewrite !get_inode_spec, ino_at_put_ne by done.
Qed.

Lemma put_get_inode_witness : exists b',
  put_inode [] block_manager_init 5 (Some (fresh_inode demo_env T_FILE 5)) = Ret b' /\ bm_ok b' /\
  get_inode [] b' 5 = Some (fresh_inode demo_env T_FILE 5) /\
  forall mem'' j, inum_ok j -> j <> 5 ->
    get_inode mem'' b' j = get_inode mem'' block_manager_init j.
Proof.
  apply (put_get_inode [] [] block_manager_init 5 (fresh_inode demo_env T_FILE 5));
    [apply block_manager_init_ok|split; reflexivity || discriminate|apply fresh_inode_ok|discriminate].
Defined.

(* ------------------------------------------------------------------ *)
(** ** The bitmap *)

(** C15. [alloc_block] returns the least free block number from the first data
    block on and sets only its bit; no block but the bitmap changes.  With
    every bit of the bitmap block set it returns 0 and changes nothing. *)
Theorem alloc_block_correct mem b : bm_ok b ->
  exists b' id, alloc_block mem b = Ret (b', id) /\ bm_ok b' /\ same_but_bitmap b b' /\
    ((id = 0 /\ b' = b /\ forall j, FIRST_DATA <= j < BPB -> used b j = true) \/
     (FIRST_DATA <= id < BPB /\ used b id = false /\
      (forall j, FIRST_DATA <= j < id -> used b j = true) /\
      forall j, 0 <= j -> used b' j = (j =? id) || used b j)).
Proof. apply alloc_block_spec. Qed.

Lemma alloc_block_correct_witness : exists b' id,
  alloc_block [] demo_disk = Ret (b', id) /\ bm_ok b' /\ same_but_bitmap demo_disk b' /\
    ((id = 0 /\ b' = demo_disk /\ forall j, FIRST_DATA <= j < BPB -> used demo_disk j = true) \/
     (FIRST_DATA <= id < BPB /\ used demo_disk id = false /\
      (forall j, FIRST_DATA <= j < id -> used demo_disk j = true) /\
      forall j, 0 <= j -> used b' j = (j =? id) || used demo_disk j)).
Proof. apply (alloc_block_correct [] demo_disk). apply fs_bm, demo_ok. Defined.

(** [free_block] clears the bit of the block and no other; the block it
    just freed is the one [alloc_block] returns next when all data blocks
    below it are in use. *)
Theorem free_alloc_block mem mem' b id : bm_ok b -> FIRST_DATA <= id < BPB ->
  (forall j, FIRST_DATA <= j < id -> used b j = true) -> used b id = true ->
  exists b1 b2, free_block mem b id = Ret b1 /\
    (forall j, 0 <= j -> used b1 j = negb (j =? id) && used b j) /\
    alloc_block mem' b1 = Ret (b2, id) /\ (forall j, 0 <= j -> used b2 j = used b j).
Proof.
  intros Hok Hid Hlow Hu. destruct (free_block_spec mem b id Hok) as (b1 & E1 & Hok1 & _ & Hu1); [rng|].
  destruct (alloc_block_spec mem' b1 Hok1)
    as (b2 & id2 & E2 & _ & _ & [(-> & -> & Hall)|(Hid2 & Hf2 & Hlow2 & Hu2)]).
  - specialize (Hall id). rewrite Hu1, Z.eqb_refl in Hall by rng. by discriminate Hall.
  - assert (id2 = id) as ->.
    { destruct (Z.lt_trichotomy id2 id) as [Hlt|[?|Hgt]]; [|done|].
      - rewrite Hu1, Hlow in Hf2 by rng. destruct (Z.eqb_spec id2 id); [lia|done].
      - specialize (Hlow2 id ltac:(lia)). by rewrite Hu1, Z.eqb_refl in Hlow2 by rng. }
    exists b1, b2. split; [done|]. split; [done|]. split; [done|].
    intros j Hj. rewrite Hu2, Hu1 by done. destruct (Z.eqb_spec j id) as [->|]; [by rewrite Hu|done].
Qed.

(** The first data block in use. *)
Lemma demo_used : exists b, bm_ok b /\ used b FIRST_DATA = true.
Proof.
  destruct demo_free_cons as (id & rest & Hf).
  destruct (alloc_block_free [] demo_disk FIRST_DATA (id :: rest))
    as (b & _ & Hok & _ & _ & Hu); [apply fs_bm, demo_ok|exact Hf|].
  exists b. split; [done|]. rewrite Hu by rng. by rewrite Z.eqb_refl.
Qed.

Lemma free_alloc_block_witness : exists b b1 b2, free_block [] b FIRST_DATA = Ret b1 /\
    (forall j, 0 <= j -> used b1 j = negb (j =? FIRST_DATA) && used b j) /\
    alloc_block [] b1 = Ret (b2, FIRST_DATA) /\ (forall j, 0 <= j -> used b2 j = used b j).
Proof.
  destruct demo_used as (b & Hok & Hu). exists b.
  apply (free_alloc_block [] [] b FIRST_DATA); [exact Hok|rng|intros; lia|exact Hu].
Defined.

(** On a disk whose data blocks are all in use [alloc_block] does not
    report failure: it returns the number of a block that does not exist,
    and writes to that block are dropped. *)
Theorem alloc_block_past_end mem b buf : bm_ok b -> free_list b = [] ->
  used b BLOCK_NUM = false ->
  exists b', alloc_block mem b = Ret (b', BLOCK_NUM) /\ write_block b' BLOCK_NUM buf = Ret b'.
Proof.
  intros Hok Hfree Hu. destruct (alloc_block_spec mem b Hok)
    as (b' & id & E & _ & _ & [(-> & -> & Hall)|(Hid & Hf & Hlow & _)]).
  - rewrite Hall in Hu by rng. discriminate.
  - assert (id = BLOCK_NUM) as ->.
    { destruct (Z.lt_trichotomy id BLOCK_NUM) as [Hlt|[?|Hgt]]; [|done|].
      - assert (id ∈ free_list b) as Hin by (apply elem_of_free_list; split; [lia|done]).
        rewrite Hfree in Hin. by apply elem_of_nil in Hin.
      - rewrite Hlow in Hu by rng. discriminate. }
    exists b'. split; [done|]. apply write_block_out. lia.
Qed.

(** A disk with all data blocks allocated. *)
Lemma full_disk : exists b, bm_ok b /\ free_list b = [] /\ used b BLOCK_NUM = false.
Proof.
  destruct (alloc_blocks_spec demo_env 0 demo_disk (replicate 1020 0) 0 1020)
    as (b & _ & Hok & _ & Hf & Hu); [apply fs_bm, demo_ok|lia|rewrite length_replicate; lia
    |rewrite demo_free_length; lia|].
  pose proof demo_free_length as Hlen. exists b. split; [done|]. split.
  - rewrite Hf. apply drop_ge. lia.
  - apply not_true_iff_false. rewrite Hu by (rewrite BLOCK_NUM_val; lia).
    intros [Hx|Hx%elem_of_take_incl%elem_of_free_list]; [|lia].
    by rewrite (proj2 (proj2 (proj2 demo_disk_spec))) in Hx.
Qed.

Lemma alloc_block_past_end_witness : exists b b', alloc_block [] b = Ret (b', BLOCK_NUM) /\
  write_block b' BLOCK_NUM zero_block = Ret b'.
Proof.
  destruct full_disk as (b & Hok & Hf & Hu). exists b.
  apply (alloc_block_past_end [] b zero_block); assumption.
Defined.

(* ------------------------------------------------------------------ *)
(** ** Creating, reading and writing files *)

(** The constructor of the inode manager succeeds: it returns a
    well-formed disk with all data blocks free, whose only file is the root
    directory, inode 1, which is empty. *)
Theorem inode_manager_init_correct E :
  exists b, inode_manager_init E = Ret b /\ fs_ok b /\ file b 1 = Some (T_DIR, []) /\
    (forall j, j <> 1 -> file b j = None) /\ Z.of_nat (length (free_list b)) = 1020.
Proof.
  destruct (inode_manager_init_spec E) as (b & E1 & Hfs & H1 & Hj & Hu).
  exists b. do 4 (split; [done|]). by rewrite (free_list_unused b Hu), length_seqZ.
Qed.

(** Creating a file on a well-formed disk takes the first free inode
    number from 1 on; the new file has the given type and is empty, whatever
    was in the memory of the new inode; every other file and the free blocks
    are unchanged and the disk stays well-formed. *)
Theorem alloc_inode_correct E type b i :
  fs_ok b -> first_dead b i -> 0 < type < 2 ^ 15 ->
  exists b', alloc_inode E type b = Ret (b', i) /\ fs_ok b' /\
    file b' i = Some (type, []) /\ (forall j, j <> i -> file b' j = file b j) /\
    free_list b' = free_list b.
Proof.
  intros Hfs Hi Ht. destruct (alloc_inode_spec E type b i Hfs Hi Ht) as (b' & E1 & Hf & H1 & Hj & Hu).
  exists b'. do 4 (split; [done|]). by apply free_list_ext.
Qed.

Lemma demo_live : live demo_disk 1.
Proof. by pose proof demo_root as [? _]%file_Some. Qed.

Lemma alloc_inode_correct_witness : exists b', alloc_inode demo_env T_FILE demo_disk = Ret (b', 2) /\
  fs_ok b' /\ file b' 2 = Some (T_FILE, []) /\ (forall j, j <> 2 -> file b' j = file demo_disk j) /\
  free_list b' = free_list demo_disk.
Proof.
  apply (alloc_inode_correct demo_env T_FILE demo_disk 2); [apply demo_ok| |split; reflexivity].
  split; [split; [discriminate|reflexivity]|]. split.
  - apply file_None, demo_none. discriminate.
  - intros j Hj. replace j with 1 by lia. apply demo_live.
Defined.

(** C2. [read_file] returns the size of an existing file and a buffer that
    begins with exactly its bytes, for files with and without indirect
    blocks; no file and no free block changes.  For a file that does not
    exist it leaves everything as it is. *)
Theorem read_file_correct E b i : fs_ok b ->
  match file b i with
  | Some (t, c) =>
      exists b' buf, read_file E b i = Ret (b', Some (buf, Z.of_nat (length c))) /\
        take (length c) buf = c /\ fs_ok b' /\ (forall j, file b' j = file b j) /\
        free_list b' = free_list b
  | None => read_file E b i = Ret (b, None)
  end.
Proof.
  intros Hfs. destruct (file b i) as [[t c]|] eqn:Ef; [|by apply read_file_dead].
  destruct (read_file_spec E b i t c Hfs Ef) as (b' & buf & E1 & Hb & Hfs' & Hj & Hu).
  exists b', buf. do 4 (split; [done|]). by apply free_list_ext.
Qed.

Lemma read_file_correct_witness : exists b b' buf,
  file b 1 = Some (T_DIR, replicate 5 x41) /\
  read_file demo_env b 1 = Ret (b', Some (buf, 5)) /\ take 5 buf = replicate 5 x41.
Proof.
  destruct (demo_write 5) as (b & Hfs & Hf & _); [sizes; lia|].
  pose proof (read_file_correct demo_env b 1 Hfs) as H. rewrite Hf in H.
  destruct H as (b' & buf & E1 & Hb & _). exists b, b', buf. exact (conj Hf (conj E1 Hb)).
Defined.

(** C1. [write_file] of at most [NDIRECT] blocks, growing, keeping or
    shrinking the file (also from indirect blocks): the file then holds
    exactly the first [size] bytes of the buffer, every other file is
    unchanged, the disk stays well-formed, and the free blocks account
    exactly for the blocks taken and given back.  The buffer must be readable
    up to the end of the last block. *)
Theorem write_file_correct E b i t c buf size :
  fs_ok b -> file b i = Some (t, c) -> 0 <= size -> block_count size <= NDIRECT ->
  block_count size * BLOCK_SIZE <= Z.of_nat (length buf) ->
  block_count size - blocks_for (Z.of_nat (length c)) <= Z.of_nat (length (free_list b)) ->
  exists b', write_file E b i buf size = Ret b' /\ fs_ok b' /\
    file b' i = Some (t, take (Z.to_nat size) buf) /\
    (forall j, j <> i -> file b' j = file b j) /\
    Z.of_nat (length (free_list b')) + block_count size =
    Z.of_nat (length (free_list b)) + blocks_for (Z.of_nat (length c)).
Proof. apply write_file_spec. Qed.

Lemma write_file_correct_witness : exists b b',
  file b 1 = Some (T_DIR, replicate (5 + BS) x41) /\
  write_file demo_env b 1 (replicate BS x42) 3 = Ret b' /\ fs_ok b' /\
  file b' 1 = Some (T_DIR, take 3 (replicate BS x42)).
Proof.
  destruct (demo_write (5 + BS)) as (b & Hfs & Hf & Hr & _); [sizes; lia|].
  destruct (write_file_correct demo_env b 1 T_DIR (replicate (5 + BS) x41) (replicate BS x42) 3)
    as (b' & E1 & Hfs' & Hf' & _ & _); [exact Hfs|exact Hf|lia|discriminate| | |].
  - rewrite length_replicate, <-BS_BLOCK_SIZE. change (block_count 3) with 1. lia.
  - change (block_count 3) with 1. rewrite length_replicate.
    pose proof (block_count_bounds (Z.of_nat (5 + BS)) ltac:(lia)) as Hb.
    assert (1 <= blocks_for (Z.of_nat (5 + BS))); [|lia]. sizes. unfold blocks_for. case_tests; nia.
  - exists b, b'. exact (conj Hf (conj E1 (conj Hfs' Hf'))).
Defined.

(** C38. [write_file] of [NDIRECT + k] blocks, [0 < k <= NDIRECT], over a file
    of fewer than [NDIRECT] or of the same number of blocks: the call
    succeeds, keeps the disk well-formed and the other files, but the first
    [k] blocks of the file are zeroes instead of the first [k] blocks of the
    buffer. *)
Theorem write_file_large E b i t c buf size (k := block_count size - NDIRECT) :
  fs_ok b -> file b i = Some (t, c) -> 0 <= size -> 0 < k <= NDIRECT ->
  block_count (Z.of_nat (length c)) < NDIRECT \/
    block_count (Z.of_nat (length c)) = block_count size ->
  block_count size * BLOCK_SIZE <= Z.of_nat (length buf) ->
  block_count size + 1 <= Z.of_nat (length (free_list b)) + block_count (Z.of_nat (length c)) ->
  exists b', write_file E b i buf size = Ret b' /\ fs_ok b' /\
    file b' i = Some (t, take (Z.to_nat size) (replicate (Z.to_nat (k * BLOCK_SIZE)) x00 ++
                                               drop (Z.to_nat (k * BLOCK_SIZE)) buf)) /\
    (forall j, j <> i -> file b' j = file b j).
Proof.
  intros Hfs Hf Hs Hk Hn Hbuf Hfree. unfold k in *.
  apply (write_file_large_spec E b i t c buf size); lia || done.
Qed.

Lemma write_file_large_witness : exists b',
  write_file demo_env demo_disk 1 (replicate (101 * BS) x41) (101 * BLOCK_SIZE) = Ret b' /\
  fs_ok b' /\
  file b' 1 = Some (T_DIR, take (Z.to_nat (101 * BLOCK_SIZE))
    (replicate (Z.to_nat ((101 - NDIRECT) * BLOCK_SIZE)) x00 ++
     drop (Z.to_nat ((101 - NDIRECT) * BLOCK_SIZE)) (replicate (101 * BS) x41))) /\
  (forall j, j <> 1 -> file b' j = file demo_disk j).
Proof.
  apply (write_file_large demo_env demo_disk 1 T_DIR [] (replicate (101 * BS) x41) (101 * BLOCK_SIZE)).
  - apply demo_ok.
  - apply demo_root.
  - discriminate.
  - split; [reflexivity|discriminate].
  - left. reflexivity.
  - change (block_count (101 * BLOCK_SIZE)) with 101. rewrite length_replicate. sizes. lia.
  - rewrite demo_free_length. discriminate.
Defined.

(** For more than [2 * NDIRECT + 1] blocks the loop over the indirect
    blocks reads [blocks[NDIRECT + 1]], beyond the array of the inode: it
    does not return normally from any state. *)
Theorem write_indirect_past_array b blks ids buf off n r : length blks = 101%nat -> NDIRECT + 1 < n ->
  write_indirect b blks ids buf off n <> Ret r.
Proof. intros Hl Hn. apply write_indirect_overrun; [done|]. rewrite NDIRECT_val in Hn. lia. Qed.

Lemma write_indirect_past_array_witness :
  write_indirect demo_disk (replicate 101 1028) (replicate 4096 1028) [] 0 102 <> Ret (demo_disk, 0).
Proof. apply write_indirect_past_array; [apply length_replicate|reflexivity]. Defined.

(* ------------------------------------------------------------------ *)
(** ** Removing files *)

(** C23. [remove_file] on a file whose size is not a multiple of the block
    size: the file is gone, every other file is unchanged, the disk stays
    well-formed, and all its blocks but one are free again: the last block is
    lost, since the block count is rounded down. *)
Theorem remove_file_correct E b i t c : fs_ok b -> file b i = Some (t, c) ->
  Z.of_nat (length c) mod BLOCK_SIZE <> 0 ->
  exists b', remove_file E b i = Ret b' /\ fs_ok b' /\ file b' i = None /\
    (forall j, j <> i -> file b' j = file b j) /\
    Z.of_nat (length (free_list b')) + 1 =
    Z.of_nat (length (free_list b)) + blocks_for (Z.of_nat (length c)).
Proof. apply remove_file_spec. Qed.

Lemma remove_file_correct_witness : exists b b', file b 1 = Some (T_DIR, replicate 5 x41) /\
  remove_file demo_env b 1 = Ret b' /\ file b' 1 = None.
Proof.
  destruct (demo_write 5) as (b & Hfs & Hf & _); [sizes; lia|].
  destruct (remove_file_correct demo_env b 1 T_DIR (replicate 5 x41))
    as (b' & E1 & _ & Hf' & _); [exact Hfs|exact Hf|discriminate|].
  exists b, b'. exact (conj Hf (conj E1 Hf')).
Defined.

(** Removing an empty file gives back the block number that happens to be
    in its inode, which [alloc_inode] never initialises.  When another file
    owns that block, the block is free afterwards while that file still uses
    it: the disk is no longer well-formed. *)
Theorem remove_empty_corrupts E b i j id : fs_ok b -> live b i -> i_size (ino_at b i) = 0 ->
  i_blocks (ino_at b i) !! 0%nat = Some id -> live b j -> j <> i -> id ∈ owned b (ino_at b j) ->
  exists b', remove_file E b i = Ret b' /\ live b' j /\ id ∈ owned b' (ino_at b' j) /\
    used b' id = false /\ ~ fs_ok b'.
Proof.
  intros Hfs Hl Hs Hid Hlj Hne Hown. destruct (fs_data b Hfs j id Hlj Hown) as [Hr _].
  destruct (remove_empty_spec E b i id Hfs Hl Hs Hid Hr) as (b' & E1 & _ & Hu & _ & Hj).
  destruct (Hj j Hne Hlj) as [Hlj' Ho]. rewrite <-Ho in Hown.
  exists b'. do 4 (split; [done|]). intros Hfs'.
  destruct (fs_data b' Hfs' j id Hlj' Hown) as [_ Hx]. congruence.
Qed.

(** Memory in which [blocks[0]] of a new inode is [id]. *)
Definition stale_env (id : Z) : env :=
  mkEnv (fun _ => 7) (fun _ _ => replicate 20 x00 ++ le_bytes 4 id) (replicate BS x00).

Lemma stale_block id i : 0 <= id < 2 ^ 32 ->
  i_blocks (fresh_inode (stale_env id) T_FILE i) !! 0%nat = Some id.
Proof.
  intros Hid. cbn [fresh_inode i_blocks]. unfold decode_inode. cbn [i_blocks].
  rewrite u32s_of_bytes_lookup by lia. f_equal. rewrite drop_drop.
  unfold malloc, stale_env, sizeof_inode. cbn [fresh].
  rewrite resize_ge by (rewrite length_app, length_replicate, length_le_bytes; lia).
  rewrite <-app_assoc, drop_app_length' by (rewrite length_replicate; done).
  rewrite take_app_length' by (by rewrite length_le_bytes).
  rewrite le_val_bytes. apply Z.mod_small. exact Hid.
Qed.

Lemma remove_empty_corrupts_witness : exists E b id b', file b 2 = Some (T_FILE, []) /\
  remove_file E b 2 = Ret b' /\ live b' 1 /\ id ∈ owned b' (ino_at b' 1) /\ used b' id = false /\
  ~ fs_ok b'.
Proof.
  destruct (demo_write 5) as (b & Hfs & Hf & _ & Hnone); [sizes; lia|].
  pose proof Hf as (Hl & _ & Hc)%file_Some.
  pose proof (length_owned b 1 Hfs Hl) as Hlen. rewrite <-length_content, <-Hc in Hlen by done.
  destruct (owned b (ino_at b 1)) as [|id l] eqn:Eo; [discriminate Hlen|].
  assert (id ∈ owned b (ino_at b 1)) as Hid by (rewrite Eo; by left).
  destruct (alloc_inode_spec (stale_env id) T_FILE b 2) as (b2 & E2 & Hfs2 & Hf2 & Ho2 & _);
    [done| |done|].
  { split; [split; [discriminate|reflexivity]|]. split; [by apply file_None, Hnone|].
    intros j Hj. replace j with 1 by lia. done. }
  assert (live b2 1) as Hl2.
  { destruct (decide (live b2 1)) as [|Hd]; [done|]. apply file_None in Hd.
    rewrite Ho2, Hf in Hd by done. discriminate. }
  pose proof (alloc_inode_put _ _ _ _ _ (fs_bm b Hfs) E2 ltac:(done)) as E2'.
  assert (inum_ok 2) as H2 by (split; [discriminate|reflexivity]).
  assert (ino_at b2 2 = fresh_inode (stale_env id) T_FILE 2) as Ei
    by (rewrite E2'; apply ino_at_put_eq; [apply Hfs|exact H2|apply fresh_inode_ok]).
  assert (id ∈ owned b2 (ino_at b2 1)) as Hid2.
  { rewrite E2', ino_at_put_ne by (done || apply Hl). rewrite (owned_frame b); [exact Hid|].
    intros x Hx. destruct (fs_data b Hfs 1 x Hl Hx) as [Hd _].
    destruct (data_block x 2) as (? & ? & ?); [lia|exact H2|]. by apply blk_put_ino. }
  pose proof (owned_range b 1 id Hfs Hl Hid) as Hr.
  destruct (remove_empty_corrupts demo_env b2 2 1 id Hfs2) as (b' & H);
    [by apply file_Some in Hf2 as [? _]|by rewrite Ei|rewrite Ei; apply stale_block; rng|exact Hl2
    |discriminate|exact Hid2|].
  exists demo_env, b2, id, b'. exact (conj Hf2 H).
Defined.

(* ------------------------------------------------------------------ *)
(** ** The operations of the name node *)

(** C37. [append_block] on a file of fewer than [MAXFILE] blocks, with a free
    block (two when the block that lists the indirect ones is needed): the
    call returns the first free block, which becomes the last block of the
    file; the file keeps its bytes and grows by one block, every other file
    is unchanged and the disk stays well-formed. *)
Theorem append_block_correct E b i t c bid bid0 rest : fs_ok b -> file b i = Some (t, c) ->
  block_count (Z.of_nat (length c)) < MAXFILE -> free_list b = bid :: rest ->
  (block_count (Z.of_nat (length c)) = NDIRECT -> rest <> []) ->
  exists b' pad, append_block E b i bid0 = Ret (b', bid) /\ fs_ok b' /\
    file b' i = Some (t, c ++ pad) /\ Z.of_nat (length pad) = BLOCK_SIZE /\
    file_ids b' (ino_at b' i) = file_ids b (ino_at b i) ++ [bid] /\
    forall j, j <> i -> file b' j = file b j.
Proof. apply append_block_spec. Qed.

Lemma append_block_correct_witness : exists b' pad,
  append_block demo_env demo_disk 1 9 = Ret (b', FIRST_DATA) /\ fs_ok b' /\
  file b' 1 = Some (T_DIR, [] ++ pad) /\ Z.of_nat (length pad) = BLOCK_SIZE /\
  file_ids b' (ino_at b' 1) = file_ids demo_disk (ino_at demo_disk 1) ++ [FIRST_DATA] /\
  forall j, j <> 1 -> file b' j = file demo_disk j.
Proof.
  destruct demo_free_cons as (id & rest & Hf).
  apply (append_block_correct demo_env demo_disk 1 T_DIR [] FIRST_DATA 9 (id :: rest));
    [apply demo_ok|apply demo_root|reflexivity|exact Hf|discriminate].
Defined.

(** [complete] with a size that is not larger than the file truncates the
    file to that size; every other file is unchanged, no block is given back
    and the disk stays well-formed. *)
Theorem complete_correct E b i t c size : fs_ok b -> file b i = Some (t, c) ->
  0 <= size <= Z.of_nat (length c) ->
  exists b', complete E b i size = Ret b' /\ fs_ok b' /\
    file b' i = Some (t, take (Z.to_nat size) c) /\
    (forall j, j <> i -> file b' j = file b j) /\ free_list b' = free_list b.
Proof. apply complete_spec. Qed.

Lemma complete_correct_witness : exists b b', file b 1 = Some (T_DIR, replicate 5 x41) /\
  complete demo_env b 1 3 = Ret b' /\ file b' 1 = Some (T_DIR, [x41; x41; x41]).
Proof.
  destruct (demo_write 5) as (b & Hfs & Hf & _); [sizes; lia|].
  destruct (complete_correct demo_env b 1 T_DIR (replicate 5 x41) 3)
    as (b' & E1 & _ & Hf' & _); [exact Hfs|exact Hf|split; discriminate|].
  exists b, b'. exact (conj Hf (conj E1 Hf')).
Defined.

(** [get_block_ids] of an existing file appends the numbers of its blocks
    in file order: the bytes of those blocks, cut to the size, are the file.
    Without the file the NULL inode is dereferenced. *)
Theorem get_block_ids_correct E b i acc : fs_ok b ->
  match file b i with
  | Some (t, c) =>
      exists ids, get_block_ids E b i acc = Ret (acc ++ ids) /\
        Z.of_nat (length ids) = block_count (Z.of_nat (length c)) /\
        take (length c) (blocks_bytes b ids) = c
  | None => get_block_ids E b i acc = Undef
  end.
Proof.
  intros Hfs. destruct (file b i) as [[t c]|] eqn:Ef; [|by apply get_block_ids_dead].
  apply file_Some in Ef as (Hl & -> & ->). exists (file_ids b (ino_at b i)).
  rewrite get_block_ids_spec by done. split; [done|].
  rewrite length_content, length_file_ids by done. split; [done|].
  unfold content at 2. f_equal. pose proof (length_content b i Hfs Hl). lia.
Qed.

Lemma get_block_ids_correct_witness : exists b ids, file b 1 = Some (T_DIR, replicate 5 x41) /\
  get_block_ids demo_env b 1 [] = Ret ([] ++ ids) /\ Z.of_nat (length ids) = 1.
Proof.
  destruct (demo_write 5) as (b & Hfs & Hf & _); [sizes; lia|].
  pose proof (get_block_ids_correct demo_env b 1 [] Hfs) as H. rewrite Hf in H.
  destruct H as (ids & E1 & Hlen & _). exists b, ids. exact (conj Hf (conj E1 Hlen)).
Defined.
