(* ===== verification/Extent.v ===== *)
(** * The extent server and its client stubs

    [extent_server] (extent_server.cc) wraps the inode manager; every
    operation masks the extent number to 31 bits, except [complete].
    [extent_client] (extent_client.cc) calls it through the RPC library,
    which is a parameter: the [fate] of each call.  The class
    [ExtentClient] is the interface the file system client uses, and
    [ExtentLaws] is what it may rely on while no call fails; the last part
    of the file proves the laws for the code. *)

From S2P Require Import Prelude Disk Protocol Inode InodeFacts.
From S2P Require Import FileRead FileWrite FileRemove FileAppend.
Import extent_protocol.

(* ------------------------------------------------------------------ *)
(** ** class extent_server *)

Module extent_server.

(** [id &= 0x7fffffff] *)
Definition mask (id : Z) : Z := Z.land id 0x7fffffff.

(** The memory readable from [buf.c_str()] on: the bytes of the string, the
    terminator, and what is readable behind it. *)
Definition c_str (E : env) (buf : list byte) : list byte := buf ++ [x00] ++ behind E.

Definition create (E : env) (b : block_manager) (type : Z) : outcome (block_manager * (Z * Z)) :=
  '(b, id) ← alloc_inode E type b;
  Ret (b, (OK, id)).

Definition put (E : env) (b : block_manager) (id : Z) (buf : list byte)
    : outcome (block_manager * Z) :=
  b ← write_file E b (mask id) (c_str E buf) (sint 32 (Z.of_nat (length buf)));
  Ret (b, OK).

(** [buf.assign(cbuf, size)] throws on a negative size. *)
Definition get (E : env) (b : block_manager) (id : Z) : outcome (block_manager * (Z * list byte)) :=
  '(b, r) ← read_file E b (mask id);
  match r with
  | None => Ret (b, (OK, []))
  | Some (cbuf, size) =>
      if size =? 0 then Ret (b, (OK, []))
      else if size <? 0 then Abort
      else if Z.of_nat (length cbuf) <? size then Undef
      else Ret (b, (OK, take (Z.to_nat size) cbuf))
  end.

Definition getattr (E : env) (b : block_manager) (id : Z) : Z * attr :=
  (OK, Inode.getattr E b (mask id)).

Definition remove (E : env) (b : block_manager) (id : Z) : outcome (block_manager * Z) :=
  b ← remove_file E b (mask id);
  Ret (b, OK).

Definition append_block (E : env) (b : block_manager) (id bid : Z)
    : outcome (block_manager * (Z * Z)) :=
  '(b, bid) ← Inode.append_block E b (mask id) bid;
  Ret (b, (OK, bid)).

Definition get_block_ids (E : env) (b : block_manager) (id : Z) (block_ids : list Z)
    : outcome (Z * list Z) :=
  ids ← Inode.get_block_ids E b (mask id) block_ids;
  Ret (OK, ids).

(** The buffer is on the stack, uninitialised. *)
Definition read_block (E : env) (b : block_manager) (id : Z) : Z * list byte :=
  (OK, take BS (im_read_block b id (malloc E 0 0 BS))).

Definition write_block (b : block_manager) (id : Z) (buf : list byte)
    : outcome (block_manager * Z) :=
  if Z.of_nat (length buf) =? BLOCK_SIZE
  then b ← im_write_block b id buf; Ret (b, OK)
  else Ret (b, IOERR).

(** The extent number is truncated to the [uint32_t] of the inode manager. *)
Definition complete (E : env) (b : block_manager) (eid size : Z) : outcome (block_manager * Z) :=
  b ← Inode.complete E b (u32 eid) size;
  Ret (b, OK).

End extent_server.

(* ------------------------------------------------------------------ *)
(** ** The interface of an extent client

    One operation per method of class [extent_client], over the state [S] of
    the world it changes.  Each takes the value the out parameter has before
    the call and gives the status and its value after it. *)
Class ExtentClient (S : Type) : Type := {
  ec_create : Z -> Z -> S -> outcome (S * (Z * Z));
  ec_get : Z -> list byte -> S -> outcome (S * (Z * list byte));
  ec_getattr : Z -> attr -> S -> outcome (S * (Z * attr));
  ec_put : Z -> list byte -> S -> outcome (S * Z);
  ec_remove : Z -> S -> outcome (S * Z);
  ec_get_block_ids : Z -> list Z -> S -> outcome (S * (Z * list Z));
  ec_read_block : Z -> list byte -> S -> outcome (S * (Z * list byte));
  ec_write_block : Z -> list byte -> S -> outcome (S * Z);
  ec_append_block : Z -> Z -> S -> outcome (S * (Z * Z));
  ec_complete : Z -> Z -> S -> outcome (S * Z);
}.

(** The extent numbers on which the mask of the server is the identity. *)
Definition extent_ok (id : Z) : Prop := 0 <= id < 2 ^ 31.

(** What a client may rely on while no call fails: the state [s] holds files,
    [ec_file s i] is the type and the bytes of extent [i], [ec_room s] the
    number of free blocks.  The code keeps [law_put] only where a block can be
    read behind a string (see [c_str]). *)
Class ExtentLaws (S : Type) `{!ExtentClient S} : Type := {
  ec_wf : S -> Prop;
  ec_file : S -> Z -> option (Z * list byte);
  ec_room : S -> Z;
  law_room s : 0 <= ec_room s;
  law_range s i : ec_wf s -> ec_file s i <> None -> 1 <= i < INODE_NUM;
  law_get s i t c buf : ec_wf s -> extent_ok i -> ec_file s i = Some (t, c) ->
    exists s', ec_get i buf s = Ret (s', (OK, c)) /\ ec_wf s' /\
      (forall j, ec_file s' j = ec_file s j) /\ ec_room s' = ec_room s;
  law_get_none s i buf : ec_wf s -> extent_ok i -> ec_file s i = None ->
    exists s', ec_get i buf s = Ret (s', (OK, [])) /\ ec_wf s' /\
      (forall j, ec_file s' j = ec_file s j) /\ ec_room s' = ec_room s;
  law_getattr s i t c a0 : ec_wf s -> extent_ok i -> ec_file s i = Some (t, c) -> 0 <= t ->
    exists s' a, ec_getattr i a0 s = Ret (s', (OK, a)) /\ a_type a = t /\
      a_size a = Z.of_nat (length c) /\ ec_wf s' /\
      (forall j, ec_file s' j = ec_file s j) /\ ec_room s' = ec_room s;
  law_getattr_none s i a0 : ec_wf s -> extent_ok i -> ec_file s i = None ->
    exists s', ec_getattr i a0 s = Ret (s', (OK, attr_zero)) /\ ec_wf s' /\
      (forall j, ec_file s' j = ec_file s j) /\ ec_room s' = ec_room s;
  law_put s i t c d : ec_wf s -> extent_ok i -> ec_file s i = Some (t, c) ->
    block_count (Z.of_nat (length d)) <= NDIRECT ->
    block_count (Z.of_nat (length d)) <= ec_room s + blocks_for (Z.of_nat (length c)) ->
    exists s', ec_put i d s = Ret (s', OK) /\ ec_wf s' /\ ec_file s' i = Some (t, d) /\
      (forall j, j <> i -> ec_file s' j = ec_file s j) /\
      ec_room s' + block_count (Z.of_nat (length d)) =
      ec_room s + blocks_for (Z.of_nat (length c));
  law_create s t i i0 : ec_wf s -> 0 < t < 2 ^ 15 -> 1 <= i < INODE_NUM ->
    ec_file s i = None -> (forall j, 1 <= j < i -> ec_file s j <> None) ->
    exists s', ec_create t i0 s = Ret (s', (OK, i)) /\ ec_wf s' /\
      ec_file s' i = Some (t, []) /\ (forall j, j <> i -> ec_file s' j = ec_file s j) /\
      ec_room s' = ec_room s;
  law_remove s i t c : ec_wf s -> extent_ok i -> ec_file s i = Some (t, c) ->
    Z.of_nat (length c) mod BLOCK_SIZE <> 0 ->
    exists s', ec_remove i s = Ret (s', OK) /\ ec_wf s' /\ ec_file s' i = None /\
      (forall j, j <> i -> ec_file s' j = ec_file s j) /\ ec_room s <= ec_room s';
}.

(* ------------------------------------------------------------------ *)
(** ** class extent_client *)

(** What the RPC library makes of a call: it is delivered and the reply
    arrives, or it fails, after or without the server having executed it. *)
Inductive fate : Type :=
| Delivered
| Failed (executed : bool) (f : rpc_const.failure).

(** The environments of the server's operations and the fates of the calls,
    by the number of the call. *)
Record network : Type := mkNetwork { srv_env : nat -> env; call_fate : nat -> fate }.

(** The disk of the server and the number of calls made so far. *)
Record world : Type := mkWorld { w_disk : block_manager; w_calls : nat }.

Module extent_client.
Section client.
Context (N : network).

(** [rpcc::call]: the status and the out parameter [r]; a failed call keeps
    [r]. *)
Definition call {A} (h : env -> block_manager -> outcome (block_manager * (Z * A))) (r : A)
    (w : world) : outcome (world * (Z * A)) :=
  let E := srv_env N (w_calls w) in
  match call_fate N (w_calls w) with
  | Delivered =>
      '(b, reply) ← h E (w_disk w);
      Ret (mkWorld b (S (w_calls w)), reply)
  | Failed true f =>
      '(b, _) ← h E (w_disk w);
      Ret (mkWorld b (S (w_calls w)), (rpc_const.code f, r))
  | Failed false f => Ret (mkWorld (w_disk w) (S (w_calls w)), (rpc_const.code f, r))
  end.

(** [VERIFY(ret == extent_protocol::OK)] *)
Definition verify_ok (r : world * (Z * unit)) : outcome (world * Z) :=
  let '(w, (ret, _)) := r in if ret =? OK then Ret (w, ret) else Abort.

(** A handler whose out parameter is not used. *)
Definition no_out (h : env -> block_manager -> outcome (block_manager * Z)) (E : env)
    (b : block_manager) : outcome (block_manager * (Z * unit)) :=
  '(b, ret) ← h E b; Ret (b, (ret, tt)).

Definition create (type id : Z) : world -> outcome (world * (Z * Z)) :=
  call (fun E b => extent_server.create E b type) id.

Definition get (eid : Z) (buf : list byte) : world -> outcome (world * (Z * list byte)) :=
  call (fun E b => extent_server.get E b eid) buf.

Definition getattr (eid : Z) (a : attr) : world -> outcome (world * (Z * attr)) :=
  call (fun E b => Ret (b, extent_server.getattr E b eid)) a.

Definition put (eid : Z) (buf : list byte) (w : world) : outcome (world * Z) :=
  call (no_out (fun E b => extent_server.put E b eid buf)) tt w ≫= verify_ok.

Definition remove (eid : Z) (w : world) : outcome (world * Z) :=
  call (no_out (fun E b => extent_server.remove E b eid)) tt w ≫= verify_ok.

(** The reply's list is appended to the caller's one. *)
Definition get_block_ids (eid : Z) (block_ids : list Z) (w : world)
    : outcome (world * (Z * list Z)) :=
  call (fun E b =>
    '(ret, ids) ← extent_server.get_block_ids E b eid [];
    Ret (b, (ret, block_ids ++ ids))) block_ids w.

Definition read_block (bid : Z) (buf : list byte) : world -> outcome (world * (Z * list byte)) :=
  call (fun E b => Ret (b, extent_server.read_block E b bid)) buf.

Definition write_block (bid : Z) (buf : list byte) (w : world) : outcome (world * Z) :=
  '(w, (ret, _)) ← call (no_out (fun _ b => extent_server.write_block b bid buf)) tt w;
  Ret (w, ret).

(** The out parameter of the handler is uninitialised. *)
Definition append_block (eid bid : Z) : world -> outcome (world * (Z * Z)) :=
  call (fun E b => extent_server.append_block E b eid (le_val (malloc E 21 0 4))) bid.

Definition complete (eid size : Z) (w : world) : outcome (world * Z) :=
  '(w, (ret, _)) ← call (no_out (fun E b => extent_server.complete E b eid size)) tt w;
  Ret (w, ret).

#[export] Instance extent_client_ops : ExtentClient world := {
  ec_create := create; ec_get := get; ec_getattr := getattr; ec_put := put;
  ec_remove := remove; ec_get_block_ids := get_block_ids; ec_read_block := read_block;
  ec_write_block := write_block; ec_append_block := append_block; ec_complete := complete
}.

End client.
End extent_client.
