(* ===== verification/ExtentFacts.v ===== *)
(** * Correctness of the extent server and client

    The server's operations act on the abstract files of the disk, and the
    client stubs over a network that loses no call satisfy [ExtentLaws]. *)

From S2P Require Import Prelude Disk Protocol Inode InodeFacts.
From S2P Require Import FileRead FileWrite FileRemove FileAppend Extent.
Import extent_protocol.

Lemma mask_id i : extent_ok i -> extent_server.mask i = i.
Proof.
  intros Hi. unfold extent_server.mask. change 0x7fffffff with (Z.ones 31).
  rewrite Z.land_ones by lia. by apply Z.mod_small.
Qed.

(* ------------------------------------------------------------------ *)
(** ** The server *)

Section server.
Context (E : env) (b : block_manager) (i : Z) (Hfs : fs_ok b) (Hi : extent_ok i).

Lemma get_spec t c : file b i = Some (t, c) ->
  exists b', extent_server.get E b i = Ret (b', (OK, c)) /\ fs_ok b' /\
    (forall j, file b' j = file b j) /\ forall j, used b' j = used b j.
Proof using Hfs Hi.
  intros Hf. unfold extent_server.get. rewrite mask_id by done.
  destruct (read_file_spec E b i t c Hfs Hf) as (b' & buf & -> & Hbuf & Hrest). rewrite bind_Ret.
  exists b'. split; [|done].
  assert (length c <= length buf)%nat by (rewrite <-Hbuf, length_take; lia).
  destruct (Z.eqb_spec (Z.of_nat (length c)) 0) as [H0|H0].
  - by destruct c.
  - case_tests. by rewrite Nat2Z.id, Hbuf.
Qed.

Lemma get_none_spec : file b i = None -> extent_server.get E b i = Ret (b, (OK, [])).
Proof using Hfs Hi.
  intros Hf. unfold extent_server.get. rewrite mask_id by done. by rewrite read_file_dead.
Qed.

(** The last block of the string is copied as a whole. *)
Definition readable (E : env) : Prop := (BS <= length (behind E))%nat.

Lemma put_spec t c d : readable E -> file b i = Some (t, c) ->
  block_count (Z.of_nat (length d)) <= NDIRECT ->
  block_count (Z.of_nat (length d)) <=
    Z.of_nat (length (free_list b)) + blocks_for (Z.of_nat (length c)) ->
  exists b', extent_server.put E b i d = Ret (b', OK) /\ fs_ok b' /\ file b' i = Some (t, d) /\
    (forall j, j <> i -> file b' j = file b j) /\
    Z.of_nat (length (free_list b')) + block_count (Z.of_nat (length d)) =
    Z.of_nat (length (free_list b)) + blocks_for (Z.of_nat (length c)).
Proof using Hfs Hi.
  intros HE Hf Hn Hroom. fsizes. pose proof (block_count_bounds (Z.of_nat (length d))) as Hb. unfold readable in HE.
  unfold extent_server.put. rewrite mask_id by done. rewrite sint32_id by nia.
  destruct (write_file_spec E b i t c (extent_server.c_str E d) (Z.of_nat (length d)))
    as (b' & -> & Hfs' & Hf' & Ho & Hr); [done|done|lia|done| |lia|].
  { unfold extent_server.c_str. rewrite !length_app. cbn [length]. lia. }
  exists b'. split; [done|]. split; [done|]. split; [|done]. rewrite Hf'. do 2 f_equal.
  unfold extent_server.c_str. apply take_app_length'. lia.
Qed.

(** Where the language's promise is all there is, a string that ends in a part
    of a block is read past its end. *)
Lemma put_overread t c d : behind E = [] -> file b i = Some (t, c) ->
  block_count (Z.of_nat (length d)) <= NDIRECT ->
  block_count (Z.of_nat (length d)) <=
    Z.of_nat (length (free_list b)) + blocks_for (Z.of_nat (length c)) ->
  Z.of_nat (length d) + 1 < block_count (Z.of_nat (length d)) * BLOCK_SIZE ->
  extent_server.put E b i d = Undef.
Proof using Hfs Hi.
  intros HE Hf Hn Hroom Hshort. fsizes. pose proof (block_count_bounds (Z.of_nat (length d))) as Hb.
  unfold extent_server.put. rewrite mask_id by done. rewrite sint32_id by nia.
  assert (Z.of_nat (length (extent_server.c_str E d)) = Z.of_nat (length d) + 1) as Hl.
  { unfold extent_server.c_str. rewrite HE, !length_app. cbn [length]. lia. }
  rewrite (write_file_short E b i t c); [done|done|done|lia|done|lia|lia|lia].
Qed.

Lemma remove_spec t c : file b i = Some (t, c) -> Z.of_nat (length c) mod BLOCK_SIZE <> 0 ->
  exists b', extent_server.remove E b i = Ret (b', OK) /\ fs_ok b' /\ file b' i = None /\
    (forall j, j <> i -> file b' j = file b j) /\
    Z.of_nat (length (free_list b')) + 1 =
    Z.of_nat (length (free_list b)) + blocks_for (Z.of_nat (length c)).
Proof using Hfs Hi.
  intros Hf Hm. unfold extent_server.remove. rewrite mask_id by done.
  destruct (remove_file_spec E b i t c Hfs Hf Hm) as (b' & -> & Hrest). eauto.
Qed.
End server.

Lemma blocks_for_pos size : 0 <= size -> size mod BLOCK_SIZE <> 0 -> 1 <= blocks_for size.
Proof.
  intros Hs Hm. pose proof (block_count_bounds size Hs). sizes.
  assert (size <> 0) by (intros ->; by rewrite Z.mod_0_l in Hm by lia).
  unfold blocks_for. case_tests.
Qed.

(* ------------------------------------------------------------------ *)
(** ** The client over a network that loses no call *)

Section laws.
Context (N : network) (Hrel : forall n, call_fate N n = Delivered).
Context (Hmem : forall n, readable (srv_env N n)).

Lemma call_delivered {A} (h : env -> block_manager -> outcome (block_manager * (Z * A))) r w :
  extent_client.call N h r w =
  ('(b, reply) ← h (srv_env N (w_calls w)) (w_disk w); Ret (mkWorld b (S (w_calls w)), reply)).
Proof using Hrel. unfold extent_client.call. by rewrite Hrel. Qed.

(** No operation uses inode 0. *)
Definition world_ok (w : world) : Prop := fs_ok (w_disk w) /\ file (w_disk w) 0 = None.

Definition room (w : world) : Z := Z.of_nat (length (free_list (w_disk w))).

(** Two worlds with the same files and the same free blocks. *)
Definition same_files (w w' : world) : Prop :=
  (forall j, file (w_disk w') j = file (w_disk w) j) /\ room w' = room w.

(** A step that keeps the files keeps the world well-formed. *)
Lemma same_step w b' : world_ok w -> fs_ok b' ->
  (forall j, file b' j = file (w_disk w) j) -> (forall j, used b' j = used (w_disk w) j) ->
  world_ok (mkWorld b' (S (w_calls w))) /\ same_files w (mkWorld b' (S (w_calls w))).
Proof using Type.
  intros [Hfs H0] Hfs' Hj Hu. split; [split; [done|cbn; by rewrite Hj]|].
  split; [done|]. unfold room. cbn. by rewrite (free_list_ext _ _ Hu).
Qed.

(** A step that changes one file other than file 0 does so, too. *)
Lemma change_step w b' i : world_ok w -> fs_ok b' -> i <> 0 ->
  (forall j, j <> i -> file b' j = file (w_disk w) j) -> world_ok (mkWorld b' (S (w_calls w))).
Proof using Type. intros [Hfs H0] Hfs' Hi Hj. split; [done|]. cbn. rewrite Hj; done. Qed.

Lemma world_range w i : world_ok w -> file (w_disk w) i <> None -> 1 <= i < INODE_NUM.
Proof using Type.
  intros [Hfs H0] Hi. destruct (file (w_disk w) i) as [[t c]|] eqn:Ef; [|done].
  pose proof Ef as [[Hin _] _]%file_Some. unfold inum_ok in Hin.
  assert (i <> 0) by (intros ->; congruence). lia.
Qed.

Lemma world_get w i t c buf : world_ok w -> extent_ok i -> file (w_disk w) i = Some (t, c) ->
  exists w', extent_client.get N i buf w = Ret (w', (OK, c)) /\ world_ok w' /\ same_files w w'.
Proof using Hrel.
  intros Hw Hi Hf. unfold extent_client.get. rewrite call_delivered.
  destruct (get_spec (srv_env N (w_calls w)) (w_disk w) i (proj1 Hw) Hi t c Hf)
    as (b' & -> & Hfs' & Hj & Hu). rewrite bind_Ret. eexists. split; [done|].
  by apply same_step.
Qed.

Lemma world_get_none w i buf : world_ok w -> extent_ok i -> file (w_disk w) i = None ->
  exists w', extent_client.get N i buf w = Ret (w', (OK, [])) /\ world_ok w' /\ same_files w w'.
Proof using Hrel.
  intros Hw Hi Hf. unfold extent_client.get. rewrite call_delivered.
  rewrite get_none_spec, bind_Ret by (done || apply Hw). eexists. split; [done|].
  apply same_step; try done. apply Hw.
Qed.

Lemma world_getattr w i t c a0 : world_ok w -> extent_ok i -> file (w_disk w) i = Some (t, c) ->
  0 <= t -> exists w' a, extent_client.getattr N i a0 w = Ret (w', (OK, a)) /\ a_type a = t /\
    a_size a = Z.of_nat (length c) /\ world_ok w' /\ same_files w w'.
Proof using Hrel.
  intros Hw Hi Hf Ht. unfold extent_client.getattr, extent_server.getattr.
  rewrite call_delivered, bind_Ret, mask_id by done.
  destruct (getattr_spec (srv_env N (w_calls w)) (w_disk w) i t c) as (at_ & ct & ->);
    [apply Hw|done|done|].
  eexists _, _. split; [done|]. split; [done|]. split; [done|]. apply same_step; try done. apply Hw.
Qed.

Lemma world_getattr_none w i a0 : world_ok w -> extent_ok i -> file (w_disk w) i = None ->
  exists w', extent_client.getattr N i a0 w = Ret (w', (OK, attr_zero)) /\ world_ok w' /\
    same_files w w'.
Proof using Hrel.
  intros Hw Hi Hf. unfold extent_client.getattr, extent_server.getattr.
  rewrite call_delivered, bind_Ret, mask_id by done.
  rewrite getattr_dead by (done || apply Hw). eexists. split; [done|].
  apply same_step; try done. apply Hw.
Qed.

Lemma world_put w i t c d : world_ok w -> extent_ok i -> file (w_disk w) i = Some (t, c) ->
  block_count (Z.of_nat (length d)) <= NDIRECT ->
  block_count (Z.of_nat (length d)) <= room w + blocks_for (Z.of_nat (length c)) ->
  exists w', extent_client.put N i d w = Ret (w', OK) /\ world_ok w' /\
    file (w_disk w') i = Some (t, d) /\
    (forall j, j <> i -> file (w_disk w') j = file (w_disk w) j) /\
    room w' + block_count (Z.of_nat (length d)) = room w + blocks_for (Z.of_nat (length c)).
Proof using Hrel Hmem.
  intros Hw Hi Hf Hn Hroom. unfold extent_client.put, extent_client.no_out. rewrite call_delivered.
  destruct (put_spec (srv_env N (w_calls w)) (w_disk w) i (proj1 Hw) Hi t c d (Hmem _) Hf Hn Hroom)
    as (b' & -> & Hfs' & Hf' & Ho & Hr). cbn. eexists. split; [done|]. split; [|done].
  apply (change_step _ _ i); try done. pose proof (world_range w i Hw). rewrite Hf in *.
  destruct H; [done|lia].
Qed.

Lemma world_create w t i i0 : world_ok w -> 0 < t < 2 ^ 15 -> 1 <= i < INODE_NUM ->
  file (w_disk w) i = None -> (forall j, 1 <= j < i -> file (w_disk w) j <> None) ->
  exists w', extent_client.create N t i0 w = Ret (w', (OK, i)) /\ world_ok w' /\
    file (w_disk w') i = Some (t, []) /\
    (forall j, j <> i -> file (w_disk w') j = file (w_disk w) j) /\ room w' = room w.
Proof using Hrel.
  intros Hw Ht Hi Hf Hall. unfold extent_client.create, extent_server.create.
  rewrite call_delivered.
  destruct (alloc_inode_spec (srv_env N (w_calls w)) t (w_disk w) i)
    as (b' & -> & Hfs' & Hf' & Ho & Hu); [apply Hw| |done|].
  { split; [done|]. split; [by apply file_None|]. intros j Hj.
    destruct (decide (live (w_disk w) j)) as [?|Hd]; [done|].
    exfalso. by apply (Hall j Hj), file_None. }
  cbn. eexists. split; [done|]. split; [|split; [done|split; [done|]]].
  - apply (change_step _ _ i); try done. lia.
  - unfold room. cbn. by rewrite (free_list_ext _ _ Hu).
Qed.

Lemma world_remove w i t c : world_ok w -> extent_ok i -> file (w_disk w) i = Some (t, c) ->
  Z.of_nat (length c) mod BLOCK_SIZE <> 0 ->
  exists w', extent_client.remove N i w = Ret (w', OK) /\ world_ok w' /\
    file (w_disk w') i = None /\
    (forall j, j <> i -> file (w_disk w') j = file (w_disk w) j) /\ room w <= room w'.
Proof using Hrel.
  intros Hw Hi Hf Hm. unfold extent_client.remove, extent_client.no_out. rewrite call_delivered.
  destruct (remove_spec (srv_env N (w_calls w)) (w_disk w) i (proj1 Hw) Hi t c Hf Hm)
    as (b' & -> & Hfs' & Hf' & Ho & Hr). cbn. eexists. split; [done|].
  split; [|split; [done|split; [done|]]].
  - apply (change_step _ _ i); try done. pose proof (world_range w i Hw) as H. rewrite Hf in *.
    destruct H; [done|lia].
  - unfold room. cbn. pose proof (blocks_for_pos (Z.of_nat (length c)) ltac:(lia) Hm). lia.
Qed.

(** The code implements the interface. *)
Definition extent_client_laws : @ExtentLaws world (extent_client.extent_client_ops N).
Proof using Hrel Hmem.
  refine {| ec_wf := world_ok; ec_file w := file (w_disk w); ec_room := room |}.
  - intros w. apply Nat2Z.is_nonneg.
  - exact world_range.
  - exact world_get.
  - exact world_get_none.
  - exact world_getattr.
  - exact world_getattr_none.
  - exact world_put.
  - exact world_create.
  - exact world_remove.
Defined.
End laws.
