(* ===== verification/BlockFacts.v ===== *)
(** * The blocks of files

    What the block-level operations of the inode manager and of the extent
    server do to the list of blocks of every file: the interface between the
    name node, which hands out block numbers, and the data nodes, which fill
    the blocks. *)

From S2P Require Import Prelude Disk Protocol Inode InodeFacts.
From S2P Require Import FileRead FileWrite FileRemove FileAppend Extent ExtentFacts.
Import extent_protocol.

(** The blocks of a file in file order, with their bytes. *)
Definition file_blocks (b : block_manager) (i : Z) : list (Z * list byte) :=
  if decide (live b i) then (fun id => (id, blk b id)) <$> file_ids b (ino_at b i) else [].

Definition blocks_data (l : list (Z * list byte)) : list byte := concat (l.*2).

Lemma file_blocks_ids b i : live b i -> (file_blocks b i).*1 = file_ids b (ino_at b i).
Proof.
  intros Hl. unfold file_blocks. rewrite decide_True by done. rewrite <-list_fmap_compose.
  apply list_fmap_id.
Qed.

Lemma file_blocks_data b i : live b i ->
  blocks_data (file_blocks b i) = blocks_bytes b (file_ids b (ino_at b i)).
Proof.
  intros Hl. unfold blocks_data, file_blocks. rewrite decide_True by done.
  by rewrite <-list_fmap_compose.
Qed.

(** A file is the bytes of its blocks, cut to its size. *)
Lemma file_blocks_content b i t c : fs_ok b -> file b i = Some (t, c) ->
  Z.of_nat (length (file_blocks b i)) = block_count (Z.of_nat (length c)) /\
  take (length c) (blocks_data (file_blocks b i)) = c /\
  Forall (fun x => length x.2 = BS) (file_blocks b i).
Proof.
  intros Hfs (Hl & -> & ->)%file_Some. pose proof (length_content b i Hfs Hl) as HL. split; [|split].
  - unfold file_blocks. rewrite decide_True by done. rewrite length_fmap, HL.
    by apply length_file_ids.
  - rewrite file_blocks_data by done. unfold content at 2. f_equal. lia.
  - unfold file_blocks. rewrite decide_True by done. apply Forall_fmap, Forall_forall.
    intros id Hid. cbn. apply blk_length; [eauto with yfs|].
    eapply owned_range; [done|done|]. by apply file_ids_owned.
Qed.

Lemma file_blocks_dead b i : file b i = None -> file_blocks b i = [].
Proof. intros Hl%file_None. unfold file_blocks. by rewrite decide_False. Qed.

(** Disks that agree on an inode and on the blocks it owns. *)
Lemma file_blocks_frame b b' j : (live b' j <-> live b j) ->
  (live b j -> ino_at b' j = ino_at b j) ->
  (forall id, live b j -> id ∈ owned b (ino_at b j) -> blk b' id = blk b id) ->
  file_blocks b' j = file_blocks b j.
Proof.
  intros Hiff Hino Hsame. unfold file_blocks. destruct (decide (live b j)) as [Hl|Hl].
  - rewrite decide_True by (by apply Hiff). rewrite Hino by done.
    rewrite (file_ids_frame b b') by eauto. apply list_fmap_ext.
    intros k id Hk. rewrite Hsame; [done|done|]. apply file_ids_owned.
    by eapply list_elem_of_lookup_2.
  - rewrite decide_False; [done|]. tauto.
Qed.

Lemma file_blocks_other b b' i j : j <> i ->
  (forall j, inum_ok j -> j <> i -> ino_at b' j = ino_at b j) ->
  (forall id, live b j -> id ∈ owned b (ino_at b j) -> blk b' id = blk b id) ->
  file_blocks b' j = file_blocks b j.
Proof.
  intros Hj Hino Hsame. apply file_blocks_frame; [|intros Hl; apply Hino; [apply Hl|done]|done].
  by apply (live_other b b' i).
Qed.

(** Writing back an inode leaves every data block. *)
Lemma put_ino_owned b i ino' j id : fs_ok b -> inum_ok i -> live b j ->
  id ∈ owned b (ino_at b j) -> blk (put_ino b i ino') id = blk b id.
Proof.
  intros Hfs Hi Hl Hid. destruct (fs_data b Hfs j id Hl Hid) as [Hr _].
  destruct (data_block id i) as (? & ? & ?); [lia|done|]. by apply blk_put_ino.
Qed.

Lemma put_ino_blocks_other b i ino' j : fs_ok b -> inum_ok i -> j <> i ->
  file_blocks (put_ino b i ino') j = file_blocks b j.
Proof.
  intros Hfs Hi Hj. apply (file_blocks_other b _ i); [done| |].
  - intros k Hk Hne. by apply ino_at_put_ne.
  - intros id Hl Hid. by eapply put_ino_owned.
Qed.

(** The blocks of the file whose inode is written back. *)
Lemma put_ino_blocks_self b i ino' : fs_ok b -> live b i -> inode_ok ino' -> i_type ino' <> 0 ->
  (forall id, id ∈ owned b ino' -> id ∈ owned b (ino_at b i)) ->
  file_blocks (put_ino b i ino') i = (fun id => (id, blk b id)) <$> file_ids b ino'.
Proof.
  intros Hfs Hl Hok Ht Hin. pose proof Hl as [Hi _].
  assert (ino_at (put_ino b i ino') i = ino') as Ei by (apply ino_at_put_eq; eauto with yfs).
  assert (forall id, id ∈ owned b ino' -> blk (put_ino b i ino') id = blk b id) as Hsame.
  { intros id Hid%Hin. by eapply put_ino_owned. }
  unfold file_blocks. rewrite decide_True by (split; [done|by rewrite Ei]).
  rewrite Ei, (file_ids_frame b) by done. apply list_fmap_ext. intros k id Hk.
  rewrite Hsame; [done|]. unfold owned. apply elem_of_app. left. by eapply list_elem_of_lookup_2.
Qed.

Lemma put_ino_meta_blocks b i ino' : fs_ok b -> live b i -> inode_ok ino' ->
  i_type ino' = i_type (ino_at b i) -> i_size ino' = i_size (ino_at b i) ->
  i_blocks ino' = i_blocks (ino_at b i) ->
  forall j, file_blocks (put_ino b i ino') j = file_blocks b j.
Proof.
  intros Hfs Hl Hok Et Es Eb j. pose proof Hl as [Hi Ht].
  destruct (decide (j = i)) as [->|Hj]; [|by apply put_ino_blocks_other].
  destruct (owned_size_blocks b (ino_at b i) ino' Es Eb) as [Ef Eo].
  rewrite put_ino_blocks_self; [|done|done|done|congruence|by rewrite Eo].
  unfold file_blocks. by rewrite decide_True, Ef.
Qed.

(* ------------------------------------------------------------------ *)
(** ** The operations *)

(** Reading a file changes its access time only. *)
Lemma read_file_blocks E b i b' r : fs_ok b -> read_file E b i = Ret (b', r) ->
  forall j, file_blocks b' j = file_blocks b j.
Proof.
  intros Hfs Hr j. destruct (decide (live b i)) as [Hl|Hl].
  - destruct (read_content_spec b Hfs i Hl E) as (buf & Eb & Et). revert Hr.
    unfold read_file. rewrite get_inode_live by eauto with yfs.
    rewrite Eb, bind_Ret. fold (touch_atime (ino_at b i) (now E 0)).
    assert (inode_ok (touch_atime (ino_at b i) (now E 0))) as Hok
      by (apply touch_atime_ok; [apply ino_at_ok|apply u32_range]).
    rewrite put_inode_spec; [|eauto with yfs|apply Hl|done]. rewrite bind_Ret.
    intros [= <- _]. by apply put_ino_meta_blocks.
  - rewrite read_file_dead in Hr by (done || by apply file_None). by injection Hr as <- _.
Qed.

(** A data block that is not the list of the indirect blocks of a file: a block
    of a file or a free one, and its bytes. *)
Definition raw_block (b : block_manager) (id : Z) (d : list byte) : Prop :=
  FIRST_DATA <= id < BLOCK_NUM /\ d = blk b id /\
  forall i, live b i -> id ∈ owned b (ino_at b i) -> id ∈ file_ids b (ino_at b i).

Lemma file_block_id b i k id d : file_blocks b i !! k = Some (id, d) ->
  live b i /\ file_ids b (ino_at b i) !! k = Some id /\ d = blk b id.
Proof.
  unfold file_blocks. destruct (decide (live b i)) as [Hl|]; [|done]. rewrite list_lookup_fmap.
  destruct (file_ids b (ino_at b i) !! k) as [id'|]; [|done]. by intros [= -> <-].
Qed.

Lemma file_block_raw b i k id d : fs_ok b -> file_blocks b i !! k = Some (id, d) -> raw_block b id d.
Proof.
  intros Hfs (Hl & Hid & ->)%file_block_id. apply list_elem_of_lookup_2 in Hid.
  assert (id ∈ owned b (ino_at b i)) as Ho by by apply file_ids_owned.
  split; [by apply (own_block b i id Hfs Hl)|]. split; [done|]. intros j Hj Hoj.
  by rewrite (fs_disj b Hfs j i id).
Qed.

(** No block is in two files, or twice in one. *)
Lemma file_block_unique b i j k k' id d d' : fs_ok b -> file_blocks b i !! k = Some (id, d) ->
  file_blocks b j !! k' = Some (id, d') -> i = j /\ k = k'.
Proof.
  intros Hfs (Hl & Hid & _)%file_block_id (Hj & Hid' & _)%file_block_id.
  assert (i = j) as <-.
  { apply (fs_disj b Hfs i j id Hl Hj); apply file_ids_owned; eapply list_elem_of_lookup_2; eassumption. }
  split; [done|]. eapply NoDup_lookup; [|exact Hid|exact Hid'].
  pose proof (fs_nodup b Hfs i Hl) as Hnd. unfold owned in Hnd. by apply NoDup_app in Hnd as [? _].
Qed.

(** Writing such a block. *)
Section one_block.
Context (b : block_manager) (id : Z) (d d' : list byte) (Hfs : fs_ok b) (Hraw : raw_block b id d).
#[local] Abbreviation b' := (set_blk b id d').

Lemma one_range : FIRST_DATA <= id < BLOCK_NUM.
Proof using Hraw. apply Hraw. Qed.

Lemma one_other id' : 0 <= id' -> id' <> id -> blk b' id' = blk b id'.
Proof using Hraw.
  intros H0 Hn. pose proof one_range. apply blk_set_ne; unfold FIRST_DATA in *; [lia|done|congruence].
Qed.

Lemma one_self : blk b' id = d'.
Proof using Hfs Hraw.
  pose proof one_range. apply blk_set_eq; [eauto with yfs|unfold FIRST_DATA in *; lia].
Qed.

Lemma one_ino j : inum_ok j -> ino_at b' j = ino_at b j.
Proof using Hraw.
  intros Hj. unfold ino_at. pose proof one_range. rewrite one_other; [done| |].
  - pose proof (iblock_range j Hj). unfold FIRST_DATA in *. lia.
  - destruct (data_block id j) as (_ & ? & _); [lia|done|congruence].
Qed.

Lemma one_used j : used b' j = used b j.
Proof using Hraw.
  unfold used. pose proof one_range. rewrite one_other; [done|unfold BITMAP; lia|].
  unfold BITMAP, FIRST_DATA in *. lia.
Qed.

Lemma one_live j : live b' j <-> live b j.
Proof using Hraw.
  unfold live. split; intros [Hj Ht]; (split; [done|]); [rewrite one_ino in Ht|rewrite one_ino]; done.
Qed.

(** The block is not the one that lists the indirect blocks. *)
Lemma one_ids j : live b j -> file_ids b' (ino_at b' j) = file_ids b (ino_at b j).
Proof using Hfs Hraw.
  intros Hl. rewrite one_ino by apply Hl. unfold file_ids.
  destruct (block_count (i_size (ino_at b j)) <=? NDIRECT) eqn:En; [done|].
  assert (ind_id (ino_at b j) ∈ owned b (ino_at b j)) as Hind.
  { unfold owned. rewrite En. apply elem_of_app. right. left. }
  rewrite one_other; [done|by apply (owned_range b j _ Hfs Hl)|]. intros Heq.
  pose proof (fs_nodup b Hfs j Hl) as Hnd. unfold owned in Hnd. rewrite En in Hnd.
  apply NoDup_app in Hnd as (_ & Hnd & _). apply (Hnd (ind_id (ino_at b j))); [|left].
  rewrite Heq in *. by apply Hraw.
Qed.

Lemma one_owned j : live b j -> owned b' (ino_at b' j) = owned b (ino_at b j).
Proof using Hfs Hraw. intros Hl. unfold owned. rewrite one_ids by done. by rewrite one_ino by apply Hl. Qed.

Lemma one_fs_ok : length d' = BS -> fs_ok b'.
Proof using Hfs Hraw.
  intros Hd. split; [apply set_blk_ok; eauto with yfs|..].
  - intros j Hl%one_live. rewrite one_ino by apply Hl. by apply fs_size.
  - intros j Hl%one_live. rewrite one_owned by done. by apply fs_nodup.
  - intros j id' Hl%one_live. rewrite one_owned, one_used by done. by apply fs_data.
  - intros j j' id' Hj%one_live Hj'%one_live. rewrite !one_owned by done. by apply fs_disj.
Qed.

Lemma one_blocks i k d0 : file_blocks b i !! k = Some (id, d0) ->
  file_blocks b' i = <[k := (id, d')]> (file_blocks b i).
Proof using Hfs Hraw.
  intros Hk. pose proof Hk as (Hl & Hid & _)%file_block_id.
  unfold file_blocks. rewrite !decide_True by (done || by apply one_live). rewrite one_ids by done.
  apply list_eq. intros m. destruct (decide (m = k)) as [->|Hm].
  - rewrite list_lookup_insert_eq by (rewrite length_fmap; by eapply lookup_lt_Some).
    rewrite list_lookup_fmap, Hid. cbn. by rewrite one_self.
  - rewrite list_lookup_insert_ne, !list_lookup_fmap by done.
    destruct (file_ids b (ino_at b i) !! m) as [id'|] eqn:Em; [|done]. cbn.
    rewrite one_other; [done| |].
    + apply (owned_range b i id' Hfs Hl), file_ids_owned. by eapply list_elem_of_lookup_2.
    + intros ->. apply Hm. apply (file_block_unique b i i m k id (blk b id) (blk b id) Hfs).
      * unfold file_blocks. rewrite decide_True, list_lookup_fmap, Em by done. done.
      * unfold file_blocks. rewrite decide_True, list_lookup_fmap, Hid by done. done.
Qed.

Lemma one_file i t c k d0 : file b i = Some (t, c) -> file_blocks b i !! k = Some (id, d0) ->
  file b' i = Some (t, take (length c) (blocks_data (<[k := (id, d')]> (file_blocks b i)))).
Proof using Hfs Hraw.
  intros Hf Hk. pose proof Hf as (Hl & Et & Ec)%file_Some.
  pose proof (length_content b i Hfs Hl) as HL. rewrite <-Ec in HL.
  pose proof (proj2 (one_live i) Hl) as Hl'.
  unfold file. rewrite decide_True by done. rewrite one_ino by apply Hl.
  rewrite <-Et. do 2 f_equal. unfold content.
  rewrite <-file_blocks_data, (one_blocks i k d0) by done. f_equal. rewrite one_ino by apply Hl. lia.
Qed.

(** The files that do not have the block. *)
Lemma one_apart j : id ∉ (file_blocks b j).*1 -> file b' j = file b j /\ file_blocks b' j = file_blocks b j.
Proof using Hfs Hraw.
  intros Hj.
  assert (forall id', live b j -> id' ∈ owned b (ino_at b j) -> blk b' id' = blk b id') as Hsame.
  { intros id' Hl Hid'. apply one_other; [by apply (owned_range b j id' Hfs Hl)|]. intros ->. apply Hj.
    rewrite file_blocks_ids by done. by apply Hraw. }
  split; [|apply file_blocks_frame; [apply one_live|intros Hl; apply one_ino, Hl|eauto]].
  unfold file. destruct (decide (live b j)) as [Hl|Hl].
  - rewrite decide_True by by apply one_live. unfold content. rewrite !one_ino by apply Hl. do 3 f_equal.
    apply bytes_frame. eauto.
  - rewrite decide_False; [done|]. by rewrite one_live.
Qed.

Lemma one_raw id' e : raw_block b' id' e <-> if decide (id' = id) then e = d' else raw_block b id' e.
Proof using Hfs Hraw.
  assert ((forall i, live b' i -> id' ∈ owned b' (ino_at b' i) -> id' ∈ file_ids b' (ino_at b' i)) <->
    (forall i, live b i -> id' ∈ owned b (ino_at b i) -> id' ∈ file_ids b (ino_at b i))) as Hiff.
  { split; intros H i Hi; specialize (H i); rewrite one_live in *; specialize (H Hi);
      rewrite one_owned, one_ids in * by done; done. }
  unfold raw_block. rewrite Hiff. destruct (decide (id' = id)) as [->|Hn].
  - rewrite one_self. destruct Hraw as (Hr & _ & Hd). split; [by intros (_ & ? & _)|done].
  - split; intros (Hr & He & Hd); (split; [done|]; split; [|done]);
      [rewrite one_other in He|rewrite one_other]; unfold FIRST_DATA in *; try lia; done.
Qed.
End one_block.

(** What a write of the block [id] does to files and blocks. *)
Lemma write_block_raw b id d d' : fs_ok b -> raw_block b id d -> length d' = BS ->
  exists b', write_block b id d' = Ret b' /\ fs_ok b' /\
    (forall id' e, raw_block b' id' e <-> if decide (id' = id) then e = d' else raw_block b id' e) /\
    (forall i t c k d0, file b i = Some (t, c) -> file_blocks b i !! k = Some (id, d0) ->
      file_blocks b' i = <[k := (id, d')]> (file_blocks b i) /\
      file b' i = Some (t, take (length c) (blocks_data (<[k := (id, d')]> (file_blocks b i))))) /\
    (forall j, id ∉ (file_blocks b j).*1 -> file b' j = file b j /\ file_blocks b' j = file_blocks b j) /\
    (forall j, used b' j = used b j).
Proof.
  intros Hfs Hraw Hd. pose proof (one_range b id d Hraw) as Hr. exists (set_blk b id d').
  split; [rewrite write_block_in; [by rewrite take_ge by lia|unfold FIRST_DATA in *; lia|lia]|].
  split; [by eapply one_fs_ok|]. split; [intros; by eapply one_raw|].
  split; [intros i t c k d0 Hf Hk; split; [by eapply one_blocks|by eapply one_file]|].
  split; [intros j; by eapply one_apart|intros j; by eapply one_used].
Qed.

Lemma free_list_take b b' new : (forall id, id ∈ new -> id ∈ free_list b) -> NoDup new ->
  (forall j, 0 <= j -> used b' j = true <-> used b j = true \/ j ∈ new) ->
  (length (free_list b') + length new = length (free_list b))%nat.
Proof.
  intros Hin Hnd Hused. rewrite <-length_app. apply Permutation_length, NoDup_Permutation.
  - apply NoDup_app. split; [apply free_list_NoDup|]. split; [|done].
    intros id [Hr Hf]%elem_of_free_list Hn. enough (used b' id = true) by congruence.
    apply Hused; [unfold FIRST_DATA in *; lia|by right].
  - apply free_list_NoDup.
  - intros id. rewrite elem_of_app, !elem_of_free_list. split.
    + intros [[Hr Hf]|Hn]; [|by apply Hin, elem_of_free_list in Hn]. split; [done|].
      apply not_true_iff_false. intros Ht. enough (used b' id = true) by congruence.
      apply Hused; [unfold FIRST_DATA in *; lia|by left].
    + intros [Hr Hf]. destruct (decide (id ∈ new)) as [?|Hn]; [by right|left]. split; [done|].
      apply not_true_iff_false. intros Ht.
      destruct (proj1 (Hused id ltac:(unfold FIRST_DATA in *; lia)) Ht); [congruence|done].
Qed.

(** [append_block] adds one block of any content. *)
Lemma append_block_blocks E b i t c bid0 : fs_ok b -> file b i = Some (t, c) ->
  block_count (Z.of_nat (length c)) < MAXFILE ->
  (if block_count (Z.of_nat (length c)) =? NDIRECT then 2 else 1) <= Z.of_nat (length (free_list b)) ->
  exists b' bid d pad, append_block E b i bid0 = Ret (b', bid) /\ fs_ok b' /\
    file b' i = Some (t, c ++ pad) /\ Z.of_nat (length pad) = BLOCK_SIZE /\
    file_blocks b' i = file_blocks b i ++ [(bid, d)] /\
    (forall j, j <> i -> file b' j = file b j /\ file_blocks b' j = file_blocks b j) /\
    Z.of_nat (length (free_list b')) + (if block_count (Z.of_nat (length c)) =? NDIRECT then 2 else 1) =
    Z.of_nat (length (free_list b)).
Proof.
  intros Hfs (Hl & -> & ->)%file_Some. rewrite length_content by done. intros Hmax Hroom.
  destruct (free_list b) as [|bid rest] eqn:Hfree.
  { destruct (Z.eqb_spec (block_count (i_size (ino_at b i))) NDIRECT); cbn in Hroom; lia. }
  destruct (append_block_appended E b i bid bid0 rest)
    as (b' & new & E1 & Hap & Hnd & Hnew & Hbid & Hlen); [done..| |].
  { intros Hn ->. rewrite Hn, Z.eqb_refl in Hroom. cbn in Hroom. lia. }
  destruct (appended_ok b i b' bid new) as (Hfs' & Ho & pad & Hf & Hp); try done.
  pose proof Hf as (Hl' & _ & _)%file_Some. rewrite Hfree in Hnew.
  pose proof (free_list_take b b' new) as Hfl. rewrite Hfree in Hfl.
  specialize (Hfl Hnew Hnd (ap_used _ _ _ _ _ Hap)).
  exists b', bid, (blk b' bid), pad. split; [done|]. split; [done|]. split; [done|]. split; [done|].
  split; [|split].
  - unfold file_blocks. rewrite !decide_True by done. rewrite (ap_ids _ _ _ _ _ Hap), fmap_app.
    f_equal. apply list_fmap_ext. intros m id Hm. f_equal. apply (ap_data _ _ _ _ _ Hap).
    by eapply list_elem_of_lookup_2.
  - intros j Hj. split; [by apply Ho|]. apply (file_blocks_other b b' i); [done|apply Hap|].
    intros id Hlj Hid. destruct (own_block b j id Hfs Hlj Hid) as (Hr & _ & Hno).
    apply (ap_blk _ _ _ _ _ Hap); [lia|intros Hin; by apply (Hno i)|].
    intros Hin%Hnew. rewrite <-Hfree in Hin.
    by apply (free_block_owned b j id).
  - rewrite Hlen in Hfl. revert Hfl. cbn [length].
    destruct (block_count (i_size (ino_at b i)) =? NDIRECT); lia.
Qed.

(** [complete] keeps the blocks up to the new size. *)
Lemma complete_blocks E b i t c size b' : fs_ok b -> file b i = Some (t, c) ->
  0 <= size <= Z.of_nat (length c) -> complete E b i size = Ret b' ->
  file_blocks b' i = take (Z.to_nat (block_count size)) (file_blocks b i) /\
  forall j, j <> i -> file_blocks b' j = file_blocks b j.
Proof.
  intros Hfs (Hl & -> & ->)%file_Some. rewrite length_content by done. intros Hs.
  pose proof (size_bound b Hfs i Hl) as Hmax. pose proof Hl as [Hi Ht].
  unfold complete. rewrite get_inode_live by eauto with yfs. set (ino' := mkInode _ _ _ _ _ _).
  assert (inode_ok ino') as Hok'.
  { apply mkInode_ok; try apply u32_range; [apply ino_at_ok|apply ino_at_ok|lia]. }
  rewrite put_inode_spec by eauto with yfs. intros [= <-].
  destruct (shrink_ids b (ino_at b i) ino') as [Ef Hsub]; [apply ino_at_ok|done|done|].
  split; [|intros j Hj; by apply put_ino_blocks_other].
  rewrite put_ino_blocks_self; [|done|done|done|done|intros id Hid; by eapply elem_of_sublist].
  rewrite Ef, fmap_take. unfold file_blocks. by rewrite decide_True.
Qed.

(* ------------------------------------------------------------------ *)
(** ** The interface *)

(** What a client may rely on at the level of blocks: [ec_blocks s i] are the
    numbers and the bytes of the blocks of extent [i]. *)
Class BlockLaws (S : Type) `{!ExtentClient S, !ExtentLaws S} : Type := {
  ec_blocks : S -> Z -> list (Z * list byte);
  law_blocks s i t c : ec_wf s -> ec_file s i = Some (t, c) ->
    Z.of_nat (length (ec_blocks s i)) = block_count (Z.of_nat (length c)) /\
    take (length c) (blocks_data (ec_blocks s i)) = c /\
    Forall (fun x => length x.2 = BS) (ec_blocks s i);
  ec_raw : S -> Z -> list byte -> Prop;
  law_raw_block s i k id d : ec_wf s -> ec_blocks s i !! k = Some (id, d) -> ec_raw s id d;
  law_raw_range s id d : ec_wf s -> ec_raw s id d -> 0 <= id < BLOCK_NUM /\ length d = BS;
  law_block_unique s i j k k' id d d' : ec_wf s -> ec_blocks s i !! k = Some (id, d) ->
    ec_blocks s j !! k' = Some (id, d') -> i = j /\ k = k';
  law_get_blocks s i buf s' r : ec_wf s -> extent_ok i -> ec_get i buf s = Ret (s', r) ->
    forall j, ec_blocks s' j = ec_blocks s j;
  law_getattr_blocks s i a s' r : ec_wf s -> extent_ok i -> ec_getattr i a s = Ret (s', r) ->
    forall j, ec_blocks s' j = ec_blocks s j;
  law_block_ids s i t c l : ec_wf s -> extent_ok i -> ec_file s i = Some (t, c) ->
    exists s', ec_get_block_ids i l s = Ret (s', (OK, l ++ (ec_blocks s i).*1)) /\ ec_wf s' /\
      (forall j, ec_file s' j = ec_file s j /\ ec_blocks s' j = ec_blocks s j) /\
      ec_room s' = ec_room s;
  law_read_block s id d buf : ec_wf s -> ec_raw s id d ->
    exists s', ec_read_block id buf s = Ret (s', (OK, d)) /\ ec_wf s' /\
      (forall j, ec_file s' j = ec_file s j /\ ec_blocks s' j = ec_blocks s j) /\
      (forall id' e, ec_raw s' id' e <-> ec_raw s id' e) /\ ec_room s' = ec_room s;
  law_write_block s id d d' : ec_wf s -> ec_raw s id d -> length d' = BS ->
    exists s', ec_write_block id d' s = Ret (s', OK) /\ ec_wf s' /\
      (forall id' e, ec_raw s' id' e <-> if decide (id' = id) then e = d' else ec_raw s id' e) /\
      (forall i t c k d0, ec_file s i = Some (t, c) -> ec_blocks s i !! k = Some (id, d0) ->
        ec_blocks s' i = <[k := (id, d')]> (ec_blocks s i) /\
        ec_file s' i = Some (t, take (length c) (blocks_data (<[k := (id, d')]> (ec_blocks s i))))) /\
      (forall j, id ∉ (ec_blocks s j).*1 -> ec_file s' j = ec_file s j /\ ec_blocks s' j = ec_blocks s j) /\
      ec_room s' = ec_room s;
  law_append s i t c bid0 : ec_wf s -> extent_ok i -> ec_file s i = Some (t, c) ->
    block_count (Z.of_nat (length c)) < MAXFILE ->
    (if block_count (Z.of_nat (length c)) =? NDIRECT then 2 else 1) <= ec_room s ->
    exists s' bid d pad, ec_append_block i bid0 s = Ret (s', (OK, bid)) /\ ec_wf s' /\
      ec_file s' i = Some (t, c ++ pad) /\ Z.of_nat (length pad) = BLOCK_SIZE /\
      ec_blocks s' i = ec_blocks s i ++ [(bid, d)] /\
      (forall j, j <> i -> ec_file s' j = ec_file s j /\ ec_blocks s' j = ec_blocks s j) /\
      ec_room s' + (if block_count (Z.of_nat (length c)) =? NDIRECT then 2 else 1) = ec_room s;
  law_complete s i t c size : ec_wf s -> extent_ok i -> ec_file s i = Some (t, c) ->
    0 <= size <= Z.of_nat (length c) ->
    exists s', ec_complete i size s = Ret (s', OK) /\ ec_wf s' /\
      ec_file s' i = Some (t, take (Z.to_nat size) c) /\
      ec_blocks s' i = take (Z.to_nat (block_count size)) (ec_blocks s i) /\
      (forall j, j <> i -> ec_file s' j = ec_file s j /\ ec_blocks s' j = ec_blocks s j) /\
      ec_room s' = ec_room s;
}.

Lemma law_block_range {S} `{!ExtentClient S, !ExtentLaws S, !BlockLaws S} s i k id d : ec_wf s ->
  ec_blocks s i !! k = Some (id, d) -> 0 <= id < BLOCK_NUM.
Proof. intros Hwf Hk. by apply (law_raw_range s id d), (law_raw_block s i k). Qed.

(** The code implements the block interface, too. *)
Section laws.
Context (N : network) (Hrel : forall n, call_fate N n = Delivered) (Hmem : forall n, readable (srv_env N n)).

Lemma world_get_blocks w i buf w' r : world_ok w -> extent_ok i ->
  extent_client.get N i buf w = Ret (w', r) ->
  forall j, file_blocks (w_disk w') j = file_blocks (w_disk w) j.
Proof using Hrel.
  intros [Hfs _] Hi. unfold extent_client.get, extent_server.get.
  rewrite (call_delivered N Hrel), mask_id by done.
  destruct (read_file _ _ _) as [[b' x]| | |] eqn:E; try done. rewrite bind_Ret.
  intros Hr. assert (w_disk w' = b') as ->; [|by eapply read_file_blocks].
  revert Hr. repeat case_match; cbn; try done; by intros [= <- _].
Qed.

Lemma world_getattr_blocks w i a w' r : world_ok w -> extent_ok i ->
  extent_client.getattr N i a w = Ret (w', r) ->
  forall j, file_blocks (w_disk w') j = file_blocks (w_disk w) j.
Proof using Hrel.
  intros _ Hi. unfold extent_client.getattr. rewrite (call_delivered N Hrel), bind_Ret.
  by intros [= <- _].
Qed.

(** A call that leaves the disk. *)
Lemma world_same w : world_ok w ->
  world_ok (mkWorld (w_disk w) (S (w_calls w))) /\
  (forall j, file (w_disk w) j = file (w_disk w) j /\
     file_blocks (w_disk w) j = file_blocks (w_disk w) j) /\
  room (mkWorld (w_disk w) (S (w_calls w))) = room w.
Proof using Type. done. Qed.

Lemma world_block_ids w i t c l : world_ok w -> extent_ok i -> file (w_disk w) i = Some (t, c) ->
  exists w', extent_client.get_block_ids N i l w = Ret (w', (OK, l ++ (file_blocks (w_disk w) i).*1)) /\
    world_ok w' /\ (forall j, file (w_disk w') j = file (w_disk w) j /\
      file_blocks (w_disk w') j = file_blocks (w_disk w) j) /\ room w' = room w.
Proof using Hrel.
  intros Hw Hi (Hl & _ & _)%file_Some. unfold extent_client.get_block_ids, extent_server.get_block_ids.
  rewrite (call_delivered N Hrel), mask_id by done. rewrite get_block_ids_spec by (done || apply Hw).
  rewrite file_blocks_ids by done. cbn. eexists. split; [done|]. exact (world_same w Hw).
Qed.

Lemma world_raw_range w id d : world_ok w -> raw_block (w_disk w) id d -> 0 <= id < BLOCK_NUM /\ length d = BS.
Proof using Type.
  intros Hw (Hr & -> & _). unfold FIRST_DATA in *. split; [lia|]. apply blk_length; [eapply fs_bm, Hw|lia].
Qed.

Lemma world_read_block w id d buf : world_ok w -> raw_block (w_disk w) id d ->
  exists w', extent_client.read_block N id buf w = Ret (w', (OK, d)) /\ world_ok w' /\
    (forall j, file (w_disk w') j = file (w_disk w) j /\
      file_blocks (w_disk w') j = file_blocks (w_disk w) j) /\
    (forall id' e, raw_block (w_disk w') id' e <-> raw_block (w_disk w) id' e) /\ room w' = room w.
Proof using Hrel.
  intros Hw Hraw. pose proof (world_raw_range w id d Hw Hraw) as [Hr Hd]. pose proof Hraw as (_ & -> & _).
  unfold extent_client.read_block, extent_server.read_block, im_read_block.
  rewrite (call_delivered N Hrel), bind_Ret, read_block_in by first [eapply fs_bm, Hw|lia].
  rewrite take_ge by lia. eexists. split; [done|]. destruct (world_same w Hw) as (? & ? & ?). done.
Qed.

Lemma world_write_block w id d d' : world_ok w -> raw_block (w_disk w) id d -> length d' = BS ->
  exists w', extent_client.write_block N id d' w = Ret (w', OK) /\ world_ok w' /\
    (forall id' e, raw_block (w_disk w') id' e <-> if decide (id' = id) then e = d' else raw_block (w_disk w) id' e) /\
    (forall i t c k d0, file (w_disk w) i = Some (t, c) -> file_blocks (w_disk w) i !! k = Some (id, d0) ->
      file_blocks (w_disk w') i = <[k := (id, d')]> (file_blocks (w_disk w) i) /\
      file (w_disk w') i =
        Some (t, take (length c) (blocks_data (<[k := (id, d')]> (file_blocks (w_disk w) i))))) /\
    (forall j, id ∉ (file_blocks (w_disk w) j).*1 -> file (w_disk w') j = file (w_disk w) j /\
      file_blocks (w_disk w') j = file_blocks (w_disk w) j) /\ room w' = room w.
Proof using Hrel.
  intros Hw Hraw Hd. destruct (write_block_raw (w_disk w) id d d' (proj1 Hw) Hraw Hd)
    as (b' & E1 & Hfs' & Hr & Hb & Ho & Hu).
  unfold extent_client.write_block, extent_client.no_out, extent_server.write_block, im_write_block.
  rewrite (call_delivered N Hrel), Hd, BS_BLOCK_SIZE, Z.eqb_refl, E1. cbn. eexists. split; [done|].
  split; [|split; [done|split; [done|split; [done|]]]].
  - split; [done|]. cbn. destruct Hw as [_ H0]. rewrite (proj1 (Ho 0 ltac:(rewrite (file_blocks_dead _ _ H0); by apply not_elem_of_nil))).
    done.
  - unfold room. cbn. by rewrite (free_list_ext _ _ Hu).
Qed.

Lemma world_append w i t c bid0 : world_ok w -> extent_ok i -> file (w_disk w) i = Some (t, c) ->
  block_count (Z.of_nat (length c)) < MAXFILE ->
  (if block_count (Z.of_nat (length c)) =? NDIRECT then 2 else 1) <= room w ->
  exists w' bid d pad, extent_client.append_block N i bid0 w = Ret (w', (OK, bid)) /\ world_ok w' /\
    file (w_disk w') i = Some (t, c ++ pad) /\ Z.of_nat (length pad) = BLOCK_SIZE /\
    file_blocks (w_disk w') i = file_blocks (w_disk w) i ++ [(bid, d)] /\
    (forall j, j <> i -> file (w_disk w') j = file (w_disk w) j /\
      file_blocks (w_disk w') j = file_blocks (w_disk w) j) /\
    room w' + (if block_count (Z.of_nat (length c)) =? NDIRECT then 2 else 1) = room w.
Proof using Hrel.
  intros Hw Hi Hf Hn Hr. unfold extent_client.append_block, extent_server.append_block.
  rewrite (call_delivered N Hrel), mask_id by done.
  destruct (append_block_blocks (srv_env N (w_calls w)) (w_disk w) i t c
    (le_val (malloc (srv_env N (w_calls w)) 21 0 4)))
    as (b' & bid & d & pad & -> & Hfs' & Hf' & Hp & Hb & Ho & Hroom); [apply Hw|done|done|done|].
  cbn. eexists _, bid, d, pad. split; [done|]. split; [|done].
  apply (change_step _ _ i); try done; [|intros j Hj; by apply Ho].
  intros ->. destruct Hw as [_ H0]. congruence.
Qed.

Lemma world_complete w i t c size : world_ok w -> extent_ok i -> file (w_disk w) i = Some (t, c) ->
  0 <= size <= Z.of_nat (length c) ->
  exists w', extent_client.complete N i size w = Ret (w', OK) /\ world_ok w' /\
    file (w_disk w') i = Some (t, take (Z.to_nat size) c) /\
    file_blocks (w_disk w') i = take (Z.to_nat (block_count size)) (file_blocks (w_disk w) i) /\
    (forall j, j <> i -> file (w_disk w') j = file (w_disk w) j /\
      file_blocks (w_disk w') j = file_blocks (w_disk w) j) /\ room w' = room w.
Proof using Hrel.
  intros Hw Hi Hf Hs. destruct (complete_spec (srv_env N (w_calls w)) (w_disk w) i t c size)
    as (b' & E1 & Hfs' & Hf' & Ho & Hr); [apply Hw|done|done|].
  destruct (complete_blocks _ _ i t c size b' (proj1 Hw) Hf Hs E1) as [Hb Hbo].
  unfold extent_client.complete, extent_client.no_out, extent_server.complete.
  rewrite (call_delivered N Hrel), u32_id by (unfold extent_ok in Hi; lia). rewrite E1. cbn.
  eexists. split; [done|]. split; [|split; [done|split; [done|split]]].
  - apply (change_step _ _ i); try done. intros ->. destruct Hw as [_ H0]. congruence.
  - intros j Hj. cbn. by rewrite Ho, Hbo.
  - unfold room. cbn. by rewrite Hr.
Qed.

Definition extent_block_laws :
  @BlockLaws world (extent_client.extent_client_ops N) (extent_client_laws N Hrel Hmem).
Proof using Hrel.
  refine {| ec_blocks w := file_blocks (w_disk w); ec_raw w := raw_block (w_disk w) |}.
  - intros w i t c Hw. apply file_blocks_content, Hw.
  - intros w i k id d Hw. by apply file_block_raw, Hw.
  - exact world_raw_range.
  - intros w i j k k' id d d' Hw. apply file_block_unique, Hw.
  - exact world_get_blocks.
  - exact world_getattr_blocks.
  - exact world_block_ids.
  - exact world_read_block.
  - exact world_write_block.
  - exact world_append.
  - exact world_complete.
Defined.
End laws.
