(* ===== verification/DirFormat.v ===== *)
(** * Strings and the format of directories

    The std::string operations the file system client uses, decimal
    printing and parsing ([yfs_client::filename], [yfs_client::n2i]), and
    the directory format "name;inum;name;inum": the state machines of
    [nlock_lookup] and [nlock_readdir], the entry that [nlock_create]
    appends and the one that [unlink] erases. *)

From S2P Require Import Prelude.

(* ------------------------------------------------------------------ *)
(** ** std::string *)

Definition semi : byte := ";"%byte.

(** The string a [const char *] points to: it ends at the first NUL. *)
Fixpoint cstr (l : list byte) : list byte :=
  match l with
  | [] => []
  | c :: l => if decide (c = x00) then [] else c :: cstr l
  end.

Fixpoint is_prefix (p l : list byte) : bool :=
  match p, l with
  | [], _ => true
  | c :: p, d :: l => bool_decide (c = d) && is_prefix p l
  | _ :: _, [] => false
  end.

(** [s.find(p, pos)]: the first occurrence from [pos] on; [None] is npos. *)
Fixpoint find_from (fuel : nat) (p s : list byte) (pos : nat) : option nat :=
  if (length s <? pos)%nat then None
  else if is_prefix p (drop pos s) then Some pos
  else match fuel with O => None | S fuel => find_from fuel p s (S pos) end.

Definition str_find (p s : list byte) (pos : nat) : option nat := find_from (length s) p s pos.

(** [s.erase(pos, n)] throws when [pos] is past the end. *)
Definition str_erase (s : list byte) (pos n : nat) : outcome (list byte) :=
  if (length s <? pos)%nat then Abort else Ret (take pos s ++ drop (pos + n) s).

(** [s.substr(pos)] *)
Definition str_substr (s : list byte) (pos : Z) : outcome (list byte) :=
  if (pos <? 0) || (Z.of_nat (length s) <? pos) then Abort else Ret (drop (Z.to_nat pos) s).

(** [s.resize(n)] fills with NUL. *)
Definition str_resize (s : list byte) (n : nat) : list byte := resize n x00 s.

(** [s[pos]]; the character at the end is NUL. *)
Definition char_at (s : list byte) (pos : nat) : byte := default x00 (s !! pos).

(* ------------------------------------------------------------------ *)
(** ** Decimal numbers *)

Definition digit (z : Z) : byte := to_byte (48 + z).
Definition is_digit (c : byte) : bool := (48 <=? byte_val c) && (byte_val c <=? 57).
Definition is_space (c : byte) : bool :=
  ((9 <=? byte_val c) && (byte_val c <=? 13)) || (byte_val c =? 32).

(** [ost << inum] for an [unsigned long long]: at most 20 digits. *)
Fixpoint dec_loop (fuel : nat) (z : Z) (acc : list byte) : list byte :=
  match fuel with
  | O => acc
  | S fuel =>
      let acc := digit (z mod 10) :: acc in
      if z <? 10 then acc else dec_loop fuel (z / 10) acc
  end.

Definition filename (inum : Z) : list byte := dec_loop 20 inum [].

(** The value of the digits at the start of a string. *)
Fixpoint dec_value (v : Z) (l : list byte) : Z :=
  match l with
  | [] => v
  | c :: l => if is_digit c then dec_value (10 * v + (byte_val c - 48)) l else v
  end.

Fixpoint skip_space (l : list byte) : list byte :=
  match l with
  | [] => []
  | c :: l' => if is_space c then skip_space l' else l
  end.

(** [ist >> v] for an [unsigned long long]: white space is skipped; at the
    end of the string [v] keeps its value [junk]; a sign is accepted; a value
    that does not fit gives the largest one. *)
Definition n2i (junk : Z) (n : list byte) : Z :=
  match skip_space n with
  | [] => junk
  | c :: l =>
      let neg := bool_decide (c = "-"%byte) in
      let ds := if neg || bool_decide (c = "+"%byte) then l else c :: l in
      let v := dec_value 0 ds in
      if 2 ^ 64 <=? v then 2 ^ 64 - 1 else if neg then u64 (- v) else v
  end.

(* ------------------------------------------------------------------ *)
(** ** The state machines of nlock_lookup and nlock_readdir *)

Inductive readstate : Type := FILENAME | INODENUM | CHECK.

(** The first two [if]s of the body of the loop, the same in both
    functions: the position, the state and the two strings after them. *)
Definition scan_step (d : list byte) (pos : nat) (st : readstate) (file_name inode_num : list byte)
    : nat * readstate * list byte * list byte :=
  let '(pos, st, file_name) :=
    match st with
    | FILENAME =>
        if decide (char_at d pos = semi) then (S pos, INODENUM, file_name)
        else (pos, FILENAME, file_name ++ [char_at d pos])
    | _ => (pos, st, file_name)
    end in
  match st with
  | INODENUM =>
      if decide (char_at d pos = semi) then (pos, CHECK, file_name, inode_num)
      else if decide (pos = length d - 1)%nat
      then (pos, CHECK, file_name, inode_num ++ [char_at d pos])
      else (pos, INODENUM, file_name, inode_num ++ [char_at d pos])
  | _ => (pos, st, file_name, inode_num)
  end.

(** The loop of [nlock_lookup]: the digits of the first entry with the name. *)
Fixpoint lookup_loop (fuel : nat) (d name : list byte) (pos : nat) (st : readstate)
    (file_name inode_num : list byte) : option (list byte) :=
  match fuel with
  | O => None
  | S fuel =>
      if (pos <? length d)%nat then
        let '(pos, st, file_name, inode_num) := scan_step d pos st file_name inode_num in
        match st with
        | CHECK =>
            if decide (file_name = name) then Some inode_num
            else lookup_loop fuel d name (S pos) FILENAME [] []
        | _ => lookup_loop fuel d name (S pos) st file_name inode_num
        end
      else None
  end.

(** The loop of [nlock_readdir]: the entries in order. *)
Fixpoint readdir_loop (junk : Z) (fuel : nat) (d : list byte) (pos : nat) (st : readstate)
    (file_name inode_num : list byte) (acc : list (list byte * Z)) : list (list byte * Z) :=
  match fuel with
  | O => acc
  | S fuel =>
      if (pos <? length d)%nat then
        let '(pos, st, file_name, inode_num) := scan_step d pos st file_name inode_num in
        match st with
        | CHECK => readdir_loop junk fuel d (S pos) FILENAME [] []
                     (acc ++ [(file_name, n2i junk inode_num)])
        | _ => readdir_loop junk fuel d (S pos) st file_name inode_num acc
        end
      else acc
  end.

Definition dir_lookup (d name : list byte) : option (list byte) :=
  lookup_loop (length d) d name 0 FILENAME [] [].

Definition dir_readdir (junk : Z) (d : list byte) (acc : list (list byte * Z))
    : list (list byte * Z) :=
  readdir_loop junk (length d) d 0 FILENAME [] [] acc.

(** The directory with one more entry, as [nlock_create], [mkdir] and
    [createlink] build it. *)
Definition dir_append (d file_name : list byte) (ino : Z) : list byte :=
  if decide (length d = 0%nat) then d ++ (file_name ++ [semi] ++ filename ino)
  else d ++ ([semi] ++ file_name ++ [semi] ++ filename ino).

(** The directory without an entry, as [unlink] and [nlock_unlink] build it:
    the entry is looked for with [find(name)].  When the name is not found,
    the position is npos and [erase] throws. *)
Definition dir_erase (d name : list byte) (target_inode : Z) : outcome (list byte) :=
  match str_find name d 0 with
  | None => Abort
  | Some begin_pos =>
      let target_len := (length name + 1 + length (filename target_inode))%nat in
      d ← (if decide (begin_pos = 0%nat /\ length d = begin_pos + target_len)%nat
           then str_erase d begin_pos target_len
           else if decide (length d = begin_pos + target_len)%nat
           then str_erase d (begin_pos - 1) (target_len + 1)
           else str_erase d begin_pos (target_len + 1));
      Ret (if decide (char_at d 0 = x00) then [] else d)
  end.
