(* ===== verification/DirFacts.v ===== *)
(** * Correctness of the directory format

    Decimal numbers survive printing and parsing; a directory built from a
    list of entries is read back as that list, and looked up as an
    association list; appending and erasing an entry are the operations on
    the list. *)

From S2P Require Import Prelude DirFormat.

(* ------------------------------------------------------------------ *)
(** ** Decimal numbers *)

Lemma digit_val z : 0 <= z < 10 -> byte_val (digit z) = 48 + z.
Proof. intros Hz. unfold digit. rewrite val_to_byte. apply Z.mod_small. lia. Qed.

Lemma digit_is_digit z : 0 <= z < 10 -> is_digit (digit z) = true.
Proof. intros Hz. unfold is_digit. rewrite digit_val by done. lia. Qed.

Lemma dec_loop_value fuel z acc : 0 <= z < 10 ^ Z.of_nat fuel ->
  dec_value 0 (dec_loop fuel z acc) = dec_value z acc.
Proof.
  revert z acc. induction fuel as [|fuel IH]; intros z acc Hz; cbn [dec_loop].
  - cbn in Hz. by replace z with 0 by lia.
  - rewrite Nat2Z.inj_succ, Z.pow_succ_r in Hz by lia.
    pose proof (Z.mod_pos_bound z 10). pose proof (Z.div_mod z 10).
    destruct (Z.ltb_spec z 10).
    + cbn [dec_value]. rewrite digit_is_digit, digit_val by lia. f_equal. lia.
    + rewrite IH by (split; [apply Z.div_pos; lia|apply Z.div_lt_upper_bound; lia]).
      cbn [dec_value]. rewrite digit_is_digit, digit_val by lia. f_equal. lia.
Qed.

Lemma dec_loop_digits fuel z acc : 0 <= z ->
  Forall (fun c => is_digit c = true) acc ->
  Forall (fun c => is_digit c = true) (dec_loop fuel z acc).
Proof.
  revert z acc. induction fuel as [|fuel IH]; intros z acc Hz Hacc; cbn [dec_loop]; [done|].
  assert (Forall (fun c => is_digit c = true) (digit (z mod 10) :: acc)).
  { constructor; [|done]. apply digit_is_digit. apply Z.mod_pos_bound. lia. }
  destruct (z <? 10); [done|]. apply IH; [|done]. apply Z.div_pos; lia.
Qed.

Lemma dec_loop_cons fuel z acc : acc <> [] -> dec_loop fuel z acc <> [].
Proof.
  revert z acc. induction fuel as [|fuel IH]; intros z acc Hacc; cbn [dec_loop]; [done|].
  destruct (z <? 10); [done|]. by apply IH.
Qed.

Lemma filename_digits i : 0 <= i -> Forall (fun c => is_digit c = true) (filename i).
Proof. intros. by apply dec_loop_digits. Qed.

Lemma dec_loop_not_nil fuel z acc : dec_loop (S fuel) z acc <> [].
Proof. cbn [dec_loop]. destruct (z <? 10); [done|]. by apply dec_loop_cons. Qed.

Lemma filename_not_nil i : filename i <> [].
Proof. apply dec_loop_not_nil. Qed.

Lemma digit_not c c' : is_digit c = true -> is_digit c' = false -> c <> c'.
Proof. congruence. Qed.

(** An inode number survives printing and parsing. *)
Lemma n2i_filename_spec junk i : 0 <= i < 2 ^ 64 -> n2i junk (filename i) = i.
Proof.
  intros Hi. pose proof (filename_digits i ltac:(lia)) as Hd.
  assert (dec_value 0 (filename i) = i) as Hv by (apply dec_loop_value; lia).
  pose proof (filename_not_nil i) as Hn.
  unfold n2i. destruct (filename i) as [|c l] eqn:E; [done|].
  apply Forall_cons in Hd as [Hc Hl]. cbn [skip_space].
  assert (is_space c = false) as -> by (unfold is_digit, is_space in *; lia).
  rewrite bool_decide_false by (by apply digit_not).
  rewrite bool_decide_false by (by apply digit_not). cbn [orb].
  rewrite Hv. case_tests.
Qed.

(* ------------------------------------------------------------------ *)
(** ** The format *)

(** An entry and a directory as bytes. *)
Definition entry_bytes (e : list byte * Z) : list byte := e.1 ++ [semi] ++ filename e.2.

Fixpoint dir_encode (es : list (list byte * Z)) : list byte :=
  match es with
  | [] => []
  | [e] => entry_bytes e
  | e :: es => entry_bytes e ++ [semi] ++ dir_encode es
  end.

(** Names that a directory can hold, and inode numbers. *)
Definition name_ok (n : list byte) : Prop := (semi ∉ n) /\ (x00 ∉ n).
Definition entry_ok (e : list byte * Z) : Prop := name_ok e.1 /\ 0 <= snd e < 2 ^ 64.

(** The pairs of strings that both loops find. *)
Fixpoint scan_all (fuel : nat) (d : list byte) (pos : nat) (st : readstate)
    (file_name inode_num : list byte) : list (list byte * list byte) :=
  match fuel with
  | O => []
  | S fuel =>
      if (pos <? length d)%nat then
        let '(pos, st, file_name, inode_num) := scan_step d pos st file_name inode_num in
        match st with
        | CHECK => (file_name, inode_num) :: scan_all fuel d (S pos) FILENAME [] []
        | _ => scan_all fuel d (S pos) st file_name inode_num
        end
      else []
  end.

(** The first entry with a name. *)
Fixpoint assoc {A} (name : list byte) (es : list (list byte * A)) : option A :=
  match es with
  | [] => None
  | (n, i) :: es => if decide (n = name) then Some i else assoc name es
  end.

Lemma assoc_snoc {A} name (es : list (list byte * A)) name' i k : assoc name es = Some k ->
  assoc name (es ++ [(name', i)]) = Some k.
Proof.
  induction es as [|[n x] es IH]; cbn; [done|]. by destruct (decide (n = name)).
Qed.

Lemma assoc_snoc_new {A} name (es : list (list byte * A)) i : assoc name es = None ->
  assoc name (es ++ [(name, i)]) = Some i.
Proof.
  induction es as [|[n x] es IH]; cbn; [by rewrite decide_True|]. by destruct (decide (n = name)).
Qed.

Lemma lookup_loop_scan fuel d name pos st fn inum :
  lookup_loop fuel d name pos st fn inum = assoc name (scan_all fuel d pos st fn inum).
Proof.
  revert pos st fn inum. induction fuel as [|fuel IH]; intros; cbn [lookup_loop scan_all]; [done|].
  destruct (pos <? length d)%nat; [|done].
  destruct (scan_step d pos st fn inum) as [[[pos' []] fn'] inum']; try apply IH.
  cbn [assoc]. destruct (decide (fn' = name)); [done|apply IH].
Qed.

Lemma readdir_loop_scan junk fuel d pos st fn inum acc :
  readdir_loop junk fuel d pos st fn inum acc =
  acc ++ (prod_map id (n2i junk) <$> scan_all fuel d pos st fn inum).
Proof.
  revert pos st fn inum acc.
  induction fuel as [|fuel IH]; intros; cbn [readdir_loop scan_all]; [by rewrite app_nil_r|].
  destruct (pos <? length d)%nat; [|by rewrite app_nil_r].
  destruct (scan_step d pos st fn inum) as [[[pos' []] fn'] inum']; rewrite IH; [done|done|].
  by rewrite <-app_assoc.
Qed.

Lemma char_at_drop d pos c l : drop pos d = c :: l ->
  char_at d pos = c /\ (pos < length d)%nat /\ drop (S pos) d = l /\
  (pos = length d - 1 <-> l = [])%nat.
Proof.
  intros E. assert (d !! pos = Some c) as Hc.
  { rewrite <-(Nat.add_0_r pos), <-lookup_drop, E. done. }
  assert (drop (S pos) d = l) as Hl.
  { replace (S pos) with (pos + 1)%nat by lia. rewrite <-drop_drop, E. done. }
  pose proof (f_equal length E) as HL. rewrite length_drop in HL. cbn [length] in HL.
  split; [unfold char_at; by rewrite Hc|]. split; [lia|]. split; [done|].
  destruct l; cbn [length] in *; split; intros; (done || lia).
Qed.

(** The name of an entry is read character by character. *)
Lemma scan_name n fuel d pos fn l : semi ∉ n -> drop pos d = n ++ l ->
  scan_all (length n + fuel) d pos FILENAME fn [] =
  scan_all fuel d (pos + length n) FILENAME (fn ++ n) [].
Proof.
  revert pos fn. induction n as [|c n IH]; intros pos fn Hn Hd.
  - cbn. by rewrite Nat.add_0_r, app_nil_r.
  - apply not_elem_of_cons in Hn as [Hc Hn].
    destruct (char_at_drop _ _ _ _ Hd) as (Ec & Hlt & Hd' & _).
    cbn [length Nat.add scan_all]. rewrite (proj2 (Nat.ltb_lt _ _) Hlt).
    unfold scan_step. rewrite Ec. rewrite decide_False by done.
    rewrite (IH (S pos) _ Hn Hd'). rewrite <-app_assoc. f_equal. lia.
Qed.

(** The digits of an entry that is not the last one. *)
Lemma scan_digits ds fuel d pos fn inum l : semi ∉ ds -> drop pos d = ds ++ semi :: l ->
  scan_all (length ds + S fuel) d pos INODENUM fn inum =
  (fn, inum ++ ds) :: scan_all fuel d (pos + length ds + 1) FILENAME [] [].
Proof.
  revert pos inum. induction ds as [|c ds IH]; intros pos inum Hn Hd;
    destruct (char_at_drop _ _ _ _ Hd) as (Ec & Hlt & Hd' & Hend);
    cbn [length Nat.add scan_all]; rewrite (proj2 (Nat.ltb_lt _ _) Hlt);
    unfold scan_step; rewrite Ec.
  - rewrite decide_True, app_nil_r by done. do 2 f_equal. lia.
  - apply not_elem_of_cons in Hn as [Hc Hn]. rewrite decide_False by done.
    rewrite decide_False by (rewrite Hend; by destruct ds).
    rewrite (IH (S pos) _ Hn Hd'), <-app_assoc. do 2 f_equal. lia.
Qed.

(** The digits of the last entry. *)
Lemma scan_digits_end ds fuel d pos fn inum : semi ∉ ds -> ds <> [] -> drop pos d = ds ->
  scan_all (length ds + fuel) d pos INODENUM fn inum = [(fn, inum ++ ds)].
Proof.
  revert pos inum. induction ds as [|c ds IH]; intros pos inum Hn Hne Hd; [done|].
  destruct (char_at_drop _ _ _ _ Hd) as (Ec & Hlt & Hd' & Hend).
  apply not_elem_of_cons in Hn as [Hc Hn].
  cbn [length Nat.add scan_all]. rewrite (proj2 (Nat.ltb_lt _ _) Hlt).
  unfold scan_step. rewrite Ec, decide_False by done. destruct ds as [|c' ds].
  - rewrite decide_True by (by apply Hend). f_equal. destruct fuel; [done|].
    cbn [length Nat.add scan_all]. destruct (Nat.ltb_spec (S pos) (length d)); [|done].
    apply (f_equal length) in Hd'. rewrite length_drop in Hd'. cbn in Hd'. lia.
  - rewrite decide_False by (rewrite Hend; done). rewrite IH by done. by rewrite <-app_assoc.
Qed.

(** The separator between a name and its digits. *)
Lemma scan_semi fuel d pos fn l : drop pos d = semi :: l -> l <> [] ->
  scan_all (S fuel) d pos FILENAME fn [] = scan_all (S fuel) d (S pos) INODENUM fn [].
Proof.
  intros Hd Hl. destruct (char_at_drop _ _ _ _ Hd) as (Ec & Hlt & Hd' & Hend).
  destruct l as [|c l]; [done|]. destruct (char_at_drop _ _ _ _ Hd') as (_ & Hlt' & _).
  cbn [scan_all]. rewrite (proj2 (Nat.ltb_lt _ _) Hlt), (proj2 (Nat.ltb_lt _ _) Hlt').
  unfold scan_step. rewrite Ec. rewrite (decide_True _ _ (eq_refl semi)). done.
Qed.

Lemma semi_digits i : 0 <= i -> semi ∉ filename i.
Proof.
  intros Hi Hin. pose proof (filename_digits i Hi) as Hd. rewrite Forall_forall in Hd.
  by specialize (Hd _ Hin).
Qed.

Lemma dir_encode_cons e es : es <> [] -> dir_encode (e :: es) = entry_bytes e ++ [semi] ++ dir_encode es.
Proof. by destruct es. Qed.

(** Both loops find exactly the entries of an encoded directory. *)
Lemma scan_encode es fuel d pos : Forall entry_ok es -> drop pos d = dir_encode es ->
  (length (dir_encode es) <= fuel)%nat ->
  scan_all fuel d pos FILENAME [] [] = prod_map id filename <$> es.
Proof.
  revert fuel pos. induction es as [|[n i] es IH]; intros fuel pos Hok Hd Hf.
  - destruct fuel as [|fuel]; [done|]. cbn [scan_all].
    destruct (Nat.ltb_spec pos (length d)); [|done].
    apply (f_equal length) in Hd. rewrite length_drop in Hd. cbn in Hd. lia.
  - apply Forall_cons in Hok as [[[Hn _] Hi] Hok]. cbn [fst snd] in Hn, Hi.
    pose proof (filename_not_nil i) as Hne. pose proof (semi_digits i ltac:(lia)) as Hsd.
    assert (0 < length (filename i))%nat as Hlen by (destruct (filename i); [done|cbn; lia]).
    destruct (decide (es = [])) as [->|Hes].
    + cbn [dir_encode] in Hd, Hf. unfold entry_bytes in Hd, Hf. cbn [fst snd app] in Hd, Hf.
      rewrite length_app in Hf. cbn [length] in Hf.
      replace fuel with (length n + (length (filename i) + (fuel - length n - length (filename i))))%nat
        by lia.
      rewrite (scan_name _ _ _ _ _ _ Hn Hd). cbn [app].
      assert (drop (pos + length n) d = semi :: filename i) as Hd1
        by (rewrite <-drop_drop, Hd; apply drop_app_length).
      destruct (length (filename i) + _)%nat as [|k] eqn:Ek; [lia|].
      rewrite (scan_semi _ _ _ _ _ Hd1 Hne), <-Ek.
      destruct (char_at_drop _ _ _ _ Hd1) as (_ & _ & Hd2 & _).
      by rewrite scan_digits_end.
    + rewrite dir_encode_cons in Hd, Hf by done. unfold entry_bytes in Hd, Hf.
      cbn [fst snd] in Hd, Hf. rewrite <-!app_assoc in Hd. cbn [app] in Hd.
      rewrite !length_app in Hf. cbn [length] in Hf.
      replace fuel with (length n + (length (filename i) + S (fuel - length n - length (filename i) - 1)))%nat
        by lia.
      rewrite (scan_name _ _ _ _ _ _ Hn Hd). cbn [app].
      assert (drop (pos + length n) d = semi :: (filename i ++ semi :: dir_encode es)) as Hd1
        by (rewrite <-drop_drop, Hd; apply drop_app_length).
      destruct (length (filename i) + _)%nat as [|k] eqn:Ek; [lia|].
      rewrite (scan_semi _ _ _ _ _ Hd1) by (by destruct (filename i)). rewrite <-Ek.
      destruct (char_at_drop _ _ _ _ Hd1) as (_ & _ & Hd2 & _).
      rewrite (scan_digits _ _ _ _ _ _ _ Hsd Hd2). cbn [fmap list_fmap app]. f_equal.
      apply IH; [done| |lia].
      replace (S (pos + length n) + length (filename i) + 1)%nat
        with (S (pos + length n) + length (filename i ++ [semi]))%nat
        by (rewrite length_app; cbn; lia).
      rewrite <-drop_drop, Hd2, (app_assoc (filename i) [semi] (dir_encode es) : _ ++ semi :: _ = _).
      apply drop_app_length.
Qed.

(** Looking up a name in an encoded directory. *)
Lemma dir_lookup_spec es name : Forall entry_ok es ->
  dir_lookup (dir_encode es) name = filename <$> assoc name es.
Proof.
  intros Hok. unfold dir_lookup. rewrite lookup_loop_scan, (scan_encode es) by (done || lia).
  clear Hok. induction es as [|[n i] es IH]; [done|]. cbn. by destruct (decide (n = name)).
Qed.

(** Reading an encoded directory gives its entries. *)
Lemma dir_readdir_spec junk es acc : Forall entry_ok es ->
  dir_readdir junk (dir_encode es) acc = acc ++ es.
Proof.
  intros Hok. unfold dir_readdir. rewrite readdir_loop_scan, (scan_encode es) by (done || lia).
  f_equal. rewrite <-list_fmap_compose. rewrite <-(list_fmap_id es) at 2.
  apply list_fmap_ext. intros k [n i] He. apply Forall_lookup_1 with (2 := He) in Hok as [_ Hi].
  unfold compose, prod_map. cbn [fst snd] in *. by rewrite n2i_filename_spec.
Qed.

(** Appending an entry. *)
Lemma dir_encode_nil es : length (dir_encode es) = 0%nat <-> es = [].
Proof.
  split; [|by intros ->]. destruct es as [|[n i] [|e es]]; [done| |];
    cbn [dir_encode]; unfold entry_bytes; rewrite !length_app; cbn [length]; lia.
Qed.

Lemma dir_encode_app es es' : es <> [] -> es' <> [] ->
  dir_encode (es ++ es') = dir_encode es ++ [semi] ++ dir_encode es'.
Proof.
  intros Hes Hes'. induction es as [|e es IH]; [done|].
  destruct (decide (es = [])) as [->|Hne]; [by apply dir_encode_cons|].
  cbn [app]. rewrite !dir_encode_cons by (done || by destruct es).
  rewrite IH by done. by rewrite <-!app_assoc.
Qed.

Lemma dir_append_spec es name i :
  dir_append (dir_encode es) name i = dir_encode (es ++ [(name, i)]).
Proof.
  unfold dir_append. destruct (decide (length (dir_encode es) = 0%nat)) as [H|H].
  - apply dir_encode_nil in H as ->. done.
  - rewrite dir_encode_app; [done| |done]. by rewrite <-dir_encode_nil.
Qed.

(** The position of the entry after the entries [pre]. *)
Definition entry_pos (pre : list (list byte * Z)) : nat :=
  match pre with [] => 0 | _ => S (length (dir_encode pre)) end.

(** An encoded directory does not begin with NUL. *)
Lemma dir_first es : Forall entry_ok es -> es <> [] -> char_at (dir_encode es) 0 <> x00.
Proof.
  intros Hok Hes. destruct es as [|[n i] es]; [done|].
  apply Forall_cons in Hok as [[[_ Hn] _] _]. cbn [fst] in Hn.
  assert (exists l, dir_encode ((n, i) :: es) = n ++ semi :: l) as [l ->].
  { destruct es; [by eexists|]. rewrite dir_encode_cons by done. unfold entry_bytes.
    rewrite <-!app_assoc. by eexists. }
  destruct n as [|c n]; [done|]. intros E. change (c = x00) in E. subst c. apply Hn. by left.
Qed.

(** The bytes around an entry. *)
Lemma dir_encode_split pre post e : dir_encode (pre ++ e :: post) =
  (match pre with [] => [] | _ => dir_encode pre ++ [semi] end) ++ entry_bytes e ++
  (match post with [] => [] | _ => semi :: dir_encode post end).
Proof.
  destruct (decide (pre = [])) as [->|Hpre].
  - destruct post; [symmetry; apply app_nil_r|]. by rewrite app_nil_l, dir_encode_cons.
  - rewrite dir_encode_app by done. destruct pre; [done|]. rewrite <-app_assoc. do 2 f_equal.
    destruct post; [symmetry; apply app_nil_r|]. by rewrite dir_encode_cons.
Qed.

Lemma length_prefix pre :
  length (match pre with [] => [] | _ => dir_encode pre ++ [semi] end) = entry_pos pre.
Proof. destruct pre; [done|]. rewrite length_app. cbn [entry_pos length]. lia. Qed.

(** The part of [dir_erase] that cuts the entry out. *)
Lemma dir_cut pre post name i (d := dir_encode (pre ++ (name, i) :: post))
    (len := (length name + 1 + length (filename i))%nat) :
  (if decide (entry_pos pre = 0%nat /\ length d = entry_pos pre + len)%nat
   then str_erase d (entry_pos pre) len
   else if decide (length d = entry_pos pre + len)%nat
   then str_erase d (entry_pos pre - 1) (len + 1)
   else str_erase d (entry_pos pre) (len + 1)) = Ret (dir_encode (pre ++ post)).
Proof.
  assert (length (entry_bytes (name, i)) = len) as HE.
  { unfold entry_bytes, len. rewrite !length_app. cbn. lia. }
  assert (length d = entry_pos pre + len +
    length (match post with [] => [] | _ => semi :: dir_encode post end))%nat as HL.
  { unfold d. by rewrite dir_encode_split, !length_app, length_prefix, HE, Nat.add_assoc. }
  assert (entry_pos pre <= length d)%nat as Hp by lia.
  destruct post as [|e post]; cbn [length] in HL.
  - rewrite app_nil_r. destruct (decide (pre = [])) as [->|Hpre].
    + change (entry_pos []) with 0%nat in *. rewrite decide_True by lia. unfold str_erase.
      destruct (Nat.ltb_spec (length d) 0); [lia|].
      rewrite drop_ge by lia. done.
    + assert (entry_pos pre = S (length (dir_encode pre))) as Ep by (by destruct pre).
      rewrite decide_False, decide_True by lia. unfold str_erase.
      destruct (Nat.ltb_spec (length d) (entry_pos pre - 1)); [lia|].
      rewrite (drop_ge d) by lia. rewrite app_nil_r. f_equal. unfold d.
      rewrite dir_encode_app by done. apply take_app_length'. lia.
  - rewrite decide_False, decide_False by lia. unfold str_erase.
    destruct (Nat.ltb_spec (length d) (entry_pos pre)); [lia|]. f_equal.
    unfold d. rewrite dir_encode_split. rewrite take_app_length' by (symmetry; apply length_prefix).
    rewrite app_assoc, (app_assoc _ [semi] (dir_encode (e :: post)) : _ ++ semi :: _ = _).
    rewrite drop_app_length'.
    2: { rewrite !length_app, length_prefix, HE. cbn [length]. lia. }
    destruct pre; [done|]. rewrite dir_encode_app by done. by rewrite <-app_assoc.
Qed.

(** Erasing an entry: correct when the name does not occur, as a string,
    before its entry. *)
Lemma dir_erase_spec pre post name i : Forall entry_ok (pre ++ post) ->
  str_find name (dir_encode (pre ++ (name, i) :: post)) 0 = Some (entry_pos pre) ->
  dir_erase (dir_encode (pre ++ (name, i) :: post)) name i = Ret (dir_encode (pre ++ post)).
Proof.
  intros Hok Hfind. unfold dir_erase. rewrite Hfind, dir_cut, bind_Ret. f_equal.
  destruct (decide (pre ++ post = [])) as [->|Hne]; [done|].
  rewrite decide_False; [done|]. by apply dir_first.
Qed.
