(* ===== verification/Yfs.v ===== *)
(** * The file system client

    [yfs_client] of yfs_client.cc, over any extent client (class
    [ExtentClient]).  The state of a running operation is the state of the
    extent client and the set of locks the operation holds: acquiring a
    lock that is held blocks for ever, releasing one that is not held stops
    the process (the [VERIFY(0)] of [lock_client_cache::release]). *)

From S2P Require Import Prelude Protocol DirFormat Extent.

(** [yfs_client::xxstatus] *)
Definition OK : Z := 0.
Definition RPCERR : Z := 1.
Definition NOENT : Z := 2.
Definition IOERR : Z := 3.
Definition EXIST : Z := 4.

(** [fileinfo] and [dirinfo] *)
Record fileinfo : Type := mkFileinfo { f_size : Z; f_atime : Z; f_mtime : Z; f_ctime : Z }.
Record dirinfo : Type := mkDirinfo { d_atime : Z; d_mtime : Z; d_ctime : Z }.

(** The state of an operation. *)
Record yfs (S : Type) : Type := mkYfs { ys : S; held : gset Z }.
Arguments mkYfs {S} ys held.
Arguments ys {S} y.
Arguments held {S} y.

(** Operations: state passing with outcomes. *)
Definition M (S A : Type) : Type := yfs S -> outcome (yfs S * A).

#[global] Instance M_ret S : MRet (M S) := fun A a y => Ret (y, a).
#[global] Instance M_bind S : MBind (M S) := fun A B k m y =>
  match m y with
  | Ret (y', a) => k a y'
  | Undef => Undef
  | Abort => Abort
  | Stuck => Stuck
  end.

Definition ret {S A} (a : A) : M S A := mret a.
Definition fail {S A} (o : outcome A) : M S A := fun y => a ← o; Ret (y, a).

(** [lc->acquire(lid)] and [lc->release(lid)] *)
Definition acquire {S} (lid : Z) : M S unit := fun y =>
  if decide (lid ∈ held y) then Stuck else Ret (mkYfs (ys y) ({[lid]} ∪ held y), tt).

Definition release {S} (lid : Z) : M S unit := fun y =>
  if decide (lid ∈ held y) then Ret (mkYfs (ys y) (held y ∖ {[lid]}), tt) else Abort.

(** A call of the extent client. *)
Definition ec {S A} (op : S -> outcome (S * A)) : M S A := fun y =>
  '(s, a) ← op (ys y); Ret (mkYfs s (held y), a).

Section yfs_client.
Context {S : Type} `{!ExtentClient S}.
(** The value of an uninitialised [inum]. *)
Context (junk : Z).

(** The attributes before [getattr] are never read. *)
Definition get_attr (inum : Z) : M S (Z * extent_protocol.attr) :=
  ec (ec_getattr inum extent_protocol.attr_zero).

Definition nlock_is (type inum : Z) : M S bool :=
  '(st, a) ← get_attr inum;
  ret (if negb (st =? extent_protocol.OK) then false
       else extent_protocol.a_type a =? type).

Definition nlock_isfile (inum : Z) : M S bool := nlock_is extent_protocol.T_FILE inum.
Definition nlock_isdir (inum : Z) : M S bool := nlock_is extent_protocol.T_DIR inum.
Definition nlock_islink (inum : Z) : M S bool := nlock_is extent_protocol.T_SYMLINK inum.

Definition isfile (inum : Z) : M S bool :=
  _ ← acquire inum; r ← nlock_isfile inum; _ ← release inum; ret r.

Definition isdir (inum : Z) : M S bool :=
  _ ← acquire inum; r ← nlock_isdir inum; _ ← release inum; ret r.

Definition islink (inum : Z) : M S bool :=
  _ ← acquire inum; r ← nlock_islink inum; _ ← release inum; ret r.

(** [getfile(inum, fin)]: the status and [fin] after the call. *)
Definition getfile (inum : Z) (fin : fileinfo) : M S (Z * fileinfo) :=
  _ ← acquire inum;
  '(st, a) ← get_attr inum;
  let r :=
    if negb (st =? extent_protocol.OK) then (IOERR, fin)
    else (OK, mkFileinfo (extent_protocol.a_size a) (extent_protocol.a_atime a)
                (extent_protocol.a_mtime a) (extent_protocol.a_ctime a)) in
  _ ← release inum;
  ret r.

Definition getdir (inum : Z) (din : dirinfo) : M S (Z * dirinfo) :=
  _ ← acquire inum;
  '(st, a) ← get_attr inum;
  let r :=
    if negb (st =? extent_protocol.OK) then (IOERR, din)
    else (OK, mkDirinfo (extent_protocol.a_atime a) (extent_protocol.a_mtime a)
                (extent_protocol.a_ctime a)) in
  _ ← release inum;
  ret r.

Definition setattr (ino : Z) (size : nat) : M S Z :=
  _ ← acquire ino;
  '(st, inode_content) ← ec (ec_get ino []);
  r ← (if st =? extent_protocol.OK
       then _ ← ec (ec_put ino (str_resize inode_content size)); ret OK
       else ret IOERR);
  _ ← release ino;
  ret r.

(** [nlock_lookup(parent, name, found, ino_out)]: the status and the two out
    parameters after the call. *)
Definition nlock_lookup (parent : Z) (name : list byte) (found : bool) (ino_out : Z)
    : M S (Z * bool * Z) :=
  d ← nlock_isdir parent;
  if negb d then ret (OK, false, ino_out)
  else
    '(st, dir_list) ← ec (ec_get parent []);
    if st =? extent_protocol.OK then
      match dir_lookup dir_list (cstr name) with
      | Some inode_num => ret (OK, true, n2i junk inode_num)
      | None => ret (NOENT, false, ino_out)
      end
    else ret (IOERR, found, ino_out).

Definition lookup (parent : Z) (name : list byte) (found : bool) (ino_out : Z)
    : M S (Z * bool * Z) := nlock_lookup parent name found ino_out.

(** Add an entry for [ino_out] to directory [parent]. *)
Definition add_entry (parent : Z) (file_name : list byte) (ino_out : Z) : M S unit :=
  '(st, dir_list) ← ec (ec_get parent []);
  if st =? extent_protocol.OK
  then _ ← ec (ec_put parent (dir_append dir_list file_name ino_out)); ret tt
  else ret tt.

Definition nlock_create (parent : Z) (name : list byte) (ino_out : Z) : M S (Z * Z) :=
  '(_, found, ino_out) ← nlock_lookup parent name false ino_out;
  if (found : bool) then ret (EXIST, ino_out)
  else
    '(_, ino_out) ← ec (ec_create extent_protocol.T_FILE ino_out);
    _ ← add_entry parent (cstr name) ino_out;
    ret (OK, ino_out).

Definition create (parent : Z) (name : list byte) (ino_out : Z) : M S (Z * Z) :=
  _ ← acquire parent;
  r ← nlock_create parent name ino_out;
  _ ← release parent;
  ret r.

Definition mkdir (parent : Z) (name : list byte) (ino_out : Z) : M S (Z * Z) :=
  _ ← acquire parent;
  '(_, found, ino_out) ← nlock_lookup parent name false ino_out;
  r ← (if (found : bool) then ret (EXIST, ino_out)
       else
         '(_, ino_out) ← ec (ec_create extent_protocol.T_DIR ino_out);
         _ ← add_entry parent (cstr name) ino_out;
         ret (OK, ino_out));
  _ ← release parent;
  ret r.

(** [nlock_readdir(dir, list)]: it releases the lock of [dir] when [dir] is
    not a directory. *)
Definition nlock_readdir (dir : Z) (l : list (list byte * Z)) : M S (Z * list (list byte * Z)) :=
  d ← nlock_isdir dir;
  if negb d then _ ← release dir; ret (OK, l)
  else
    '(st, dir_list) ← ec (ec_get dir []);
    if st =? extent_protocol.OK then ret (OK, dir_readdir junk dir_list l)
    else ret (IOERR, l).

Definition readdir (dir : Z) (l : list (list byte * Z)) : M S (Z * list (list byte * Z)) :=
  _ ← acquire dir;
  r ← nlock_readdir dir l;
  _ ← release dir;
  ret r.

(** [read(ino, size, off, data)]: [off] is compared after truncation to 32
    bits. *)
Definition read (ino : Z) (size : nat) (off : Z) (data : list byte) : M S (Z * list byte) :=
  _ ← acquire ino;
  '(st, read_content) ← ec (ec_get ino []);
  r ← (if st =? extent_protocol.OK then
         let content_size := u32 (Z.of_nat (length read_content)) in
         read_content ← (if content_size <=? u32 off then ret []
                         else fail (str_substr read_content off));
         ret (OK, if (size <? length read_content)%nat then str_resize read_content size
                  else read_content)
       else ret (IOERR, data));
  _ ← release ino;
  ret r.

(** The new contents that [write] stores.  The loop that copies the data has
    an [int] counter. *)
Definition write_content (read_content data : list byte) (size off : Z)
    : outcome (list byte * Z) :=
  if (2 ^ 31 <=? size) || (Z.of_nat (length data) <? size) then Undef
  else
    let new_content := take (Z.to_nat size) data in
    let n := Z.of_nat (length read_content) in
    if n <? u64 off then
      if off <? 0 then Abort
      else Ret (read_content ++ replicate (Z.to_nat (off - n)) x00 ++ new_content, off - n + size)
    else
      Ret (take (Z.to_nat off) read_content ++ new_content ++
           drop (Z.to_nat (off + size)) read_content, size).

(** [write(ino, size, off, data, bytes_written)] *)
Definition write (ino size off : Z) (data : list byte) : M S (Z * Z) :=
  _ ← acquire ino;
  '(st, read_content) ← ec (ec_get ino []);
  r ← (if st =? extent_protocol.OK then
         '(content, bytes_written) ← fail (write_content read_content data size off);
         _ ← ec (ec_put ino content);
         ret (OK, bytes_written)
       else ret (IOERR, 0));
  _ ← release ino;
  ret r.

(** Both variants of unlink remove the entry and then the inode. *)
Definition nlock_unlink (parent : Z) (name : list byte) : M S Z :=
  '(_, found, target_inode) ← nlock_lookup parent name false 0;
  if (found : bool) then
    '(st, dir_list) ← ec (ec_get parent []);
    if st =? extent_protocol.OK then
      dir_list ← fail (dir_erase dir_list (cstr name) target_inode);
      _ ← ec (ec_put parent dir_list);
      _ ← ec (ec_remove target_inode);
      ret OK
    else ret IOERR
  else ret NOENT.

Definition unlink (parent : Z) (name : list byte) : M S Z :=
  _ ← acquire parent;
  '(_, found, target_inode) ← nlock_lookup parent name false 0;
  r ← (if (found : bool) then
         '(st, dir_list) ← ec (ec_get parent []);
         if st =? extent_protocol.OK then
           dir_list ← fail (dir_erase dir_list (cstr name) target_inode);
           _ ← ec (ec_put parent dir_list);
           _ ← acquire target_inode;
           _ ← ec (ec_remove target_inode);
           _ ← release target_inode;
           ret OK
         else ret IOERR
       else ret NOENT);
  _ ← release parent;
  ret r.

(** The names are strings here; only the lookup uses [c_str]. *)
Definition createlink (parent : Z) (link_name target_name : list byte) (ino_out : Z)
    : M S (Z * Z) :=
  _ ← acquire parent;
  '(_, found, ino_out) ← nlock_lookup parent link_name false ino_out;
  r ← (if (found : bool) then ret (EXIST, ino_out)
       else
         '(_, ino_out) ← ec (ec_create extent_protocol.T_SYMLINK ino_out);
         _ ← add_entry parent link_name ino_out;
         _ ← ec (ec_put ino_out target_name);
         ret (OK, ino_out));
  _ ← release parent;
  ret r.

Definition readlink (inum : Z) (link_name : list byte) : M S (Z * list byte) :=
  _ ← acquire inum;
  '(st, link_name) ← ec (ec_get inum link_name);
  _ ← release inum;
  ret (if negb (st =? extent_protocol.OK) then IOERR else OK, link_name).

End yfs_client.
