(* ===== verification/YfsFacts.v ===== *)
(** * Correctness of the file system client

    Every operation of yfs_client.cc against the interface [ExtentLaws]:
    what it returns, which files it changes and how, and that it holds the
    same locks afterwards.  The instance for the extent client of the code
    is in ExtentFacts.v. *)

From S2P Require Import Prelude Disk Protocol Inode FileWrite FileRemove DirFormat DirFacts Extent Yfs.

(* ------------------------------------------------------------------ *)
(** ** Running operations *)

Lemma M_bind_Ret {S A B} (m : M S A) (k : A -> M S B) y y' a :
  m y = Ret (y', a) -> (m ≫= k) y = k a y'.
Proof. intros E. unfold mbind, M_bind. by rewrite E. Qed.

Lemma acquire_Ret {S} lid (y : yfs S) : lid ∉ held y ->
  acquire lid y = Ret (mkYfs (ys y) ({[lid]} ∪ held y), tt).
Proof. intros H. unfold acquire. by rewrite decide_False. Qed.

Lemma release_Ret {S} lid (y : yfs S) : lid ∈ held y ->
  release lid y = Ret (mkYfs (ys y) (held y ∖ {[lid]}), tt).
Proof. intros H. unfold release. by rewrite decide_True. Qed.

Lemma release_held (lid : Z) (h : gset Z) : lid ∉ h -> ({[lid]} ∪ h) ∖ {[lid]} = h.
Proof.
  intros H. apply leibniz_equiv. intros x.
  rewrite elem_of_difference, elem_of_union, elem_of_singleton.
  split; [tauto|]. intros Hx. split; [by right|]. by intros ->.
Qed.

Lemma held_self (lid : Z) (h : gset Z) : lid ∈ {[lid]} ∪ h.
Proof. apply elem_of_union_l. by apply elem_of_singleton. Qed.

Lemma cstr_id n : x00 ∉ n -> cstr n = n.
Proof.
  induction n as [|c n IH]; [done|]. intros Hn. apply not_elem_of_cons in Hn as [Hc Hn].
  cbn [cstr]. rewrite decide_False by done. by rewrite IH.
Qed.

(** An operation under a lock: acquire, run, release. *)
Lemma locked_run {S A B} lid (m : M S A) (f : A -> B) y s' a :
  lid ∉ held y ->
  m (mkYfs (ys y) ({[lid]} ∪ held y)) = Ret (mkYfs s' ({[lid]} ∪ held y), a) ->
  (_ ← acquire lid; r ← m; _ ← release lid; ret (f r)) y = Ret (mkYfs s' (held y), f a).
Proof.
  intros Hl E. rewrite (M_bind_Ret _ _ _ _ _ (acquire_Ret lid y Hl)).
  rewrite (M_bind_Ret _ _ _ _ _ E).
  rewrite (M_bind_Ret _ _ _ _ _ (release_Ret lid (mkYfs s' ({[lid]} ∪ held y)) (held_self lid _))).
  unfold ret, mret, M_ret. cbn [ys held]. by rewrite release_held.
Qed.

Section facts.
Context {S : Type} `{!ExtentClient S, !ExtentLaws S} (junk : Z).

(** The same files and the same free blocks. *)
Definition same (s s' : S) : Prop :=
  ec_wf s' /\ (forall j, ec_file s' j = ec_file s j) /\ ec_room s' = ec_room s.

Lemma same_trans s1 s2 s3 : same s1 s2 -> same s2 s3 -> same s1 s3.
Proof.
  intros (? & H1 & E1) (? & H2 & E2). split; [done|]. split; [|congruence].
  intros j. by rewrite H2.
Qed.

Lemma file_extent s i x : ec_wf s -> ec_file s i = Some x -> extent_ok i.
Proof.
  intros Hwf Hf. assert (1 <= i < INODE_NUM) by (apply (law_range s); [done|by rewrite Hf]).
  unfold extent_ok, INODE_NUM in *. lia.
Qed.

Lemma run_get s h i t c buf : ec_wf s -> ec_file s i = Some (t, c) ->
  exists s', ec (ec_get i buf) (mkYfs s h) = Ret (mkYfs s' h, (extent_protocol.OK, c)) /\ same s s'.
Proof.
  intros Hwf Hf. destruct (law_get s i t c buf) as (s' & E & ?); [done|by eapply file_extent|done|].
  exists s'. unfold ec. cbn [ys held]. rewrite E. done.
Qed.

Lemma run_is s h i t c type : ec_wf s -> ec_file s i = Some (t, c) -> 0 <= t ->
  exists s', nlock_is type i (mkYfs s h) = Ret (mkYfs s' h, t =? type) /\ same s s'.
Proof.
  intros Hwf Hf Ht.
  destruct (law_getattr s i t c extent_protocol.attr_zero) as (s' & a & E & <- & _ & ?);
    [done|by eapply file_extent|done|done|].
  exists s'. split; [|done]. unfold nlock_is, get_attr, ec, mbind, M_bind. cbn [ys held].
  rewrite E. done.
Qed.

Lemma run_put s h i t c d : ec_wf s -> ec_file s i = Some (t, c) ->
  block_count (Z.of_nat (length d)) <= NDIRECT ->
  block_count (Z.of_nat (length d)) <= ec_room s + blocks_for (Z.of_nat (length c)) ->
  exists s', ec (ec_put i d) (mkYfs s h) = Ret (mkYfs s' h, extent_protocol.OK) /\ ec_wf s' /\
    ec_file s' i = Some (t, d) /\ (forall j, j <> i -> ec_file s' j = ec_file s j) /\
    ec_room s' + block_count (Z.of_nat (length d)) =
    ec_room s + blocks_for (Z.of_nat (length c)).
Proof.
  intros Hwf Hf Hn Hr. destruct (law_put s i t c d) as (s' & E & ?);
    [done|by eapply file_extent|done|done|done|].
  exists s'. unfold ec. cbn [ys held]. rewrite E. done.
Qed.

(* ------------------------------------------------------------------ *)
(** ** Directories *)

(** Extent [p] is the directory with entries [es]. *)
Definition is_dir (s : S) (p : Z) (es : list (list byte * Z)) : Prop :=
  ec_file s p = Some (extent_protocol.T_DIR, dir_encode es) /\ Forall entry_ok es.

Lemma is_dir_same s s' p es : same s s' -> is_dir s p es -> is_dir s' p es.
Proof. intros (_ & Hj & _) [? ?]. split; [by rewrite Hj|done]. Qed.

Lemma assoc_ok name es (i : Z) : Forall entry_ok es -> assoc name es = Some i -> 0 <= i < 2 ^ 64.
Proof.
  induction es as [|[n k] es IH]; [done|]. intros [[_ Hk] Hes]%Forall_cons. cbn.
  destruct (decide (n = name)); [by intros [= <-]|by apply IH].
Qed.

(** The status and the out parameters of a lookup. *)
Definition lookup_result (es : list (list byte * Z)) (name : list byte) (i0 : Z) : Z * bool * Z :=
  match assoc name es with
  | Some i => (OK, true, i)
  | None => (NOENT, false, i0)
  end.

Lemma run_lookup s h p es name f i0 : ec_wf s -> is_dir s p es ->
  exists s', nlock_lookup junk p name f i0 (mkYfs s h) =
    Ret (mkYfs s' h, lookup_result es (cstr name) i0) /\ same s s'.
Proof.
  intros Hwf [Hf Hes]. unfold nlock_lookup.
  destruct (run_is s h p _ _ extent_protocol.T_DIR Hwf Hf) as (s1 & E1 & Hs1); [done|].
  rewrite (M_bind_Ret _ _ _ _ _ E1). cbn [negb Z.eqb extent_protocol.T_DIR Pos.eqb].
  destruct (run_get s1 h p extent_protocol.T_DIR (dir_encode es) []) as (s2 & E2 & Hs2);
    [apply Hs1|destruct Hs1 as (_ & -> & _); done|].
  rewrite (M_bind_Ret _ _ _ _ _ E2). rewrite Z.eqb_refl.
  exists s2. split; [|by eapply same_trans].
  rewrite dir_lookup_spec by done. unfold lookup_result.
  destruct (assoc (cstr name) es) as [i|] eqn:Ea; cbn [fmap option_fmap option_map]; [|done].
  rewrite n2i_filename_spec by (by eapply assoc_ok). done.
Qed.

(** The entry of a new extent [i] fits into directory [p]. *)
Definition entry_fits (s : S) (es : list (list byte * Z)) (name : list byte) (i : Z) : Prop :=
  block_count (Z.of_nat (length (dir_encode (es ++ [(name, i)])))) <= NDIRECT /\
  block_count (Z.of_nat (length (dir_encode (es ++ [(name, i)])))) <=
    ec_room s + blocks_for (Z.of_nat (length (dir_encode es))).

Lemma run_add_entry s h p es name i : ec_wf s -> is_dir s p es -> name_ok name ->
  0 <= i < 2 ^ 64 -> entry_fits s es name i ->
  exists s', add_entry p name i (mkYfs s h) = Ret (mkYfs s' h, tt) /\ ec_wf s' /\
    is_dir s' p (es ++ [(name, i)]) /\ (forall j, j <> p -> ec_file s' j = ec_file s j) /\
    ec_room s' + block_count (Z.of_nat (length (dir_encode (es ++ [(name, i)])))) =
    ec_room s + blocks_for (Z.of_nat (length (dir_encode es))).
Proof.
  intros Hwf [Hf Hes] Hname Hi [Hn Hr]. unfold add_entry.
  destruct (run_get s h p extent_protocol.T_DIR (dir_encode es) [] Hwf Hf)
    as (s1 & E1 & Hwf1 & Hj1 & Er1).
  rewrite (M_bind_Ret _ _ _ _ _ E1), Z.eqb_refl, dir_append_spec.
  destruct (run_put s1 h p extent_protocol.T_DIR (dir_encode es)
    (dir_encode (es ++ [(name, i)]))) as (s2 & E2 & Hwf2 & Hf2 & Hj2 & Er2);
    [done|by rewrite Hj1|done|by rewrite Er1|].
  rewrite (M_bind_Ret _ _ _ _ _ E2). exists s2. split; [done|]. split; [done|].
  split; [|split; [|by rewrite <-Er1]].
  - split; [done|]. apply Forall_app. split; [done|]. by apply Forall_singleton.
  - intros j Hj. by rewrite Hj2, Hj1.
Qed.

(** The least extent number that is free. *)
Definition first_free (s : S) (i : Z) : Prop :=
  1 <= i < INODE_NUM /\ ec_file s i = None /\ forall j, 1 <= j < i -> ec_file s j <> None.

Lemma first_free_same s s' i : same s s' -> first_free s i -> first_free s' i.
Proof.
  intros (_ & Hj & _) (Hi & Hf & Hall). split; [done|]. split; [by rewrite Hj|].
  intros j Hlt. rewrite Hj. by apply Hall.
Qed.

(** Creating an extent of type [t] and its entry: the common part of
    [nlock_create], [mkdir] and [createlink]. *)
Lemma run_create s h p es name t i i0 : ec_wf s -> is_dir s p es -> name_ok name ->
  0 < t < 2 ^ 15 -> first_free s i -> entry_fits s es name i ->
  exists s1 s', ec (ec_create t i0) (mkYfs s h) = Ret (mkYfs s1 h, (extent_protocol.OK, i)) /\
    add_entry p name i (mkYfs s1 h) = Ret (mkYfs s' h, tt) /\ ec_wf s' /\
    is_dir s' p (es ++ [(name, i)]) /\ ec_file s' i = Some (t, []) /\ p <> i /\
    (forall j, j <> p -> j <> i -> ec_file s' j = ec_file s j) /\
    ec_room s' + block_count (Z.of_nat (length (dir_encode (es ++ [(name, i)])))) =
    ec_room s + blocks_for (Z.of_nat (length (dir_encode es))).
Proof.
  intros Hwf Hd Hname Ht (Hi & Hf & Hall) Hfit. pose proof Hd as [Hp Hes].
  assert (p <> i) as Hpi by (intros ->; congruence).
  destruct (law_create s t i i0) as (s1 & E1 & Hwf1 & Hf1 & Hj1 & Er1); [done..|].
  destruct (run_add_entry s1 h p es name i) as (s2 & E2 & Hwf2 & Hd2 & Hj2 & Er2); [done| |done| | |].
  - split; [by rewrite Hj1|done].
  - unfold INODE_NUM in Hi. lia.
  - unfold entry_fits in *. by rewrite Er1.
  - exists s1, s2. unfold ec. cbn [ys held]. rewrite E1. split; [done|]. split; [done|].
    split; [done|]. split; [done|]. split; [by rewrite Hj2|]. split; [done|].
    split; [|by rewrite <-Er1]. intros j Hjp Hji. by rewrite Hj2, Hj1.
Qed.

(* ------------------------------------------------------------------ *)
(** ** Operations that create an entry *)

Lemma lookup_new es name i0 : name_ok name -> assoc name es = None ->
  lookup_result es (cstr name) i0 = (NOENT, false, i0).
Proof. intros [_ Hn] Ha. unfold lookup_result. by rewrite cstr_id, Ha. Qed.

Lemma lookup_old es name i i0 : name_ok name -> assoc name es = Some i ->
  lookup_result es (cstr name) i0 = (OK, true, i).
Proof. intros [_ Hn] Ha. unfold lookup_result. by rewrite cstr_id, Ha. Qed.

(** What creating an extent [i] of type [t] and contents [c] under [name]
    in directory [p] does to the files. *)
Definition created (s s' : S) (p : Z) (es : list (list byte * Z)) (name : list byte)
    (i t : Z) (c : list byte) : Prop :=
  ec_wf s' /\ is_dir s' p (es ++ [(name, i)]) /\ ec_file s' i = Some (t, c) /\
  (forall j, j <> p -> j <> i -> ec_file s' j = ec_file s j) /\
  ec_room s' + block_count (Z.of_nat (length (dir_encode (es ++ [(name, i)])))) +
    block_count (Z.of_nat (length c)) =
  ec_room s + blocks_for (Z.of_nat (length (dir_encode es))).

Lemma nlock_create_spec s h p es name i i0 : ec_wf s -> is_dir s p es -> name_ok name ->
  assoc name es = None -> first_free s i -> entry_fits s es name i ->
  exists s', nlock_create junk p name i0 (mkYfs s h) = Ret (mkYfs s' h, (OK, i)) /\
    created s s' p es name i extent_protocol.T_FILE [].
Proof.
  intros Hwf Hd Hname Ha Hi Hfit. unfold nlock_create.
  destruct (run_lookup s h p es name false i0 Hwf Hd) as (s1 & E1 & Hs1).
  rewrite lookup_new in E1 by done. rewrite (M_bind_Ret _ _ _ _ _ E1).
  pose proof Hs1 as (Hwf1 & Hj1 & Er1).
  destruct (run_create s1 h p es name extent_protocol.T_FILE i i0)
    as (s2 & s3 & E2 & E3 & Hwf3 & Hd3 & Hf3 & Hpi & Hj3 & Er3);
    [done|by eapply is_dir_same|done|done|by eapply first_free_same|unfold entry_fits; by rewrite Er1|].
  rewrite (M_bind_Ret _ _ _ _ _ E2). cbn beta iota.
  rewrite cstr_id by apply Hname. rewrite (M_bind_Ret _ _ _ _ _ E3).
  exists s3. do 4 (split; [done|]). split; [intros j Hp Hj; rewrite Hj3, Hj1; done|].
  cbn [length]. change (block_count (Z.of_nat 0)) with 0. lia.
Qed.

Lemma create_spec y p es name i i0 : ec_wf (ys y) -> p ∉ held y -> is_dir (ys y) p es ->
  name_ok name -> assoc name es = None -> first_free (ys y) i -> entry_fits (ys y) es name i ->
  exists s', create junk p name i0 y = Ret (mkYfs s' (held y), (OK, i)) /\
    created (ys y) s' p es name i extent_protocol.T_FILE [].
Proof.
  intros Hwf Hl Hd Hname Ha Hi Hfit.
  destruct (nlock_create_spec (ys y) ({[p]} ∪ held y) p es name i i0) as (s' & E & Hc); try done.
  exists s'. split; [|done]. by apply (locked_run p _ (fun r => r)).
Qed.

Lemma mkdir_spec y p es name i i0 : ec_wf (ys y) -> p ∉ held y -> is_dir (ys y) p es ->
  name_ok name -> assoc name es = None -> first_free (ys y) i -> entry_fits (ys y) es name i ->
  exists s', mkdir junk p name i0 y = Ret (mkYfs s' (held y), (OK, i)) /\
    created (ys y) s' p es name i extent_protocol.T_DIR [].
Proof.
  intros Hwf Hl Hd Hname Ha Hi Hfit. unfold mkdir.
  rewrite (M_bind_Ret _ _ _ _ _ (acquire_Ret p y Hl)).
  destruct (run_lookup (ys y) ({[p]} ∪ held y) p es name false i0 Hwf Hd) as (s1 & E1 & Hs1).
  rewrite lookup_new in E1 by done. rewrite (M_bind_Ret _ _ _ _ _ E1).
  pose proof Hs1 as (Hwf1 & Hj1 & Er1).
  destruct (run_create s1 ({[p]} ∪ held y) p es name extent_protocol.T_DIR i i0)
    as (s2 & s3 & E2 & E3 & Hwf3 & Hd3 & Hf3 & Hpi & Hj3 & Er3);
    [done|by eapply is_dir_same|done|done|by eapply first_free_same|unfold entry_fits; by rewrite Er1|].
  exists s3. split.
  - erewrite M_bind_Ret.
    2: { cbn beta iota. rewrite (M_bind_Ret _ _ _ _ _ E2). cbn beta iota.
         rewrite cstr_id by apply Hname. rewrite (M_bind_Ret _ _ _ _ _ E3). done. }
    rewrite (M_bind_Ret _ _ _ _ _ (release_Ret p (mkYfs s3 ({[p]} ∪ held y)) (held_self p _))).
    cbn [ys held]. rewrite release_held by done. done.
  - do 3 (split; [done|]). split; [intros j Hp Hj; rewrite Hj3, Hj1; done|].
    cbn [length]. change (block_count (Z.of_nat 0)) with 0. lia.
Qed.

(** Both refuse a name that exists. *)
Lemma create_exist_spec y p es name i i0 : ec_wf (ys y) -> p ∉ held y -> is_dir (ys y) p es ->
  name_ok name -> assoc name es = Some i ->
  exists s', create junk p name i0 y = Ret (mkYfs s' (held y), (EXIST, i)) /\ same (ys y) s'.
Proof.
  intros Hwf Hl Hd Hname Ha.
  destruct (run_lookup (ys y) ({[p]} ∪ held y) p es name false i0 Hwf Hd) as (s1 & E1 & Hs1).
  rewrite (lookup_old _ _ i) in E1 by done. exists s1. split; [|done].
  apply (locked_run p _ (fun r => r)); [done|]. unfold nlock_create.
  rewrite (M_bind_Ret _ _ _ _ _ E1). done.
Qed.

(** A symbolic link is an extent of type T_SYMLINK that holds the target. *)
Lemma createlink_spec y p es name target i i0 : ec_wf (ys y) -> p ∉ held y ->
  is_dir (ys y) p es -> name_ok name -> assoc name es = None -> first_free (ys y) i ->
  entry_fits (ys y) es name i ->
  block_count (Z.of_nat (length target)) <= NDIRECT ->
  block_count (Z.of_nat (length target)) +
    block_count (Z.of_nat (length (dir_encode (es ++ [(name, i)])))) <=
    ec_room (ys y) + blocks_for (Z.of_nat (length (dir_encode es))) ->
  exists s', createlink junk p name target i0 y = Ret (mkYfs s' (held y), (OK, i)) /\
    created (ys y) s' p es name i extent_protocol.T_SYMLINK target.
Proof.
  intros Hwf Hl Hd Hname Ha Hi Hfit Ht Hroom. unfold createlink.
  rewrite (M_bind_Ret _ _ _ _ _ (acquire_Ret p y Hl)).
  destruct (run_lookup (ys y) ({[p]} ∪ held y) p es name false i0 Hwf Hd) as (s1 & E1 & Hs1).
  rewrite lookup_new in E1 by done. rewrite (M_bind_Ret _ _ _ _ _ E1).
  pose proof Hs1 as (Hwf1 & Hj1 & Er1).
  destruct (run_create s1 ({[p]} ∪ held y) p es name extent_protocol.T_SYMLINK i i0)
    as (s2 & s3 & E2 & E3 & Hwf3 & Hd3 & Hf3 & Hpi & Hj3 & Er3);
    [done|by eapply is_dir_same|done|done|by eapply first_free_same|unfold entry_fits; by rewrite Er1|].
  assert (blocks_for (Z.of_nat (length (@nil byte))) = 0) as Eb by reflexivity.
  destruct (run_put s3 ({[p]} ∪ held y) i extent_protocol.T_SYMLINK [] target)
    as (s4 & E4 & Hwf4 & Hf4 & Hj4 & Er4); [done|done|done|rewrite Eb; lia|].
  exists s4. split.
  - erewrite M_bind_Ret.
    2: { cbn beta iota. rewrite (M_bind_Ret _ _ _ _ _ E2). cbn beta iota.
         rewrite (M_bind_Ret _ _ _ _ _ E3), (M_bind_Ret _ _ _ _ _ E4). done. }
    rewrite (M_bind_Ret _ _ _ _ _ (release_Ret p (mkYfs s4 ({[p]} ∪ held y)) (held_self p _))).
    cbn [ys held]. rewrite release_held by done. done.
  - split; [done|]. split; [|split; [done|split]].
    + destruct Hd3. split; [by rewrite Hj4|done].
    + intros j Hp Hj. rewrite Hj4, Hj3, Hj1; done.
    + rewrite Eb in Er4. lia.
Qed.

(* ------------------------------------------------------------------ *)
(** ** Listing *)

Lemma run_readdir s h p es l : ec_wf s -> is_dir s p es ->
  exists s', nlock_readdir junk p l (mkYfs s h) = Ret (mkYfs s' h, (OK, l ++ es)) /\ same s s'.
Proof.
  intros Hwf [Hf Hes].
  destruct (run_is s h p _ _ extent_protocol.T_DIR Hwf Hf) as (s1 & E1 & Hs1); [done|].
  destruct (run_get s1 h p extent_protocol.T_DIR (dir_encode es) []) as (s2 & E2 & Hs2);
    [apply Hs1|destruct Hs1 as (_ & -> & _); done|].
  exists s2. split; [|by eapply same_trans].
  unfold nlock_readdir. rewrite (M_bind_Ret _ _ _ _ _ E1). cbn [negb Z.eqb extent_protocol.T_DIR Pos.eqb].
  rewrite (M_bind_Ret _ _ _ _ _ E2), Z.eqb_refl, dir_readdir_spec by done. done.
Qed.

Lemma readdir_spec y p es l : ec_wf (ys y) -> p ∉ held y -> is_dir (ys y) p es ->
  exists s', readdir junk p l y = Ret (mkYfs s' (held y), (OK, l ++ es)) /\ same (ys y) s'.
Proof.
  intros Hwf Hl Hd. destruct (run_readdir (ys y) ({[p]} ∪ held y) p es l Hwf Hd) as (s' & E & Hs).
  exists s'. split; [|done]. by apply (locked_run p _ (fun r => r)).
Qed.

(** On something that is not a directory the lock is released twice. *)
Lemma readdir_nondir_spec y p t c l : ec_wf (ys y) -> p ∉ held y ->
  ec_file (ys y) p = Some (t, c) -> 0 <= t -> t <> extent_protocol.T_DIR ->
  readdir junk p l y = Abort.
Proof.
  intros Hwf Hl Hf Ht Hne. unfold readdir.
  rewrite (M_bind_Ret _ _ _ _ _ (acquire_Ret p y Hl)). set (h := {[p]} ∪ held y).
  destruct (run_is (ys y) h p t c extent_protocol.T_DIR Hwf Hf Ht) as (s1 & E1 & Hs1).
  rewrite (proj2 (Z.eqb_neq _ _) Hne) in E1.
  assert (nlock_readdir junk p l (mkYfs (ys y) h) = Ret (mkYfs s1 (held y), (OK, l))) as E.
  { unfold nlock_readdir. rewrite (M_bind_Ret _ _ _ _ _ E1). cbn [negb].
    rewrite (M_bind_Ret _ _ _ _ _ (release_Ret p (mkYfs s1 h) (held_self p _))).
    unfold h. cbn [ys held]. by rewrite release_held. }
  rewrite (M_bind_Ret _ _ _ _ _ E). unfold mbind, M_bind, release. cbn [held].
  by rewrite decide_False.
Qed.

(* ------------------------------------------------------------------ *)
(** ** Contents *)

Lemma read_spec y i t c size off data : ec_wf (ys y) -> i ∉ held y ->
  ec_file (ys y) i = Some (t, c) -> 0 <= off < 2 ^ 32 -> Z.of_nat (length c) < 2 ^ 32 ->
  exists s', read i size off data y =
    Ret (mkYfs s' (held y), (OK, take size (drop (Z.to_nat off) c))) /\ same (ys y) s'.
Proof.
  intros Hwf Hl Hf Hoff Hc. unfold read.
  rewrite (M_bind_Ret _ _ _ _ _ (acquire_Ret i y Hl)). set (h := {[i]} ∪ held y).
  destruct (run_get (ys y) h i t c [] Hwf Hf) as (s1 & E1 & Hs1).
  rewrite (M_bind_Ret _ _ _ _ _ E1), Z.eqb_refl. exists s1. split; [|done].
  unfold u32. rewrite !Z.mod_small by lia.
  assert ((if Z.of_nat (length c) <=? off then ret [] else fail (str_substr c off)) (mkYfs s1 h) =
    Ret (mkYfs s1 h, drop (Z.to_nat off) c)) as E2.
  { destruct (Z.leb_spec (Z.of_nat (length c)) off).
    - by rewrite drop_ge by lia.
    - unfold fail, str_substr. destruct (Z.ltb_spec off 0), (Z.ltb_spec (Z.of_nat (length c)) off); try lia.
      done. }
  erewrite M_bind_Ret; [|by rewrite (M_bind_Ret _ _ _ _ _ E2)].
  rewrite (M_bind_Ret _ _ _ _ _ (release_Ret i (mkYfs s1 h) (held_self i _))).
  unfold h. cbn [ys held]. rewrite release_held by done. unfold ret, mret, M_ret.
  destruct (Nat.ltb_spec size (length (drop (Z.to_nat off) c))).
  - unfold str_resize. by rewrite resize_le by lia.
  - by rewrite take_ge by lia.
Qed.

(** Reading beyond the end with an offset of more than 32 bits throws. *)
Lemma read_wrap_spec y i t c size off data : ec_wf (ys y) -> i ∉ held y ->
  ec_file (ys y) i = Some (t, c) -> Z.of_nat (length c) < 2 ^ 32 <= off ->
  off mod 2 ^ 32 < Z.of_nat (length c) -> read i size off data y = Abort.
Proof.
  intros Hwf Hl Hf Hc Hoff. unfold read.
  rewrite (M_bind_Ret _ _ _ _ _ (acquire_Ret i y Hl)). set (h := {[i]} ∪ held y).
  destruct (run_get (ys y) h i t c [] Hwf Hf) as (s1 & E1 & Hs1).
  rewrite (M_bind_Ret _ _ _ _ _ E1), Z.eqb_refl.
  unfold u32. rewrite (Z.mod_small (Z.of_nat (length c))) by lia.
  destruct (Z.leb_spec (Z.of_nat (length c)) (off mod 2 ^ 32)); [lia|].
  unfold mbind, M_bind, fail, str_substr.
  destruct (Z.ltb_spec (Z.of_nat (length c)) off); [|lia]. by rewrite orb_true_r.
Qed.

(** The contents after a write: a gap is filled with NUL bytes. *)
Definition overwrite (c data : list byte) (off : Z) : list byte :=
  str_resize (take (Z.to_nat off) c) (Z.to_nat off) ++ data ++
  drop (Z.to_nat off + length data) c.

Lemma write_content_spec c data size off : 0 <= off < 2 ^ 63 ->
  0 <= size < 2 ^ 31 -> size <= Z.of_nat (length data) ->
  write_content c data size off =
  Ret (overwrite c (take (Z.to_nat size) data) off,
       Z.max 0 (off - Z.of_nat (length c)) + size).
Proof.
  intros Hoff Hs Hd. unfold write_content, overwrite, str_resize, u64.
  rewrite (Z.mod_small off) by lia.
  destruct (Z.leb_spec (2 ^ 31) size), (Z.ltb_spec (Z.of_nat (length data)) size); try lia.
  cbn [orb]. rewrite length_take.
  destruct (Z.ltb_spec (Z.of_nat (length c)) off).
  - destruct (Z.ltb_spec off 0); [lia|]. f_equal. f_equal; [|lia].
    rewrite (take_ge c), (drop_ge c) by lia. rewrite resize_ge, app_nil_r, <-app_assoc by lia.
    do 3 f_equal. lia.
  - f_equal. f_equal; [|lia]. rewrite resize_all_alt by (rewrite length_take; lia).
    do 3 f_equal. lia.
Qed.

Lemma write_spec y i t c size off data : ec_wf (ys y) -> i ∉ held y ->
  ec_file (ys y) i = Some (t, c) -> 0 <= off < 2 ^ 63 -> 0 <= size < 2 ^ 31 ->
  size <= Z.of_nat (length data) ->
  block_count (Z.of_nat (length (overwrite c (take (Z.to_nat size) data) off))) <= NDIRECT ->
  block_count (Z.of_nat (length (overwrite c (take (Z.to_nat size) data) off))) <=
    ec_room (ys y) + blocks_for (Z.of_nat (length c)) ->
  exists s', write i size off data y =
    Ret (mkYfs s' (held y), (OK, Z.max 0 (off - Z.of_nat (length c)) + size)) /\
    ec_wf s' /\ ec_file s' i = Some (t, overwrite c (take (Z.to_nat size) data) off) /\
    (forall j, j <> i -> ec_file s' j = ec_file (ys y) j).
Proof.
  intros Hwf Hl Hf Hoff Hs Hd Hn Hr. unfold write.
  rewrite (M_bind_Ret _ _ _ _ _ (acquire_Ret i y Hl)). set (h := {[i]} ∪ held y).
  destruct (run_get (ys y) h i t c [] Hwf Hf) as (s1 & E1 & Hwf1 & Hj1 & Er1).
  rewrite (M_bind_Ret _ _ _ _ _ E1), Z.eqb_refl.
  rewrite write_content_spec by done.
  destruct (run_put s1 h i t c (overwrite c (take (Z.to_nat size) data) off))
    as (s2 & E2 & Hwf2 & Hf2 & Hj2 & _); [done|by rewrite Hj1|done|by rewrite Er1|].
  exists s2. split; [|split; [done|split; [done|intros j Hj; by rewrite Hj2, Hj1]]].
  erewrite M_bind_Ret.
  2: { unfold fail. erewrite M_bind_Ret by (rewrite bind_Ret; done). cbn beta iota.
       rewrite (M_bind_Ret _ _ _ _ _ E2). done. }
  rewrite (M_bind_Ret _ _ _ _ _ (release_Ret i (mkYfs s2 h) (held_self i _))).
  unfold h. cbn [ys held]. by rewrite release_held.
Qed.

Lemma setattr_spec y i t c size : ec_wf (ys y) -> i ∉ held y -> ec_file (ys y) i = Some (t, c) ->
  block_count (Z.of_nat size) <= NDIRECT ->
  block_count (Z.of_nat size) <= ec_room (ys y) + blocks_for (Z.of_nat (length c)) ->
  exists s', setattr i size y = Ret (mkYfs s' (held y), OK) /\ ec_wf s' /\
    ec_file s' i = Some (t, str_resize c size) /\
    (forall j, j <> i -> ec_file s' j = ec_file (ys y) j).
Proof.
  intros Hwf Hl Hf Hn Hr. unfold setattr.
  rewrite (M_bind_Ret _ _ _ _ _ (acquire_Ret i y Hl)). set (h := {[i]} ∪ held y).
  destruct (run_get (ys y) h i t c [] Hwf Hf) as (s1 & E1 & Hwf1 & Hj1 & Er1).
  rewrite (M_bind_Ret _ _ _ _ _ E1), Z.eqb_refl.
  destruct (run_put s1 h i t c (str_resize c size)) as (s2 & E2 & Hwf2 & Hf2 & Hj2 & _);
    [done|by rewrite Hj1|unfold str_resize; by rewrite length_resize
    |unfold str_resize; by rewrite length_resize, Er1|].
  exists s2. split; [|split; [done|split; [done|intros j Hj; by rewrite Hj2, Hj1]]].
  erewrite M_bind_Ret; [|by rewrite (M_bind_Ret _ _ _ _ _ E2)].
  rewrite (M_bind_Ret _ _ _ _ _ (release_Ret i (mkYfs s2 h) (held_self i _))).
  unfold h. cbn [ys held]. by rewrite release_held.
Qed.

Lemma readlink_spec y i t c l0 : ec_wf (ys y) -> i ∉ held y -> ec_file (ys y) i = Some (t, c) ->
  exists s', readlink i l0 y = Ret (mkYfs s' (held y), (OK, c)) /\ same (ys y) s'.
Proof.
  intros Hwf Hl Hf. unfold readlink.
  rewrite (M_bind_Ret _ _ _ _ _ (acquire_Ret i y Hl)). set (h := {[i]} ∪ held y).
  destruct (run_get (ys y) h i t c l0 Hwf Hf) as (s1 & E1 & Hs1).
  rewrite (M_bind_Ret _ _ _ _ _ E1). exists s1. split; [|done].
  rewrite (M_bind_Ret _ _ _ _ _ (release_Ret i (mkYfs s1 h) (held_self i _))).
  unfold h. cbn [ys held]. by rewrite release_held.
Qed.

(* ------------------------------------------------------------------ *)
(** ** Removing *)

Lemma entry_bytes_length e : (0 < length (entry_bytes e))%nat.
Proof. unfold entry_bytes. rewrite !length_app. cbn. lia. Qed.

Lemma dir_encode_shrink pre post e :
  (length (dir_encode (pre ++ post)) <= length (dir_encode (pre ++ e :: post)))%nat.
Proof.
  rewrite (dir_encode_split pre post e), !length_app.
  destruct pre as [|e1 pre]; [destruct post; cbn [app length dir_encode]; lia|].
  destruct post as [|e2 post]; [rewrite app_nil_r, length_app; lia|].
  rewrite dir_encode_app, !length_app by done. cbn [length]. lia.
Qed.

(** The calls that remove the entry and its inode. *)
Lemma run_unlink s h p pre post name i t c : ec_wf s -> p <> i ->
  is_dir s p (pre ++ (name, i) :: post) -> name_ok name ->
  assoc name (pre ++ (name, i) :: post) = Some i ->
  str_find name (dir_encode (pre ++ (name, i) :: post)) 0 = Some (entry_pos pre) ->
  block_count (Z.of_nat (length (dir_encode (pre ++ (name, i) :: post)))) <= NDIRECT ->
  ec_file s i = Some (t, c) -> Z.of_nat (length c) mod BLOCK_SIZE <> 0 ->
  exists s1 s2 s3 s',
    nlock_lookup junk p name false 0 (mkYfs s h) = Ret (mkYfs s1 h, (OK, true, i)) /\
    ec (ec_get p []) (mkYfs s1 h) =
      Ret (mkYfs s2 h, (extent_protocol.OK, dir_encode (pre ++ (name, i) :: post))) /\
    dir_erase (dir_encode (pre ++ (name, i) :: post)) (cstr name) i = Ret (dir_encode (pre ++ post)) /\
    ec (ec_put p (dir_encode (pre ++ post))) (mkYfs s2 h) = Ret (mkYfs s3 h, extent_protocol.OK) /\
    (forall h', ec (ec_remove i) (mkYfs s3 h') = Ret (mkYfs s' h', extent_protocol.OK)) /\
    ec_wf s' /\ is_dir s' p (pre ++ post) /\ ec_file s' i = None /\
    (forall j, j <> p -> j <> i -> ec_file s' j = ec_file s j).
Proof.
  intros Hwf Hpi Hd Hname Ha Hfind Hn Hf Hc.
  destruct (run_lookup s h p _ name false 0 Hwf Hd) as (s1 & E1 & Hwf1 & Hj1 & Er1).
  rewrite (lookup_old _ _ i) in E1 by done. pose proof Hd as [Hfd Hes].
  destruct (run_get s1 h p extent_protocol.T_DIR (dir_encode (pre ++ (name, i) :: post)) [])
    as (s2 & E2 & Hwf2 & Hj2 & Er2); [done|by rewrite Hj1|].
  assert (Forall entry_ok (pre ++ post)) as Hes'.
  { apply Forall_app in Hes as [? [_ ?]%Forall_cons]. by apply Forall_app. }
  set (d := dir_encode (pre ++ (name, i) :: post)) in *. set (d' := dir_encode (pre ++ post)).
  assert (block_count (Z.of_nat (length d')) <= block_count (Z.of_nat (length d))) as Hle.
  { apply block_count_mono. pose proof (dir_encode_shrink pre post (name, i)).
    unfold d, d'. lia. }
  destruct (run_put s2 h p extent_protocol.T_DIR d d') as (s3 & E3 & Hwf3 & Hf3 & Hj3 & _);
    [done|by rewrite Hj2, Hj1|lia| |].
  { pose proof (law_room s2). unfold blocks_for. case_tests. }
  destruct (law_remove s3 i t c) as (s4 & E4 & Hwf4 & Hf4 & Hj4 & _);
    [done|by apply (file_extent s i (t, c))|by rewrite Hj3, Hj2, Hj1|done|].
  exists s1, s2, s3, s4. do 2 (split; [done|]). split; [|split; [done|split; [|split; [done|]]]].
  - rewrite cstr_id by apply Hname. by apply dir_erase_spec.
  - intros h'. unfold ec. cbn [ys held]. by rewrite E4.
  - split; [split; [by rewrite Hj4|done]|]. split; [done|].
    intros j Hjp Hji. by rewrite Hj4, Hj3, Hj2, Hj1.
Qed.

Lemma unlink_spec y p pre post name i t c : ec_wf (ys y) -> p ∉ held y -> i ∉ held y -> p <> i ->
  is_dir (ys y) p (pre ++ (name, i) :: post) -> name_ok name ->
  assoc name (pre ++ (name, i) :: post) = Some i ->
  str_find name (dir_encode (pre ++ (name, i) :: post)) 0 = Some (entry_pos pre) ->
  block_count (Z.of_nat (length (dir_encode (pre ++ (name, i) :: post)))) <= NDIRECT ->
  ec_file (ys y) i = Some (t, c) -> Z.of_nat (length c) mod BLOCK_SIZE <> 0 ->
  exists s', unlink junk p name y = Ret (mkYfs s' (held y), OK) /\ ec_wf s' /\
    is_dir s' p (pre ++ post) /\ ec_file s' i = None /\
    (forall j, j <> p -> j <> i -> ec_file s' j = ec_file (ys y) j).
Proof.
  intros Hwf Hlp Hli Hpi Hd Hname Ha Hfind Hn Hf Hc. unfold unlink.
  rewrite (M_bind_Ret _ _ _ _ _ (acquire_Ret p y Hlp)). set (h := {[p]} ∪ held y).
  destruct (run_unlink (ys y) h p pre post name i t c)
    as (s1 & s2 & s3 & s4 & E1 & E2 & Ee & E3 & E4 & Hs4); [done..|].
  assert (i ∉ h) as Hih by (unfold h; rewrite elem_of_union, elem_of_singleton; intros []; done).
  exists s4. split; [|done]. rewrite (M_bind_Ret _ _ _ _ _ E1). cbn beta iota.
  erewrite M_bind_Ret.
  2: { rewrite (M_bind_Ret _ _ _ _ _ E2), Z.eqb_refl, Ee. unfold fail.
       erewrite M_bind_Ret by (rewrite bind_Ret; done).
       rewrite (M_bind_Ret _ _ _ _ _ E3).
       rewrite (M_bind_Ret _ _ _ _ _ (acquire_Ret i (mkYfs s3 h) Hih)).
       cbn [ys held]. rewrite (M_bind_Ret _ _ _ _ _ (E4 _)).
       rewrite (M_bind_Ret _ _ _ _ _ (release_Ret i (mkYfs s4 ({[i]} ∪ h)) (held_self i _))).
       cbn [ys held]. rewrite release_held by done. done. }
  rewrite (M_bind_Ret _ _ _ _ _ (release_Ret p (mkYfs s4 h) (held_self p _))).
  unfold h. cbn [ys held]. by rewrite release_held.
Qed.

Lemma nlock_unlink_spec s h p pre post name i t c : ec_wf s -> p <> i ->
  is_dir s p (pre ++ (name, i) :: post) -> name_ok name ->
  assoc name (pre ++ (name, i) :: post) = Some i ->
  str_find name (dir_encode (pre ++ (name, i) :: post)) 0 = Some (entry_pos pre) ->
  block_count (Z.of_nat (length (dir_encode (pre ++ (name, i) :: post)))) <= NDIRECT ->
  ec_file s i = Some (t, c) -> Z.of_nat (length c) mod BLOCK_SIZE <> 0 ->
  exists s', nlock_unlink junk p name (mkYfs s h) = Ret (mkYfs s' h, OK) /\ ec_wf s' /\
    is_dir s' p (pre ++ post) /\ ec_file s' i = None /\
    (forall j, j <> p -> j <> i -> ec_file s' j = ec_file s j).
Proof.
  intros Hwf Hpi Hd Hname Ha Hfind Hn Hf Hc.
  destruct (run_unlink s h p pre post name i t c)
    as (s1 & s2 & s3 & s4 & E1 & E2 & Ee & E3 & E4 & Hs4); [done..|].
  exists s4. split; [|done]. unfold nlock_unlink.
  rewrite (M_bind_Ret _ _ _ _ _ E1). cbn beta iota.
  rewrite (M_bind_Ret _ _ _ _ _ E2), Z.eqb_refl, Ee. unfold fail.
  erewrite M_bind_Ret by (rewrite bind_Ret; done).
  rewrite (M_bind_Ret _ _ _ _ _ E3), (M_bind_Ret _ _ _ _ _ (E4 _)). done.
Qed.

Lemma unlink_missing_spec y p es name : ec_wf (ys y) -> p ∉ held y -> is_dir (ys y) p es ->
  name_ok name -> assoc name es = None ->
  exists s', unlink junk p name y = Ret (mkYfs s' (held y), NOENT) /\ same (ys y) s'.
Proof.
  intros Hwf Hl Hd Hname Ha. unfold unlink.
  rewrite (M_bind_Ret _ _ _ _ _ (acquire_Ret p y Hl)). set (h := {[p]} ∪ held y).
  destruct (run_lookup (ys y) h p _ name false 0 Hwf Hd) as (s1 & E1 & Hs1).
  rewrite lookup_new in E1 by done. rewrite (M_bind_Ret _ _ _ _ _ E1). exists s1. split; [|done].
  erewrite M_bind_Ret by done.
  rewrite (M_bind_Ret _ _ _ _ _ (release_Ret p (mkYfs s1 h) (held_self p _))).
  unfold h. cbn [ys held]. by rewrite release_held.
Qed.

(* ------------------------------------------------------------------ *)
(** ** Attributes *)

Lemma getfile_spec y i t c fin : ec_wf (ys y) -> i ∉ held y -> ec_file (ys y) i = Some (t, c) ->
  0 <= t -> exists s' info, getfile i fin y = Ret (mkYfs s' (held y), (OK, info)) /\
    f_size info = Z.of_nat (length c) /\ same (ys y) s'.
Proof.
  intros Hwf Hl Hf Ht. unfold getfile.
  rewrite (M_bind_Ret _ _ _ _ _ (acquire_Ret i y Hl)). set (h := {[i]} ∪ held y).
  destruct (law_getattr (ys y) i t c extent_protocol.attr_zero) as (s1 & a & E1 & _ & Ea & Hs1);
    [done|by eapply file_extent|done|done|].
  assert (get_attr i (mkYfs (ys y) h) = Ret (mkYfs s1 h, (extent_protocol.OK, a))) as E.
  { unfold get_attr, ec. cbn [ys held]. by rewrite E1. }
  rewrite (M_bind_Ret _ _ _ _ _ E). exists s1, (mkFileinfo (extent_protocol.a_size a)
    (extent_protocol.a_atime a) (extent_protocol.a_mtime a) (extent_protocol.a_ctime a)).
  split; [|split; [exact Ea|exact Hs1]].
  cbv zeta. rewrite (M_bind_Ret _ _ _ _ _ (release_Ret i (mkYfs s1 h) (held_self i _))).
  unfold h. cbn [ys held]. by rewrite release_held.
Qed.

Lemma isdir_spec y i t c : ec_wf (ys y) -> i ∉ held y -> ec_file (ys y) i = Some (t, c) -> 0 <= t ->
  exists s', isdir i y = Ret (mkYfs s' (held y), t =? extent_protocol.T_DIR) /\ same (ys y) s'.
Proof.
  intros Hwf Hl Hf Ht.
  destruct (run_is (ys y) ({[i]} ∪ held y) i t c extent_protocol.T_DIR Hwf Hf Ht) as (s1 & E & Hs).
  exists s1. split; [|done]. by apply (locked_run i _ (fun r => r)).
Qed.
End facts.

(* ------------------------------------------------------------------ *)
(** ** Failed calls

    An extent client whose calls fail with some status: the operations that
    report it do so after releasing their lock. *)
Section failures.
Context {S : Type} `{!ExtentClient S} (y : yfs S) (i : Z) (s' : S) (st : Z) (buf : list byte).
Context (Hl : i ∉ held y) (Hst : st <> extent_protocol.OK).
Context (Hget : ec_get i [] (ys y) = Ret (s', (st, buf))).

Lemma failed_get h : ec (ec_get i []) (mkYfs (ys y) h) = Ret (mkYfs s' h, (st, buf)).
Proof using Hget. unfold ec. cbn [ys held]. by rewrite Hget. Qed.

Lemma read_failed_spec size off data :
  read i size off data y = Ret (mkYfs s' (held y), (IOERR, data)).
Proof using Hl Hst Hget.
  unfold read. rewrite (M_bind_Ret _ _ _ _ _ (acquire_Ret i y Hl)).
  rewrite (M_bind_Ret _ _ _ _ _ (failed_get _)), (proj2 (Z.eqb_neq _ _) Hst).
  erewrite M_bind_Ret by done.
  rewrite (M_bind_Ret _ _ _ _ _ (release_Ret i (mkYfs s' ({[i]} ∪ held y)) (held_self i _))).
  cbn [ys held]. by rewrite release_held.
Qed.

Lemma write_failed_spec size off data :
  write i size off data y = Ret (mkYfs s' (held y), (IOERR, 0)).
Proof using Hl Hst Hget.
  unfold write. rewrite (M_bind_Ret _ _ _ _ _ (acquire_Ret i y Hl)).
  rewrite (M_bind_Ret _ _ _ _ _ (failed_get _)), (proj2 (Z.eqb_neq _ _) Hst).
  erewrite M_bind_Ret by done.
  rewrite (M_bind_Ret _ _ _ _ _ (release_Ret i (mkYfs s' ({[i]} ∪ held y)) (held_self i _))).
  cbn [ys held]. by rewrite release_held.
Qed.
End failures.
