(* ===== verification/YfsTheorems.v ===== *)
(** * Theorems on the file system client

    The properties of extent_client.cc, extent_server.cc and yfs_client.cc.
    Those of the file system client are stated for every extent client that
    satisfies [ExtentLaws]; their runs use the code's own extent client over
    a network that loses no call and the disk of [FileTheorems]. *)

From S2P Require Import Prelude Disk Protocol Inode InodeFacts FileRead FileWrite FileTheorems.
From S2P Require Import Extent ExtentFacts DirFormat DirFacts Yfs YfsFacts.

(* ------------------------------------------------------------------ *)
(** ** The file system of the runs *)

Definition demo_net : network := mkNetwork (fun _ => demo_env) (fun _ => Delivered).
Definition demo_world : world := mkWorld demo_disk 0.

#[export] Instance demo_ops : ExtentClient world := extent_client.extent_client_ops demo_net.

(** A block of zeroes can be read behind every string. *)
Lemma demo_readable n : readable (srv_env demo_net n).
Proof. unfold readable. cbn [demo_net srv_env demo_env behind]. by rewrite length_replicate. Qed.

#[export] Instance demo_laws : ExtentLaws world := extent_client_laws demo_net (fun _ => eq_refl) demo_readable.

Lemma demo_wf : world_ok demo_world.
Proof. split; [apply demo_ok|]. apply demo_none. discriminate. Qed.

Lemma demo_is_dir : is_dir demo_world 1 [].
Proof. split; [apply demo_root|constructor]. Qed.

Lemma demo_first_free : first_free demo_world 2.
Proof.
  split; [split; [discriminate|reflexivity]|]. split; [apply demo_none; discriminate|].
  intros j Hj. replace j with 1 by lia. change (file demo_disk 1 <> None).
  rewrite demo_root. discriminate.
Qed.

Lemma demo_room : ec_room demo_world = 1020.
Proof. apply demo_free_length. Qed.

(** The name "a". *)
Definition name_a : list byte := ["a"%byte].

Lemma name_a_ok : name_ok name_a.
Proof. by split; intros [?|?%elem_of_nil]%elem_of_cons. Qed.

Lemma demo_fits : entry_fits demo_world [] name_a 2.
Proof. unfold entry_fits. rewrite demo_room. split; discriminate. Qed.

Definition demo_yfs : yfs world := mkYfs demo_world ∅.

Lemma demo_unlocked (i : Z) : i ∉ held demo_yfs.
Proof. apply not_elem_of_empty. Qed.

(* ------------------------------------------------------------------ *)
(** ** The extent service *)

(** C14. Over a network that loses no call, [extent_client::get] after
    [extent_client::put] of at most [NDIRECT] (100) blocks, for which there is
    room, returns exactly the bytes that were put, through the server, the inode
    manager and the blocks of the disk; the other extents are unchanged.  The
    server copies whole blocks out of the string, so the theorem assumes that a
    block can be read behind a string, which the language does not promise
    ([extent_put_overread]). *)
Theorem extent_put_get N w i t c d buf : (forall n, call_fate N n = Delivered) ->
  (forall n, readable (srv_env N n)) -> world_ok w -> extent_ok i -> file (w_disk w) i = Some (t, c) ->
  block_count (Z.of_nat (length d)) <= NDIRECT ->
  block_count (Z.of_nat (length d)) <= room w + blocks_for (Z.of_nat (length c)) ->
  exists w1 w2, extent_client.put N i d w = Ret (w1, extent_protocol.OK) /\
    extent_client.get N i buf w1 = Ret (w2, (extent_protocol.OK, d)) /\ world_ok w2 /\
    forall j, j <> i -> file (w_disk w2) j = file (w_disk w) j.
Proof.
  intros Hrel Hmem Hw Hi Hf Hn Hr.
  destruct (world_put N Hrel Hmem w i t c d Hw Hi Hf Hn Hr) as (w1 & E1 & Hw1 & Hf1 & Hj1 & _).
  destruct (world_get N Hrel w1 i t d buf Hw1 Hi Hf1) as (w2 & E2 & Hw2 & Hj2 & _).
  exists w1, w2. do 3 (split; [done|]). intros j Hj. by rewrite Hj2, Hj1.
Qed.

Lemma extent_put_get_witness : exists w1 w2,
  extent_client.put demo_net 1 name_a demo_world = Ret (w1, extent_protocol.OK) /\
  extent_client.get demo_net 1 [] w1 = Ret (w2, (extent_protocol.OK, name_a)) /\ world_ok w2 /\
  forall j, j <> 1 -> file (w_disk w2) j = file (w_disk demo_world) j.
Proof.
  apply (extent_put_get demo_net demo_world 1 extent_protocol.T_DIR [] name_a []);
    [reflexivity|apply demo_readable|apply demo_wf|split; [discriminate|reflexivity]|apply demo_root|discriminate|].
  change (room demo_world) with (ec_room demo_world). rewrite demo_room. discriminate.
Defined.

(** [extent_server::put] reads past the end of its string: where nothing can be
    read behind a string, a put of at most [NDIRECT] blocks whose last block is
    not full (by more than the terminator) has undefined behaviour. *)
Theorem extent_put_overread E b i t c d : behind E = [] -> fs_ok b -> extent_ok i -> file b i = Some (t, c) ->
  block_count (Z.of_nat (length d)) <= NDIRECT ->
  block_count (Z.of_nat (length d)) <=
    Z.of_nat (length (free_list b)) + blocks_for (Z.of_nat (length c)) ->
  Z.of_nat (length d) + 1 < block_count (Z.of_nat (length d)) * BLOCK_SIZE ->
  extent_server.put E b i d = Undef.
Proof. intros HE Hfs Hi. by apply put_overread. Qed.

Lemma extent_put_overread_witness :
  extent_server.put (mkEnv (fun _ => 7) (fun _ _ => []) []) demo_disk 1 name_a = Undef.
Proof.
  apply (extent_put_overread _ demo_disk 1 extent_protocol.T_DIR [] name_a);
    [reflexivity|apply demo_ok|split; [discriminate|reflexivity]|apply demo_root|discriminate| |].
  - change (Z.of_nat (length (free_list demo_disk))) with (ec_room demo_world). rewrite demo_room. discriminate.
  - rewrite BLOCK_SIZE_val. reflexivity.
Defined.

(** A failed [put] or [remove] stops the client process, whether or not
    the server executed the call; every other call reports the failure code
    and leaves the caller's out parameter as it was. *)
Theorem extent_call_failed N w i d buf a id f :
  call_fate N (w_calls w) = Failed false f ->
  extent_client.put N i d w = Abort /\ extent_client.remove N i w = Abort /\
  extent_client.get N i buf w =
    Ret (mkWorld (w_disk w) (S (w_calls w)), (rpc_const.code f, buf)) /\
  extent_client.getattr N i a w =
    Ret (mkWorld (w_disk w) (S (w_calls w)), (rpc_const.code f, a)) /\
  extent_client.create N i id w =
    Ret (mkWorld (w_disk w) (S (w_calls w)), (rpc_const.code f, id)) /\
  rpc_const.code f <> extent_protocol.OK.
Proof.
  intros Hf. pose proof (rpc_const.code_neg f) as Hneg.
  unfold extent_client.put, extent_client.remove, extent_client.get, extent_client.getattr,
    extent_client.create, extent_client.call. rewrite !Hf. rewrite !bind_Ret.
  unfold extent_client.verify_ok, extent_protocol.OK.
  destruct (Z.eqb_spec (rpc_const.code f) 0); [lia|]. do 5 (split; [done|]). lia.
Qed.

Lemma extent_call_failed_witness :
  let N := mkNetwork (fun _ => demo_env) (fun _ => Failed false rpc_const.timeout_failure) in
  extent_client.put N 1 name_a demo_world = Abort.
Proof.
  intros N. apply (extent_call_failed N demo_world 1 name_a [] extent_protocol.attr_zero 0
    rpc_const.timeout_failure). reflexivity.
Defined.

(* ------------------------------------------------------------------ *)
(** ** Directories *)

(** [n2i] inverts [filename] on every inode number of 64 bits. *)
Theorem n2i_filename junk i : 0 <= i < 2 ^ 64 -> n2i junk (filename i) = i.
Proof. apply n2i_filename_spec. Qed.

Lemma n2i_filename_witness : n2i 0 (filename 1024) = 1024.
Proof. apply n2i_filename. split; [discriminate|reflexivity]. Defined.

(** C13. The loops of [nlock_readdir] and [nlock_lookup] read a directory back:
    for entries whose names hold no separator, the first gives the list of
    entries and the second the inode number of the first entry with a name. *)
Theorem directory_roundtrip junk es acc name : Forall entry_ok es ->
  dir_readdir junk (dir_encode es) acc = acc ++ es /\
  (n2i junk <$> dir_lookup (dir_encode es) name) = assoc name es.
Proof.
  intros Hes. split; [by apply dir_readdir_spec|]. rewrite dir_lookup_spec by done.
  destruct (assoc name es) as [i|] eqn:Ea; [|done]. cbn [fmap option_fmap option_map].
  by rewrite n2i_filename_spec by (by eapply assoc_ok).
Qed.

Lemma directory_roundtrip_witness :
  dir_readdir 0 (dir_encode [(name_a, 12); (["b"%byte], 7)]) [] = [] ++ [(name_a, 12); (["b"%byte], 7)] /\
  (n2i 0 <$> dir_lookup (dir_encode [(name_a, 12); (["b"%byte], 7)]) ["b"%byte]) =
    assoc ["b"%byte] [(name_a, 12); (["b"%byte], 7)].
Proof.
  apply (directory_roundtrip 0). repeat constructor; try discriminate;
    by intros [?|?%elem_of_nil]%elem_of_cons.
Defined.

(** [dir_append], the entry that [nlock_create], [mkdir] and [createlink]
    add, appends the entry to the list; [dir_erase] of unlink removes the
    entry from the list when its name does not occur as a string before it. *)
Theorem directory_update pre post name i :
  Forall entry_ok (pre ++ post) ->
  str_find name (dir_encode (pre ++ (name, i) :: post)) 0 = Some (entry_pos pre) ->
  dir_append (dir_encode pre) name i = dir_encode (pre ++ [(name, i)]) /\
  dir_erase (dir_encode (pre ++ (name, i) :: post)) name i = Ret (dir_encode (pre ++ post)).
Proof. intros Hok Hf. split; [apply dir_append_spec|by apply dir_erase_spec]. Qed.

Lemma directory_update_witness :
  dir_append (dir_encode [(["b"%byte], 7)]) name_a 12 = dir_encode ([(["b"%byte], 7)] ++ [(name_a, 12)]) /\
  dir_erase (dir_encode ([(["b"%byte], 7)] ++ (name_a, 12) :: [])) name_a 12 =
    Ret (dir_encode ([(["b"%byte], 7)] ++ [])).
Proof.
  apply (directory_update [(["b"%byte], 7)] [] name_a 12); [|reflexivity].
  repeat constructor; try discriminate; by intros [?|?%elem_of_nil]%elem_of_cons.
Defined.

(** A name with the separator is not kept: a directory with the new entry "a;7"
    of inode 12 is read back as the entry "a" of inode 7. *)
Theorem separator_in_name :
  let name := ["a"%byte; semi; "7"%byte] in
  dir_readdir 0 (dir_append [] name 12) [] = [(["a"%byte], 7)].
Proof. reflexivity. Qed.

(** [unlink] searches the directory for the name as a string.  In the
    directory with the entries "ab", inode 2, and "b", inode 3, removing "b"
    cuts the entry of "ab" apart: afterwards the directory has the single
    entry "ab" with inode 3, the inode that is removed next. *)
Theorem unlink_wrong_entry :
  let b := "b"%byte in
  let d := dir_encode [(["a"%byte; b], 2); ([b], 3)] in
  dir_erase d [b] 3 = Ret ["a"%byte; b; semi; "3"%byte] /\
  dir_readdir 0 ["a"%byte; b; semi; "3"%byte] [] = [(["a"%byte; b], 3)].
Proof. split; reflexivity. Qed.

(* ------------------------------------------------------------------ *)
(** ** Operations *)

(** C10. [create] of a new name in a directory, where the name holds neither
    the separator ';' nor a zero byte and the directory stays within [NDIRECT]
    blocks for which there is room: it returns OK and the least free inode
    number, the directory gets the entry, the file is empty and of type T_FILE,
    all other files are unchanged, and the lock of the directory is released.  A
    following [lookup] finds the file.  The extent service keeps
    [ExtentLaws], as the code's does when no call is lost and a block can be
    read behind a string ([extent_client_laws]). *)
Theorem create_then_lookup {S} `{!ExtentClient S, !ExtentLaws S} junk (y : yfs S) p es name i i0 :
  ec_wf (ys y) -> p ∉ held y -> is_dir (ys y) p es -> name_ok name -> assoc name es = None ->
  first_free (ys y) i -> entry_fits (ys y) es name i ->
  exists s1 s2, create junk p name i0 y = Ret (mkYfs s1 (held y), (OK, i)) /\
    created (ys y) s1 p es name i extent_protocol.T_FILE [] /\
    lookup junk p name false 0 (mkYfs s1 (held y)) = Ret (mkYfs s2 (held y), (OK, true, i)) /\
    same s1 s2.
Proof.
  intros Hwf Hl Hd Hname Ha Hi Hfit.
  destruct (create_spec junk y p es name i i0) as (s1 & E1 & Hc); try done.
  pose proof Hc as (Hwf1 & Hd1 & _ & _).
  destruct (run_lookup junk s1 (held y) p _ name false 0 Hwf1 Hd1) as (s2 & E2 & Hs).
  rewrite (lookup_old _ _ i) in E2; [|done|].
  - exists s1, s2. done.
  - by apply assoc_snoc_new.
Qed.

Lemma create_then_lookup_witness : exists s1 s2,
  create 0 1 name_a 0 demo_yfs = Ret (mkYfs s1 ∅, (OK, 2)) /\
  created demo_world s1 1 [] name_a 2 extent_protocol.T_FILE [] /\
  lookup 0 1 name_a false 0 (mkYfs s1 ∅) = Ret (mkYfs s2 ∅, (OK, true, 2)) /\ same s1 s2.
Proof.
  apply (create_then_lookup 0 demo_yfs 1 [] name_a 2 0);
    [apply demo_wf|apply demo_unlocked|apply demo_is_dir|apply name_a_ok|reflexivity
    |apply demo_first_free|apply demo_fits].
Defined.

(** [create] of a name that exists returns EXIST and its inode number and
    changes no file; the lock is released. *)
Theorem create_existing {S} `{!ExtentClient S, !ExtentLaws S} junk (y : yfs S) p es name i i0 :
  ec_wf (ys y) -> p ∉ held y -> is_dir (ys y) p es -> name_ok name -> assoc name es = Some i ->
  exists s', create junk p name i0 y = Ret (mkYfs s' (held y), (EXIST, i)) /\ same (ys y) s'.
Proof. apply create_exist_spec. Qed.

(** The file system with an empty file "a", inode 2. *)
Lemma demo_a : exists s, ec_wf s /\ is_dir s 1 [(name_a, 2)] /\
  ec_file s 2 = Some (extent_protocol.T_FILE, []) /\ ec_room s = 1019.
Proof.
  destruct (create_spec 0 demo_yfs 1 [] name_a 2 0) as (s & _ & Hc); [apply demo_wf
    |apply demo_unlocked|apply demo_is_dir|apply name_a_ok|reflexivity
    |apply demo_first_free|apply demo_fits|].
  destruct Hc as (Hwf & Hd & Hf & _ & Hr). exists s. do 3 (split; [done|]).
  cbn [demo_yfs ys] in Hr. rewrite demo_room in Hr.
  change (block_count (Z.of_nat (length (dir_encode ([] ++ [(name_a, 2)]))))) with 1 in Hr.
  change (block_count (Z.of_nat (length []))) with 0 in Hr.
  change (blocks_for (Z.of_nat (length (dir_encode [])))) with 0 in Hr. lia.
Qed.

Lemma create_existing_witness : exists s s', is_dir s 1 [(name_a, 2)] /\
  create 0 1 name_a 0 (mkYfs s ∅) = Ret (mkYfs s' ∅, (EXIST, 2)) /\ same s s'.
Proof.
  destruct demo_a as (s & Hwf & Hd & _). exists s.
  destruct (create_existing 0 (mkYfs s ∅) 1 [(name_a, 2)] name_a 2 0)
    as (s' & H); [exact Hwf|apply not_elem_of_empty|exact Hd|apply name_a_ok|reflexivity|].
  exists s'. exact (conj Hd H).
Defined.

(** [mkdir] makes an empty directory: a [readdir] of the parent then lists
    the old entries and the new one, and one of the new directory lists
    nothing. *)
Theorem mkdir_then_readdir {S} `{!ExtentClient S, !ExtentLaws S} junk (y : yfs S) p es name i i0 :
  ec_wf (ys y) -> p ∉ held y -> i ∉ held y -> is_dir (ys y) p es -> name_ok name ->
  assoc name es = None -> first_free (ys y) i -> entry_fits (ys y) es name i ->
  exists s1 s2 s3, mkdir junk p name i0 y = Ret (mkYfs s1 (held y), (OK, i)) /\
    created (ys y) s1 p es name i extent_protocol.T_DIR [] /\
    readdir junk p [] (mkYfs s1 (held y)) = Ret (mkYfs s2 (held y), (OK, es ++ [(name, i)])) /\
    readdir junk i [] (mkYfs s2 (held y)) = Ret (mkYfs s3 (held y), (OK, [])).
Proof.
  intros Hwf Hl Hli Hd Hname Ha Hi Hfit.
  destruct (mkdir_spec junk y p es name i i0) as (s1 & E1 & Hc); try done.
  pose proof Hc as (Hwf1 & Hd1 & Hf1 & _).
  destruct (readdir_spec junk (mkYfs s1 (held y)) p _ [] Hwf1 Hl Hd1) as (s2 & E2 & Hs2).
  destruct (readdir_spec junk (mkYfs s2 (held y)) i [] []) as (s3 & E3 & _);
    [apply Hs2|done|apply (is_dir_same _ _ _ _ Hs2); split; [exact Hf1|constructor]|].
  exists s1, s2, s3. done.
Qed.

Lemma mkdir_then_readdir_witness : exists s1 s2 s3,
  mkdir 0 1 name_a 0 demo_yfs = Ret (mkYfs s1 ∅, (OK, 2)) /\
  created demo_world s1 1 [] name_a 2 extent_protocol.T_DIR [] /\
  readdir 0 1 [] (mkYfs s1 ∅) = Ret (mkYfs s2 ∅, (OK, [] ++ [(name_a, 2)])) /\
  readdir 0 2 [] (mkYfs s2 ∅) = Ret (mkYfs s3 ∅, (OK, [])).
Proof.
  apply (mkdir_then_readdir 0 demo_yfs 1 [] name_a 2 0);
    [apply demo_wf|apply demo_unlocked|apply demo_unlocked|apply demo_is_dir|apply name_a_ok
    |reflexivity|apply demo_first_free|apply demo_fits].
Defined.

(** [readdir] of something that is not a directory stops the process: the
    inner function releases the lock, and the outer one releases it again. *)
Theorem readdir_nondir_aborts {S} `{!ExtentClient S, !ExtentLaws S} junk (y : yfs S) p t c l :
  ec_wf (ys y) -> p ∉ held y -> ec_file (ys y) p = Some (t, c) -> 0 <= t ->
  t <> extent_protocol.T_DIR -> readdir junk p l y = Abort.
Proof. apply readdir_nondir_spec. Qed.

Lemma readdir_nondir_aborts_witness : exists s, readdir 0 2 [] (mkYfs s ∅) = Abort.
Proof.
  destruct demo_a as (s & Hwf & _ & Hf & _). exists s.
  apply (readdir_nondir_aborts 0 (mkYfs s ∅) 2 extent_protocol.T_FILE [] []);
    [exact Hwf|apply not_elem_of_empty|exact Hf|discriminate|discriminate].
Defined.

(** [createlink] then [readlink] returns the target of the link. *)
Theorem symlink_roundtrip {S} `{!ExtentClient S, !ExtentLaws S} junk (y : yfs S) p es name target i i0 :
  ec_wf (ys y) -> p ∉ held y -> i ∉ held y -> is_dir (ys y) p es -> name_ok name ->
  assoc name es = None -> first_free (ys y) i -> entry_fits (ys y) es name i ->
  block_count (Z.of_nat (length target)) <= NDIRECT ->
  block_count (Z.of_nat (length target)) +
    block_count (Z.of_nat (length (dir_encode (es ++ [(name, i)])))) <=
    ec_room (ys y) + blocks_for (Z.of_nat (length (dir_encode es))) ->
  exists s1 s2, createlink junk p name target i0 y = Ret (mkYfs s1 (held y), (OK, i)) /\
    created (ys y) s1 p es name i extent_protocol.T_SYMLINK target /\
    readlink i [] (mkYfs s1 (held y)) = Ret (mkYfs s2 (held y), (OK, target)).
Proof.
  intros Hwf Hl Hli Hd Hname Ha Hi Hfit Ht Hr.
  destruct (createlink_spec junk y p es name target i i0) as (s1 & E1 & Hc); try done.
  pose proof Hc as (Hwf1 & _ & Hf1 & _).
  destruct (readlink_spec (mkYfs s1 (held y)) i _ _ [] Hwf1 Hli Hf1) as (s2 & E2 & _).
  exists s1, s2. done.
Qed.

Lemma symlink_roundtrip_witness : exists s1 s2,
  createlink 0 1 name_a ["t"%byte] 0 demo_yfs = Ret (mkYfs s1 ∅, (OK, 2)) /\
  created demo_world s1 1 [] name_a 2 extent_protocol.T_SYMLINK ["t"%byte] /\
  readlink 2 [] (mkYfs s1 ∅) = Ret (mkYfs s2 ∅, (OK, ["t"%byte])).
Proof.
  apply (symlink_roundtrip 0 demo_yfs 1 [] name_a ["t"%byte] 2 0);
    [apply demo_wf|apply demo_unlocked|apply demo_unlocked|apply demo_is_dir|apply name_a_ok
    |reflexivity|apply demo_first_free|apply demo_fits|discriminate|].
  cbn [demo_yfs ys]. rewrite demo_room. discriminate.
Defined.

(** C9. [write] at an offset below 2^32, of less than 2^31 bytes, that leaves
    the file with at most [NDIRECT] (100) blocks for which there is room, then
    [read] at the same offset returns the written bytes.  The file holds its old
    bytes up to [off], with zeroes filling a gap, the new bytes, and its old
    bytes after them; no other file changes and the lock is released.  The count
    that [write] reports includes the gap.  The extent service keeps
    [ExtentLaws], as the code's does when no call is lost and a block can be
    read behind a string ([extent_client_laws]).  Larger
    files and offsets lose data or stop the process ([write_file_large],
    [read_large_offset_aborts]). *)
Theorem write_then_read {S} `{!ExtentClient S, !ExtentLaws S} (y : yfs S) i t c data off
    (size := Z.of_nat (length data)) (c' := overwrite c data off) :
  ec_wf (ys y) -> i ∉ held y -> ec_file (ys y) i = Some (t, c) -> 0 <= off < 2 ^ 32 ->
  size < 2 ^ 31 -> block_count (Z.of_nat (length c')) <= NDIRECT ->
  block_count (Z.of_nat (length c')) <= ec_room (ys y) + blocks_for (Z.of_nat (length c)) ->
  exists s1 s2, write i size off data y =
      Ret (mkYfs s1 (held y), (OK, Z.max 0 (off - Z.of_nat (length c)) + size)) /\
    ec_wf s1 /\ ec_file s1 i = Some (t, c') /\
    (forall j, j <> i -> ec_file s1 j = ec_file (ys y) j) /\
    read i (length data) off [] (mkYfs s1 (held y)) = Ret (mkYfs s2 (held y), (OK, data)).
Proof.
  intros Hwf Hl Hf Hoff Hs Hn Hr.
  assert (take (Z.to_nat size) data = data) as Et by (apply take_ge; unfold size; lia).
  destruct (write_spec y i t c size off data) as (s1 & E1 & Hwf1 & Hf1 & Hj1);
    [done|done|done|lia|unfold size in *; lia|unfold size; lia|by rewrite Et|by rewrite Et|].
  rewrite Et in Hf1.
  assert (Z.of_nat (length c') < 2 ^ 32) as Hc'.
  { pose proof (block_count_bounds (Z.of_nat (length c')) ltac:(lia)). rewrite BLOCK_SIZE_val in *.
    rewrite NDIRECT_val in Hn. lia. }
  destruct (read_spec (mkYfs s1 (held y)) i t _ (length data) off [] Hwf1 Hl Hf1 Hoff Hc')
    as (s2 & E2 & _).
  exists s1, s2. do 4 (split; [done|]). rewrite E2. do 3 f_equal.
  unfold overwrite. rewrite drop_app_length'; [by rewrite take_app_length|].
  unfold str_resize. by rewrite length_resize.
Qed.

Lemma write_then_read_witness : exists s s1 s2, ec_file s 2 = Some (extent_protocol.T_FILE, []) /\
  write 2 1 2 name_a (mkYfs s ∅) = Ret (mkYfs s1 ∅, (OK, 3)) /\
  ec_file s1 2 = Some (extent_protocol.T_FILE, [x00; x00; "a"%byte]) /\
  read 2 1 2 [] (mkYfs s1 ∅) = Ret (mkYfs s2 ∅, (OK, name_a)).
Proof.
  destruct demo_a as (s & Hwf & _ & Hf & Hr).
  destruct (write_then_read (mkYfs s ∅) 2 extent_protocol.T_FILE [] name_a 2)
    as (s1 & s2 & E1 & _ & Hf1 & _ & E2);
    [exact Hwf|apply not_elem_of_empty|exact Hf|split; [discriminate|reflexivity]|reflexivity
    |discriminate| |].
  - cbn [ys]. rewrite Hr. discriminate.
  - exists s, s1, s2. exact (conj Hf (conj E1 (conj Hf1 E2))).
Defined.

(** [setattr] sets the length of a file: it is cut, or filled with zero
    bytes; no other file changes and the lock is released. *)
Theorem setattr_resizes {S} `{!ExtentClient S, !ExtentLaws S} (y : yfs S) i t c size :
  ec_wf (ys y) -> i ∉ held y -> ec_file (ys y) i = Some (t, c) ->
  block_count (Z.of_nat size) <= NDIRECT ->
  block_count (Z.of_nat size) <= ec_room (ys y) + blocks_for (Z.of_nat (length c)) ->
  exists s', setattr i size y = Ret (mkYfs s' (held y), OK) /\ ec_wf s' /\
    ec_file s' i = Some (t, take size c ++ replicate (size - length c) x00) /\
    (forall j, j <> i -> ec_file s' j = ec_file (ys y) j).
Proof.
  intros Hwf Hl Hf Hn Hr. destruct (setattr_spec y i t c size) as (s' & E1 & Hwf1 & Hf1 & Hj1); try done.
  exists s'. do 2 (split; [done|]). split; [|done]. rewrite Hf1. do 2 f_equal.
  unfold str_resize. destruct (decide (size <= length c)%nat).
  - rewrite resize_le by lia. replace (size - length c)%nat with 0%nat by lia. by rewrite app_nil_r.
  - by rewrite resize_ge, take_ge by lia.
Qed.

Lemma setattr_resizes_witness : exists s s', setattr 2 3 (mkYfs s ∅) = Ret (mkYfs s' ∅, OK) /\
  ec_file s' 2 = Some (extent_protocol.T_FILE, [x00; x00; x00]).
Proof.
  destruct demo_a as (s & Hwf & _ & Hf & Hr).
  destruct (setattr_resizes (mkYfs s ∅) 2 extent_protocol.T_FILE [] 3) as (s' & E1 & _ & Hf1 & _);
    [exact Hwf|apply not_elem_of_empty|exact Hf|discriminate|cbn [ys]; rewrite Hr; discriminate|].
  exists s, s'. exact (conj E1 Hf1).
Defined.

(** C31. [unlink] of a name that does not occur, as a string, before its entry,
    and whose inode, of any type, directories included, has a size that is not a
    multiple of the block size, in a directory of at most [NDIRECT] blocks: the
    entry is gone, the inode is removed, every other file is unchanged, and both
    locks are released.  The extent service keeps
    [ExtentLaws], as the code's does when no call is lost and a block can be
    read behind a string ([extent_client_laws]). *)
Theorem unlink_removes {S} `{!ExtentClient S, !ExtentLaws S} junk (y : yfs S) p pre post name i t c :
  ec_wf (ys y) -> p ∉ held y -> i ∉ held y -> p <> i ->
  is_dir (ys y) p (pre ++ (name, i) :: post) -> name_ok name ->
  assoc name (pre ++ (name, i) :: post) = Some i ->
  str_find name (dir_encode (pre ++ (name, i) :: post)) 0 = Some (entry_pos pre) ->
  block_count (Z.of_nat (length (dir_encode (pre ++ (name, i) :: post)))) <= NDIRECT ->
  ec_file (ys y) i = Some (t, c) -> Z.of_nat (length c) mod BLOCK_SIZE <> 0 ->
  exists s', unlink junk p name y = Ret (mkYfs s' (held y), OK) /\ ec_wf s' /\
    is_dir s' p (pre ++ post) /\ ec_file s' i = None /\
    (forall j, j <> p -> j <> i -> ec_file s' j = ec_file (ys y) j).
Proof. apply unlink_spec. Qed.

Lemma unlink_removes_witness : exists s s', unlink 0 1 name_a (mkYfs s ∅) = Ret (mkYfs s' ∅, OK) /\
  is_dir s' 1 [] /\ ec_file s' 2 = None.
Proof.
  destruct demo_a as (s & Hwf & Hd & Hf & Hr).
  destruct (setattr_spec (mkYfs s ∅) 2 extent_protocol.T_FILE [] 3) as (s1 & _ & Hwf1 & Hf1 & Hj1);
    [exact Hwf|apply not_elem_of_empty|exact Hf|discriminate|cbn [ys]; rewrite Hr; discriminate|].
  destruct (unlink_removes 0 (mkYfs s1 ∅) 1 [] [] name_a 2 extent_protocol.T_FILE (str_resize [] 3))
    as (s' & E1 & _ & Hd' & Hf' & _);
    [exact Hwf1|apply not_elem_of_empty|apply not_elem_of_empty|discriminate
    |split; [cbn [ys]; rewrite Hj1 by discriminate; apply Hd|apply Hd]|apply name_a_ok|reflexivity
    |reflexivity|discriminate|exact Hf1|discriminate|].
  exists s1, s'. exact (conj E1 (conj Hd' Hf')).
Defined.

(** When the extent server cannot be reached, [read] and [write] return
    IOERR, the lock is released, and the caller's data is unchanged. *)
Theorem failed_get_reported {S} `{!ExtentClient S} (y : yfs S) i s' st buf size wsize off data wdata :
  i ∉ held y -> st <> extent_protocol.OK -> ec_get i [] (ys y) = Ret (s', (st, buf)) ->
  read i size off data y = Ret (mkYfs s' (held y), (IOERR, data)) /\
  write i wsize off wdata y = Ret (mkYfs s' (held y), (IOERR, 0)).
Proof.
  intros Hl Hst Hget. split; [by eapply read_failed_spec|by eapply write_failed_spec].
Qed.

(** A network that loses every call. *)
Definition dead_net : network :=
  mkNetwork (fun _ => demo_env) (fun _ => Failed false rpc_const.timeout_failure).

Lemma failed_get_reported_witness : exists s',
  @read world (extent_client.extent_client_ops dead_net) 1 3 0 name_a demo_yfs =
    Ret (mkYfs s' ∅, (IOERR, name_a)) /\
  @write world (extent_client.extent_client_ops dead_net) 1 3 0 name_a demo_yfs =
    Ret (mkYfs s' ∅, (IOERR, 0)).
Proof.
  exists (mkWorld demo_disk 1).
  apply (@failed_get_reported world (extent_client.extent_client_ops dead_net) demo_yfs 1
    (mkWorld demo_disk 1) (-1) [] 3 3 0 name_a name_a);
    [apply demo_unlocked|discriminate|reflexivity].
Defined.

(** [read] compares the offset after truncating it to 32 bits: an offset
    of 2^32 or more that is small modulo 2^32 passes the test, and taking the
    substring there throws. *)
Theorem read_large_offset_aborts {S} `{!ExtentClient S, !ExtentLaws S} (y : yfs S) i t c size off data :
  ec_wf (ys y) -> i ∉ held y -> ec_file (ys y) i = Some (t, c) ->
  Z.of_nat (length c) < 2 ^ 32 <= off -> off mod 2 ^ 32 < Z.of_nat (length c) ->
  read i size off data y = Abort.
Proof. apply read_wrap_spec. Qed.

Lemma read_large_offset_aborts_witness : exists s, read 1 1 (2 ^ 32) [] (mkYfs s ∅) = Abort.
Proof.
  destruct demo_a as (s & Hwf & [Hd _] & _). exists s.
  apply (read_large_offset_aborts (mkYfs s ∅) 1 extent_protocol.T_DIR (dir_encode [(name_a, 2)]));
    [exact Hwf|apply not_elem_of_empty|exact Hd|split; [reflexivity|discriminate]|reflexivity].
Defined.
