(* ===== verification/Fuse.v ===== *)
(** * The FUSE server

    The request handlers of fuse.cc over the file system client.  A handler
    sends one reply, which is its value here.  The functions of libfuse that
    lay out a directory entry are the operations of class [FuseLib]. *)

From S2P Require Import Prelude Protocol DirFormat Extent Yfs.

(** errno.h *)
Definition ENOENT : Z := 2.
Definition EEXIST : Z := 17.
Definition ENOTDIR : Z := 20.
Definition ENOSYS : Z := 38.
Definition ENOTEMPTY : Z := 39.

(** The mode bits of sys/stat.h, and [FUSE_SET_ATTR_SIZE]. *)
Definition S_IFDIR : Z := 16384.
Definition S_IFREG : Z := 32768.
Definition S_IFLNK : Z := 40960.
Definition FUSE_SET_ATTR_SIZE : Z := 8.

(** The fields of [struct stat] that the server sets; [bzero] clears the rest. *)
Record stat : Type := mkStat {
  st_ino : Z; st_mode : Z; st_nlink : Z;
  st_atime : Z; st_mtime : Z; st_ctime : Z; st_size : Z
}.

(** [struct fuse_entry_param]; its timeouts and generation are always zero. *)
Record fuse_entry_param : Type := mkEntry { e_ino : Z; e_attr : stat }.

(** The replies. *)
Inductive reply : Type :=
| fuse_reply_err (err : Z)
| fuse_reply_attr (st : stat)
| fuse_reply_buf (buf : list byte)
| fuse_reply_write (count : Z)
| fuse_reply_create (e : fuse_entry_param)
| fuse_reply_entry (e : fuse_entry_param)
| fuse_reply_open
| fuse_reply_statfs (f_namemax f_bsize : Z)
| fuse_reply_readlink (link : list byte).

(** [fuse_dirent_size(namelen)], and the bytes that
    [fuse_add_dirent(buf, name, st, off)] stores at [buf]. *)
Class FuseLib : Type := {
  fuse_dirent_size : nat -> nat;
  fuse_add_dirent : list byte -> Z -> nat -> list byte
}.
Class FuseLibLaws `{!FuseLib} : Prop :=
  length_dirent name ino off :
    length (fuse_add_dirent name ino off) = fuse_dirent_size (length name).

Definition dirbuf_add `{!FuseLib} (b name : list byte) (ino : Z) : list byte :=
  let size := (length b + fuse_dirent_size (length name))%nat in
  b ++ fuse_add_dirent name ino size.

(** [buf] and [bufsize] are one string; [off] is cast to [size_t]. *)
Definition reply_buf_limited (buf : list byte) (off : Z) (maxsize : nat) : reply :=
  let off := u64 off in
  if off <? Z.of_nat (length buf)
  then fuse_reply_buf (take (Nat.min (length buf - Z.to_nat off) maxsize) (drop (Z.to_nat off) buf))
  else fuse_reply_buf [].

Section fuse.
Context {S : Type} `{!ExtentClient S, !FuseLib}.
(** The value of uninitialised variables. *)
Context (junk : Z) (junk_file : fileinfo) (junk_dir : dirinfo).

(** [getattr(inum, st)]: the status and [st]. *)
Definition getattr (inum : Z) : M S (Z * stat) :=
  let st := mkStat inum 0 0 0 0 0 0 in
  _ ← isfile inum;
  f ← isfile inum;
  if (f : bool) then
    '(ret', info) ← getfile inum junk_file;
    if negb (ret' =? OK) then ret (ret', st)
    else ret (OK, mkStat inum (Z.lor S_IFREG 438) 1 (f_atime info) (f_mtime info) (f_ctime info)
                    (f_size info))
  else
    d ← isdir inum;
    if (d : bool) then
      '(ret', info) ← getdir inum junk_dir;
      if negb (ret' =? OK) then ret (ret', st)
      else ret (OK, mkStat inum (Z.lor S_IFDIR 511) 2 (d_atime info) (d_mtime info) (d_ctime info) 0)
    else
      '(ret', info) ← getfile inum junk_file;
      if negb (ret' =? OK) then ret (ret', st)
      else ret (OK, mkStat inum (Z.lor S_IFLNK 511) 1 (f_atime info) (f_mtime info) (f_ctime info)
                      (f_size info)).

Definition fuseserver_getattr (ino : Z) : M S reply :=
  '(ret', st) ← getattr ino;
  if negb (ret' =? OK) then ret (fuse_reply_err ENOENT) else ret (fuse_reply_attr st).

(** [attr_size] is [attr->st_size]; the two results are ignored. *)
Definition fuseserver_setattr (ino attr_size to_set : Z) : M S reply :=
  if negb (Z.land FUSE_SET_ATTR_SIZE to_set =? 0) then
    _ ← setattr ino (Z.to_nat (u64 attr_size));
    '(_, st) ← getattr ino;
    ret (fuse_reply_attr st)
  else ret (fuse_reply_err ENOSYS).

Definition fuseserver_read (ino : Z) (size : nat) (off : Z) : M S reply :=
  '(r, buf) ← read ino size off [];
  if r =? OK then ret (fuse_reply_buf buf) else ret (fuse_reply_err ENOENT).

(** The variable [size] is also the one that [write] stores its count in. *)
Definition fuseserver_write (ino : Z) (buf : list byte) (size off : Z) : M S reply :=
  '(r, size) ← write ino size off buf;
  if r =? OK then ret (fuse_reply_write size) else ret (fuse_reply_err ENOENT).

(** The status, and [e] when it is OK. *)
Definition fuseserver_createhelper (parent : Z) (name : list byte) (type : Z)
    : M S (Z * fuse_entry_param) :=
  '(ret', inum) ← (if type =? extent_protocol.T_FILE then create junk parent name junk
                   else mkdir junk parent name junk);
  if negb (ret' =? OK) then ret (ret', mkEntry junk (mkStat junk junk junk junk junk junk junk))
  else
    '(ret', st) ← getattr inum;
    ret (ret', mkEntry inum st).

Definition create_reply (ok : fuse_entry_param -> reply) (type parent : Z) (name : list byte)
    : M S reply :=
  '(ret', e) ← fuseserver_createhelper parent name type;
  ret (if ret' =? OK then ok e
       else if ret' =? EXIST then fuse_reply_err EEXIST else fuse_reply_err ENOENT).

Definition fuseserver_create (parent : Z) (name : list byte) : M S reply :=
  create_reply fuse_reply_create extent_protocol.T_FILE parent name.

Definition fuseserver_mknod (parent : Z) (name : list byte) : M S reply :=
  create_reply fuse_reply_entry extent_protocol.T_FILE parent name.

Definition fuseserver_mkdir (parent : Z) (name : list byte) : M S reply :=
  create_reply fuse_reply_entry extent_protocol.T_DIR parent name.

Definition fuseserver_lookup (parent : Z) (name : list byte) : M S reply :=
  '(_, found, ino) ← lookup junk parent name false junk;
  if (found : bool) then
    '(_, st) ← getattr ino;
    ret (fuse_reply_entry (mkEntry ino st))
  else ret (fuse_reply_err ENOENT).

Definition fuseserver_readdir (ino : Z) (size : nat) (off : Z) : M S reply :=
  d ← isdir ino;
  if negb d then ret (fuse_reply_err ENOTDIR)
  else
    '(_, entries) ← readdir junk ino [];
    let b := fold_left (fun b it => dirbuf_add b (cstr it.1) it.2) entries [] in
    ret (reply_buf_limited b off size).

Definition fuseserver_open (ino : Z) : M S reply := ret fuse_reply_open.

Definition fuseserver_unlink (parent : Z) (name : list byte) : M S reply :=
  r ← unlink junk parent name;
  if r =? OK then ret (fuse_reply_err 0)
  else if r =? NOENT then ret (fuse_reply_err ENOENT)
  else ret (fuse_reply_err ENOTEMPTY).

Definition fuseserver_statfs : M S reply := ret (fuse_reply_statfs 255 512).

(** The names are C strings that become [std::string]s. *)
Definition fuseserver_createlink (target_name : list byte) (parent : Z) (link_name : list byte)
    : M S reply :=
  '(ret', inode_id) ← createlink junk parent (cstr link_name) (cstr target_name) junk;
  if ret' =? OK then
    '(_, st) ← getattr inode_id;
    ret (fuse_reply_entry (mkEntry inode_id st))
  else if ret' =? NOENT then ret (fuse_reply_err ENOENT)
  else ret (fuse_reply_err ENOTEMPTY).

(** [data()] is passed on as a C string. *)
Definition fuseserver_readlink (ino : Z) : M S reply :=
  '(ret', link_content) ← readlink ino [];
  if ret' =? OK then ret (fuse_reply_readlink (cstr link_content))
  else if ret' =? NOENT then ret (fuse_reply_err ENOENT)
  else ret (fuse_reply_err ENOTEMPTY).
End fuse.
