(* ===== verification/FuseFacts.v ===== *)
(** * Facts about the FUSE server *)

From S2P Require Import Prelude Protocol Disk Inode Extent ExtentFacts BlockFacts DirFormat DirFacts.
From S2P Require Import Yfs YfsFacts Fuse.

(** What [getattr] reports for a file of type [t] with contents [c]. *)
Definition mode_of (t : Z) : Z :=
  if t =? extent_protocol.T_FILE then Z.lor S_IFREG 438
  else if t =? extent_protocol.T_DIR then Z.lor S_IFDIR 511
  else Z.lor S_IFLNK 511.

Definition describes (st : stat) (i t : Z) (c : list byte) : Prop :=
  st_ino st = i /\ st_mode st = mode_of t /\
  st_nlink st = (if t =? extent_protocol.T_DIR then 2 else 1) /\
  st_size st = (if t =? extent_protocol.T_DIR then 0 else Z.of_nat (length c)).

Section facts.
Context {S : Type} `{!ExtentClient S, !ExtentLaws S, !FuseLib}.
Context (junk : Z) (jf : fileinfo) (jd : dirinfo).

Lemma isfile_spec y i t c : ec_wf (ys y) -> i ∉ held y -> ec_file (ys y) i = Some (t, c) -> 0 <= t ->
  exists s', isfile i y = Ret (mkYfs s' (held y), t =? extent_protocol.T_FILE) /\ same (ys y) s'.
Proof using Type.
  intros Hwf Hl Hf Ht.
  destruct (run_is (ys y) ({[i]} ∪ held y) i t c extent_protocol.T_FILE Hwf Hf Ht) as (s1 & E & Hs).
  exists s1. split; [|done]. by apply (locked_run i _ (fun r => r)).
Qed.

Lemma getdir_spec y i t c din : ec_wf (ys y) -> i ∉ held y -> ec_file (ys y) i = Some (t, c) ->
  0 <= t -> exists s' info, getdir i din y = Ret (mkYfs s' (held y), (OK, info)) /\ same (ys y) s'.
Proof using Type.
  intros Hwf Hl Hf Ht. unfold getdir.
  rewrite (M_bind_Ret _ _ _ _ _ (acquire_Ret i y Hl)). set (h := {[i]} ∪ held y).
  destruct (law_getattr (ys y) i t c extent_protocol.attr_zero) as (s1 & a & E1 & _ & _ & Hs1);
    [done|by eapply file_extent|done|done|].
  assert (get_attr i (mkYfs (ys y) h) = Ret (mkYfs s1 h, (extent_protocol.OK, a))) as E.
  { unfold get_attr, ec. cbn [ys held]. by rewrite E1. }
  rewrite (M_bind_Ret _ _ _ _ _ E). exists s1, (mkDirinfo (extent_protocol.a_atime a)
    (extent_protocol.a_mtime a) (extent_protocol.a_ctime a)).
  split; [|exact Hs1].
  cbv zeta. rewrite (M_bind_Ret _ _ _ _ _ (release_Ret i (mkYfs s1 h) (held_self i _))).
  unfold h. cbn [ys held]. by rewrite release_held.
Qed.

Lemma same_file s s' i x : same s s' -> ec_file s i = Some x -> ec_file s' i = Some x.
Proof using Type. intros (_ & Hj & _) Hf. by rewrite Hj. Qed.

Lemma same_wf s s' : same s s' -> ec_wf s'.
Proof using Type. by intros [? _]. Qed.

Lemma fuse_getattr_spec y i t c : ec_wf (ys y) -> i ∉ held y -> ec_file (ys y) i = Some (t, c) -> 0 <= t ->
  exists s' st, getattr jf jd i y = Ret (mkYfs s' (held y), (OK, st)) /\
    describes st i t c /\ same (ys y) s'.
Proof using Type.
  intros Hwf Hl Hf Ht. unfold getattr, describes, mode_of.
  destruct (isfile_spec y i t c) as (s1 & E1 & Hs1); try assumption.
  rewrite (M_bind_Ret _ _ _ _ _ E1).
  pose proof (same_file _ _ _ _ Hs1 Hf) as Hf1. pose proof (same_wf _ _ Hs1) as Hwf1.
  destruct (isfile_spec (mkYfs s1 (held y)) i t c) as (s2 & E2 & Hs2); try assumption.
  rewrite (M_bind_Ret _ _ _ _ _ E2). pose proof (same_trans _ _ _ Hs1 Hs2) as Hs.
  pose proof (same_file _ _ _ _ Hs Hf) as Hf2. pose proof (same_wf _ _ Hs) as Hwf2.
  cbn [held]. destruct (Z.eqb_spec t extent_protocol.T_FILE) as [->|Hn].
  - destruct (getfile_spec (mkYfs s2 (held y)) i extent_protocol.T_FILE c jf) as (s3 & info & E3 & Hsz & Hs3); try assumption.
    rewrite (M_bind_Ret _ _ _ _ _ E3). eexists s3, _. split; [reflexivity|].
    split; [done|by eapply same_trans].
  - destruct (isdir_spec (mkYfs s2 (held y)) i t c) as (s3 & E3 & Hs3); try assumption.
    rewrite (M_bind_Ret _ _ _ _ _ E3). pose proof (same_trans _ _ _ Hs Hs3) as Hs'.
    pose proof (same_file _ _ _ _ Hs' Hf) as Hf3. pose proof (same_wf _ _ Hs') as Hwf3.
    cbn [held]. destruct (t =? extent_protocol.T_DIR).
    + destruct (getdir_spec (mkYfs s3 (held y)) i t c jd) as (s4 & info & E4 & Hs4); try assumption.
      rewrite (M_bind_Ret _ _ _ _ _ E4). eexists s4, _. split; [reflexivity|].
      split; [done|by eapply same_trans].
    + destruct (getfile_spec (mkYfs s3 (held y)) i t c jf) as (s4 & info & E4 & Hsz & Hs4); try assumption.
      rewrite (M_bind_Ret _ _ _ _ _ E4). eexists s4, _. split; [reflexivity|].
      split; [done|by eapply same_trans].
Qed.

(* ------------------------------------------------------------------ *)
(** ** Directory listings *)

(** The listing of entries from position [off] of the buffer on: each entry
    has the position behind it. *)
Fixpoint listing (off : nat) (es : list (list byte * Z)) : list byte :=
  match es with
  | [] => []
  | (name, ino) :: es =>
      let next := (off + fuse_dirent_size (length name))%nat in
      fuse_add_dirent name ino next ++ listing next es
  end.

Definition listing_size (es : list (list byte * Z)) : nat :=
  sum_list ((fun e => fuse_dirent_size (length e.1)) <$> es).

Lemma dirbuf_listing es b : Forall (fun e => x00 ∉ e.1) es -> FuseLibLaws ->
  fold_left (fun b it => dirbuf_add b (cstr it.1) it.2) es b = b ++ listing (length b) es.
Proof using Type.
  intros Hes HL. revert b. induction Hes as [|[name ino] es Hn Hes IH]; intros b; cbn [fold_left listing].
  { by rewrite app_nil_r. }
  cbn [fst snd] in *. rewrite IH, cstr_id by done. unfold dirbuf_add at 1.
  rewrite <-app_assoc. do 3 f_equal. unfold dirbuf_add. by rewrite length_app, length_dirent.
Qed.

Lemma length_listing es off : FuseLibLaws -> length (listing off es) = listing_size es.
Proof using Type.
  intros HL. revert off. induction es as [|[name ino] es IH]; intros off; [done|].
  cbn [listing]. rewrite length_app, length_dirent, IH. done.
Qed.

Lemma listing_app off pre post : FuseLibLaws ->
  listing off (pre ++ post) = listing off pre ++ listing (off + listing_size pre) post.
Proof using Type.
  intros HL. revert off. induction pre as [|[name ino] pre IH]; intros off.
  { cbn. by rewrite Nat.add_0_r. }
  cbn [listing app]. rewrite IH, <-app_assoc. do 3 f_equal. unfold listing_size. cbn. lia.
Qed.

Lemma listing_size_app pre post :
  listing_size (pre ++ post) = (listing_size pre + listing_size post)%nat.
Proof using Type.
  unfold listing_size. induction pre as [|e pre IH]; [done|]. cbn in *. lia.
Qed.

Lemma reply_limited b n off : off = Z.of_nat n -> Z.of_nat (length b) < 2 ^ 64 -> (n <= length b)%nat ->
  forall size, reply_buf_limited b off size = fuse_reply_buf (take size (drop n b)).
Proof using Type.
  intros -> Hb Hn size. unfold reply_buf_limited, u64. rewrite Z.mod_small by lia.
  rewrite Nat2Z.id. destruct (Z.ltb_spec (Z.of_nat n) (Z.of_nat (length b))).
  - f_equal. rewrite <-(length_drop b n), Nat.min_comm.
    rewrite <-take_take. by rewrite (firstn_all (drop n b)).
  - rewrite drop_ge by lia. by rewrite take_nil.
Qed.
End facts.
