(* ===== verification/FuseTheorems.v ===== *)
(** * Theorems on the FUSE server

    What the kernel sees: the replies of fuse.cc for every extent client that
    satisfies [ExtentLaws].  The runs use the file system of [YfsTheorems]. *)

From S2P Require Import Prelude Disk Protocol Inode InodeFacts FileRead FileWrite FileTheorems.
From S2P Require Import Extent ExtentFacts DirFormat DirFacts Yfs YfsFacts YfsTheorems.
From S2P Require Import Fuse FuseFacts.

Section theorems.
Context {S : Type} `{!ExtentClient S, !ExtentLaws S, !FuseLib}.
Context (junk : Z) (jf : fileinfo) (jd : dirinfo).

Lemma create_reply_spec ok type (y : yfs S) p es name i (t := if type =? extent_protocol.T_FILE
    then extent_protocol.T_FILE else extent_protocol.T_DIR) :
  ec_wf (ys y) -> p ∉ held y -> i ∉ held y -> is_dir (ys y) p es -> name_ok name ->
  assoc name es = None -> first_free (ys y) i -> entry_fits (ys y) es name i ->
  exists s' st, create_reply junk jf jd ok type p name y = Ret (mkYfs s' (held y), ok (mkEntry i st)) /\
    describes st i t [] /\ created (ys y) s' p es name i t [].
Proof using Type.
  intros Hwf Hl Hli Hd Hname Ha Hi Hfit. unfold create_reply, fuseserver_createhelper.
  assert (exists s1, (if type =? extent_protocol.T_FILE then create junk p name junk
      else mkdir junk p name junk) y = Ret (mkYfs s1 (held y), (OK, i)) /\
    created (ys y) s1 p es name i t []) as (s1 & E1 & Hc).
  { unfold t. destruct (type =? extent_protocol.T_FILE).
    - by apply create_spec.
    - by apply mkdir_spec. }
  pose proof Hc as (Hwf1 & Hd1 & Hf1 & Hj1 & Hr1).
  destruct (fuse_getattr_spec jf jd (mkYfs s1 (held y)) i t []) as (s2 & st & E2 & Hst & Hs2);
    [done|done|done|unfold t; by destruct (type =? extent_protocol.T_FILE)|].
  exists s2, st. split; [|split; [done|]].
  - erewrite M_bind_Ret by (rewrite (M_bind_Ret _ _ _ _ _ E1); cbn beta iota; cbn [negb Z.eqb OK];
      rewrite (M_bind_Ret _ _ _ _ _ E2); done).
    done.
  - destruct Hs2 as (Hwf2 & Hj2 & Er2). split; [done|]. split; [split; [rewrite Hj2|]; apply Hd1|].
    split; [by rewrite Hj2|]. split; [|by rewrite Er2].
    intros j Hp Hij. rewrite Hj2. by apply Hj1.
Qed.

Lemma lookup_reply_spec (y : yfs S) p es name i t c : ec_wf (ys y) -> i ∉ held y ->
  is_dir (ys y) p es -> name_ok name -> assoc name es = Some i ->
  ec_file (ys y) i = Some (t, c) -> 0 <= t ->
  exists s' st, fuseserver_lookup junk jf jd p name y =
      Ret (mkYfs s' (held y), fuse_reply_entry (mkEntry i st)) /\
    describes st i t c /\ same (ys y) s'.
Proof using Type.
  intros Hwf Hli Hd Hname Ha Hf Ht. unfold fuseserver_lookup, lookup.
  destruct (run_lookup junk (ys y) (held y) p es name false junk Hwf Hd) as (s1 & E1 & Hs1).
  rewrite (lookup_old _ _ i) in E1 by done. destruct y as [s h]. cbn [ys held] in *.
  destruct (fuse_getattr_spec jf jd (mkYfs s1 h) i t c) as (s2 & st & E2 & Hst & Hs2);
    [apply Hs1|done|by eapply same_file|done|].
  exists s2, st. rewrite (M_bind_Ret _ _ _ _ _ E1). cbn beta iota.
  rewrite (M_bind_Ret _ _ _ _ _ E2). split; [done|]. split; [done|by eapply same_trans].
Qed.

Lemma create_reply_exist ok (y : yfs S) p es name i : ec_wf (ys y) -> p ∉ held y ->
  is_dir (ys y) p es -> name_ok name -> assoc name es = Some i ->
  exists s', create_reply junk jf jd ok extent_protocol.T_FILE p name y =
    Ret (mkYfs s' (held y), fuse_reply_err EEXIST) /\ same (ys y) s'.
Proof using Type.
  intros Hwf Hl Hd Hname Ha. unfold create_reply, fuseserver_createhelper.
  destruct (create_exist_spec junk y p es name i junk) as (s1 & E1 & Hs); try done.
  exists s1. split; [|done]. erewrite M_bind_Ret
    by (cbn [Z.eqb extent_protocol.T_FILE Pos.eqb]; rewrite (M_bind_Ret _ _ _ _ _ E1); done).
  done.
Qed.

(** C29. A FUSE create of a new name, where the name holds neither the
    separator ';' nor a zero byte (FUSE allows the first, see
    [separator_in_name]) and the directory stays within [NDIRECT] blocks for
    which there is room, replies with the least free inode number and the
    attributes of an empty regular file.  A lookup of the name then replies with
    that entry, and a second create of it with EEXIST.  The extent service keeps
    [ExtentLaws], as the code's does when no call is lost and a block can be
    read behind a string ([extent_client_laws]). *)
Theorem fuse_create_lookup (y : yfs S) p es name i :
  ec_wf (ys y) -> p ∉ held y -> i ∉ held y -> is_dir (ys y) p es -> name_ok name ->
  assoc name es = None -> first_free (ys y) i -> entry_fits (ys y) es name i ->
  exists s1 s2 s3 st1 st2,
    fuseserver_create junk jf jd p name y =
      Ret (mkYfs s1 (held y), fuse_reply_create (mkEntry i st1)) /\
    describes st1 i extent_protocol.T_FILE [] /\
    created (ys y) s1 p es name i extent_protocol.T_FILE [] /\
    fuseserver_lookup junk jf jd p name (mkYfs s1 (held y)) =
      Ret (mkYfs s2 (held y), fuse_reply_entry (mkEntry i st2)) /\
    describes st2 i extent_protocol.T_FILE [] /\
    fuseserver_create junk jf jd p name (mkYfs s2 (held y)) =
      Ret (mkYfs s3 (held y), fuse_reply_err EEXIST) /\ same s1 s3.
Proof using Type.
  intros Hwf Hl Hli Hd Hname Ha Hi Hfit.
  destruct (create_reply_spec fuse_reply_create extent_protocol.T_FILE y p es name i)
    as (s1 & st1 & E1 & Hst1 & Hc); try done.
  pose proof Hc as (Hwf1 & Hd1 & Hf1 & _). pose proof (assoc_snoc_new name es i Ha) as Ha1.
  destruct (lookup_reply_spec (mkYfs s1 (held y)) p (es ++ [(name, i)]) name i
    extent_protocol.T_FILE []) as (s2 & st2 & E2 & Hst2 & Hs2); try done.
  destruct (create_reply_exist fuse_reply_create (mkYfs s2 (held y)) p (es ++ [(name, i)]) name i)
    as (s3 & E3 & Hs3); [apply Hs2|done|by eapply is_dir_same|done|done|].
  exists s1, s2, s3, st1, st2. do 6 (split; [done|]). by eapply same_trans.
Qed.

(** A FUSE write of [data] at [off] stores it, and a FUSE read replies
    with it.  The count of the reply to the write is not the number of bytes
    of the request when [off] is past the end of the file: it includes the
    zero bytes of the gap. *)
Theorem fuse_write_read (y : yfs S) i t c data off
    (size := Z.of_nat (length data)) (c' := overwrite c data off) :
  ec_wf (ys y) -> i ∉ held y -> ec_file (ys y) i = Some (t, c) -> 0 <= off < 2 ^ 32 ->
  size < 2 ^ 31 -> block_count (Z.of_nat (length c')) <= NDIRECT ->
  block_count (Z.of_nat (length c')) <= ec_room (ys y) + blocks_for (Z.of_nat (length c)) ->
  exists s1 s2 count,
    fuseserver_write i data size off y = Ret (mkYfs s1 (held y), fuse_reply_write count) /\
    (count = size <-> off <= Z.of_nat (length c)) /\ size <= count /\
    ec_file s1 i = Some (t, c') /\
    fuseserver_read i (length data) off (mkYfs s1 (held y)) =
      Ret (mkYfs s2 (held y), fuse_reply_buf data).
Proof using Type.
  intros Hwf Hl Hf Hoff Hs Hn Hr.
  assert (take (Z.to_nat size) data = data) as Et by (apply take_ge; unfold size; lia).
  destruct (write_spec y i t c size off data) as (s1 & E1 & Hwf1 & Hf1 & Hj1);
    [done|done|done|lia|unfold size in *; lia|unfold size; lia|by rewrite Et|by rewrite Et|].
  rewrite Et in Hf1.
  assert (Z.of_nat (length c') < 2 ^ 32) as Hc'.
  { pose proof (block_count_bounds (Z.of_nat (length c')) ltac:(lia)). rewrite BLOCK_SIZE_val in *.
    rewrite NDIRECT_val in Hn. lia. }
  destruct (read_spec (mkYfs s1 (held y)) i t _ (length data) off [] Hwf1 Hl Hf1 Hoff Hc')
    as (s2 & E2 & _).
  exists s1, s2, (Z.max 0 (off - Z.of_nat (length c)) + size).
  unfold fuseserver_write, fuseserver_read.
  rewrite (M_bind_Ret _ _ _ _ _ E1), (M_bind_Ret _ _ _ _ _ E2).
  split; [reflexivity|]. split; [lia|]. split; [lia|]. split; [done|].
  cbn beta iota. rewrite Z.eqb_refl. unfold ret, mret, M_ret. do 3 f_equal. unfold overwrite.
  rewrite drop_app_length'; [by rewrite take_app_length|]. unfold str_resize. by rewrite length_resize.
Qed.

(** C30. FUSE readdir in pages: a request at the offset that the last entry of
    a page carries replies with the bytes of exactly the entries after it, cut
    to the requested size; every entry carries the offset of the next one, so
    no entry is lost or repeated. *)
Theorem fuse_readdir_page {FL : FuseLibLaws} (y : yfs S) p pre post size :
  ec_wf (ys y) -> p ∉ held y -> is_dir (ys y) p (pre ++ post) ->
  Z.of_nat (listing_size (pre ++ post)) < 2 ^ 63 ->
  exists s', fuseserver_readdir junk p size (Z.of_nat (listing_size pre)) y =
    Ret (mkYfs s' (held y), fuse_reply_buf (take size (listing (listing_size pre) post))) /\
    same (ys y) s'.
Proof using Type.
  intros Hwf Hl Hd Hsize. unfold fuseserver_readdir. pose proof Hd as [Hf Hes].
  destruct (isdir_spec y p _ _ Hwf Hl Hf) as (s1 & E1 & Hs1); [discriminate|].
  rewrite (M_bind_Ret _ _ _ _ _ E1). cbn [negb Z.eqb extent_protocol.T_DIR Pos.eqb].
  destruct (readdir_spec junk (mkYfs s1 (held y)) p (pre ++ post) []) as (s2 & E2 & Hs2);
    [apply Hs1|done|by eapply is_dir_same|].
  rewrite (M_bind_Ret _ _ _ _ _ E2). exists s2. split; [|by eapply same_trans].
  cbn beta iota zeta. rewrite app_nil_l, dirbuf_listing by
    (done || (eapply Forall_impl; [exact Hes|by intros ? [[_ ?] _]])).
  rewrite app_nil_l. cbn [length]. unfold ret, mret, M_ret. do 2 f_equal.
  rewrite (reply_limited _ (listing_size pre)); [|done|rewrite length_listing; [lia|done]|].
  - rewrite listing_app by done. rewrite drop_app_length' by (by rewrite length_listing). done.
  - rewrite length_listing, listing_size_app by done. lia.
Qed.

(** A FUSE unlink of a directory is not refused: it replies with success,
    the entry is gone and the directory is removed with the entries in it. *)
Theorem fuse_unlink_directory (y : yfs S) p pre post name i es :
  ec_wf (ys y) -> p ∉ held y -> i ∉ held y -> p <> i ->
  is_dir (ys y) p (pre ++ (name, i) :: post) -> name_ok name ->
  assoc name (pre ++ (name, i) :: post) = Some i ->
  str_find name (dir_encode (pre ++ (name, i) :: post)) 0 = Some (entry_pos pre) ->
  block_count (Z.of_nat (length (dir_encode (pre ++ (name, i) :: post)))) <= NDIRECT ->
  is_dir (ys y) i es -> Z.of_nat (length (dir_encode es)) mod BLOCK_SIZE <> 0 ->
  exists s', fuseserver_unlink junk p name y = Ret (mkYfs s' (held y), fuse_reply_err 0) /\
    is_dir s' p (pre ++ post) /\ ec_file s' i = None.
Proof using Type.
  intros Hwf Hl Hli Hpi Hd Hname Ha Hfind Hn [Hf _] Hm. unfold fuseserver_unlink.
  destruct (unlink_spec junk y p pre post name i extent_protocol.T_DIR (dir_encode es))
    as (s' & E & _ & Hd' & Hf' & _); try assumption.
  exists s'. rewrite (M_bind_Ret _ _ _ _ _ E). done.
Qed.
End theorems.

(* ------------------------------------------------------------------ *)
(** ** Runs *)

(** The layout of libfuse: inode, offset, length of the name, type, and the
    name padded to a multiple of eight. *)
Definition padded (n : nat) : nat := ((n + 7) / 8 * 8)%nat.

#[export] Instance demo_fuse : FuseLib := {|
  fuse_dirent_size n := (24 + padded n)%nat;
  fuse_add_dirent name ino off :=
    le_bytes 8 ino ++ le_bytes 8 (Z.of_nat off) ++ le_bytes 4 (Z.of_nat (length name)) ++
    le_bytes 4 0 ++ name ++ replicate (padded (length name) - length name) x00
|}.

#[export] Instance demo_fuse_laws : FuseLibLaws.
Proof.
  intros name ino off. cbn [fuse_add_dirent demo_fuse fuse_dirent_size].
  rewrite !length_app, !length_le_bytes, length_replicate. unfold padded.
  pose proof (Nat.div_mod (length name + 7) 8 ltac:(discriminate)).
  pose proof (Nat.mod_upper_bound (length name + 7) 8 ltac:(discriminate)). lia.
Qed.

Definition jf0 : fileinfo := mkFileinfo 0 0 0 0.
Definition jd0 : dirinfo := mkDirinfo 0 0 0.

Lemma fuse_create_lookup_witness : exists s1 s2 s3 st1 st2,
  fuseserver_create 0 jf0 jd0 1 name_a demo_yfs =
    Ret (mkYfs s1 ∅, fuse_reply_create (mkEntry 2 st1)) /\
  describes st1 2 extent_protocol.T_FILE [] /\
  created demo_world s1 1 [] name_a 2 extent_protocol.T_FILE [] /\
  fuseserver_lookup 0 jf0 jd0 1 name_a (mkYfs s1 ∅) =
    Ret (mkYfs s2 ∅, fuse_reply_entry (mkEntry 2 st2)) /\
  describes st2 2 extent_protocol.T_FILE [] /\
  fuseserver_create 0 jf0 jd0 1 name_a (mkYfs s2 ∅) = Ret (mkYfs s3 ∅, fuse_reply_err EEXIST) /\
  same s1 s3.
Proof.
  apply (fuse_create_lookup 0 jf0 jd0 demo_yfs 1 [] name_a 2);
    [apply demo_wf|apply demo_unlocked|apply demo_unlocked|apply demo_is_dir|apply name_a_ok
    |reflexivity|apply demo_first_free|apply demo_fits].
Defined.

Lemma fuse_write_read_witness : exists s s1 s2 count,
  fuseserver_write 2 name_a 1 2 (mkYfs s ∅) = Ret (mkYfs s1 ∅, fuse_reply_write count) /\
  1 < count /\
  fuseserver_read 2 1 2 (mkYfs s1 ∅) = Ret (mkYfs s2 ∅, fuse_reply_buf name_a).
Proof.
  destruct demo_a as (s & Hwf & _ & Hf & Hr).
  destruct (fuse_write_read (mkYfs s ∅) 2 extent_protocol.T_FILE [] name_a 2)
    as (s1 & s2 & n & E1 & Hn & Hle & _ & E2);
    [exact Hwf|apply not_elem_of_empty|exact Hf|split; [discriminate|reflexivity]|reflexivity
    |discriminate|cbn [ys]; rewrite Hr; discriminate|].
  exists s, s1, s2, n. split; [exact E1|]. split; [|exact E2].
  cbn in Hn, Hle. lia.
Defined.

Lemma fuse_readdir_page_witness : exists s s',
  fuseserver_readdir 0 1 4096 0 (mkYfs s ∅) =
    Ret (mkYfs s' ∅, fuse_reply_buf (take 4096 (listing 0 [(name_a, 2)]))) /\ same s s'.
Proof.
  destruct demo_a as (s & Hwf & Hd & _). exists s.
  apply (fuse_readdir_page 0 (mkYfs s ∅) 1 [] [(name_a, 2)] 4096);
    [exact Hwf|apply not_elem_of_empty|exact Hd|reflexivity].
Defined.

(** The file system with a directory "a", inode 2, that has a file "a". *)
Lemma demo_nested : exists s, ec_wf s /\ is_dir s 1 [(name_a, 2)] /\ is_dir s 2 [(name_a, 3)].
Proof.
  destruct (mkdir_spec 0 demo_yfs 1 [] name_a 2 0) as (s & _ & Hwf & Hd & Hf & Hj & Hr);
    [apply demo_wf|apply demo_unlocked|apply demo_is_dir|apply name_a_ok|reflexivity
    |apply demo_first_free|apply demo_fits|].
  cbn [demo_yfs ys] in Hr, Hj. rewrite demo_room in Hr.
  change (block_count (Z.of_nat (length (dir_encode ([] ++ [(name_a, 2)]))))) with 1 in Hr.
  change (block_count (Z.of_nat (length []))) with 0 in Hr.
  change (blocks_for (Z.of_nat (length (dir_encode [])))) with 0 in Hr.
  destruct (create_spec 0 (mkYfs s ∅) 2 [] name_a 3 0) as (s' & _ & Hwf' & Hd' & _ & Hj' & _);
    [exact Hwf|apply not_elem_of_empty|split; [exact Hf|constructor]|apply name_a_ok|reflexivity| | |].
  - split; [split; [discriminate|reflexivity]|]. cbn [ys]. split.
    + rewrite Hj by discriminate. apply demo_none. discriminate.
    + intros j Hlt. assert (j = 1 \/ j = 2) as [-> | ->] by lia; [|rewrite Hf; discriminate].
      destruct Hd as [Hd _]. rewrite Hd. discriminate.
  - split; [discriminate|]. cbn [ys]. change (block_count _) with 1.
    change (blocks_for _) with 0. lia.
  - exists s'. split; [exact Hwf'|]. split; [|exact Hd']. split; [|apply Hd].
    cbn [ys] in Hj'. rewrite Hj' by discriminate. apply Hd.
Qed.

Lemma fuse_unlink_directory_witness : exists s s',
  is_dir s 2 [(name_a, 3)] /\
  fuseserver_unlink 0 1 name_a (mkYfs s ∅) = Ret (mkYfs s' ∅, fuse_reply_err 0) /\
  is_dir s' 1 [] /\ ec_file s' 2 = None.
Proof.
  destruct demo_nested as (s & Hwf & Hd & Hd2).
  destruct (fuse_unlink_directory 0 (mkYfs s ∅) 1 [] [] name_a 2 [(name_a, 3)])
    as (s' & E1 & Hd' & Hf');
    [exact Hwf|apply not_elem_of_empty|apply not_elem_of_empty|discriminate|exact Hd|apply name_a_ok
    |reflexivity|reflexivity|discriminate|exact Hd2|discriminate|].
  exists s, s'. exact (conj Hd2 (conj E1 (conj Hd' Hf'))).
Defined.
