(* ===== verification/LockServer.v ===== *)
(** * The lock server without caching

    [lock_server] of lock_server.cc: [acquire] waits on a condition variable
    until the lock is free.  A handler holds the server's mutex except while
    it waits, so each pass of a handler under the mutex is one step. *)

From S2P Require Import Prelude Protocol.

Module lock_server.

(** [struct lock_config] *)
Record lock_config : Type := mkConfig { lock_status : bool; lock_owner : Z }.

(** The map of locks and the number of locks held ([nacquire] is an [int], and
    cannot overflow before 2^31 locks are held at once). *)
Record server : Type := mkServer { lock_map : gmap Z lock_config; nacquire : Z }.

Definition init : server := mkServer ∅ 0.

Definition stat (s : server) (clt lid : Z) : Z * Z := (lock_protocol.OK, nacquire s).

(** One pass of [acquire] under the mutex: [None] when the lock is held and
    the handler waits; else the new state, the status and [r]. *)
Definition acquire (s : server) (clt lid r : Z) : option (server * (Z * Z)) :=
  if clt <? 0 then Some (s, (lock_protocol.RPCERR, r))
  else
    let grant := mkServer (<[lid := mkConfig true clt]> (lock_map s)) (nacquire s + 1) in
    match lock_map s !! lid with
    | Some cfg => if lock_status cfg then None else Some (grant, (lock_protocol.OK, sint 32 lid))
    | None => Some (grant, (lock_protocol.OK, sint 32 lid))
    end.

(** [release]: the new state, the status and [r], and whether a waiting
    handler is signalled.  The owner is not compared with the caller. *)
Definition release (s : server) (clt lid r : Z) : server * (Z * Z) * bool :=
  if clt <? 0 then (s, (lock_protocol.RPCERR, r), false)
  else
    match lock_map s !! lid with
    | Some cfg =>
        if lock_status cfg then
          (mkServer (<[lid := mkConfig false (lock_owner cfg)]> (lock_map s)) (nacquire s - 1),
           (lock_protocol.OK, sint 32 lid), true)
        else (s, (lock_protocol.RETRY, sint 32 lid), true)
    | None => (s, (lock_protocol.NOENT, sint 32 lid), true)
    end.

(* ------------------------------------------------------------------ *)
(** ** The system: handlers of many clients *)

(** A handler of [acquire] that is about to lock the mutex, or waits on the
    condition variable; a handler of [release] that has unlocked the mutex and is
    about to signal. *)
Inductive handler : Type :=
| Entering (clt lid : Z)
| Waiting (clt lid : Z)
| Signalling.

(** The server, its active handlers, and the grants: a client and a lock for
    every [acquire] that returned [OK] and was not released. *)
Record sys : Type := mkSys {
  srv : server;
  handlers : gmap nat handler;
  holds : list (Z * Z)
}.

Definition sys_init : sys := mkSys init ∅ [].

(** A client calls [acquire]; a handler of [acquire] runs one pass; a handler of
    [release], called by a client that has a grant, runs to the unlock, and later
    signals one waiting handler, if any; a wait ends without a signal. *)
Inductive event : Type :=
| Call (t : nat) (clt lid : Z)
| Pass (t : nat)
| Release (t : nat) (clt lid : Z)
| Signal (t : nat) (wake : option nat)
| Spurious (t : nat).

(** Only waiting handlers can be woken; none is only when none waits. *)
Definition wake_ok (hs : gmap nat handler) (wake : option nat) : bool :=
  match wake with
  | Some t => match hs !! t with Some (Waiting _ _) => true | _ => false end
  | None => forallb (fun p => match p.2 with Waiting _ _ => false | _ => true end) (map_to_list hs)
  end.

(** A handler that wakes up locks the mutex and looks at the lock again. *)
Definition do_wake (hs : gmap nat handler) (t : nat) : gmap nat handler :=
  match hs !! t with
  | Some (Waiting clt lid) => <[t := Entering clt lid]> hs
  | _ => hs
  end.

(** A grant is given back. *)
Fixpoint remove_grant (g : Z * Z) (gs : list (Z * Z)) : option (list (Z * Z)) :=
  match gs with
  | [] => None
  | g' :: gs => if decide (g' = g) then Some gs else cons g' <$> remove_grant g gs
  end.

Definition exec (e : event) (s : sys) : option sys :=
  match e with
  | Call t clt lid =>
      match handlers s !! t with
      | None => Some (mkSys (srv s) (<[t := Entering clt lid]> (handlers s)) (holds s))
      | Some _ => None
      end
  | Pass t =>
      match handlers s !! t with
      | Some (Entering clt lid) =>
          match acquire (srv s) clt lid 0 with
          | Some (srv', (st, _)) =>
              Some (mkSys srv' (delete t (handlers s))
                (if st =? lock_protocol.OK then (clt, lid) :: holds s else holds s))
          | None => Some (mkSys (srv s) (<[t := Waiting clt lid]> (handlers s)) (holds s))
          end
      | _ => None
      end
  | Release t clt lid =>
      match handlers s !! t, remove_grant (clt, lid) (holds s) with
      | None, Some rest =>
          let '(srv', (st, _), signal) := release (srv s) clt lid 0 in
          Some (mkSys srv' (if signal : bool then <[t := Signalling]> (handlers s) else handlers s)
            (if st =? lock_protocol.OK then rest else holds s))
      | _, _ => None
      end
  | Signal t wake =>
      match handlers s !! t with
      | Some Signalling =>
          if wake_ok (handlers s) wake then
            let hs := delete t (handlers s) in
            Some (mkSys (srv s) (match wake with Some t' => do_wake hs t' | None => hs end) (holds s))
          else None
      | _ => None
      end
  | Spurious t =>
      match handlers s !! t with
      | Some (Waiting _ _) => Some (mkSys (srv s) (do_wake (handlers s) t) (holds s))
      | _ => None
      end
  end.

Fixpoint run (es : list event) (s : sys) : option sys :=
  match es with
  | [] => Some s
  | e :: es => exec e s ≫= run es
  end.

Inductive reachable : sys -> Prop :=
| reach_init : reachable sys_init
| reach_step s s' e : reachable s -> exec e s = Some s' -> reachable s'.

(* ------------------------------------------------------------------ *)
(** ** Mutual exclusion *)









Lemma server_run_reachable es s s' : reachable s -> run es s = Some s' -> reachable s'.
Proof.
  revert s. induction es as [|e es IH]; intros s Hr; cbn [run]; [by intros [= <-]|].
  destruct (exec e s) as [s1|] eqn:E; [|discriminate]. cbn. apply IH. by eapply reach_step.
Qed.




(** C40. A wake-up can be lost: all locks share one condition variable, and a
    release signals one waiting handler of any lock.  There is a reachable
    state in which lock 1 is free, a handler waits for lock 1, and no handler
    is about to run or to signal: only a call from outside, or a wake-up without
    signal, can end the wait. *)
Theorem lock_server_lost_wakeup : exists s, reachable s /\
  (exists cfg, lock_map (srv s) !! 1 = Some cfg /\ lock_status cfg = false) /\
  handlers s !! 2%nat = Some (Waiting 3 1) /\
  (forall t clt lid, handlers s !! t <> Some (Entering clt lid)) /\
  (forall t, handlers s !! t <> Some Signalling).
Proof.
  destruct (run [Call 0 1 1; Pass 0; Call 1 2 2; Pass 1; Call 2 3 1; Pass 2; Call 3 4 2; Pass 3;
                 Release 4 1 1; Signal 4 (Some 3%nat); Pass 3] sys_init) as [s|] eqn:E;
    [|vm_compute in E; discriminate E].
  exists s. split; [eapply server_run_reachable; [apply reach_init|exact E]|].
  vm_compute in E. injection E as <-. split; [eexists; split; reflexivity|]. split; [reflexivity|].
  split; [intros t clt lid Hx%elem_of_map_to_list|intros t Hx%elem_of_map_to_list];
    change (map_to_list _) with [(2%nat, Waiting 3 1); (3%nat, Waiting 4 2)] in Hx;
    (apply elem_of_cons in Hx as [Hx|[Hx|Hx%elem_of_nil]%elem_of_cons]; [discriminate..|done]).
Qed.
End lock_server.
