(* ===== verification/LockCache.v ===== *)
(** * The caching lock protocol

    [lock_client_cache] (lock_client_cache.cc) and [lock_server_cache]
    (lock_server_cache.cc) for one lock: locks with different numbers share
    no state.  Clients keep a lock after a release until the server revokes
    it.  The state of a system is the server's record of the lock, the
    record of every client, and the program counters of all threads: those
    that acquire and release the lock, and those that run revoke handlers.
    A step is what a thread does between two releases of a mutex or two
    remote calls; and a remote call can fail, before, while or after its
    handler runs. *)

From S2P Require Import Prelude.

(* ------------------------------------------------------------------ *)
(** ** The records of client and server *)

(** [enum client_state] *)
Inductive client_state : Type := NONE | FREE | LOCKED | ACQUIRING | RELEASING.

#[export] Instance client_state_eq : EqDecision client_state.
Proof. solve_decision. Defined.

(** [struct lock_property] of the client. *)
Record client : Type := mkClient { state : client_state; revoke : bool; retry : bool }.

(** [struct lock_property] of the server; clients are numbered in the order of
    their identifying strings, and [None] is the empty owner. *)
Record server : Type := mkServer {
  s_state : bool; s_owner : option Z; s_wait : gset Z; s_revoke : bool
}.

Definition server_init : server := mkServer false None ∅ false.

(** The first element of a std::set. *)
Definition set_begin (s : gset Z) : option Z :=
  match elements s with
  | [] => None
  | x :: l => Some (foldr Z.min x l)
  end.

(* ------------------------------------------------------------------ *)
(** ** Threads *)

(** What the remote [acquire] returns: the server's status, or an error of the
    call itself. *)
Inductive reply : Type := OK | RETRY | FAILED.

(** Where a thread is.  [Acq..] are the places of [acquire], with the handler
    of the server it called; [Rel..] those of [release] or, in a revoke
    handler, of the release the handler sends; [Rev..] those of a revoke
    handler.  A call of [acquire] is [gone] when its caller has been told that it
    failed: the request may still reach the server, and its reply nobody. *)
Inductive pc : Type :=
| AcqLoop                             (* at the head of the while loop *)
| AcqCall (gone : bool)               (* acquire sent to the server *)
| AcqBusy (gone : bool)               (* server: busy, about to read the owner *)
| AcqRevoking (gone : bool) (h : nat) (* server: waits for the revoke handler [h] *)
| AcqReply (gone : bool) (r : reply)  (* the reply *)
| AcqRetry                 (* waits for the retry flag *)
| AcqWait                  (* waits on the condition variable *)
| Holding                  (* acquire has returned *)
| RelCall                  (* release sent to the server *)
| RelRetry (w : Z)         (* server: about to send retry to [w] *)
| RelRevoke (w : Z)        (* server: about to send revoke to [w] *)
| RelRevoking (h : nat)    (* server: waits for the revoke handler [h] *)
| RelReply                 (* the reply to release *)
| RevRun                   (* a revoke handler about to run *)
| RevDone.                 (* a revoke handler that has returned *)

(** A thread of a client; [handler] for a revoke handler. *)
Record thread : Type := mkThread { at_ : pc; cl : Z; handler : bool }.

(** The whole system; [mutex] is the thread whose call of the server's release
    keeps the mutex of the lock while it calls clients. *)
Record sys : Type := mkSys {
  srv : server; clients : gmap Z client; threads : gmap nat thread; mutex : option nat
}.

Definition sys_init : sys := mkSys server_init ∅ ∅ None.

(** What a step leads to: a new state, a failed [VERIFY], or that the server asks
    for the connection to the empty name, where the model ends: what
    [make_sockaddr] and [bind] make of it is not in these sources. *)
Inductive result : Type :=
| Ok (s : sys)
| Crash
| EmptyName.

(** [pthread_cond_broadcast] on the condition variable of client [c]. *)
Definition wake (c : Z) (th : thread) : thread :=
  match at_ th with
  | AcqWait => if decide (cl th = c) then mkThread AcqLoop (cl th) (handler th) else th
  | _ => th
  end.

Definition broadcast (c : Z) (ts : gmap nat thread) : gmap nat thread := wake c <$> ts.

Definition set_at (t : nat) (th : thread) (p : pc) (ts : gmap nat thread) : gmap nat thread :=
  <[t := mkThread p (cl th) (handler th)]> ts.

(* ------------------------------------------------------------------ *)
(** ** lock_client_cache *)

(** [acquire]: the record of the lock is created on the first use. *)
Definition start (s : sys) (t : nat) (c : Z) : option result :=
  match threads s !! t with
  | Some _ => None
  | None =>
      let cs := match clients s !! c with
                | Some _ => clients s
                | None => <[c := mkClient NONE false false]> (clients s)
                end in
      Some (Ok (mkSys (srv s) cs (<[t := mkThread AcqLoop c false]> (threads s)) (mutex s)))
  end.

(** One iteration of the while loop of [acquire] up to a call or a wait. *)
Definition acq_loop (s : sys) (t : nat) (th : thread) (k : client) : option result :=
  match state k with
  | NONE =>
      Some (Ok (mkSys (srv s) (<[cl th := mkClient ACQUIRING (revoke k) (retry k)]> (clients s))
                  (set_at t th (AcqCall false) (threads s)) (mutex s)))
  | FREE =>
      Some (Ok (mkSys (srv s) (<[cl th := mkClient LOCKED (revoke k) (retry k)]> (clients s))
                  (set_at t th Holding (threads s)) (mutex s)))
  | LOCKED | ACQUIRING | RELEASING =>
      Some (Ok (mkSys (srv s) (clients s) (set_at t th AcqWait (threads s)) (mutex s)))
  end.

(** The reply to the remote [acquire]: after an error the loop goes on with the
    record ACQUIRING. *)
Definition acq_reply (s : sys) (t : nat) (th : thread) (k : client) (r : reply) : option result :=
  match r with
  | OK =>
      Some (Ok (mkSys (srv s) (<[cl th := mkClient LOCKED (revoke k) (retry k)]> (clients s))
                  (set_at t th Holding (threads s)) (mutex s)))
  | RETRY => Some (Ok (mkSys (srv s) (clients s) (set_at t th AcqRetry (threads s)) (mutex s)))
  | FAILED => Some (Ok (mkSys (srv s) (clients s) (set_at t th AcqLoop (threads s)) (mutex s)))
  end.

(** The end of the wait for the retry flag; the loop goes on under the same
    mutex. *)
Definition acq_retry (s : sys) (t : nat) (th : thread) (k : client) : option result :=
  if retry k then
    let k := mkClient NONE (revoke k) false in
    acq_loop (mkSys (srv s) (<[cl th := k]> (clients s)) (broadcast (cl th) (threads s)) (mutex s))
      t th k
  else None.

(** [release] *)
Definition rel_start (s : sys) (t : nat) (th : thread) (k : client) : option result :=
  match state k with
  | LOCKED =>
      if revoke k then
        Some (Ok (mkSys (srv s) (<[cl th := mkClient RELEASING false (retry k)]> (clients s))
                    (set_at t th RelCall (threads s)) (mutex s)))
      else
        Some (Ok (mkSys (srv s) (<[cl th := mkClient FREE false (retry k)]> (clients s))
                    (broadcast (cl th) (delete t (threads s))) (mutex s)))
  | _ => Some Crash
  end.

(** The reply to the remote [release], in [release] and in [revoke_handler]. *)
Definition rel_reply (s : sys) (t : nat) (th : thread) (k : client) : option result :=
  Some (Ok (mkSys (srv s) (<[cl th := mkClient NONE (revoke k) (retry k)]> (clients s))
              (broadcast (cl th)
                 (if handler th then set_at t th RevDone (threads s) else delete t (threads s)))
              (mutex s))).

(** [revoke_handler] up to its call of the server. *)
Definition rev_run (s : sys) (t : nat) (th : thread) (k : client) : option result :=
  match state k with
  | FREE =>
      Some (Ok (mkSys (srv s) (<[cl th := mkClient RELEASING (revoke k) (retry k)]> (clients s))
                  (set_at t th RelCall (threads s)) (mutex s)))
  | _ =>
      Some (Ok (mkSys (srv s) (<[cl th := mkClient (state k) true (retry k)]> (clients s))
                  (broadcast (cl th) (set_at t th RevDone (threads s))) (mutex s)))
  end.

(** [retry_handler], called by the server's [release]. *)
Definition retry_handler (s : sys) (w : Z) (k : client) : sys :=
  if retry k then s
  else mkSys (srv s) (<[w := mkClient (state k) (revoke k) true]> (clients s))
         (broadcast w (threads s)) (mutex s).

(* ------------------------------------------------------------------ *)
(** ** lock_server_cache *)

(** [acquire] under the mutex of the lock. *)
Definition srv_acquire (s : sys) (t : nat) (th : thread) (gone : bool) : option result :=
  let v := srv s in
  match mutex s with
  | Some _ => None
  | None =>
      if negb (s_state v) then
        Some (Ok (mkSys (mkServer true (Some (cl th)) (s_wait v ∖ {[cl th]}) false) (clients s)
                    (set_at t th (AcqReply gone OK) (threads s)) (mutex s)))
      else
        let wait := {[cl th]} ∪ s_wait v in
        if s_revoke v then
          Some (Ok (mkSys (mkServer true (s_owner v) wait true) (clients s)
                      (set_at t th (AcqReply gone RETRY) (threads s)) (mutex s)))
        else
          Some (Ok (mkSys (mkServer true (s_owner v) wait true) (clients s)
                      (set_at t th (AcqBusy gone) (threads s)) (mutex s)))
  end.

(** After the mutex is released: the owner is read, a handle of that name is
    bound, and a revoke sent. *)
Definition srv_owner (s : sys) (t : nat) (th : thread) (gone : bool) (h : nat) : option result :=
  match threads s !! h with
  | Some _ => None
  | None =>
      match s_owner (srv s) with
      | None => Some EmptyName
      | Some o =>
          Some (Ok (mkSys (srv s) (clients s)
                      (<[h := mkThread RevRun o true]> (set_at t th (AcqRevoking gone h) (threads s)))
                      (mutex s)))
      end
  end.

(** The revoke handler of thread [h] has returned. *)
Definition srv_joined (s : sys) (t : nat) (th : thread) (gone : bool) (h : nat) : option result :=
  match threads s !! h with
  | Some (mkThread RevDone _ _) =>
      Some (Ok (mkSys (srv s) (clients s)
                  (delete h (set_at t th (AcqReply gone RETRY) (threads s))) (mutex s)))
  | _ => None
  end.

(** [release] up to the call of the first waiting client. *)
Definition srv_release (s : sys) (t : nat) (th : thread) : option result :=
  match mutex s with
  | Some _ => None
  | None =>
      let v := mkServer false None (s_wait (srv s)) false in
      match set_begin (s_wait (srv s)) with
      | None => Some (Ok (mkSys v (clients s) (set_at t th RelReply (threads s)) None))
      | Some w => Some (Ok (mkSys v (clients s) (set_at t th (RelRetry w) (threads s)) (Some t)))
      end
  end.

(** The retry sent to client [w]; a revoke follows when others wait, too. *)
Definition srv_retry (s : sys) (t : nat) (th : thread) (w : Z) : option result :=
  match clients s !! w with
  | None => Some Crash
  | Some k =>
      let s := retry_handler s w k in
      let next := if (1 <? size (s_wait (srv s)))%nat then RelRevoke w else RelReply in
      Some (Ok (mkSys (srv s) (clients s) (set_at t th next (threads s))
                  (if (1 <? size (s_wait (srv s)))%nat then mutex s else None)))
  end.

Definition srv_revoke (s : sys) (t : nat) (th : thread) (w : Z) (h : nat) : option result :=
  match threads s !! h with
  | Some _ => None
  | None =>
      Some (Ok (mkSys (srv s) (clients s)
                  (<[h := mkThread RevRun w true]> (set_at t th (RelRevoking h) (threads s)))
                  (mutex s)))
  end.

Definition srv_rejoined (s : sys) (t : nat) (th : thread) (h : nat) : option result :=
  match threads s !! h with
  | Some (mkThread RevDone _ _) =>
      Some (Ok (mkSys (srv s) (clients s) (delete h (set_at t th RelReply (threads s))) None))
  | _ => None
  end.

(* ------------------------------------------------------------------ *)
(** ** Steps *)

(** The remote call that thread [t] is in fails.  An [acquire] of a client
    returns the error, and the server goes on with the call as thread [d].  Every
    other failed call ends in a [VERIFY(0)]: the [release] of a client, and the
    revoke or retry of the server, in the server or, for the revoke of [release],
    in the client that gets its status. *)
Definition fail (s : sys) (t d : nat) (th : thread) : option result :=
  let lose p :=
    match threads s !! d with
    | Some _ => None
    | None =>
        Some (Ok (mkSys (srv s) (clients s)
                    (<[d := mkThread p (cl th) false]> (set_at t th (AcqReply false FAILED) (threads s)))
                    (mutex s)))
    end in
  match at_ th with
  | AcqCall false => lose (AcqCall true)
  | AcqBusy false => lose (AcqBusy true)
  | AcqRevoking false h => lose (AcqRevoking true h)
  | AcqReply false OK => lose (AcqReply true OK)
  | AcqReply false RETRY => lose (AcqReply true RETRY)
  | RelCall | RelRetry _ | RelRevoke _ | RelRevoking _ | RelReply | RevRun | RevDone => Some Crash
  | _ => None
  end.

(** Thread [t] of client [c] calls [acquire]; thread [t] makes its next step,
    where [h] is the number of the handler it may start; or the remote call of
    thread [t] fails. *)
Inductive event : Type :=
| Start (t : nat) (c : Z)
| Step (t h : nat)
| Fails (t d : nat).

Definition exec (e : event) (s : sys) : option result :=
  match e with
  | Start t c => start s t c
  | Step t h =>
      match threads s !! t with
      | None => None
      | Some th =>
          match clients s !! cl th with
          | None => match at_ th with RevRun => Some Crash | _ => None end
          | Some k =>
              match at_ th with
              | AcqLoop => acq_loop s t th k
              | AcqCall gone => srv_acquire s t th gone
              | AcqBusy gone => srv_owner s t th gone h
              | AcqRevoking gone h => srv_joined s t th gone h
              | AcqReply false r => acq_reply s t th k r
              | AcqReply true _ => None
              | AcqRetry => acq_retry s t th k
              | AcqWait =>  (* a wait may end without a broadcast *)
                  Some (Ok (mkSys (srv s) (clients s) (set_at t th AcqLoop (threads s)) (mutex s)))
              | Holding => rel_start s t th k
              | RelCall => srv_release s t th
              | RelRetry w => srv_retry s t th w
              | RelRevoke w => srv_revoke s t th w h
              | RelRevoking h => srv_rejoined s t th h
              | RelReply => rel_reply s t th k
              | RevRun => rev_run s t th k
              | RevDone => None
              end
          end
      end
  | Fails t d =>
      match threads s !! t with
      | None => None
      | Some th => fail s t d th
      end
  end.

Inductive reachable : sys -> Prop :=
| reach_init : reachable sys_init
| reach_step s s' e : reachable s -> exec e s = Some (Ok s') -> reachable s'.

Fixpoint run (es : list event) (s : sys) : option sys :=
  match es with
  | [] => Some s
  | e :: es => match exec e s with Some (Ok s') => run es s' | _ => None end
  end.

Lemma run_reachable es s s' : reachable s -> run es s = Some s' -> reachable s'.
Proof.
  revert s. induction es as [|e es IH]; intros s Hr; cbn [run]; [by intros [= <-]|].
  destruct (exec e s) as [[s1| |]|] eqn:E; try discriminate. apply IH. by eapply reach_step.
Qed.
