(* ===== verification/LockCacheFacts.v ===== *)
(** * Safety of the caching lock protocol

    Mutual exclusion by an invariant of all reachable states: the server's
    lock is taken exactly when one thread or one client has the token, the
    state of a client is that of the one thread of it that acquires, holds
    or releases the lock. *)

From S2P Require Import Prelude LockCache.

(** The client state that goes with the place of a thread; none for a call that
    is gone. *)
Definition phase (p : pc) : option client_state :=
  match p with
  | AcqCall false | AcqBusy false | AcqRevoking false _ | AcqReply false _ | AcqRetry => Some ACQUIRING
  | Holding => Some LOCKED
  | RelCall | RelRetry _ | RelRevoke _ | RelRevoking _ | RelReply => Some RELEASING
  | AcqCall true | AcqBusy true | AcqRevoking true _ | AcqReply true _ => None
  | AcqLoop | AcqWait | RevRun | RevDone => None
  end.

Lemma phase_busy p st : phase p = Some st -> st <> NONE /\ st <> FREE.
Proof. by destruct p as [|[]|[]|[]|[]| | | | | | | | | |]; intros [= <-]. Qed.

(** The places where a thread has the lock as the server sees it. *)
Definition token (p : pc) : bool :=
  match p with
  | AcqReply _ OK | Holding | RelCall => true
  | _ => false
  end.

(** The token is with thread [inl t], or cached by client [inr c]. *)
Definition has (cs : gmap Z client) (ts : gmap nat thread) (p : nat + Z) : Prop :=
  match p with
  | inl t => exists th, ts !! t = Some th /\ token (at_ th) = true
  | inr c => exists k, cs !! c = Some k /\ state k = FREE
  end.

Record inv (cs : gmap Z client) (ts : gmap nat thread) (taken : bool) : Prop := {
  i_dom : forall t th, ts !! t = Some th -> is_Some (cs !! cl th);
  i_phase : forall t th k st, ts !! t = Some th -> phase (at_ th) = Some st ->
    cs !! cl th = Some k -> state k = st;
  i_uniq : forall t t' th th', ts !! t = Some th -> ts !! t' = Some th' ->
    phase (at_ th) <> None -> phase (at_ th') <> None -> cl th = cl th' -> t = t';
  i_tok : forall p p', has cs ts p -> has cs ts p' -> p = p';
  i_on : forall p, has cs ts p -> taken = true;
  i_off : taken = true -> exists p, has cs ts p;
}.

Lemma inv_init : inv ∅ ∅ false.
Proof.
  split.
  - intros t th H. by rewrite lookup_empty in H.
  - intros t th k st H. by rewrite lookup_empty in H.
  - intros t t' th th' H. by rewrite lookup_empty in H.
  - intros [t|c] p' (x & H & _); by rewrite lookup_empty in H.
  - intros [t|c] (x & H & _); by rewrite lookup_empty in H.
  - discriminate.
Qed.

(* ------------------------------------------------------------------ *)
(** ** Broadcasts and threads without a part in the protocol *)

Lemma wake_cl c th : cl (wake c th) = cl th.
Proof. unfold wake. destruct (at_ th); try done. by destruct (decide (cl th = c)). Qed.

Lemma wake_phase c th : phase (at_ (wake c th)) = phase (at_ th).
Proof.
  unfold wake. destruct (at_ th) eqn:E; rewrite ?E; try done.
  destruct (decide (cl th = c)); [done|by rewrite E].
Qed.

Lemma wake_token c th : token (at_ (wake c th)) = token (at_ th).
Proof.
  unfold wake. destruct (at_ th) eqn:E; rewrite ?E; try done.
  destruct (decide (cl th = c)); [done|by rewrite E].
Qed.

Lemma broadcast_lookup c ts t th : broadcast c ts !! t = Some th ->
  exists th0, ts !! t = Some th0 /\ th = wake c th0.
Proof.
  unfold broadcast. rewrite lookup_fmap. destruct (ts !! t) as [th0|]; [|discriminate].
  intros [= <-]. eauto.
Qed.

Lemma broadcast_has c cs ts p : has cs (broadcast c ts) p <-> has cs ts p.
Proof.
  destruct p as [t|c']; [|done]. cbn [has]. split.
  - intros (th & (th0 & Ht & ->)%broadcast_lookup & Htok). rewrite wake_token in Htok. eauto.
  - intros (th & Ht & Htok). exists (wake c th). unfold broadcast.
    by rewrite lookup_fmap, Ht, wake_token.
Qed.

Lemma inv_broadcast c cs ts b : inv cs ts b -> inv cs (broadcast c ts) b.
Proof.
  intros []. split.
  - intros t th (th0 & Ht & ->)%broadcast_lookup. rewrite wake_cl. by eapply i_dom0.
  - intros t th k st (th0 & Ht & ->)%broadcast_lookup. rewrite wake_phase, wake_cl. by eapply i_phase0.
  - intros t t' th th' (x & Ht & ->)%broadcast_lookup (x' & Ht' & ->)%broadcast_lookup.
    rewrite !wake_phase, !wake_cl. by eapply i_uniq0.
  - intros p p'. rewrite !broadcast_has. apply i_tok0.
  - intros p. rewrite broadcast_has. apply i_on0.
  - intros Hb. destruct (i_off0 Hb) as [p Hp]. exists p. by apply broadcast_has.
Qed.

(** Removing or adding a thread that is outside the protocol. *)
Lemma inv_delete cs ts b t th : inv cs ts b -> ts !! t = Some th ->
  token (at_ th) = false -> inv cs (delete t ts) b.
Proof.
  intros [] Ht Htok. split.
  - intros t' th' [_ H]%lookup_delete_Some. by eapply i_dom0.
  - intros t' th' k st [_ H]%lookup_delete_Some. by eapply i_phase0.
  - intros t1 t2 th1 th2 [_ H1]%lookup_delete_Some [_ H2]%lookup_delete_Some. by eapply i_uniq0.
  - intros p p' Hp Hp'. apply i_tok0; [destruct p|destruct p']; try done;
      [destruct Hp as (x & [_ Hx]%lookup_delete_Some & ?)
      |destruct Hp' as (x & [_ Hx]%lookup_delete_Some & ?)]; by exists x.
  - intros p Hp. apply (i_on0 p). destruct p; [|done].
    destruct Hp as (x & [_ Hx]%lookup_delete_Some & ?); by exists x.
  - intros Hb. destruct (i_off0 Hb) as [p Hp]. exists p. destruct p as [t'|]; [|done].
    destruct Hp as (x & Hx & Hxt). exists x. split; [|done].
    rewrite lookup_delete_ne; [done|]. intros ->. congruence.
Qed.

Lemma inv_add cs ts b t th : inv cs ts b -> ts !! t = None -> phase (at_ th) = None ->
  token (at_ th) = false -> is_Some (cs !! cl th) -> inv cs (<[t := th]> ts) b.
Proof.
  intros [] Ht Hph Htok Hc. split.
  - intros t' th' [[_ <-]|[_ H]]%lookup_insert_Some; [done|by eapply i_dom0].
  - intros t' th' k st [[_ <-]|[_ H]]%lookup_insert_Some; [congruence|by eapply i_phase0].
  - intros t1 t2 th1 th2 [[_ <-]|[_ H1]]%lookup_insert_Some [[_ <-]|[_ H2]]%lookup_insert_Some;
      try congruence. by eapply i_uniq0.
  - intros p p' Hp Hp'. apply i_tok0; [destruct p|destruct p']; try done;
      [destruct Hp as (x & [[_ <-]|[_ Hx]]%lookup_insert_Some & ?)
      |destruct Hp' as (x & [[_ <-]|[_ Hx]]%lookup_insert_Some & ?)]; try congruence; by exists x.
  - intros p Hp. apply (i_on0 p). destruct p; [|done].
    destruct Hp as (x & [[_ <-]|[_ Hx]]%lookup_insert_Some & ?); [congruence|by exists x].
  - intros Hb. destruct (i_off0 Hb) as [p Hp]. exists p. destruct p as [t'|]; [|done].
    destruct Hp as (x & Hx & Hxt). exists x. split; [|done].
    rewrite lookup_insert_ne; [done|]. intros ->. congruence.
Qed.

(** A new client record. *)
Lemma inv_client cs ts b c : inv cs ts b -> cs !! c = None ->
  inv (<[c := mkClient NONE false false]> cs) ts b.
Proof.
  intros [] Hc.
  assert (forall p, has (<[c := mkClient NONE false false]> cs) ts p <-> has cs ts p) as Hhas.
  { intros [t|c']; [done|]. cbn [has]. split.
    - intros (k & [[_ <-]|[_ H]]%lookup_insert_Some & Hk); [done|by exists k].
    - intros (k & H & Hk). exists k. rewrite lookup_insert_ne by congruence. done. }
  split.
  - intros t th H. destruct (decide (c = cl th)) as [->|]; [by rewrite lookup_insert_eq|].
    rewrite lookup_insert_ne by done. by eapply i_dom0.
  - intros t th k st Ht Hp [[-> <-]|[_ H]]%lookup_insert_Some; [|by eapply i_phase0].
    destruct (i_dom0 t th Ht). congruence.
  - done.
  - intros p p'. rewrite !Hhas. apply i_tok0.
  - intros p. rewrite Hhas. apply i_on0.
  - intros Hb. destruct (i_off0 Hb) as [p Hp]. exists p. by apply Hhas.
Qed.

(* ------------------------------------------------------------------ *)
(** ** A step of a thread and of its client *)

Section update.
Context (cs : gmap Z client) (ts : gmap nat thread) (b : bool) (Hinv : inv cs ts b).
Context (t : nat) (th : thread) (k : client) (Ht : ts !! t = Some th) (Hk : cs !! cl th = Some k).
Context (p' : pc) (k' : client) (b' : bool).
#[local] Abbreviation cs' := (<[cl th := k']> cs).
#[local] Abbreviation ts' := (<[t := mkThread p' (cl th) (handler th)]> ts).

(** Whether the thread and its client have the token, before and after. *)
#[local] Abbreviation old := (token (at_ th) || bool_decide (state k = FREE)).
#[local] Abbreviation new := (token p' || bool_decide (state k' = FREE)).

Context (Hphase : forall st, phase p' = Some st -> state k' = st).
Context (Hexcl : phase (at_ th) <> None \/ state k = NONE \/ state k = FREE \/
  (state k' = state k /\ phase p' = None)).
Context (Hone : token p' && bool_decide (state k' = FREE) = false).
Context (Hb' : b' = new || (negb old && b)).
Context (Hnew : new = true -> old = true \/ b = false).

Lemma has_other p : p <> inl t -> p <> inr (cl th) -> has cs' ts' p <-> has cs ts p.
Proof using Type.
  destruct p as [t'|c]; intros H1 H2; cbn [has].
  - rewrite lookup_insert_ne by congruence. done.
  - rewrite lookup_insert_ne by congruence. done.
Qed.

Lemma has_old p : has cs ts p -> p = inl t \/ p = inr (cl th) -> old = true.
Proof using Ht Hk.
  intros Hp [->| ->]; destruct Hp as (x & Hx & Hs); apply orb_true_iff.
  - left. congruence.
  - right. apply bool_decide_true. congruence.
Qed.

Lemma old_has : old = true -> has cs ts (inl t) \/ has cs ts (inr (cl th)).
Proof using Ht Hk.
  intros [H|H%bool_decide_eq_true]%orb_true_iff; [left|right]; [by exists th|by exists k].
Qed.

Lemma has_new p : has cs' ts' p -> p = inl t \/ p = inr (cl th) -> new = true.
Proof using Type.
  intros Hp [->| ->]; destruct Hp as (x & Hx & Hs); rewrite lookup_insert_eq in Hx;
    injection Hx as <-; apply orb_true_iff; [by left|right; by apply bool_decide_true].
Qed.

(** Another token excludes the thread and its client. *)
Lemma other_token p : has cs ts p -> p <> inl t -> p <> inr (cl th) -> old = false /\ new = false.
Proof using Hinv Ht Hk Hnew.
  intros Hp H1 H2. assert (old = false) as Ho.
  { apply not_true_iff_false. intros [Ho|Ho]%old_has;
      [apply H1|apply H2]; by apply (i_tok _ _ _ Hinv). }
  split; [done|]. apply not_true_iff_false. intros Hn. destruct (Hnew Hn) as [?|Hb]; [congruence|].
  rewrite (i_on _ _ _ Hinv p Hp) in Hb. discriminate.
Qed.

(** Another thread of the client takes no part. *)
Lemma other_thread t' th' : ts !! t' = Some th' -> t' <> t -> cl th' = cl th ->
  phase (at_ th') <> None -> state k' = state k /\ phase p' = None.
Proof using Hinv Ht Hk Hexcl.
  intros Ht' Hne Hc Hp. destruct (phase (at_ th')) as [st|] eqn:Est; [|done].
  pose proof (i_phase _ _ _ Hinv t' th' k st Ht' Est ltac:(by rewrite Hc)) as Hst.
  destruct Hexcl as [Hx|[Hx|[Hx|?]]]; [|exfalso|exfalso|done].
  - destruct Hne. eapply (i_uniq _ _ _ Hinv); eauto. congruence.
  - destruct (phase_busy _ _ Est). congruence.
  - destruct (phase_busy _ _ Est). congruence.
Qed.

Lemma inv_update : inv cs' ts' b'.
Proof using Hinv Ht Hk Hphase Hexcl Hone Hb' Hnew.
  assert (forall p, has cs' ts' p -> (p = inl t \/ p = inr (cl th)) \/ (has cs ts p /\ p <> inl t /\ p <> inr (cl th)))
    as Hcase.
  { intros p Hp. destruct (decide (p = inl t)), (decide (p = inr (cl th))); auto.
    right. by rewrite has_other in Hp by done. }
  split.
  - intros t' th' [[_ <-]|[_ H]]%lookup_insert_Some.
    + cbn [cl]. by rewrite lookup_insert_eq.
    + destruct (decide (cl th = cl th')) as [->|]; [by rewrite lookup_insert_eq|].
      rewrite lookup_insert_ne by done. by eapply i_dom.
  - intros t' th' x st [[_ <-]|[Hne H]]%lookup_insert_Some Hp Hx.
    + cbn [cl at_] in *. rewrite lookup_insert_eq in Hx. injection Hx as <-. by apply Hphase.
    + apply lookup_insert_Some in Hx as [[Hc <-]|[_ Hx]]; [|by eapply i_phase].
      destruct (other_thread t' th') as [-> _]; [done|done|done|congruence|].
      eapply i_phase; [exact Hinv|done|done|congruence].
  - intros t1 t2 th1 th2 [[<- <-]|[Hn1 H1]]%lookup_insert_Some [[<- <-]|[Hn2 H2]]%lookup_insert_Some
      Hp1 Hp2 Hc; cbn [cl at_] in *; [done|..].
    + destruct (other_thread t2 th2) as [_ ?]; done.
    + destruct (other_thread t1 th1) as [_ ?]; done.
    + by eapply (i_uniq _ _ _ Hinv).
  - intros p p2 Hp Hp2. destruct (Hcase p Hp) as [Ha|(Ho & Hx & Hy)], (Hcase p2 Hp2) as [Ha2|(Ho2 & Hx2 & Hy2)].
    + destruct Ha as [->| ->], Ha2 as [->| ->]; try done; exfalso.
      * destruct Hp as (x & Hx & Hs), Hp2 as (x2 & Hx2 & Hs2). rewrite lookup_insert_eq in Hx.
        rewrite lookup_insert_eq in Hx2.
        injection Hx as <-. injection Hx2 as <-. cbn [at_] in Hs.
        rewrite Hs, bool_decide_true in Hone by done. discriminate.
      * destruct Hp2 as (x & Hx & Hs), Hp as (x2 & Hx2 & Hs2). rewrite lookup_insert_eq in Hx.
        rewrite lookup_insert_eq in Hx2.
        injection Hx as <-. injection Hx2 as <-. cbn [at_] in Hs.
        rewrite Hs, bool_decide_true in Hone by done. discriminate.
    + destruct (other_token p2) as [_ Hn]; [done..|]. rewrite (has_new p Hp Ha) in Hn. discriminate.
    + destruct (other_token p) as [_ Hn]; [done..|]. rewrite (has_new p2 Hp2 Ha2) in Hn. discriminate.
    + by apply (i_tok _ _ _ Hinv).
  - intros p Hp. rewrite Hb'. destruct (Hcase p Hp) as [Ha|(Ho & Hx & Hy)].
    + by rewrite (has_new p Hp Ha).
    + destruct (other_token p Ho Hx Hy) as [-> ->]. by apply (i_on _ _ _ Hinv p).
  - rewrite Hb'. intros [Hn|[Ho Hb]%andb_true_iff]%orb_true_iff.
    + apply orb_true_iff in Hn as [Hn|Hn%bool_decide_eq_true].
      * exists (inl t). eexists. rewrite lookup_insert_eq. done.
      * exists (inr (cl th)). eexists. rewrite lookup_insert_eq. done.
    + destruct (i_off _ _ _ Hinv Hb) as [p Hp]. exists p. apply has_other; [..|done];
        intros ->; rewrite (has_old _ Hp) in Ho by auto; discriminate.
Qed.
End update.

(** The same for a thread that ends. *)
Lemma inv_update_end cs ts b t th k k' b' : inv cs ts b -> ts !! t = Some th ->
  cs !! cl th = Some k ->
  (phase (at_ th) <> None \/ state k = NONE \/ state k = FREE \/ state k' = state k) ->
  b' = bool_decide (state k' = FREE) || (negb (token (at_ th) || bool_decide (state k = FREE)) && b) ->
  (state k' = FREE -> token (at_ th) || bool_decide (state k = FREE) = true \/ b = false) ->
  inv (<[cl th := k']> cs) (delete t ts) b'.
Proof.
  intros Hinv Ht Hk Hexcl Hb Hnew.
  rewrite <-(delete_insert_eq ts t (mkThread RevDone (cl th) (handler th))).
  eapply inv_delete; [|apply lookup_insert_eq|done].
  eapply inv_update; try done.
  - destruct Hexcl as [?|[?|[?|?]]]; auto.
  - cbn [token orb]. intros ?%bool_decide_eq_true. auto.
Qed.

(** A step that leaves the client's record. *)
Lemma inv_move cs ts b t th k p' b' : inv cs ts b -> ts !! t = Some th -> cs !! cl th = Some k ->
  (forall st, phase p' = Some st -> state k = st) ->
  (phase (at_ th) <> None \/ state k = NONE \/ phase p' = None) ->
  state k <> FREE ->
  b' = token p' || (negb (token (at_ th)) && b) ->
  (token p' = true -> token (at_ th) = true \/ b = false) ->
  inv cs (<[t := mkThread p' (cl th) (handler th)]> ts) b'.
Proof.
  intros Hinv Ht Hk Hph Hexcl Hnf Hb Hnew. rewrite <-(insert_id cs (cl th) k) by done.
  assert (bool_decide (state k = FREE) = false) as Hf by (by apply bool_decide_false).
  eapply inv_update; try done.
  - destruct Hexcl as [?|[?|?]]; auto.
  - by rewrite Hf, andb_false_r.
  - by rewrite Hf, !orb_false_r.
  - by rewrite Hf, !orb_false_r.
Qed.

(** A step of a call that is gone. *)
Lemma inv_gone cs ts b t th k p' b' : inv cs ts b -> ts !! t = Some th -> cs !! cl th = Some k ->
  phase p' = None -> token (at_ th) = false -> b' = token p' || b -> (token p' = true -> b = false) ->
  inv cs (<[t := mkThread p' (cl th) (handler th)]> ts) b'.
Proof.
  intros Hinv Ht Hk Hph Hold Hb Hnew. destruct (decide (state k = FREE)) as [Hf|Hf].
  - assert (b = true) as -> by (apply (i_on _ _ _ Hinv (inr (cl th))); by exists k).
    destruct (token p') eqn:Htok; [by specialize (Hnew eq_refl)|]. cbn in Hb. subst b'.
    rewrite <-(insert_id cs (cl th) k) by done.
    eapply inv_update; try done; rewrite ?Hph, ?Htok, ?Hold, ?bool_decide_true by done; auto.
    discriminate.
  - eapply inv_move; try done; rewrite ?Hph, ?Hold; auto. discriminate.
Qed.

(** Changing the flags of a client. *)
Lemma inv_flags cs ts b c k k' : inv cs ts b -> cs !! c = Some k -> state k' = state k ->
  inv (<[c := k']> cs) ts b.
Proof.
  intros [] Hc Hs.
  assert (forall p, has (<[c := k']> cs) ts p <-> has cs ts p) as Hhas.
  { intros [t|c']; [done|]. cbn [has]. destruct (decide (c' = c)) as [->|].
    - rewrite lookup_insert_eq. split; [intros (x & [= <-] & ?); exists k; split; congruence|].
      intros (x & Hx & ?). exists k'. split; [done|congruence].
    - by rewrite lookup_insert_ne by done. }
  split.
  - intros t th H. destruct (decide (c = cl th)) as [->|]; [by rewrite lookup_insert_eq|].
    rewrite lookup_insert_ne by done. by eapply i_dom0.
  - intros t th x st Ht Hp [[-> <-]|[_ H]]%lookup_insert_Some; [|by eapply i_phase0].
    rewrite Hs. by eapply i_phase0.
  - done.
  - intros p p'. rewrite !Hhas. apply i_tok0.
  - intros p. rewrite Hhas. apply i_on0.
  - intros Hb. destruct (i_off0 Hb) as [p Hp]. exists p. by apply Hhas.
Qed.

(* ------------------------------------------------------------------ *)
(** ** Reachable states *)

(** The clients the server knows have a record. *)
Record known (s : sys) : Prop := {
  k_owner : forall o, s_owner (srv s) = Some o -> is_Some (clients s !! o);
  k_wait : forall w, w ∈ s_wait (srv s) -> is_Some (clients s !! w);
  k_call : forall t th w, threads s !! t = Some th ->
    at_ th = RelRetry w \/ at_ th = RelRevoke w -> is_Some (clients s !! w);
}.

Definition sys_inv (s : sys) : Prop := inv (clients s) (threads s) (s_state (srv s)).

Lemma start_inv s t c s' : sys_inv s -> start s t c = Some (Ok s') -> sys_inv s'.
Proof.
  unfold start, sys_inv. intros Hinv. destruct (threads s !! t) eqn:Ht; [discriminate|].
  intros [= <-]. cbn [clients threads srv].
  destruct (clients s !! c) as [k|] eqn:Hc; apply inv_add; try done.
  - by apply inv_client.
  - cbn [cl]. by rewrite lookup_insert_eq.
Qed.

(** The side conditions of an update at a known place and client state. *)
#[local] Ltac upd :=
  try done;
  repeat match goal with
    | H : at_ _ = _ |- _ => rewrite !H
    | H : state _ = _ |- _ => rewrite !H
    end; cbn; auto; try (by left); try (by intros st [= <-]).

Section steps.
Context (s s' : sys) (t : nat) (th : thread) (k : client).
Context (Hinv : sys_inv s) (Ht : threads s !! t = Some th) (Hk : clients s !! cl th = Some k).

Lemma state_of st : phase (at_ th) = Some st -> state k = st.
Proof using Hinv Ht Hk. intros Hp. by eapply (i_phase _ _ _ Hinv). Qed.

Lemma not_free : token (at_ th) = false -> state k = FREE -> s_state (srv s) = true.
Proof using Hinv Hk. intros _ Hf. apply (i_on _ _ _ Hinv (inr (cl th))). by exists k. Qed.

Lemma wait_inv : at_ th = AcqWait ->
  inv (clients s) (set_at t th AcqLoop (threads s)) (s_state (srv s)).
Proof using Hinv Ht Hk.
  intros Ha. unfold set_at. rewrite <-(insert_id (clients s) (cl th) k) by done.
  destruct (bool_decide (state k = FREE)) eqn:Hf; eapply inv_update; try done;
    rewrite ?Ha, ?Hf; cbn; auto.
  apply bool_decide_eq_true in Hf. by apply not_free; rewrite ?Ha.
Qed.

Lemma acq_loop_inv : at_ th = AcqLoop -> acq_loop s t th k = Some (Ok s') -> sys_inv s'.
Proof using Hinv Ht Hk.
  intros Ha. unfold acq_loop, sys_inv, set_at.
  destruct (state k) eqn:Hs; intros [= <-]; cbn [clients threads srv].
  - eapply inv_update; upd.
  - eapply inv_update; upd.
    by apply not_free; rewrite ?Ha.
  - eapply inv_move; upd.
  - eapply inv_move; upd.
  - eapply inv_move; upd.
Qed.

Lemma acq_reply_inv r : at_ th = AcqReply false r -> acq_reply s t th k r = Some (Ok s') -> sys_inv s'.
Proof using Hinv Ht Hk.
  intros Ha. pose proof (state_of ACQUIRING ltac:(by rewrite Ha)) as Hs.
  unfold acq_reply, sys_inv, set_at. destruct r; intros [= <-]; cbn [clients threads srv].
  - eapply inv_update; upd.
    apply (i_on _ _ _ Hinv (inl t)). exists th. by rewrite Ha.
  - eapply inv_move; upd.
  - eapply inv_move; upd.
Qed.

Lemma broadcast_self c : at_ th <> AcqWait -> broadcast c (threads s) !! t = Some th.
Proof using Ht.
  intros Ha. unfold broadcast. rewrite lookup_fmap, Ht. cbn. f_equal. unfold wake. by destruct (at_ th).
Qed.

Lemma acq_retry_inv : at_ th = AcqRetry -> acq_retry s t th k = Some (Ok s') -> sys_inv s'.
Proof using Hinv Ht Hk.
  intros Ha. pose proof (state_of ACQUIRING ltac:(by rewrite Ha)) as Hs.
  unfold acq_retry, acq_loop, sys_inv, set_at. destruct (retry k); [|done].
  cbn [state clients threads srv LockCache.revoke LockCache.retry mutex]. intros [= <-].
  cbn [clients threads srv]. rewrite insert_insert_eq.
  eapply inv_update; [by apply inv_broadcast|apply broadcast_self; by rewrite Ha|done|..];
    upd.
Qed.

Lemma rel_start_inv : at_ th = Holding -> rel_start s t th k = Some (Ok s') -> sys_inv s'.
Proof using Hinv Ht Hk.
  intros Ha. pose proof (state_of LOCKED ltac:(by rewrite Ha)) as Hs.
  assert (s_state (srv s) = true) as Hb.
  { apply (i_on _ _ _ Hinv (inl t)). exists th. by rewrite Ha. }
  unfold rel_start, sys_inv, set_at. rewrite Hs. destruct (revoke k); intros [= <-];
    cbn [clients threads srv].
  - eapply inv_update; upd.
  - apply inv_broadcast. eapply inv_update_end; upd.
Qed.

Lemma rel_reply_inv : at_ th = RelReply -> rel_reply s t th k = Some (Ok s') -> sys_inv s'.
Proof using Hinv Ht Hk.
  intros Ha. pose proof (state_of RELEASING ltac:(by rewrite Ha)) as Hs.
  unfold rel_reply, sys_inv, set_at. intros [= <-]. cbn [clients threads srv]. apply inv_broadcast.
  destruct (handler th) eqn:Hh.
  - rewrite <-Hh. eapply inv_update; upd.
  - eapply inv_update_end; upd.
Qed.

Lemma rev_run_inv : at_ th = RevRun -> rev_run s t th k = Some (Ok s') -> sys_inv s'.
Proof using Hinv Ht Hk.
  intros Ha. unfold rev_run, sys_inv, set_at.
  destruct (state k) eqn:Hs; intros [= <-]; cbn [clients threads srv].
  2: eapply inv_update; upd; by apply not_free; rewrite ?Ha.
  all: apply inv_broadcast; eapply inv_update; upd.
Qed.

(** A step of the server with the call of an [acquire]. *)
Lemma served_inv p p' b' (gone : bool) : at_ th = p -> token p = false ->
  phase p = (if gone then None else Some ACQUIRING) -> phase p' = phase p ->
  b' = token p' || s_state (srv s) -> (token p' = true -> s_state (srv s) = false) ->
  inv (clients s) (set_at t th p' (threads s)) b'.
Proof using Hinv Ht Hk.
  intros Ha Htok Hp Hp' Hb Hnew. unfold set_at. destruct gone.
  - eapply inv_gone; try done; congruence.
  - pose proof (state_of ACQUIRING ltac:(congruence)) as Hs.
    eapply inv_move; [exact Hinv|done|done|..]; rewrite ?Hp', ?Ha, ?Hp, ?Htok, ?Hs; auto.
    by intros st [= <-].
Qed.

Lemma srv_acquire_inv gone : at_ th = AcqCall gone -> srv_acquire s t th gone = Some (Ok s') -> sys_inv s'.
Proof using Hinv Ht Hk.
  intros Ha. unfold srv_acquire, sys_inv. destruct (mutex s); [done|].
  destruct (s_state (srv s)) eqn:Hb; cbn [negb]; [destruct (s_revoke (srv s))|]; intros [= <-];
    cbn [clients threads srv s_state]; apply (served_inv _ _ _ gone Ha); rewrite ?Hb; try done; by destruct gone.
Qed.

Lemma handler_inv h c p : threads s !! h = None -> is_Some (clients s !! c) ->
  inv (clients s) (set_at t th p (threads s)) (s_state (srv s)) ->
  inv (clients s) (<[h := mkThread RevRun c true]> (set_at t th p (threads s))) (s_state (srv s)).
Proof using Ht.
  intros Hh Hc Hi. apply inv_add; try done. unfold set_at. rewrite lookup_insert_ne; [done|congruence].
Qed.

Lemma joined_inv h hd p : threads s !! h = Some hd -> at_ hd = RevDone -> at_ th <> RevDone ->
  inv (clients s) (set_at t th p (threads s)) (s_state (srv s)) ->
  inv (clients s) (delete h (set_at t th p (threads s))) (s_state (srv s)).
Proof using Ht.
  intros Hh Hd Hne Hi. apply (inv_delete _ _ _ h hd); [done| |by rewrite Hd].
  unfold set_at. rewrite lookup_insert_ne; [done|]. intros ->. congruence.
Qed.

Lemma srv_owner_inv gone h : known s -> at_ th = AcqBusy gone -> srv_owner s t th gone h = Some (Ok s') ->
  sys_inv s'.
Proof using Hinv Ht Hk.
  intros Hkn Ha.
  unfold srv_owner, sys_inv. destruct (threads s !! h) eqn:Hh; [done|].
  destruct (s_owner (srv s)) as [o|] eqn:Ho; [|done]. intros [= <-]. cbn [clients threads srv].
  apply handler_inv; [done|by apply (k_owner _ Hkn)|].
  apply (served_inv _ _ _ gone Ha); try done; by destruct gone.
Qed.

Lemma srv_joined_inv gone h : at_ th = AcqRevoking gone h -> srv_joined s t th gone h = Some (Ok s') ->
  sys_inv s'.
Proof using Hinv Ht Hk.
  intros Ha.
  unfold srv_joined, sys_inv. destruct (threads s !! h) as [[[] ? ?]|] eqn:Hh; try done.
  intros [= <-]. cbn [clients threads srv]. eapply joined_inv; [done|done|congruence|].
  apply (served_inv _ _ _ gone Ha); try done; by destruct gone.
Qed.

Lemma srv_release_inv : at_ th = RelCall -> srv_release s t th = Some (Ok s') -> sys_inv s'.
Proof using Hinv Ht Hk.
  intros Ha. pose proof (state_of RELEASING ltac:(by rewrite Ha)) as Hs.
  unfold srv_release, sys_inv, set_at. destruct (mutex s); [done|].
  destruct (set_begin _) as [w|]; intros [= <-]; cbn [clients threads srv s_state];
    eapply inv_move; upd; congruence.
Qed.

Lemma srv_retry_inv w : at_ th = RelRetry w -> srv_retry s t th w = Some (Ok s') -> sys_inv s'.
Proof using Hinv Ht Hk.
  intros Ha. pose proof (state_of RELEASING ltac:(by rewrite Ha)) as Hs.
  unfold srv_retry, sys_inv, set_at. destruct (clients s !! w) as [kw|] eqn:Hw; [|done].
  intros [= <-]. cbn [clients threads srv]. unfold retry_handler.
  set (p := if (1 <? _)%nat then _ else _).
  assert (phase p = Some RELEASING) as Hp by (subst p; by destruct (1 <? _)%nat).
  assert (token p = false) as Hq by (subst p; by destruct (1 <? _)%nat). clearbody p.
  destruct (retry kw) eqn:Hr; cbn [clients threads srv].
  - eapply inv_move; upd; rewrite ?Hp, ?Hq; try done; try congruence.
  - pose (k1 := if decide (w = cl th) then mkClient (state kw) (revoke kw) true else k).
    assert (state k1 = RELEASING) as Hs1.
    { subst k1. destruct (decide (w = cl th)) as [->|]; [|done]. cbn [state]. congruence. }
    eapply inv_move with (k := k1).
    + eapply inv_flags; [by apply inv_broadcast|done|done].
    + apply broadcast_self. by rewrite Ha.
    + subst k1. destruct (decide (w = cl th)) as [->|]; [by rewrite lookup_insert_eq|].
      by rewrite lookup_insert_ne.
    + intros st. rewrite Hp. by intros [= <-].
    + left. by rewrite Ha.
    + congruence.
    + by rewrite Ha, Hq.
    + by rewrite Hq.
Qed.

Lemma srv_revoke_inv w h : known s -> at_ th = RelRevoke w -> srv_revoke s t th w h = Some (Ok s') ->
  sys_inv s'.
Proof using Hinv Ht Hk.
  intros Hkn Ha. pose proof (state_of RELEASING ltac:(by rewrite Ha)) as Hs.
  unfold srv_revoke, sys_inv. destruct (threads s !! h) eqn:Hh; [done|].
  intros [= <-]. cbn [clients threads srv].
  apply handler_inv; [done|by eapply (k_call _ Hkn); eauto|]. eapply inv_move; upd; congruence.
Qed.

Lemma srv_rejoined_inv h : at_ th = RelRevoking h -> srv_rejoined s t th h = Some (Ok s') -> sys_inv s'.
Proof using Hinv Ht Hk.
  intros Ha. pose proof (state_of RELEASING ltac:(by rewrite Ha)) as Hs.
  unfold srv_rejoined, sys_inv. destruct (threads s !! h) as [[[] ? ?]|] eqn:Hh; try done.
  intros [= <-]. cbn [clients threads srv]. eapply joined_inv; [done|done|congruence|].
  eapply inv_move; upd; congruence.
Qed.

(** The caller of an [acquire] is told that it failed, and the server has the call. *)
Lemma lose_inv d p p' : threads s !! d = None -> at_ th = p -> phase p = Some ACQUIRING -> phase p' = None ->
  token p' = token p ->
  inv (clients s) (<[d := mkThread p' (cl th) false]> (set_at t th (AcqReply false FAILED) (threads s)))
    (s_state (srv s)).
Proof using Hinv Ht Hk.
  intros Hd Ha Hp Hp' Htok. pose proof (state_of ACQUIRING ltac:(congruence)) as Hs.
  set (ts1 := set_at t th (AcqReply false FAILED) (threads s)).
  assert (inv (clients s) ts1 (if token p then false else s_state (srv s))) as H1.
  { unfold ts1, set_at. eapply inv_move; [exact Hinv|done|done|..]; rewrite ?Ha, ?Hp, ?Hs; auto.
    - by intros st [= <-].
    - by destruct (token p).
    - done. }
  assert (ts1 !! d = None) as Hd1.
  { unfold ts1, set_at. rewrite lookup_insert_ne; [done|congruence]. }
  assert (inv (clients s) (<[d := mkThread RevDone (cl th) false]> ts1)
            (if token p then false else s_state (srv s))) as H2 by (apply inv_add; try done; eauto).
  rewrite <-(insert_insert_eq ts1 d _ (mkThread RevDone (cl th) false)).
  eapply (inv_gone _ _ _ d (mkThread RevDone (cl th) false)); [exact H2|apply lookup_insert_eq|exact Hk|done|done|..];
    rewrite ?Htok; destruct (token p) eqn:Et; try done.
  apply (i_on _ _ _ Hinv (inl t)). exists th. by rewrite Ha.
Qed.

Lemma fail_inv d : fail s t d th = Some (Ok s') -> sys_inv s'.
Proof using Hinv Ht Hk.
  unfold fail, sys_inv. destruct (threads s !! d) eqn:Hd.
  { destruct (at_ th) as [|[]|[]|[]|[] []| | | | | | | | | |]; discriminate. }
  destruct (at_ th) as [|[]|[]|[]|[] []| | | | | | | | | |] eqn:Ha; try discriminate; intros [= <-];
    cbn [clients threads srv]; by eapply lose_inv.
Qed.
End steps.

Lemma inv_exec e s s' : sys_inv s -> known s -> exec e s = Some (Ok s') -> sys_inv s'.
Proof.
  intros Hinv Hkn. destruct e as [t c|t h|t d]; cbn [exec]; [by apply start_inv| |].
  2: { destruct (threads s !! t) as [th|] eqn:Ht; [|done]. destruct (i_dom _ _ _ Hinv t th Ht) as [k Hk].
    by eapply fail_inv. }
  destruct (threads s !! t) as [th|] eqn:Ht; [|done].
  destruct (clients s !! cl th) as [k|] eqn:Hk; [|by destruct (at_ th)].
  destruct (at_ th) eqn:Ha; try done.
  - by eapply acq_loop_inv.
  - by eapply srv_acquire_inv.
  - by eapply srv_owner_inv.
  - by eapply srv_joined_inv.
  - destruct gone; [done|]. by eapply acq_reply_inv.
  - by eapply acq_retry_inv.
  - intros [= <-]. unfold sys_inv. cbn [clients threads srv]. by eapply wait_inv.
  - by eapply rel_start_inv.
  - by eapply srv_release_inv.
  - by eapply srv_retry_inv.
  - by eapply srv_revoke_inv.
  - by eapply srv_rejoined_inv.
  - by eapply rel_reply_inv.
  - by eapply rev_run_inv.
Qed.

(** *** The clients the server knows *)

Definition calls (p : pc) (w : Z) : Prop := p = RelRetry w \/ p = RelRevoke w.

Lemma set_begin_elem X w : set_begin X = Some w -> w ∈ X.
Proof.
  unfold set_begin. destruct (elements X) as [|x l] eqn:E; [done|]. intros [= <-].
  rewrite <-elem_of_elements, E. clear E. induction l as [|y l IH]; cbn [foldr]; [left|].
  apply elem_of_cons in IH. destruct (Z.min_spec y (foldr Z.min x l)) as [[_ ->]|[_ ->]].
  - right. left.
  - destruct IH as [->|]; [left|]. right. by right.
Qed.

(** The calls pending in [ts'] were pending in [ts], or go to a client of [X]. *)
Definition from (ts : gmap nat thread) (X : gset Z) (ts' : gmap nat thread) : Prop :=
  forall t th w, ts' !! t = Some th -> calls (at_ th) w ->
    (exists t0 th0, ts !! t0 = Some th0 /\ calls (at_ th0) w) \/ w ∈ X.

Lemma from_refl ts X : from ts X ts.
Proof. intros t th w Ht Hc. left. eauto. Qed.

Lemma from_broadcast ts X ts' c : from ts X ts' -> from ts X (broadcast c ts').
Proof.
  intros Hf t th w (th0 & Ht & ->)%broadcast_lookup Hc. apply (Hf t th0 w Ht).
  unfold wake, calls in *. destruct (at_ th0) eqn:E; rewrite ?E in Hc; try done.
  destruct (decide (cl th0 = c)); cbn in Hc; [|rewrite E in Hc]; by destruct Hc.
Qed.

Lemma from_delete ts X ts' t : from ts X ts' -> from ts X (delete t ts').
Proof. intros Hf t' th w [_ H]%lookup_delete_Some. by apply (Hf t'). Qed.

Lemma from_insert ts X ts' t th : from ts X ts' ->
  (forall w, calls (at_ th) w -> (exists t0 th0, ts !! t0 = Some th0 /\ calls (at_ th0) w) \/ w ∈ X) ->
  from ts X (<[t := th]> ts').
Proof. intros Hf Hp t' th' w [[_ <-]|[_ H]]%lookup_insert_Some; [apply Hp|by apply (Hf t')]. Qed.

Lemma from_quiet ts X ts' t th : from ts X ts' -> (forall w, ~ calls (at_ th) w) ->
  from ts X (<[t := th]> ts').
Proof. intros Hf Hp. apply from_insert; [done|]. intros w Hc. by destruct (Hp w). Qed.

Lemma known_next s s' : known s ->
  (forall c, is_Some (clients s !! c) -> is_Some (clients s' !! c)) ->
  (forall o, s_owner (srv s') = Some o -> s_owner (srv s) = Some o \/ is_Some (clients s !! o)) ->
  (forall w, w ∈ s_wait (srv s') -> w ∈ s_wait (srv s) \/ is_Some (clients s !! w)) ->
  from (threads s) (s_wait (srv s)) (threads s') -> known s'.
Proof.
  intros Hkn Hdom Howner Hwait Hcall. split.
  - intros o [H|H]%Howner; apply Hdom; [by apply (k_owner _ Hkn)|done].
  - intros o [H|H]%Hwait; apply Hdom; [by apply (k_wait _ Hkn)|done].
  - intros t th w Ht Hc. apply Hdom. destruct (Hcall t th w Ht Hc) as [(t0 & th0 & H0 & H)|H].
    + by eapply (k_call _ Hkn).
    + by apply (k_wait _ Hkn).
Qed.

Lemma dom_insert_some (cs : gmap Z client) c k c' : is_Some (cs !! c') -> is_Some (<[c := k]> cs !! c').
Proof. rewrite lookup_insert_is_Some'. auto. Qed.

(** The goals of [known_next] at a step that calls no client. *)
#[local] Ltac quiet :=
  unfold set_at in *; cbn [clients threads srv s_owner s_wait s_state];
  try by (intros; repeat apply dom_insert_some; auto);
  try by (repeat first [apply from_refl | apply from_broadcast | apply from_delete
                       | apply from_quiet; [|intros ? [?|?]; discriminate]]).

Lemma known_exec e s s' : known s -> exec e s = Some (Ok s') -> known s'.
Proof.
  intros Hkn. destruct e as [t c|t h|t d]; cbn [exec].
  { unfold start. destruct (threads s !! t); [done|]. intros [= <-].
    apply (known_next s); [done|..]; destruct (clients s !! c); quiet. }
  2: { destruct (threads s !! t) as [th|]; [|done]. unfold fail. destruct (threads s !! d).
    { destruct (at_ th) as [|[]|[]|[]|[] []| | | | | | | | | |]; discriminate. }
    destruct (at_ th) as [|[]|[]|[]|[] []| | | | | | | | | |]; try discriminate; intros [= <-];
      apply (known_next s); quiet. }
  destruct (threads s !! t) as [th|] eqn:Ht; [|done].
  destruct (clients s !! cl th) as [k|] eqn:Hk; [|by destruct (at_ th)].
  destruct (at_ th) eqn:Ha; try done.
  - unfold acq_loop. destruct (state k); intros [= <-]; apply (known_next s); quiet.
  - unfold srv_acquire. destruct (mutex s); [done|].
    destruct (s_state (srv s)); cbn [negb]; [destruct (s_revoke (srv s))|]; intros [= <-];
      apply (known_next s); quiet.
    + intros w [->%elem_of_singleton|]%elem_of_union; eauto.
    + intros w [->%elem_of_singleton|]%elem_of_union; eauto.
    + intros o [= <-]. eauto.
    + intros w [? _]%elem_of_difference. auto.
  - unfold srv_owner. destruct (threads s !! h); [done|]. destruct (s_owner (srv s)) eqn:Ho; [|done].
    intros [= <-]. apply (known_next s); quiet.
  - unfold srv_joined. destruct (threads s !! h0) as [[[] ? ?]|]; try done. intros [= <-].
    apply (known_next s); quiet.
  - destruct gone; [done|]. unfold acq_reply. destruct r; intros [= <-]; apply (known_next s); quiet.
  - unfold acq_retry, acq_loop. destruct (retry k); [|done]. cbn [state]. intros [= <-].
    apply (known_next s); quiet.
  - intros [= <-]. apply (known_next s); quiet.
  - unfold rel_start. destruct (state k); try done. destruct (revoke k); intros [= <-];
      apply (known_next s); quiet.
  - unfold srv_release. destruct (mutex s); [done|].
    destruct (set_begin _) as [w|] eqn:Hw; intros [= <-]; apply (known_next s); quiet.
    apply from_insert; [apply from_refl|]. intros w' [[= <-]|]; [|done]. right.
    by apply set_begin_elem.
  - unfold srv_retry, retry_handler. destruct (clients s !! w) as [kw|]; [|done].
    destruct (retry kw), (1 <? _)%nat; intros [= <-]; apply (known_next s); quiet.
    + apply from_insert; [apply from_refl|]. intros w' [|[= <-]]; [done|]. left. exists t, th.
      split; [done|]. rewrite Ha. by left.
    + apply from_insert; [apply from_broadcast, from_refl|]. intros w' [|[= <-]]; [done|].
      left. exists t, th. split; [done|]. rewrite Ha. by left.
  - unfold srv_revoke. destruct (threads s !! h); [done|]. intros [= <-]. apply (known_next s); quiet.
  - unfold srv_rejoined. destruct (threads s !! h0) as [[[] ? ?]|]; try done. intros [= <-].
    apply (known_next s); quiet.
  - unfold rel_reply. intros [= <-]. apply (known_next s); destruct (handler th); quiet.
  - unfold rev_run. destruct (state k); intros [= <-]; apply (known_next s); quiet.
Qed.

Lemma reachable_inv s : reachable s -> sys_inv s /\ known s.
Proof.
  induction 1 as [|s s' e _ [Hi Hk] E].
  - split; [apply inv_init|]. split; cbn.
    + done.
    + intros w ?%elem_of_empty. done.
    + intros t th w H. by rewrite lookup_empty in H.
  - split; [by eapply inv_exec|by eapply known_exec].
Qed.

(* ------------------------------------------------------------------ *)
(** ** The properties of the protocol *)

(** C3. Mutual exclusion of the caching lock: in every reachable state, of
    any number of clients, threads and calls in flight, at most one thread is
    between the return of [acquire] and its [release]; its client's record is
    LOCKED, no client has the lock cached as FREE, and the server's record is
    taken. *)
Theorem lock_cache_exclusion s t th : reachable s -> threads s !! t = Some th ->
  at_ th = Holding ->
  (forall t' th', threads s !! t' = Some th' -> at_ th' = Holding -> t' = t) /\
  (exists k, clients s !! cl th = Some k /\ state k = LOCKED) /\
  (forall c k, clients s !! c = Some k -> state k <> FREE) /\
  s_state (srv s) = true.
Proof.
  intros [Hi _]%reachable_inv Ht Ha.
  assert (has (clients s) (threads s) (inl t)) as Hp by (exists th; by rewrite Ha).
  split; [|split; [|split]].
  - intros t' th' Ht' Ha'. enough (@inl nat Z t' = inl t) as [= ->] by done.
    apply (i_tok _ _ _ Hi); [|done]. exists th'. by rewrite Ha'.
  - destruct (i_dom _ _ _ Hi t th Ht) as [k Hk]. exists k. split; [done|].
    eapply (i_phase _ _ _ Hi); [done| |done]. by rewrite Ha.
  - intros c k Hc Hf. enough (@inr nat Z c = inl t) by done. apply (i_tok _ _ _ Hi); [|done].
    by exists k.
  - by apply (i_on _ _ _ Hi (inl t)).
Qed.

(** Client 1 gets the lock and keeps it while client 2 asks for it. *)
Definition demo_busy : list event :=
  [Start 1 1; Step 1 0; Step 1 0; Step 1 0;
   Start 2 2; Step 2 0; Step 2 0; Step 2 10; Step 10 0; Step 2 0; Step 2 0].

Lemma demo_busy_reachable : exists s, run demo_busy sys_init = Some s /\ reachable s /\
  threads s !! 1%nat = Some (mkThread Holding 1 false).
Proof.
  destruct (run demo_busy sys_init) as [s|] eqn:E; [|vm_compute in E; discriminate].
  exists s. split; [done|]. split; [by eapply run_reachable; [constructor|]|].
  vm_compute in E. by injection E as <-.
Qed.

Lemma lock_cache_exclusion_witness : exists s, run demo_busy sys_init = Some s /\
  forall c k, clients s !! c = Some k -> state k <> FREE.
Proof.
  destruct demo_busy_reachable as (s & Hrun & Hr & Ht). exists s. split; [exact Hrun|].
  destruct (lock_cache_exclusion s 1%nat _ Hr Ht eq_refl) as (_ & _ & H & _). exact H.
Defined.


(** Client 2 gets the lock with a revoke pending, since client 3 waits, and
    gives it back while the server handles the request of client 4. *)
Definition demo_race : list event := demo_busy ++
  [Start 3 3; Step 3 0; Step 3 0; Step 3 0;
   Step 1 0; Step 1 0; Step 1 0; Step 1 11; Step 11 0; Step 1 0; Step 1 0;
   Step 2 0; Step 2 0; Step 2 0;
   Start 4 4; Step 4 0; Step 4 0;
   Step 2 0; Step 2 0]%nat.

(** The race is real: four clients with one thread each reach a state where the
    server reads the empty owner and asks for a connection to the empty name. *)
Theorem lock_cache_owner_race :
  match run demo_race sys_init with
  | Some s => reachable s /\ exec (Step 4 12) s = Some EmptyName
  | None => False
  end.
Proof.
  destruct (run demo_race sys_init) as [s|] eqn:E; [|vm_compute in E; discriminate].
  split; [by eapply run_reachable; [constructor|]|]. vm_compute in E. by injection E as <-.
Qed.


(* ------------------------------------------------------------------ *)
(** ** Failed calls *)

(** The call of client 1 fails after the server has granted the lock; the client
    tries again. *)
Definition demo_lost : list event := [Start 1 1; Step 1 0; Step 1 0; Fails 1 2; Step 1 0; Step 1 0]%nat.

(** After a failed call of [acquire] the client's record stays ACQUIRING and the
    thread waits, although the server has given the client the lock; a wait that
    ends leads to the next one. *)
Theorem lock_cache_lost_grant : exists s, run demo_lost sys_init = Some s /\ reachable s /\
  threads s !! 1%nat = Some (mkThread AcqWait 1 false) /\
  clients s !! 1 = Some (mkClient ACQUIRING false false) /\
  s_state (srv s) = true /\ s_owner (srv s) = Some 1 /\
  run [Step 1 0; Step 1 0]%nat s = Some s.
Proof.
  destruct (run demo_lost sys_init) as [s|] eqn:E; [|vm_compute in E; discriminate].
  exists s. split; [done|]. split; [by eapply run_reachable; [constructor|]|].
  vm_compute in E. injection E as <-. repeat split; reflexivity.
Qed.
