(* ===== verification/Rpc.v ===== *)
(** * Remote calls

    The templates of rpc/rpc.h and rpc/marshall.h: arguments and results as
    bytes, the client's side of a call ([rpcc::call], [rpcc::call_m]) and the
    server's side (the handler objects that [rpcs::reg] makes).  The functions
    that marshal the basic types, and [unmarshall::okdone], have no source
    here; they are the operations of classes. *)

From S2P Require Import Prelude Protocol Disk Inode Extent.

(** The unread bytes of an [unmarshall] object, and [_ok]. *)
Record unmarshall : Type := mkU { u_buf : list byte; u_ok : bool }.

(** [operator<<] and [operator>>] of a type; [get] has the old value of the
    variable that is read. *)
Class Marshal (A : Type) : Type := {
  put : A -> list byte;
  get : A -> unmarshall -> A * unmarshall
}.

(** The values that have an encoding, and the old values that [get] replaces. *)
Class MarshalLaws (A : Type) `{!Marshal A} : Type := {
  wire_ok : A -> Prop;
  fresh_out : A -> Prop;
  get_put a old rest : wire_ok a -> fresh_out old ->
    get old (mkU (put a ++ rest) true) = (a, mkU rest true)
}.

(** [okdone]: nothing has failed, and nothing is left to read. *)
Class OkDone : Type := okdone : unmarshall -> bool.
Class OkDoneLaws `{!OkDone} : Prop := {
  okdone_end : okdone (mkU [] true) = true;
  okdone_rest l : l <> [] -> okdone (mkU l true) = false
}.

(* ------------------------------------------------------------------ *)
(** ** marshall.h and extent_protocol.h *)

(** Two arguments, one after the other. *)
#[export] Instance pair_marshal {A B} `{!Marshal A, !Marshal B} : Marshal (A * B) := {|
  put p := put p.1 ++ put p.2;
  get old u := let '(a, u) := get old.1 u in let '(b, u) := get old.2 u in ((a, b), u)
|}.

Section containers.
Context (unsigned : Marshal Z) (junk : Z).

(** The elements of a container behind their number; [z] is a new element. *)
Fixpoint get_elements {C} `{!Marshal C} (z : C) (n : nat) (v : list C) (u : unmarshall)
    : list C * unmarshall :=
  match n with
  | O => (v, u)
  | S n => let '(x, u) := get z u in get_elements z n (v ++ [x]) u
  end.

(** std::vector and std::list: reading appends to the container. *)
Definition list_put {C} `{!Marshal C} (v : list C) : list byte :=
  put (u32 (Z.of_nat (length v))) ++ concat (put <$> v).

Definition list_get {C} `{!Marshal C} (z : C) (v : list C) (u : unmarshall) : list C * unmarshall :=
  let '(n, u) := get junk u in get_elements z (Z.to_nat n) v u.

Definition list_marshal {C} `{!Marshal C} (z : C) : Marshal (list C) :=
  {| put := list_put; get := list_get z |}.

(** [extent_protocol::attr] *)
Definition attr_put (a : extent_protocol.attr) : list byte :=
  put (extent_protocol.a_type a) ++ put (extent_protocol.a_atime a) ++
  put (extent_protocol.a_mtime a) ++ put (extent_protocol.a_ctime a) ++
  put (extent_protocol.a_size a).

Definition attr_get (a : extent_protocol.attr) (u : unmarshall) : extent_protocol.attr * unmarshall :=
  let '(type, u) := get (extent_protocol.a_type a) u in
  let '(atime, u) := get (extent_protocol.a_atime a) u in
  let '(mtime, u) := get (extent_protocol.a_mtime a) u in
  let '(ctime, u) := get (extent_protocol.a_ctime a) u in
  let '(size, u) := get (extent_protocol.a_size a) u in
  (extent_protocol.mkAttr type atime mtime ctime size, u).

Definition attr_marshal : Marshal extent_protocol.attr :=
  {| put := attr_put; get := attr_get |}.
End containers.

(* ------------------------------------------------------------------ *)
(** ** rpc.h *)

Section rpc.
Context {S A R : Type} `{!OkDone, !Marshal A, !Marshal R}.

(** [rpcc::call(proc, a1, ..., r)] and [rpcc::call_m]; [call1] sends the bytes
    of the arguments and gives the status and the bytes of the reply.  [A] is
    the tuple of the arguments. *)
Definition call (call1 : list byte -> S -> outcome (S * (Z * list byte))) (a : A) (r : R) (s : S)
    : outcome (S * (Z * R)) :=
  '(s, (intret, rep)) ← call1 (put a) s;
  if intret <? 0 then Ret (s, (intret, r))
  else
    let '(r, u) := get r (mkU rep true) in
    if okdone u then Ret (s, (intret, r)) else Abort.

(** [h1::fn(args, ret)]: [meth] is the registered method, [a0] and [r0] are
    the variables [a1], ..., and [r] before they are assigned. *)
Definition handler_fn (meth : A -> R -> S -> outcome (S * (Z * R))) (a0 : A) (r0 : R)
    (args : list byte) (s : S) : outcome (S * (Z * list byte)) :=
  let '(a, u) := get a0 (mkU args true) in
  if negb (okdone u) then Ret (s, (rpc_const.code rpc_const.unmarshal_args_failure, []))
  else
    '(s, (b, r)) ← meth a r0 s;
    Ret (s, (b, put r)).
End rpc.

(* ------------------------------------------------------------------ *)
(** ** Round trips *)

#[export] Program Instance pair_laws {A B} `{!Marshal A, !Marshal B, LA : !MarshalLaws A, LB : !MarshalLaws B} :
  MarshalLaws (A * B) := {|
  wire_ok p := wire_ok p.1 /\ wire_ok p.2;
  fresh_out p := fresh_out p.1 /\ fresh_out p.2
|}.
Next Obligation.
  intros A B MA MB LA LB [a b] [a0 b0] rest [Ha Hb] [Ha0 Hb0]. cbn in *.
  rewrite <-app_assoc, get_put by done. by rewrite get_put.
Qed.

Section laws.
Context (unsigned : Marshal Z) {UL : MarshalLaws Z} (junk : Z).
Context (Hwire : forall z, 0 <= z < 2 ^ 32 -> wire_ok z) (Hfresh : forall z, fresh_out z).

Lemma get_elements_put {C} `{!Marshal C, LC : !MarshalLaws C} (z : C) l v rest : fresh_out z ->
  Forall wire_ok l ->
  get_elements z (length l) v (mkU (concat (put <$> l) ++ rest) true) = (v ++ l, mkU rest true).
Proof using Type.
  intros Hz. revert v. induction l as [|x l IH]; intros v Hl; cbn; [by rewrite app_nil_r|].
  apply Forall_cons in Hl as [Hx Hl]. rewrite <-app_assoc, get_put by done. rewrite IH by done.
  by rewrite <-app_assoc.
Qed.

(** A container is read behind what the variable already has. *)
Lemma list_get_put {C} `{!Marshal C, LC : !MarshalLaws C} (z : C) l v rest : fresh_out z ->
  Forall wire_ok l -> Z.of_nat (length l) < 2 ^ 32 ->
  list_get unsigned junk z v (mkU (list_put unsigned l ++ rest) true) = (v ++ l, mkU rest true).
Proof using Hwire Hfresh.
  intros Hz Hl Hlen. unfold list_get, list_put. rewrite u32_id by lia.
  rewrite <-app_assoc, get_put by (done || apply Hwire; lia). rewrite Nat2Z.id.
  by apply get_elements_put.
Qed.

Definition attr_ok (a : extent_protocol.attr) : Prop :=
  wire_ok (extent_protocol.a_type a) /\ wire_ok (extent_protocol.a_atime a) /\
  wire_ok (extent_protocol.a_mtime a) /\ wire_ok (extent_protocol.a_ctime a) /\
  wire_ok (extent_protocol.a_size a).

Lemma attr_get_put a old rest : attr_ok a ->
  attr_get unsigned old (mkU (attr_put unsigned a ++ rest) true) = (a, mkU rest true).
Proof using Hfresh.
  intros (H1 & H2 & H3 & H4 & H5). unfold attr_get, attr_put.
  rewrite <-!app_assoc, !get_put by done. by destruct a.
Qed.
End laws.

Section transparency.
Context {S A R : Type} `{OD : !OkDone, ODL : !OkDoneLaws} `{!Marshal A, LA : !MarshalLaws A}.
Context `{!Marshal R, LR : !MarshalLaws R}.
Implicit Types (meth : A -> R -> S -> outcome (S * (Z * R))).

Lemma get_all {B} `{!Marshal B, LB : !MarshalLaws B} (b old : B) : wire_ok b -> fresh_out old ->
  get old (mkU (put b) true) = (b, mkU [] true).
Proof using Type. intros Hb Ho. rewrite <-(app_nil_r (put b)). by apply get_put. Qed.

Lemma call_transparent meth a a0 r r0 s s' b r' : wire_ok a -> fresh_out a0 -> fresh_out r ->
  meth a r0 s = Ret (s', (b, r')) -> wire_ok r' ->
  call (handler_fn meth a0 r0) a r s = Ret (s', (b, if b <? 0 then r else r')).
Proof using ODL.
  intros Ha Ha0 Hr E Hr'. unfold call, handler_fn. rewrite get_all, okdone_end by done. cbn [negb].
  rewrite E. cbn. destruct (b <? 0); [done|]. by rewrite get_all, okdone_end by done.
Qed.
End transparency.
