(* ===== verification/Fifo.v ===== *)
(** * The blocking queue

    [fifo] of rpc/fifo.h, the queue of the RPC library's thread pool, under
    concurrent callers.  The mutex makes the code between two waits atomic;
    the state counts the threads that wait on each condition and those that
    have been woken and must test their condition again.  The calls of the
    pthread library succeed. *)

From S2P Require Import Prelude.

Module fifo.
Section fifo.
Context {T : Type}.

(** [q_] and [max_]; the elements of the threads in [enq] that wait for
    [has_space_c_], and of those woken; the number of threads in [deq] that
    wait for [non_empty_c_], and of those woken.  The last two fields record
    what [enq] appended and what [deq] returned, in order. *)
Record state : Type := mkFifo {
  q_ : list T; max_ : Z;
  wait_space : list T; ready_enq : list T;
  wait_item : nat; ready_deq : nat;
  enqueued : list T; dequeued : list T
}.

Definition init (limit : Z) : state := mkFifo [] (u32 limit) [] [] 0 0 [] [].

(** The result is a [bool]. *)
Definition size (f : state) : bool := negb (length (q_ f) =? 0)%nat.

Definition has_space (f : state) : bool :=
  (max_ f =? 0) || (Z.of_nat (length (q_ f)) <? max_ f).

(** [pthread_cond_signal] wakes a waiting thread, here the [k]-th. *)
Definition signal_non_empty (f : state) : state :=
  match wait_item f with
  | O => f
  | S w => mkFifo (q_ f) (max_ f) (wait_space f) (ready_enq f) w (S (ready_deq f))
             (enqueued f) (dequeued f)
  end.

Definition signal_has_space (k : nat) (f : state) : state :=
  match wait_space f !! (k mod length (wait_space f))%nat with
  | None => f
  | Some e =>
      mkFifo (q_ f) (max_ f) (delete (k mod length (wait_space f))%nat (wait_space f))
        (e :: ready_enq f) (wait_item f) (ready_deq f) (enqueued f) (dequeued f)
  end.

(** [enq(e, blocking)] up to its return, or up to the wait ([None]). *)
Definition enq (e : T) (blocking : bool) (f : state) : option bool * state :=
  if has_space f then
    (Some true, signal_non_empty
       (mkFifo (q_ f ++ [e]) (max_ f) (wait_space f) (ready_enq f) (wait_item f) (ready_deq f)
          (enqueued f ++ [e]) (dequeued f)))
  else if blocking then
    (None, mkFifo (q_ f) (max_ f) (wait_space f ++ [e]) (ready_enq f) (wait_item f) (ready_deq f)
             (enqueued f) (dequeued f))
  else (Some false, f).

(** [deq] up to its return, or up to the wait. *)
Definition deq (k : nat) (f : state) : option T * state :=
  match q_ f with
  | [] => (None, mkFifo (q_ f) (max_ f) (wait_space f) (ready_enq f) (S (wait_item f)) (ready_deq f)
                   (enqueued f) (dequeued f))
  | e :: q =>
      let f := mkFifo q (max_ f) (wait_space f) (ready_enq f) (wait_item f) (ready_deq f)
                 (enqueued f) (dequeued f ++ [e]) in
      (Some e, if negb (max_ f =? 0) && (Z.of_nat (length q) <? max_ f)
               then signal_has_space k f else f)
  end.

(** A woken thread goes on: the [k]-th in [enq], or one in [deq]. *)
Definition resume_enq (k : nat) (f : state) : state :=
  match ready_enq f !! k with
  | None => f
  | Some e => (enq e true (mkFifo (q_ f) (max_ f) (wait_space f) (delete k (ready_enq f))
                 (wait_item f) (ready_deq f) (enqueued f) (dequeued f))).2
  end.

Definition resume_deq (k : nat) (f : state) : state :=
  match ready_deq f with
  | O => f
  | S r => (deq k (mkFifo (q_ f) (max_ f) (wait_space f) (ready_enq f) (wait_item f) r
                    (enqueued f) (dequeued f))).2
  end.

(** Calls, resumptions and wake-ups without a signal. *)
Inductive event : Type :=
| Enq (e : T) (blocking : bool)
| Deq (k : nat)
| ResumeEnq (k : nat)
| ResumeDeq (k : nat)
| SpuriousEnq (k : nat)
| SpuriousDeq.

Definition exec (f : state) (ev : event) : state :=
  match ev with
  | Enq e b => (enq e b f).2
  | Deq k => (deq k f).2
  | ResumeEnq k => resume_enq k f
  | ResumeDeq k => resume_deq k f
  | SpuriousEnq k => signal_has_space k f
  | SpuriousDeq => signal_non_empty f
  end.

Definition run (evs : list event) (f : state) : state := fold_left exec evs f.

(** The free places of a bounded queue. *)
Definition free_places (f : state) : Z := max_ f - Z.of_nat (length (q_ f)).

(** Order, capacity, and that no wake-up is lost: while a thread waits, there
    are as many woken threads as there are places or elements for them, up to
    [ds] and [di]. *)
Record fifo_inv (ds di : nat) (f : state) : Prop := {
  ok_order : enqueued f = dequeued f ++ q_ f;
  ok_max : 0 <= max_ f;
  ok_cap : max_ f <> 0 -> Z.of_nat (length (q_ f)) <= max_ f;
  ok_unbounded : max_ f = 0 -> wait_space f = [];
  ok_space : wait_space f <> [] -> free_places f <= Z.of_nat (length (ready_enq f) + ds);
  ok_item : wait_item f <> 0%nat -> (length (q_ f) <= ready_deq f + di)%nat
}.

Definition fifo_ok : state -> Prop := fifo_inv 0 0.

Lemma inv_weaken ds di f : fifo_ok f -> fifo_inv ds di f.
Proof using Type.
  intros [Ho Hm Hc Hu Hs Hi]. split; try assumption.
  - intros Hw. specialize (Hs Hw). lia.
  - intros Hw. specialize (Hi Hw). lia.
Qed.

Lemma init_fifo_ok limit : fifo_ok (init limit).
Proof using Type.
  assert (0 <= u32 limit) by (unfold u32; apply Z.mod_pos_bound; lia). by split.
Qed.

Lemma signal_non_empty_ok f : fifo_inv 0 1 f -> fifo_ok (signal_non_empty f).
Proof using Type.
  intros [Ho Hm Hc Hu Hs Hi]. unfold signal_non_empty. destruct (wait_item f) eqn:E.
  - split; done.
  - split; cbn; try done. intros _. specialize (Hi ltac:(discriminate)). lia.
Qed.

Lemma signal_has_space_ok k f : fifo_inv 1 0 f -> fifo_ok (signal_has_space k f).
Proof using Type.
  intros [Ho Hm Hc Hu Hs Hi]. unfold signal_has_space.
  destruct (wait_space f !! (k mod length (wait_space f))%nat) as [e|] eqn:E.
  - assert (wait_space f <> []) as Hw by (intros Ew; by rewrite Ew, lookup_nil in E).
    split; cbn; try done.
    + intros Em. by rewrite Hu in E.
    + intros _. unfold free_places in *. cbn in *. specialize (Hs Hw). lia.
  - apply lookup_ge_None_1 in E.
    assert (wait_space f = []) as Ew.
    { destruct (wait_space f) as [|x l]; [done|].
      pose proof (Nat.mod_upper_bound k (length (x :: l)) ltac:(discriminate)). lia. }
    split; try done.
Qed.

(** Appending an element and taking one, before the signal. *)
Lemma push_inv e f : fifo_inv 1 0 f -> has_space f = true ->
  fifo_inv 0 1 (mkFifo (q_ f ++ [e]) (max_ f) (wait_space f) (ready_enq f) (wait_item f) (ready_deq f)
          (enqueued f ++ [e]) (dequeued f)).
Proof using Type.
  intros [Ho Hm Hc Hu Hs Hi] Hsp. unfold has_space in Hsp. unfold free_places in *.
  apply orb_true_iff in Hsp. rewrite Z.eqb_eq, Z.ltb_lt in Hsp.
  split; cbn; rewrite ?length_app; cbn.
  - by rewrite Ho, app_assoc.
  - done.
  - intros H. lia.
  - done.
  - intros Hw. destruct Hsp as [E|?]; [by rewrite (Hu E) in Hw|]. unfold free_places. cbn.
    rewrite length_app. cbn. specialize (Hs Hw). lia.
  - intros Hw. specialize (Hi Hw). lia.
Qed.

Lemma pop_inv e q f : fifo_inv 0 1 f -> q_ f = e :: q ->
  fifo_inv 1 0 (mkFifo q (max_ f) (wait_space f) (ready_enq f) (wait_item f) (ready_deq f)
                 (enqueued f) (dequeued f ++ [e])).
Proof using Type.
  intros [Ho Hm Hc Hu Hs Hi] E. unfold free_places in *. rewrite E in *. cbn in *.
  split; cbn.
  - by rewrite Ho, <-app_assoc.
  - done.
  - intros H. specialize (Hc H). lia.
  - done.
  - intros Hw. specialize (Hs Hw). unfold free_places. cbn. lia.
  - intros Hw. specialize (Hi Hw). lia.
Qed.

(** The caller of [enq] may itself be a thread that was woken. *)
Lemma enq_ok e b f : fifo_inv 1 0 f -> b = true \/ fifo_ok f -> fifo_ok (enq e b f).2.
Proof using Type.
  intros Hf Hb. unfold enq. destruct (has_space f) eqn:Hsp.
  { by apply signal_non_empty_ok, push_inv. }
  destruct b; cbn; [|by destruct Hb]. destruct Hf as [Ho Hm Hc Hu Hs Hi].
  apply orb_false_iff in Hsp as [H1%Z.eqb_neq H2%Z.ltb_ge]. split; cbn; try done.
  intros _. unfold free_places. cbn. lia.
Qed.

Lemma deq_ok k f : fifo_inv 0 1 f -> fifo_ok (deq k f).2.
Proof using Type.
  intros Hf. unfold deq. destruct (q_ f) as [|e q] eqn:E; cbn.
  { destruct Hf as [Ho Hm Hc Hu Hs Hi]. unfold free_places in *. rewrite E in *.
    split; cbn; try done. intros _. lia. }
  pose proof (pop_inv _ _ _ Hf E) as Hp. destruct Hf as [_ _ Hc Hu _ _]. rewrite E in Hc. cbn in Hc.
  destruct (Z.eqb_spec (max_ f) 0) as [E0|E0]; cbn [negb andb].
  { destruct Hp as [Ho' Hm' Hc' Hu' Hs' Hi']. split; try done. cbn. by rewrite (Hu E0). }
  destruct (Z.ltb_spec (Z.of_nat (length q)) (max_ f)); [|specialize (Hc E0); lia].
  by apply signal_has_space_ok.
Qed.

Lemma exec_fifo_ok f ev : fifo_ok f -> fifo_ok (exec f ev).
Proof using Type.
  intros Hf. destruct ev as [e b|k|k|k|k|]; cbn [exec].
  - apply enq_ok; [by apply inv_weaken|by right].
  - by apply deq_ok, inv_weaken.
  - unfold resume_enq. destruct (ready_enq f !! k) as [e|] eqn:E; [|done].
    pose proof (length_delete (ready_enq f) k (mk_is_Some _ _ E)) as El. apply lookup_lt_Some in E.
    destruct Hf as [Ho Hm Hc Hu Hs Hi]. apply enq_ok; [|by left].
    split; cbn; try done. unfold free_places in *. cbn. rewrite El. intros Hw. specialize (Hs Hw). lia.
  - unfold resume_deq. destruct (ready_deq f) as [|r] eqn:E; [done|].
    destruct Hf as [Ho Hm Hc Hu Hs Hi]. apply deq_ok.
    split; cbn; try done. intros Hw. specialize (Hi Hw). lia.
  - by apply signal_has_space_ok, inv_weaken.
  - by apply signal_non_empty_ok, inv_weaken.
Qed.

Lemma run_fifo_ok evs f : fifo_ok f -> fifo_ok (run evs f).
Proof using Type.
  revert f. induction evs as [|ev evs IH]; intros f Hf; [done|]. by apply IH, exec_fifo_ok.
Qed.

Lemma run_max evs f : max_ (run evs f) = max_ f.
Proof using Type.
  revert f. induction evs as [|ev evs IH]; intros f; [done|]. cbn. rewrite IH. clear IH.
  assert (forall g, max_ (signal_non_empty g) = max_ g) as H1.
  { intros g. unfold signal_non_empty. by destruct (wait_item g). }
  assert (forall k g, max_ (signal_has_space k g) = max_ g) as H2.
  { intros k g. unfold signal_has_space. by destruct (wait_space g !! _). }
  assert (forall e b g, max_ (enq e b g).2 = max_ g) as H3.
  { intros e b g. unfold enq. destruct (has_space g); cbn; [by rewrite H1|by destruct b]. }
  assert (forall k g, max_ (deq k g).2 = max_ g) as H4.
  { intros k g. unfold deq. destruct (q_ g) as [|e q]; cbn; [done|].
    destruct (negb _ && _); [by rewrite H2|done]. }
  destruct ev as [e b|k|k|k|k|]; cbn [exec]; try done.
  - unfold resume_enq. destruct (ready_enq f !! k); [|done]. by rewrite H3.
  - unfold resume_deq. destruct (ready_deq f); [done|]. by rewrite H4.
Qed.
End fifo.
End fifo.
