(* ===== verification/LockClient.v ===== *)
(** * The lock client

    The stubs of lock_client.cc: remote calls ([Rpc.call]) of the handlers of
    [lock_server].  A handler of [acquire] that waits for a held lock is
    [Stuck] here; the interleavings of waiting handlers are in [LockServer]. *)

From S2P Require Import Prelude Protocol LockServer Rpc.

Module lock_client.
Section lock_client.
Context `{!OkDone, Args : !Marshal (Z * Z), Int : !Marshal Z}.
(** The client's id, and the values of variables that are not initialised. *)
Context (cl_id : Z) (junk_args : Z * Z) (junk : Z).

Notation server := lock_server.server.

(** The handlers of the lock server as methods of a remote call. *)
Definition srv_stat (a : Z * Z) (r : Z) (s : server) : outcome (server * (Z * Z)) :=
  Ret (s, lock_server.stat s a.1 a.2).

Definition srv_acquire (a : Z * Z) (r : Z) (s : server) : outcome (server * (Z * Z)) :=
  match lock_server.acquire s a.1 a.2 r with
  | Some x => Ret x
  | None => Stuck
  end.

Definition srv_release (a : Z * Z) (r : Z) (s : server) : outcome (server * (Z * Z)) :=
  Ret (lock_server.release s a.1 a.2 r).1.

(** A call of a method, and [VERIFY (ret == lock_protocol::OK)]; the result is
    [r], not [ret]. *)
Definition verified (meth : Z * Z -> Z -> server -> outcome (server * (Z * Z))) (lid : Z) (s : server)
    : outcome (server * Z) :=
  '(s, (ret, r)) ← call (handler_fn meth junk_args junk) (cl_id, lid) junk s;
  if ret =? lock_protocol.OK then Ret (s, r) else Abort.

Definition stat (lid : Z) : server -> outcome (server * Z) := verified srv_stat lid.
Definition acquire (lid : Z) : server -> outcome (server * Z) := verified srv_acquire lid.
Definition release (lid : Z) : server -> outcome (server * Z) := verified srv_release lid.

Context {ODL : OkDoneLaws} {LA : MarshalLaws (Z * Z)} {LI : MarshalLaws Z}.
Context (Hjunk_args : fresh_out junk_args) (Hjunk : fresh_out junk).

Lemma verified_spec meth lid s s' st r : wire_ok (cl_id, lid) -> wire_ok r -> 0 <= st ->
  meth (cl_id, lid) junk s = Ret (s', (st, r)) ->
  verified meth lid s = if st =? lock_protocol.OK then Ret (s', r) else Abort.
Proof using ODL Hjunk Hjunk_args.
  intros Ha Hr Hst E. unfold verified.
  rewrite (call_transparent meth _ _ _ junk s s' st r) by done.
  cbn. destruct (Z.ltb_spec st 0); [lia|]. done.
Qed.
End lock_client.
End lock_client.
