(* ===== verification/Handle.v ===== *)
(** * Connection handles

    handle.h and handle.cc: the cache of remote connections that all handles
    of a process share, with its reference counts.  [hinfo] objects and
    connections live on a heap; an access to a freed one is undefined.  The
    operations of [handle_mgr] run under its mutex; [safebind] holds only the
    mutex of the [hinfo] object, and other threads run while it calls [bind]. *)

From S2P Require Import Prelude.

Module handle.

(** [struct hinfo]; [cl] is the connection, [None] for NULL, [refcnt] an [int].
    A mutex that is locked while other threads run is that of a handle whose
    [safebind] waits for [bind]: [cl_mutex] has its number and its connection. *)
Record hinfo : Type := mkHinfo {
  cl : option Z; refcnt : Z; del : bool; m : string; cl_mutex : option (nat * Z)
}.

(** [class handle_mgr], the heap of its [hinfo] objects, the live connections,
    and the number of the next connection that is made. *)
Record handle_mgr : Type := mkMgr {
  hmap : gmap string positive; heap : gmap positive hinfo; conns : gset Z; next_cl : Z
}.

Definition mgr_init : handle_mgr := mkMgr ∅ ∅ ∅ 0.

Definition deref (g : handle_mgr) (h : positive) : outcome hinfo :=
  match heap g !! h with Some x => Ret x | None => Undef end.

Definition update (h : positive) (x : hinfo) (g : handle_mgr) : handle_mgr :=
  mkMgr (hmap g) (<[h := x]> (heap g)) (conns g) (next_cl g).

(** [delete cl] *)
Definition delete_cl (c : Z) (g : handle_mgr) : outcome handle_mgr :=
  if decide (c ∈ conns g) then Ret (mkMgr (hmap g) (heap g) (conns g ∖ {[c]}) (next_cl g)) else Undef.

(** The increment of an [int] may overflow. *)
Definition get_handle (name : string) (g : handle_mgr) : outcome (handle_mgr * option positive) :=
  match hmap g !! name with
  | None =>
      let h := fresh (dom (heap g)) in
      Ret (mkMgr (<[name := h]> (hmap g)) (<[h := mkHinfo None 1 false name None]> (heap g)) (conns g) (next_cl g),
           Some h)
  | Some h =>
      x ← deref g h;
      if del x then Ret (g, None)
      else if refcnt x =? 2 ^ 31 - 1 then Undef
      else Ret (update h (mkHinfo (cl x) (refcnt x + 1) (del x) (m x) (cl_mutex x)) g, Some h)
  end.

(** Called with [handle_mutex] locked.  A mutex that is destroyed must not be
    locked. *)
Definition delete_handle_wo (name : string) (g : handle_mgr) : outcome handle_mgr :=
  match hmap g !! name with
  | None => Ret g
  | Some h =>
      x ← deref g h;
      if refcnt x =? 0 then
        g ← match cl x with Some c => delete_cl c g | None => Ret g end;
        if cl_mutex x is Some _ then Undef
        else Ret (mkMgr (delete name (hmap g)) (delete h (heap g)) (conns g) (next_cl g))
      else Ret (update h (mkHinfo (cl x) (refcnt x) true (m x) (cl_mutex x)) g)
  end.

Definition delete_handle (name : string) (g : handle_mgr) : outcome handle_mgr :=
  delete_handle_wo name g.

Definition done_handle (h : positive) (g : handle_mgr) : outcome handle_mgr :=
  x ← deref g h;
  let x := mkHinfo (cl x) (refcnt x - 1) (del x) (m x) (cl_mutex x) in
  let g := update h x g in
  if (refcnt x =? 0) && del x then delete_handle_wo (m x) g else Ret g.

(** What [safebind] does up to the call of [bind]. *)
Inductive bind_step : Type :=
| Blocked                       (* waits for [cl_mutex] *)
| Bound (cl : option Z)         (* returns *)
| Binding.                      (* calls [bind] of a new connection *)

Definition safebind (k : nat) (ho : option positive) (g : handle_mgr) : outcome (handle_mgr * bind_step) :=
  match ho with
  | None => Ret (g, Bound None)
  | Some h =>
      x ← deref g h;
      if cl_mutex x is Some _ then Ret (g, Blocked)
      else if del x then Ret (g, Bound None)
      else match cl x with
      | Some c => Ret (g, Bound (Some c))
      | None =>
          let c := next_cl g in
          let g := mkMgr (hmap g) (heap g) ({[c]} ∪ conns g) (c + 1) in
          Ret (update h (mkHinfo None (refcnt x) (del x) (m x) (Some (k, c))) g, Binding)
      end
  end.

(** The rest of [safebind], after [bind] of [c] gave [ret]. *)
Definition safebind_end (h : positive) (c ret : Z) (g : handle_mgr) : outcome (handle_mgr * option Z) :=
  x ← deref g h;
  if ret <? 0 then
    g ← delete_cl c g;
    Ret (update h (mkHinfo (cl x) (refcnt x) true (m x) None) g, cl x)
  else Ret (update h (mkHinfo (Some c) (refcnt x) (del x) (m x) None) g, Some c).

(* ------------------------------------------------------------------ *)
(** ** A process that uses handles *)

(** A [handle] object: its pointer, and what [safebind] returned last. *)
Record handle : Type := mkHandle { hp : option positive; got : option Z }.

(** The live [handle] objects of the process, by numbers. *)
Record process : Type := mkProcess { mgr : handle_mgr; handles : gmap nat handle }.

Definition process_init : process := mkProcess mgr_init ∅.

(** The object and the connection of handle [k] when a thread is in its
    [safebind], waiting for [bind]. *)
Definition binding (g : handle_mgr) (k : nat) (hd : handle) : option (positive * Z) :=
  match hp hd with
  | None => None
  | Some h =>
      match heap g !! h with
      | Some x =>
          match cl_mutex x with
          | Some (k', c) => if decide (k' = k) then Some (h, c) else None
          | None => None
          end
      | None => None
      end
  end.

(** A handle is made by its constructor, never copied, and not destroyed or used
    again while a thread is in its [safebind]; [Call] uses the connection that
    [safebind] returned. *)
Inductive event : Type :=
| New (k : nat) (name : string)
| Done (k : nat)
| Bind (k : nat)
| BindEnd (k : nat) (ret : Z)
| Call (k : nat)
| Delete (name : string).

Definition exec (p : process) (e : event) : outcome process :=
  match e with
  | New k name =>
      match handles p !! k with
      | Some _ => Ret p
      | None => '(g, h) ← get_handle name (mgr p); Ret (mkProcess g (<[k := mkHandle h None]> (handles p)))
      end
  | Done k =>
      match handles p !! k with
      | None => Ret p
      | Some hd =>
          if binding (mgr p) k hd is Some _ then Ret p
          else
            g ← match hp hd with Some h => done_handle h (mgr p) | None => Ret (mgr p) end;
            Ret (mkProcess g (delete k (handles p)))
      end
  | Bind k =>
      match handles p !! k with
      | None => Ret p
      | Some hd =>
          if binding (mgr p) k hd is Some _ then Ret p
          else
            '(g, b) ← safebind k (hp hd) (mgr p);
            Ret (mkProcess g (match b with
                              | Bound r => <[k := mkHandle (hp hd) r]> (handles p)
                              | Blocked | Binding => handles p
                              end))
      end
  | BindEnd k ret =>
      match handles p !! k with
      | None => Ret p
      | Some hd =>
          match binding (mgr p) k hd with
          | None => Ret p
          | Some (h, c) =>
              '(g, r) ← safebind_end h c ret (mgr p);
              Ret (mkProcess g (<[k := mkHandle (hp hd) r]> (handles p)))
          end
      end
  | Call k =>
      match handles p !! k with
      | Some (mkHandle _ (Some c)) => if decide (c ∈ conns (mgr p)) then Ret p else Undef
      | _ => Ret p
      end
  | Delete name => g ← delete_handle name (mgr p); Ret (mkProcess g (handles p))
  end.

Fixpoint run (p : process) (es : list event) : outcome process :=
  match es with
  | [] => Ret p
  | e :: es => p ← exec p e; run p es
  end.

(* ------------------------------------------------------------------ *)
(** ** The invariant *)

(** The handles that point to [h]. *)
Definition users (h : positive) (hs : gmap nat handle) : Z :=
  Z.of_nat (size (filter (fun p => hp p.2 = Some h) hs)).

(** The connection that an object owns: its own one, or the one that a thread
    binds for it. *)
Definition conn (x : hinfo) : option Z :=
  match cl_mutex x with Some (_, c) => Some c | None => cl x end.

(** The map and the heap belong together, every handle points to a live object,
    the reference counts are the numbers of handles, connections of objects are
    live and belong to one object, and what a handle got is its object's. *)
Record mgr_ok (p : process) : Prop := {
  ok_hmap name h : hmap (mgr p) !! name = Some h -> exists x, heap (mgr p) !! h = Some x /\ m x = name;
  ok_heap h x : heap (mgr p) !! h = Some x -> hmap (mgr p) !! m x = Some h;
  ok_users h x : heap (mgr p) !! h = Some x -> refcnt x = users h (handles p);
  ok_mutex h x k c : heap (mgr p) !! h = Some x -> cl_mutex x = Some (k, c) ->
    cl x = None /\ exists hd, handles p !! k = Some hd /\ hp hd = Some h;
  ok_conn h x c : heap (mgr p) !! h = Some x -> conn x = Some c -> c ∈ conns (mgr p);
  ok_owner h h' x x' c : heap (mgr p) !! h = Some x -> heap (mgr p) !! h' = Some x' ->
    conn x = Some c -> conn x' = Some c -> h = h';
  ok_live k hd h : handles p !! k = Some hd -> hp hd = Some h -> is_Some (heap (mgr p) !! h);
  ok_got k hd c : handles p !! k = Some hd -> got hd = Some c ->
    exists h x, hp hd = Some h /\ heap (mgr p) !! h = Some x /\ cl x = Some c;
  ok_next c : c ∈ conns (mgr p) -> c < next_cl (mgr p)
}.

Lemma users_new h hs k hd : hs !! k = None ->
  users h (<[k := hd]> hs) = users h hs + if decide (hp hd = Some h) then 1 else 0.
Proof.
  intros Hk. unfold users. rewrite map_filter_insert. cbn [snd].
  destruct (decide (hp hd = Some h)).
  - rewrite map_size_insert_None; [lia|]. apply map_lookup_filter_None. by left.
  - rewrite delete_id by done. lia.
Qed.

Lemma users_delete h hs k hd : hs !! k = Some hd ->
  users h hs = users h (delete k hs) + if decide (hp hd = Some h) then 1 else 0.
Proof.
  intros Hk. rewrite <-(insert_delete_id hs k hd Hk) at 1. apply users_new. apply lookup_delete_eq.
Qed.

Lemma users_same h hs k hd hd' : hs !! k = Some hd -> hp hd' = hp hd -> users h (<[k := hd']> hs) = users h hs.
Proof.
  intros Hk E. rewrite <-insert_delete_eq, users_new by apply lookup_delete_eq.
  rewrite (users_delete h hs k hd Hk), E. done.
Qed.

Lemma users_live h hs : (exists k hd, hs !! k = Some hd /\ hp hd = Some h) <-> 0 < users h hs.
Proof.
  unfold users. split.
  - intros (k & hd & Hk & Hh). destruct (size (filter (fun p => hp p.2 = Some h) hs)) as [|n] eqn:E; [|lia].
    apply map_size_empty_inv in E. assert (filter (fun p : nat * handle => hp p.2 = Some h) hs !! k = Some hd) as H
      by by apply map_lookup_filter_Some. by rewrite E, lookup_empty in H.
  - intros H. destruct (map_choose (filter (fun p : nat * handle => hp p.2 = Some h) hs)) as (k & hd & Hk).
    { intros E. rewrite E, map_size_empty in H. cbn in H. lia. }
    apply map_lookup_filter_Some in Hk as [Hk Hh]. by exists k, hd.
Qed.

(** Case analysis on the object or the handle that a lookup finds after an update. *)
Ltac lookups := repeat match goal with
  | H : (<[_ := _]> _) !! _ = Some _ |- _ =>
      apply lookup_insert_Some in H as [[? ?]|[? H]]; simplify_eq
  | H : (delete _ _) !! _ = Some _ |- _ => apply lookup_delete_Some in H as [? H]
  end.

Lemma conn_cl x c : (forall k c', cl_mutex x = Some (k, c') -> cl x = None) -> cl x = Some c -> conn x = Some c.
Proof. intros H Hc. unfold conn. destruct (cl_mutex x) as [[k c']|] eqn:E; [|done]. by rewrite (H _ _ eq_refl) in Hc. Qed.

(** An object changes in what the invariant says nothing about, or in its count. *)
Lemma update_ok p h x x' hs : mgr_ok p -> heap (mgr p) !! h = Some x ->
  m x' = m x -> cl x' = cl x -> cl_mutex x' = cl_mutex x -> refcnt x' = users h hs ->
  (forall h', h' <> h -> users h' hs = users h' (handles p)) ->
  (forall k c, cl_mutex x = Some (k, c) -> handles p !! k = hs !! k) ->
  (forall h' x' k c, h' <> h -> heap (mgr p) !! h' = Some x' -> cl_mutex x' = Some (k, c) -> handles p !! k = hs !! k) ->
  (forall k hd, hs !! k = Some hd -> handles p !! k = Some hd \/ got hd = None /\ forall h', hp hd = Some h' -> h' = h) ->
  mgr_ok (mkProcess (update h x' (mgr p)) hs).
Proof.
  intros Hok Hx Em Ec Ex Er Hu Hk Hk' Hh. assert (conn x' = conn x) as Ecn by (unfold conn; by rewrite Ex, Ec).
  destruct Hok as [H1 H2 H3 H4 H5 H6 H7 H8 H9]. constructor; cbn.
  - intros name h' Hn. destruct (H1 _ _ Hn) as (y & Hy & Ey). destruct (decide (h' = h)) as [->|Hne].
    + exists x'. rewrite lookup_insert_eq. split; [done|]. congruence.
    + exists y. by rewrite lookup_insert_ne.
  - intros h' y Hy. lookups; [rewrite Em|]; by apply H2.
  - intros h' y Hy. lookups; [done|]. rewrite Hu by done. by apply H3.
  - intros h' y k c Hy Hm. lookups.
    + rewrite Ex in Hm. rewrite Ec, <-(Hk _ _ Hm). by apply (H4 h' x k c).
    + rewrite <-(Hk' h' y k c) by done. by apply (H4 h' y k c).
  - intros h' y c Hy Hc. lookups; [rewrite Ecn in Hc|]; by eapply H5.
  - intros h1 h2 y1 y2 c Hy1 Hy2 Hc1 Hc2. lookups; rewrite ?Ecn in *; eauto.
  - intros k hd h' Hd Hp. destruct (decide (h' = h)) as [->|Hne]; [rewrite lookup_insert_eq; by eexists|].
    rewrite lookup_insert_ne by done. destruct (Hh _ _ Hd) as [Hd'|[_ Hp']]; [by eapply H7|]. by apply Hp' in Hp.
  - intros k hd c Hd Hg. destruct (Hh _ _ Hd) as [Hd'|[Hg' _]]; [|congruence].
    destruct (H8 _ _ _ Hd' Hg) as (h' & y & Hp & Hy & Hc). exists h'. destruct (decide (h' = h)) as [->|Hne].
    + exists x'. rewrite lookup_insert_eq. split_and!; [done..|]. congruence.
    + exists y. by rewrite lookup_insert_ne.
  - done.
Qed.

(** An object with no handles is freed. *)
Lemma free_ok p h x : mgr_ok p -> heap (mgr p) !! h = Some x -> refcnt x = 0 ->
  mgr_ok (mkProcess (mkMgr (delete (m x) (hmap (mgr p))) (delete h (heap (mgr p)))
                       (match cl x with Some c => conns (mgr p) ∖ {[c]} | None => conns (mgr p) end)
                       (next_cl (mgr p))) (handles p)).
Proof.
  intros Hok Hx H0. pose proof (ok_users p Hok h x Hx) as Hu.
  assert (forall k hd, handles p !! k = Some hd -> hp hd <> Some h) as Hno.
  { intros k hd Hk Hp. assert (0 < users h (handles p)); [|lia]. apply users_live. by exists k, hd. }
  assert (forall c, cl x = Some c -> conn x = Some c) as Hc.
  { intros c. apply conn_cl. intros k c' Hm. apply (ok_mutex p Hok h x k c' Hx Hm). }
  destruct Hok as [H1 H2 H3 H4 H5 H6 H7 H8 H9]. constructor; cbn.
  - intros name h' Hn. lookups. destruct (H1 _ _ Hn) as (y & Hy & Ey). exists y. split; [|done].
    rewrite lookup_delete_ne; [done|]. intros <-. simplify_eq.
  - intros h' y Hy. lookups. rewrite lookup_delete_ne; [by apply H2|]. intros E. apply H2 in Hx, Hy. congruence.
  - intros h' y Hy. lookups. by apply H3.
  - intros h' y k c Hy. lookups. by apply H4.
  - intros h' y c Hy Hcy. lookups. pose proof (H5 _ _ _ Hy Hcy). destruct (cl x) as [c'|] eqn:E; [|done].
    apply elem_of_difference. split; [done|]. intros Hc'%elem_of_singleton. subst c'.
    by apply (H6 h h' x y c) in Hx; auto.
  - intros h1 h2 y1 y2 c Hy1 Hy2. lookups. eauto.
  - intros k hd h' Hd Hp. destruct (H7 _ _ _ Hd Hp) as [y Hy]. exists y. rewrite lookup_delete_ne; [done|].
    intros <-. by eapply Hno.
  - intros k hd c Hd Hg. destruct (H8 _ _ _ Hd Hg) as (h' & y & Hp & Hy & Hc'). exists h', y.
    rewrite lookup_delete_ne; [done|]. intros <-. by eapply Hno.
  - intros c Hin. apply H9. destruct (cl x); [|exact Hin]. by apply elem_of_difference in Hin as [? _].
Qed.

Lemma deref_some g h x : heap g !! h = Some x -> deref g h = Ret x.
Proof. intros H. unfold deref. by rewrite H. Qed.

Lemma delete_wo_ok p name : mgr_ok p ->
  exists g, delete_handle_wo name (mgr p) = Ret g /\ mgr_ok (mkProcess g (handles p)).
Proof.
  intros Hok. unfold delete_handle_wo. destruct (hmap (mgr p) !! name) as [h|] eqn:En.
  2: { exists (mgr p). by destruct p. }
  destruct (ok_hmap p Hok name h En) as (x & Hx & <-). rewrite (deref_some _ _ _ Hx). cbn.
  destruct (Z.eqb_spec (refcnt x) 0) as [E0|E0].
  - assert (cl_mutex x = None) as ->.
    { destruct (cl_mutex x) as [[k c]|] eqn:Em; [|done]. destruct (ok_mutex p Hok h x k c Hx Em) as (_ & hd & Hd & Hp).
      assert (0 < users h (handles p)) by (apply users_live; by exists k, hd).
      pose proof (ok_users p Hok h x Hx). lia. }
    pose proof (free_ok p h x Hok Hx E0) as Hf. destruct (cl x) as [c|] eqn:Ec.
    + unfold delete_cl. rewrite decide_True. { eexists. split; [reflexivity|exact Hf]. }
      apply (ok_conn p Hok h x); [done|]. apply conn_cl; [|done]. intros k c' Hm.
      by apply (ok_mutex p Hok h x k c' Hx Hm).
    + eexists. split; [reflexivity|exact Hf].
  - eexists. split; [reflexivity|]. apply (update_ok p h x); auto. cbn. by apply ok_users.
Qed.

Lemma binding_none p k hd h x : binding (mgr p) k hd = None -> hp hd = Some h -> heap (mgr p) !! h = Some x ->
  forall c, cl_mutex x <> Some (k, c).
Proof. unfold binding. intros Hb Hp Hx c Hm. rewrite Hp, Hx, Hm, decide_True in Hb by done. done. Qed.

Lemma done_ok p k hd h : mgr_ok p -> handles p !! k = Some hd -> hp hd = Some h -> binding (mgr p) k hd = None ->
  exists g, done_handle h (mgr p) = Ret g /\ mgr_ok (mkProcess g (delete k (handles p))).
Proof.
  intros Hok Hd Hp Hb. destruct (ok_live p Hok k hd h Hd Hp) as [x Hx].
  unfold done_handle. rewrite (deref_some _ _ _ Hx). cbn.
  set (x' := mkHinfo (cl x) (refcnt x - 1) (del x) (m x) (cl_mutex x)).
  assert (mgr_ok (mkProcess (update h x' (mgr p)) (delete k (handles p)))) as Hok'.
  { apply (update_ok p h x); [done..| | | | |].
    - cbn. rewrite (ok_users p Hok h x Hx), (users_delete h (handles p) k hd Hd), decide_True by done. lia.
    - intros h' Hne. rewrite (users_delete h' (handles p) k hd Hd), decide_False by congruence. lia.
    - intros k' c Hm. rewrite lookup_delete_ne; [done|]. intros <-. by eapply binding_none.
    - intros h' y k' c Hne Hy Hm. rewrite lookup_delete_ne; [done|]. intros <-.
      destruct (ok_mutex p Hok h' y k c Hy Hm) as (_ & hd' & Hd' & Hp'). congruence.
    - intros k' hd' H. lookups. by left. }
  destruct ((refcnt x - 1 =? 0) && del x).
  - apply (delete_wo_ok _ (m x)) in Hok'. exact Hok'.
  - by eexists.
Qed.

(** A handle without object comes. *)
Lemma null_ok p k : mgr_ok p -> handles p !! k = None ->
  mgr_ok (mkProcess (mgr p) (<[k := mkHandle None None]> (handles p))).
Proof.
  intros Hok Hk. destruct Hok as [H1 H2 H3 H4 H5 H6 H7 H8 H9]. constructor; cbn; auto.
  - intros h' y Hy. rewrite users_new, decide_False by done. rewrite (H3 _ _ Hy). lia.
  - intros h' y k' c Hy Hm. destruct (H4 _ _ _ _ Hy Hm) as (? & hd & Hd & Hp). split; [done|]. exists hd.
    rewrite lookup_insert_ne by congruence. done.
  - intros k' hd h' Hd Hp. lookups. by eapply H7.
  - intros k' hd c Hd Hg. lookups. by eapply H8.
Qed.

(** A handle comes whose name has no object. *)
Lemma fresh_ok p k name : mgr_ok p -> handles p !! k = None -> hmap (mgr p) !! name = None ->
  let h := fresh (dom (heap (mgr p))) in
  mgr_ok (mkProcess (mkMgr (<[name := h]> (hmap (mgr p))) (<[h := mkHinfo None 1 false name None]> (heap (mgr p)))
                       (conns (mgr p)) (next_cl (mgr p)))
            (<[k := mkHandle (Some h) None]> (handles p))).
Proof.
  intros Hok Hk En. cbv zeta.
  assert (heap (mgr p) !! fresh (dom (heap (mgr p))) = None) as Hh by (apply not_elem_of_dom, is_fresh).
  revert Hh. generalize (fresh (dom (heap (mgr p)))) as h. intros h Hh.
  assert (users h (handles p) = 0) as Hu.
  { destruct (decide (0 < users h (handles p))) as [Hp|Hp].
    - apply users_live in Hp as (k' & hd & Hd & Hp). apply (ok_live p Hok k' hd h Hd) in Hp. by rewrite Hh in Hp; destruct Hp.
    - unfold users in *. lia. }
  destruct Hok as [H1 H2 H3 H4 H5 H6 H7 H8 H9]. constructor; cbn.
  - intros name' h' Hm. lookups; [eexists; by rewrite lookup_insert_eq|]. destruct (H1 _ _ Hm) as (y & Hy & Ey).
    exists y. rewrite lookup_insert_ne by congruence. done.
  - intros h' y Hy. lookups; [apply lookup_insert_eq|]. pose proof (H2 _ _ Hy).
    rewrite lookup_insert_ne by congruence. done.
  - intros h' y Hy. rewrite users_new by done. cbn [hp]. lookups; cbn [refcnt].
    + rewrite decide_True by done. by rewrite Hu.
    + rewrite decide_False by congruence. rewrite (H3 _ _ Hy). lia.
  - intros h' y k' c Hy Hm. lookups. destruct (H4 _ _ _ _ Hy Hm) as (? & hd & Hd & Hp). split; [done|].
    exists hd. rewrite lookup_insert_ne by congruence. done.
  - intros h' y c Hy Hc. lookups. by eapply H5.
  - intros h1 h2 y1 y2 c Hy1 Hy2 Hc1 Hc2. lookups. eauto.
  - intros k' hd h' Hd Hp. lookups; [injection Hp as <-; rewrite lookup_insert_eq; by eexists|]. destruct (H7 _ _ _ Hd Hp) as [y Hy].
    exists y. rewrite lookup_insert_ne by congruence. done.
  - intros k' hd c Hd Hg. lookups. destruct (H8 _ _ _ Hd Hg) as (h' & y & Hp & Hy & Hc). exists h', y.
    rewrite lookup_insert_ne by congruence. done.
  - done.
Qed.

Lemma new_ok p k name : mgr_ok p -> handles p !! k = None -> Z.of_nat (size (handles p)) < 2 ^ 31 - 1 ->
  exists g h, get_handle name (mgr p) = Ret (g, h) /\ mgr_ok (mkProcess g (<[k := mkHandle h None]> (handles p))).
Proof.
  intros Hok Hk Hn. unfold get_handle. destruct (hmap (mgr p) !! name) as [h|] eqn:En.
  - destruct (ok_hmap p Hok name h En) as (x & Hx & Em). rewrite (deref_some _ _ _ Hx). cbn.
    destruct (del x) eqn:Ed.
    + do 2 eexists. split; [reflexivity|]. by apply null_ok.
    + assert (refcnt x < 2 ^ 31 - 1) as Hr.
      { rewrite (ok_users p Hok h x Hx). unfold users. pose proof (map_size_filter (fun p => hp p.2 = Some h) (handles p)). lia. }
      destruct (Z.eqb_spec (refcnt x) (2 ^ 31 - 1)) as [|_]; [lia|]. do 2 eexists. split; [reflexivity|].
      apply (update_ok p h x); [done..| | | | |].
      * cbn [refcnt]. rewrite users_new, decide_True by done. by rewrite (ok_users p Hok h x Hx).
      * intros h' Hne. rewrite users_new by done. cbn [hp]. rewrite decide_False by congruence. lia.
      * intros k' c Hm. destruct (ok_mutex p Hok h x k' c Hx Hm) as (_ & hd & Hd & _).
        rewrite lookup_insert_ne by congruence. done.
      * intros h' y k' c _ Hy Hm. destruct (ok_mutex p Hok h' y k' c Hy Hm) as (_ & hd & Hd & _).
        rewrite lookup_insert_ne by congruence. done.
      * intros k' hd Hd. lookups; [right|by left]. split; [done|]. cbn. congruence.
  - do 2 eexists. split; [reflexivity|]. by apply fresh_ok.
Qed.

(** What handle [k] got is recorded. *)
Lemma got_ok p k hd r : mgr_ok p -> handles p !! k = Some hd ->
  (forall c, r = Some c -> exists h x, hp hd = Some h /\ heap (mgr p) !! h = Some x /\ cl x = Some c) ->
  mgr_ok (mkProcess (mgr p) (<[k := mkHandle (hp hd) r]> (handles p))).
Proof.
  intros [H1 H2 H3 H4 H5 H6 H7 H8 H9] Hd Hr. constructor; cbn; auto.
  - intros h x Hx. rewrite (users_same h (handles p) k hd) by done. auto.
  - intros h x k' c Hx Hm. destruct (H4 _ _ _ _ Hx Hm) as (? & hd' & Hd' & Hp). split; [done|].
    destruct (decide (k' = k)) as [->|Hne].
    + eexists. rewrite lookup_insert_eq. split; [done|]. cbn. congruence.
    + exists hd'. by rewrite lookup_insert_ne.
  - intros k' hd' h Hd' Hp. lookups; [|by eapply H7]. by apply (H7 k' hd).
  - intros k' hd' c Hd' Hg. lookups; [|by eapply H8]. by apply Hr.
Qed.

(** The mutex of an object without connection is locked or unlocked: handle [k]
    binds a new connection, or has bound one or failed. *)
Lemma mutex_ok p h x x' cs : mgr_ok p -> heap (mgr p) !! h = Some x -> cl x = None ->
  m x' = m x -> refcnt x' = refcnt x ->
  (forall k c, cl_mutex x' = Some (k, c) -> cl x' = None /\ exists hd, handles p !! k = Some hd /\ hp hd = Some h) ->
  (forall c, conn x' = Some c -> c ∈ cs /\ forall h' y, h' <> h -> heap (mgr p) !! h' = Some y -> conn y <> Some c) ->
  (forall h' y c, h' <> h -> heap (mgr p) !! h' = Some y -> conn y = Some c -> c ∈ cs) ->
  forall n, (forall c, c ∈ cs -> c < n) ->
  mgr_ok (mkProcess (mkMgr (hmap (mgr p)) (<[h := x']> (heap (mgr p))) cs n) (handles p)).
Proof.
  intros [H1 H2 H3 H4 H5 H6 H7 H8 H9] Hx Ec Em Er Hm Hc Hcs n Hn. constructor; cbn.
  - intros name h' Hh. destruct (H1 _ _ Hh) as (y & Hy & Ey). destruct (decide (h' = h)) as [->|Hne].
    + exists x'. rewrite lookup_insert_eq. split; [done|]. congruence.
    + exists y. by rewrite lookup_insert_ne.
  - intros h' y Hy. lookups; [rewrite Em|]; auto.
  - intros h' y Hy. lookups; [rewrite Er|]; auto.
  - intros h' y k c Hy Hm'. lookups; [by apply (Hm k c)|]. by apply (H4 h' y k c).
  - intros h' y c Hy Hc'. lookups; [by apply Hc|]. by apply (Hcs h' y).
  - intros h1 h2 y1 y2 c Hy1 Hy2 Hc1 Hc2. lookups; eauto.
    + by destruct (proj2 (Hc c Hc2) h1 y1).
    + by destruct (proj2 (Hc c Hc1) h2 y2).
  - intros k hd h' Hd Hp. destruct (decide (h' = h)) as [->|Hne]; [rewrite lookup_insert_eq; by eexists|].
    rewrite lookup_insert_ne by done. by eapply H7.
  - intros k hd c Hd Hg. destruct (H8 _ _ _ Hd Hg) as (h' & y & Hp & Hy & Hc'). exists h', y.
    rewrite lookup_insert_ne by congruence. done.
  - done.
Qed.

Lemma bind_ok p k hd : mgr_ok p -> handles p !! k = Some hd ->
  exists g b, safebind k (hp hd) (mgr p) = Ret (g, b) /\
    mgr_ok (mkProcess g (match b with
                         | Bound r => <[k := mkHandle (hp hd) r]> (handles p)
                         | Blocked | Binding => handles p
                         end)).
Proof.
  intros Hok Hd. unfold safebind. destruct (hp hd) as [h|] eqn:Ep.
  2: { do 2 eexists. split; [reflexivity|]. rewrite <-Ep. by apply got_ok. }
  destruct (ok_live p Hok k hd h Hd Ep) as [x Hx]. rewrite (deref_some _ _ _ Hx). cbn.
  destruct (cl_mutex x) as [[k' c']|] eqn:Em; [do 2 eexists; split; [reflexivity|by destruct p]|].
  destruct (del x); [do 2 eexists; split; [reflexivity|]; rewrite <-Ep; by apply got_ok|].
  destruct (cl x) as [c|] eqn:Ec.
  - do 2 eexists. split; [reflexivity|]. rewrite <-Ep. apply got_ok; [done..|]. intros c' [= <-]. by exists h, x.
  - do 2 eexists. split; [reflexivity|].
    assert (forall h' y, heap (mgr p) !! h' = Some y -> conn y <> Some (next_cl (mgr p))) as Hfresh.
    { intros h' y Hy Hc. apply (ok_conn p Hok h' y _ Hy), (ok_next p Hok) in Hc. lia. }
    apply (mutex_ok p h x); [done..| | | |].
    + intros k' c' [= <- <-]. split; [done|]. by exists hd.
    + intros c' [= <-]. split; [set_solver|]. eauto.
    + intros h' y c' Hne Hy Hc. apply elem_of_union_r. by apply (ok_conn p Hok h' y).
    + intros c' [->%elem_of_singleton|Hc]%elem_of_union; cbn; [lia|]. pose proof (ok_next p Hok c' Hc). lia.
Qed.

Lemma binding_some p k hd h c : mgr_ok p -> binding (mgr p) k hd = Some (h, c) ->
  exists x, heap (mgr p) !! h = Some x /\ hp hd = Some h /\ cl_mutex x = Some (k, c) /\ cl x = None.
Proof.
  intros Hok. unfold binding. destruct (hp hd) as [h'|]; [|done]. destruct (heap (mgr p) !! h') as [x|] eqn:Hx; [|done].
  destruct (cl_mutex x) as [[k' c']|] eqn:Em; [|done]. destruct (decide (k' = k)) as [->|]; [|done].
  intros [= -> ->]. exists x. split_and!; [done..|]. by apply (ok_mutex p Hok h x k c).
Qed.

Lemma bind_end_ok p k hd h c ret : mgr_ok p -> handles p !! k = Some hd -> binding (mgr p) k hd = Some (h, c) ->
  exists g r, safebind_end h c ret (mgr p) = Ret (g, r) /\
    mgr_ok (mkProcess g (<[k := mkHandle (hp hd) r]> (handles p))).
Proof.
  intros Hok Hd Hb. destruct (binding_some p k hd h c Hok Hb) as (x & Hx & Hp & Em & Ec).
  assert (conn x = Some c) as Hc by (unfold conn; by rewrite Em). pose proof (ok_conn p Hok h x c Hx Hc) as Hin.
  unfold safebind_end. rewrite (deref_some _ _ _ Hx). cbn. rewrite Ec.
  assert (forall h' y, h' <> h -> heap (mgr p) !! h' = Some y -> conn y <> Some c) as Hone.
  { intros h' y Hne Hy Hc'. apply Hne. by apply (ok_owner p Hok h' h y x c). }
  destruct (ret <? 0).
  - unfold delete_cl. rewrite decide_True by done. do 2 eexists. split; [reflexivity|].
    set (x' := mkHinfo None (refcnt x) true (m x) None).
    refine (got_ok (mkProcess (mkMgr (hmap (mgr p)) (<[h := x']> (heap (mgr p))) (conns (mgr p) ∖ {[c]})
      (next_cl (mgr p))) (handles p)) k hd None _ Hd _); [|done].
    apply (mutex_ok p h x); [done..| |].
    + intros h' y c' Hne Hy Hc'. apply elem_of_difference. split; [by apply (ok_conn p Hok h' y)|].
      intros ->%elem_of_singleton. by apply (Hone h' y).
    + intros c' [Hc' _]%elem_of_difference. by apply ok_next.
  - do 2 eexists. split; [reflexivity|]. set (x' := mkHinfo (Some c) (refcnt x) (del x) (m x) None).
    refine (got_ok (mkProcess (update h x' (mgr p)) (handles p)) k hd (Some c) _ Hd _).
    + apply (mutex_ok p h x); [done..| | |].
      * intros c' [= <-]. split; [done|]. exact Hone.
      * intros h' y c' Hne. by apply ok_conn.
      * intros c'. by apply ok_next.
    + intros c' [= <-]. exists h, x'. split; [done|]. split; [apply lookup_insert_eq|done].
Qed.

(** The connection that a handle got is live. *)
Lemma got_live p (Hok : mgr_ok p) k hd c : handles p !! k = Some hd -> got hd = Some c -> c ∈ conns (mgr p).
Proof.
  intros Hk Hg. destruct (ok_got p Hok k hd c Hk Hg) as (h & x & _ & Hx & Hc).
  apply (ok_conn p Hok h x c Hx), conn_cl; [|done]. intros k' c' Hm. by apply (ok_mutex p Hok h x k' c' Hx Hm).
Qed.

Lemma exec_ok p e : mgr_ok p -> Z.of_nat (size (handles p)) < 2 ^ 31 - 1 ->
  exists p', exec p e = Ret p' /\ mgr_ok p' /\ (size (handles p') <= S (size (handles p)))%nat.
Proof.
  intros Hok Hn. destruct e as [k name|k|k|k ret|k|name]; cbn.
  - destruct (handles p !! k) eqn:Hk; [exists p; split_and!; [done..|lia]|].
    destruct (new_ok p k name Hok Hk Hn) as (g & h & -> & Hg). eexists. split; [reflexivity|]. split; [done|].
    cbn. rewrite map_size_insert_None by done. lia.
  - destruct (handles p !! k) as [hd|] eqn:Hk; [|exists p; split_and!; [done..|lia]].
    destruct (binding (mgr p) k hd) eqn:Hb; [exists p; split_and!; [done..|lia]|].
    assert (size (delete k (handles p)) <= S (size (handles p)))%nat as Hs by (rewrite map_size_delete, Hk; lia).
    destruct (hp hd) as [h|] eqn:Hp.
    + destruct (done_ok p k hd h Hok Hk Hp Hb) as (g & -> & Hg). by eexists.
    + eexists. split; [reflexivity|]. split; [|done]. destruct Hok as [H1 H2 H3 H4 H5 H6 H7 H8 H9].
      constructor; cbn; auto.
      * intros h x Hx. rewrite (H3 h x Hx), (users_delete h _ k hd Hk), decide_False by congruence. lia.
      * intros h x k' c Hx Hm. destruct (H4 _ _ _ _ Hx Hm) as (? & hd' & Hd' & Hp'). split; [done|]. exists hd'.
        rewrite lookup_delete_ne by congruence. done.
      * intros k' hd' h Hd'. lookups. by apply (H7 k').
      * intros k' hd' c Hd'. lookups. by apply (H8 k').
  - destruct (handles p !! k) as [hd|] eqn:Hk; [|exists p; split_and!; [done..|lia]].
    destruct (binding (mgr p) k hd) eqn:Hb; [exists p; split_and!; [done..|lia]|].
    destruct (bind_ok p k hd Hok Hk) as (g & b & -> & Hg). eexists. split; [reflexivity|]. split; [done|]. cbn.
    destruct b; try lia. rewrite map_size_insert_Some by eauto. lia.
  - destruct (handles p !! k) as [hd|] eqn:Hk; [|exists p; split_and!; [done..|lia]].
    destruct (binding (mgr p) k hd) as [[h c]|] eqn:Hb; [|exists p; split_and!; [done..|lia]].
    destruct (bind_end_ok p k hd h c ret Hok Hk Hb) as (g & r & -> & Hg). eexists. split; [reflexivity|].
    split; [done|]. cbn. rewrite map_size_insert_Some by eauto. lia.
  - destruct (handles p !! k) as [[h [c|]]|] eqn:Hk; [|exists p; split_and!; [done..|lia]..].
    rewrite decide_True by by eapply (got_live p Hok k). exists p; split_and!; [done..|lia].
  - unfold delete_handle. destruct (delete_wo_ok p name Hok) as (g & -> & Hg). eexists. split; [reflexivity|]. split; [done|]. cbn. lia.
Qed.

Lemma process_init_ok : mgr_ok process_init.
Proof. constructor; cbn; intros; set_solver. Qed.

Lemma run_ok es p : mgr_ok p -> Z.of_nat (size (handles p) + length es) < 2 ^ 31 ->
  exists p', run p es = Ret p' /\ mgr_ok p'.
Proof.
  revert p. induction es as [|e es IH]; intros p Hok Hn; cbn in *; [by exists p|].
  destruct (exec_ok p e Hok) as (p' & -> & Hok' & Hs); [lia|]. apply IH; [done|lia].
Qed.
End handle.
