(* ===== verification/Protobuf.v ===== *)
(** * Protobuf messages on the wire

    The parts of the protobuf runtime and of the generated code that the
    packets between clients and data nodes use: varints, little endian
    integers and tags of io/coded_stream.h and wire_format_lite_inl.h, and the
    message [PacketHeaderProto] of datanode.pb.cc.  A coded input stream is the
    list of bytes up to its current limit; the functions of the runtime that
    have no source here are the operations of a class. *)

From S2P Require Import Prelude.

(* ------------------------------------------------------------------ *)
(** ** io/coded_stream.h *)

(** The loop of [WriteVarint32ToArray]; a [uint32] has at most five groups of
    seven bits. *)
Fixpoint varint_loop (fuel : nat) (value : Z) : list byte :=
  if value >=? 0x80 then
    match fuel with
    | O => []
    | S fuel => to_byte (Z.lor value 0x80) :: varint_loop fuel (Z.shiftr value 7)
    end
  else [to_byte value].

Definition WriteVarint32ToArray (value : Z) : list byte := varint_loop 4 value.

Definition WriteLittleEndian32ToArray (value : Z) : list byte := le_bytes 4 value.
Definition WriteLittleEndian64ToArray (value : Z) : list byte := le_bytes 8 value.

(** [ReadRaw] of [n] bytes. *)
Definition ReadRaw (n : nat) (l : list byte) : option (list byte * list byte) :=
  if (length l <? n)%nat then None else Some (take n l, drop n l).

Definition ReadLittleEndian32 (l : list byte) : option (Z * list byte) :=
  '(v, l) ← ReadRaw 4 l; Some (le_val v, l).
Definition ReadLittleEndian64 (l : list byte) : option (Z * list byte) :=
  '(v, l) ← ReadRaw 8 l; Some (le_val v, l).

(** The functions of the runtime whose source is not part of the program:
    the slow path of reading a tag (the tag, whether the message has ended at
    the limit, and the rest), the slow path of reading a varint, skipping a
    field of an unknown number (its bytes and the rest), and the size of a
    varint. *)
Class ProtobufRuntime : Type := {
  ReadTagFallback : list byte -> Z * bool * list byte;
  ReadVarint64Fallback : list byte -> option (Z * list byte);
  SkipField : Z -> list byte -> option (list byte * list byte);
  VarintSize64 : Z -> Z
}.

(** At the limit there is no tag, and the message has ended; [VarintSize64]
    is the number of bytes of a varint. *)
Class RuntimeLaws `{!ProtobufRuntime} : Prop := {
  tag_at_end : ReadTagFallback [] = (0, true, []);
  varint_size v : 0 <= v < 2 ^ 32 -> VarintSize64 v = Z.of_nat (length (WriteVarint32ToArray v))
}.

Section stream.
Context `{!ProtobufRuntime}.

Definition ReadVarint64 (l : list byte) : option (Z * list byte) :=
  match l with
  | b :: l' => if byte_val b <? 0x80 then Some (byte_val b, l') else ReadVarint64Fallback l
  | [] => ReadVarint64Fallback l
  end.

(** The tag, whether it is at most [cutoff], whether the message has ended,
    and the rest. *)
Definition ReadTagWithCutoff (cutoff : Z) (l : list byte) : Z * bool * bool * list byte :=
  let slow :=
    let '(tag, fin, l') := ReadTagFallback l in
    (tag, u32 (tag - 1) <? cutoff, fin, l') in
  match l with
  | [] => slow
  | b0 :: l' =>
      if 0 <? char_val b0 then
        (byte_val b0, (0x7f <=? cutoff) || (byte_val b0 <=? cutoff), false, l')
      else
        match l' with
        | b1 :: l'' =>
            if (0x80 <=? cutoff) && (0x80 <=? Z.ldiff (byte_val b0) (byte_val b1)) then
              let tag := 2 ^ 7 * byte_val b1 + (byte_val b0 - 0x80) in
              (tag, (0x3fff <=? cutoff) || (tag <=? cutoff), false, l'')
            else slow
        | [] => slow
        end
  end.

(* ------------------------------------------------------------------ *)
(** ** wire_format_lite_inl.h *)

Definition MakeTag (field_number type : Z) : Z := Z.lor (Z.shiftl field_number 3) type.
Definition WIRETYPE_VARINT : Z := 0.
Definition WIRETYPE_FIXED64 : Z := 1.
Definition WIRETYPE_END_GROUP : Z := 4.
Definition WIRETYPE_FIXED32 : Z := 5.

Definition WriteSFixed64ToArray (field_number value : Z) : list byte :=
  WriteVarint32ToArray (MakeTag field_number WIRETYPE_FIXED64) ++
  WriteLittleEndian64ToArray (u64 value).
Definition WriteSFixed32ToArray (field_number value : Z) : list byte :=
  WriteVarint32ToArray (MakeTag field_number WIRETYPE_FIXED32) ++
  WriteLittleEndian32ToArray (u32 value).
Definition WriteBoolToArray (field_number : Z) (value : bool) : list byte :=
  WriteVarint32ToArray (MakeTag field_number WIRETYPE_VARINT) ++
  WriteVarint32ToArray (if value then 1 else 0).

(** [ReadPrimitive] for TYPE_SFIXED64, TYPE_SFIXED32 and TYPE_BOOL. *)
Definition ReadSFixed64 (l : list byte) : option (Z * list byte) :=
  '(temp, l) ← ReadLittleEndian64 l; Some (sint 64 temp, l).
Definition ReadSFixed32 (l : list byte) : option (Z * list byte) :=
  '(temp, l) ← ReadLittleEndian32 l; Some (sint 32 temp, l).
Definition ReadBool (l : list byte) : option (bool * list byte) :=
  '(temp, l) ← ReadVarint64 l; Some (negb (temp =? 0), l).

(* ------------------------------------------------------------------ *)
(** ** PacketHeaderProto *)

(** A field is [None] while its bit in [_has_bits_] is not set; unknown fields
    are kept as their bytes. *)
Record PacketHeaderProto : Type := mkPacketHeader {
  h_offsetinblock : option Z;
  h_seqno : option Z;
  h_lastpacketinblock : option bool;
  h_datalen : option Z;
  h_syncblock : option bool;
  h_unknown_fields : list byte
}.

Definition header_default : PacketHeaderProto := mkPacketHeader None None None None None [].

(** The accessors give the default of a field that is not set. *)
Definition datalen (h : PacketHeaderProto) : Z := default 0 (h_datalen h).
Definition header_seqno (h : PacketHeaderProto) : Z := default 0 (h_seqno h).

Definition field {A} (write : A -> list byte) (x : option A) : list byte :=
  match x with Some a => write a | None => [] end.

Definition InternalSerializeWithCachedSizesToArray (h : PacketHeaderProto) : list byte :=
  field (WriteSFixed64ToArray 1) (h_offsetinblock h) ++
  field (WriteSFixed64ToArray 2) (h_seqno h) ++
  field (WriteBoolToArray 3) (h_lastpacketinblock h) ++
  field (WriteSFixed32ToArray 4) (h_datalen h) ++
  field (WriteBoolToArray 5) (h_syncblock h) ++
  h_unknown_fields h.

Definition is_set {A} (x : option A) : bool := match x with Some _ => true | None => false end.

Definition IsInitialized (h : PacketHeaderProto) : bool :=
  is_set (h_offsetinblock h) && is_set (h_seqno h) && is_set (h_lastpacketinblock h) &&
  is_set (h_datalen h).

Definition RequiredFieldsByteSizeFallback (h : PacketHeaderProto) : Z :=
  (if is_set (h_offsetinblock h) then 1 + 8 else 0) +
  (if is_set (h_seqno h) then 1 + 8 else 0) +
  (if is_set (h_lastpacketinblock h) then 1 + 1 else 0) +
  (if is_set (h_datalen h) then 1 + 4 else 0).

Definition ByteSize (h : PacketHeaderProto) : Z :=
  (if IsInitialized h then (1 + 8) + (1 + 8) + (1 + 1) + (1 + 4)
   else RequiredFieldsByteSizeFallback h) +
  (if is_set (h_syncblock h) then 1 + 1 else 0) +
  Z.of_nat (length (h_unknown_fields h)).

Definition set_offset (v : Z) (h : PacketHeaderProto) : PacketHeaderProto :=
  mkPacketHeader (Some v) (h_seqno h) (h_lastpacketinblock h) (h_datalen h) (h_syncblock h)
    (h_unknown_fields h).
Definition set_seqno (v : Z) (h : PacketHeaderProto) : PacketHeaderProto :=
  mkPacketHeader (h_offsetinblock h) (Some v) (h_lastpacketinblock h) (h_datalen h) (h_syncblock h)
    (h_unknown_fields h).
Definition set_last (v : bool) (h : PacketHeaderProto) : PacketHeaderProto :=
  mkPacketHeader (h_offsetinblock h) (h_seqno h) (Some v) (h_datalen h) (h_syncblock h)
    (h_unknown_fields h).
Definition set_datalen (v : Z) (h : PacketHeaderProto) : PacketHeaderProto :=
  mkPacketHeader (h_offsetinblock h) (h_seqno h) (h_lastpacketinblock h) (Some v) (h_syncblock h)
    (h_unknown_fields h).
Definition set_sync (v : bool) (h : PacketHeaderProto) : PacketHeaderProto :=
  mkPacketHeader (h_offsetinblock h) (h_seqno h) (h_lastpacketinblock h) (h_datalen h) (Some v)
    (h_unknown_fields h).
Definition add_unknown (d : list byte) (h : PacketHeaderProto) : PacketHeaderProto :=
  mkPacketHeader (h_offsetinblock h) (h_seqno h) (h_lastpacketinblock h) (h_datalen h)
    (h_syncblock h) (h_unknown_fields h ++ d).

(** What a parse gives: the message, and failure ([None]), or whether the whole
    input was consumed and the rest. *)
Definition parse_result : Type := PacketHeaderProto * option (bool * list byte).

(** [handle_unusual]: the end of the message, or a field that is skipped. *)
Definition handle_unusual (k : list byte -> PacketHeaderProto -> outcome parse_result)
    (tag : Z) (fin : bool) (l : list byte) (h : PacketHeaderProto) : outcome parse_result :=
  if (tag =? 0) || (Z.land tag 7 =? WIRETYPE_END_GROUP) then Ret (h, Some (fin, l))
  else match SkipField tag l with
       | None => Ret (h, None)
       | Some (d, l) => k l (add_unknown d h)
       end.

(** One field: [DO_(read)], the assignment, and the next turn of the loop. *)
Definition read_field {A} (read : list byte -> option (A * list byte))
    (set : A -> PacketHeaderProto -> PacketHeaderProto)
    (k : list byte -> PacketHeaderProto -> outcome parse_result)
    (l : list byte) (h : PacketHeaderProto) : outcome parse_result :=
  match read l with
  | None => Ret (h, None)
  | Some (v, l) => k l (set v h)
  end.

(** The loop of [MergePartialFromCodedStream].  [ExpectTag] followed by the
    jump to the next field is a turn of the loop; every turn but the last one
    takes a tag from the input. *)
Fixpoint merge_loop (fuel : nat) (l : list byte) (h : PacketHeaderProto) : outcome parse_result :=
  match fuel with
  | O => Stuck
  | S fuel =>
      let k := merge_loop fuel in
      let '(tag, ok, fin, l) := ReadTagWithCutoff 127 l in
      let unusual := handle_unusual k tag fin l h in
      if negb ok then unusual
      else
        let number := Z.shiftr tag 3 in
        if number =? 1 then
          if tag =? 9 then read_field ReadSFixed64 set_offset k l h else unusual
        else if number =? 2 then
          if tag =? 17 then read_field ReadSFixed64 set_seqno k l h else unusual
        else if number =? 3 then
          if tag =? 24 then read_field ReadBool set_last k l h else unusual
        else if number =? 4 then
          if tag =? 37 then read_field ReadSFixed32 set_datalen k l h else unusual
        else if number =? 5 then
          if tag =? 40 then
            read_field ReadBool set_sync
              (fun l h => if decide (l = []) then Ret (h, Some (true, l)) else k l h) l h
          else unusual
        else unusual
  end.

Definition MergePartialFromCodedStream (l : list byte) (h : PacketHeaderProto)
    : outcome parse_result :=
  merge_loop (S (length l)) l h.

(** [ParseFromCodedStream] and [CheckEntireMessageConsumedAndPopLimit] on the
    bytes up to the limit: the message, and whether both succeed. *)
Definition parse_header (l : list byte) : outcome (PacketHeaderProto * bool) :=
  '(h, r) ← MergePartialFromCodedStream l header_default;
  Ret (h, match r with Some (fin, _) => IsInitialized h && fin | None => false end).
End stream.
