(* ===== verification/ProtobufFacts.v ===== *)
(** * Round trips of protobuf messages

    The packet header survives writing and parsing, has the size that
    [ByteSize] computes, and needs exactly the 25 bytes that both ends of a
    connection expect. *)

From S2P Require Import Prelude Protobuf.

Lemma ReadRaw_app n l rest : length l = n -> ReadRaw n (l ++ rest) = Some (l, rest).
Proof.
  intros <-. unfold ReadRaw. rewrite length_app.
  destruct (Nat.ltb_spec (length l + length rest) (length l)); [lia|].
  by rewrite take_app_length, drop_app_length.
Qed.

Lemma lor_small a b w : 0 <= a < 2 ^ w -> 0 <= b < 2 ^ w -> 0 <= w -> Z.lor a b < 2 ^ w.
Proof.
  intros Ha Hb Hw. destruct (Z.eq_dec (Z.lor a b) 0) as [->|Hne]; [lia|].
  assert (0 <= Z.lor a b) by (apply Z.lor_nonneg; lia).
  apply Z.log2_lt_pow2; [lia|]. rewrite Z.log2_lor by lia.
  destruct (Z.eq_dec a 0) as [->|], (Z.eq_dec b 0) as [->|]; [done| | |];
    apply Z.max_lub_lt; try (apply Z.log2_lt_pow2; lia).
  all: assert (0 < w) by (destruct (Z.eq_dec w 0) as [->|]; lia); done.
Qed.

Section facts.
Context `{!ProtobufRuntime}.

Lemma ReadSFixed64_le v rest : - 2 ^ 63 <= v < 2 ^ 63 ->
  ReadSFixed64 (le_bytes 8 (u64 v) ++ rest) = Some (v, rest).
Proof using Type.
  intros Hv. unfold ReadSFixed64, ReadLittleEndian64. rewrite (ReadRaw_app 8) by apply length_le_bytes.
  cbn - [le_bytes le_val]. rewrite le_val_bytes. unfold u64. change (256 ^ Z.of_nat 8) with (2 ^ 64).
  rewrite Z.mod_mod by lia. by rewrite sint_mod by lia.
Qed.

Lemma ReadSFixed32_le v rest : - 2 ^ 31 <= v < 2 ^ 31 ->
  ReadSFixed32 (le_bytes 4 (u32 v) ++ rest) = Some (v, rest).
Proof using Type.
  intros Hv. unfold ReadSFixed32, ReadLittleEndian32. rewrite (ReadRaw_app 4) by apply length_le_bytes.
  cbn - [le_bytes le_val]. rewrite le_val_bytes. unfold u32. change (256 ^ Z.of_nat 4) with (2 ^ 32).
  rewrite Z.mod_mod by lia. by rewrite sint_mod by lia.
Qed.

(** One turn of the loop per field. *)
Lemma merge_offset fuel v rest h : - 2 ^ 63 <= v < 2 ^ 63 ->
  merge_loop (S fuel) (WriteSFixed64ToArray 1 v ++ rest) h = merge_loop fuel rest (set_offset v h).
Proof using Type.
  intros Hv. change (WriteSFixed64ToArray 1 v ++ rest) with (x09 :: le_bytes 8 (u64 v) ++ rest).
  cbn [merge_loop]. change (ReadTagWithCutoff 127 (x09 :: ?l)) with (9, true, false, l).
  cbn - [merge_loop le_bytes]. unfold read_field. by rewrite ReadSFixed64_le.
Qed.

Lemma merge_seqno fuel v rest h : - 2 ^ 63 <= v < 2 ^ 63 ->
  merge_loop (S fuel) (WriteSFixed64ToArray 2 v ++ rest) h = merge_loop fuel rest (set_seqno v h).
Proof using Type.
  intros Hv. change (WriteSFixed64ToArray 2 v ++ rest) with (x11 :: le_bytes 8 (u64 v) ++ rest).
  cbn [merge_loop]. change (ReadTagWithCutoff 127 (x11 :: ?l)) with (17, true, false, l).
  cbn - [merge_loop le_bytes]. unfold read_field. by rewrite ReadSFixed64_le.
Qed.

Lemma merge_last fuel v rest h :
  merge_loop (S fuel) (WriteBoolToArray 3 v ++ rest) h = merge_loop fuel rest (set_last v h).
Proof using Type. by destruct v. Qed.

Lemma merge_datalen fuel v rest h : - 2 ^ 31 <= v < 2 ^ 31 ->
  merge_loop (S fuel) (WriteSFixed32ToArray 4 v ++ rest) h = merge_loop fuel rest (set_datalen v h).
Proof using Type.
  intros Hv. change (WriteSFixed32ToArray 4 v ++ rest) with (x25 :: le_bytes 4 (u32 v) ++ rest).
  cbn [merge_loop]. change (ReadTagWithCutoff 127 (x25 :: ?l)) with (37, true, false, l).
  cbn - [merge_loop le_bytes]. unfold read_field. by rewrite ReadSFixed32_le.
Qed.

Lemma merge_sync fuel v h :
  merge_loop (S fuel) (WriteBoolToArray 5 v) h = Ret (set_sync v h, Some (true, [])).
Proof using Type. by destruct v. Qed.

(** A header whose required fields are set to values of their types. *)
Definition header_ok (h : PacketHeaderProto) : Prop :=
  exists off seq last len sync, h = mkPacketHeader (Some off) (Some seq) (Some last) (Some len) sync [] /\
    - 2 ^ 63 <= off < 2 ^ 63 /\ - 2 ^ 63 <= seq < 2 ^ 63 /\ - 2 ^ 31 <= len < 2 ^ 31.

(** The sizes of the fields. *)
Lemma length_field {A} (write : A -> list byte) (x : option A) n :
  (forall a, Z.of_nat (length (write a)) = n) ->
  Z.of_nat (length (field write x)) = if is_set x then n else 0.
Proof using Type. intros Hw. destruct x; [apply Hw|done]. Qed.

Lemma length_SFixed64 f v : 0 <= f < 16 -> Z.of_nat (length (WriteSFixed64ToArray f v)) = 1 + 8.
Proof using Type.
  intros Hf. unfold WriteSFixed64ToArray, WriteLittleEndian64ToArray. rewrite length_app, length_le_bytes.
  unfold WriteVarint32ToArray, varint_loop, MakeTag. rewrite Z.shiftl_mul_pow2 by lia.
  assert (Z.lor (f * 2 ^ 3) WIRETYPE_FIXED64 < 2 ^ 7) by (apply lor_small; unfold WIRETYPE_FIXED64; lia).
  destruct (Z.geb_spec (Z.lor (f * 2 ^ 3) WIRETYPE_FIXED64) 0x80); [lia|]. done.
Qed.

Lemma length_SFixed32 f v : 0 <= f < 16 -> Z.of_nat (length (WriteSFixed32ToArray f v)) = 1 + 4.
Proof using Type.
  intros Hf. unfold WriteSFixed32ToArray, WriteLittleEndian32ToArray. rewrite length_app, length_le_bytes.
  unfold WriteVarint32ToArray, varint_loop, MakeTag. rewrite Z.shiftl_mul_pow2 by lia.
  assert (Z.lor (f * 2 ^ 3) WIRETYPE_FIXED32 < 2 ^ 7) by (apply lor_small; unfold WIRETYPE_FIXED32; lia).
  destruct (Z.geb_spec (Z.lor (f * 2 ^ 3) WIRETYPE_FIXED32) 0x80); [lia|]. done.
Qed.

Lemma length_Bool f v : 0 <= f < 16 -> Z.of_nat (length (WriteBoolToArray f v)) = 1 + 1.
Proof using Type.
  intros Hf. unfold WriteBoolToArray. rewrite length_app.
  unfold WriteVarint32ToArray, varint_loop at 1, MakeTag. rewrite Z.shiftl_mul_pow2 by lia.
  assert (Z.lor (f * 2 ^ 3) WIRETYPE_VARINT < 2 ^ 7) by (apply lor_small; unfold WIRETYPE_VARINT; lia).
  destruct (Z.geb_spec (Z.lor (f * 2 ^ 3) WIRETYPE_VARINT) 0x80); [lia|]. by destruct v.
Qed.

Lemma length_header h : Z.of_nat (length (InternalSerializeWithCachedSizesToArray h)) = ByteSize h.
Proof using Type.
  unfold InternalSerializeWithCachedSizesToArray. rewrite !length_app, !Nat2Z.inj_add.
  rewrite !(length_field (WriteSFixed64ToArray _) _ (1 + 8)) by (intros; apply length_SFixed64; lia).
  rewrite (length_field (WriteSFixed32ToArray _) _ (1 + 4)) by (intros; apply length_SFixed32; lia).
  rewrite !(length_field (WriteBoolToArray _) _ (1 + 1)) by (intros; apply length_Bool; lia).
  unfold ByteSize, RequiredFieldsByteSizeFallback, IsInitialized.
  destruct (is_set (h_offsetinblock h)), (is_set (h_seqno h)), (is_set (h_lastpacketinblock h)),
    (is_set (h_datalen h)), (is_set (h_syncblock h)); cbn [andb]; lia.
Qed.

Lemma parse_serialize `{!RuntimeLaws} h : header_ok h ->
  parse_header (InternalSerializeWithCachedSizesToArray h) = Ret (h, true).
Proof.
  intros (off & seq & last & len & sync & -> & Hoff & Hseq & Hlen).
  unfold parse_header, MergePartialFromCodedStream.
  pose proof (length_header (mkPacketHeader (Some off) (Some seq) (Some last) (Some len) sync [])) as HL.
  set (l := InternalSerializeWithCachedSizesToArray _) in *.
  assert (exists fuel, S (length l) = S (S (S (S (S fuel))))) as [fuel ->].
  { exists (length l - 4)%nat. revert HL. unfold ByteSize, IsInitialized.
    cbn [is_set andb h_offsetinblock h_seqno h_lastpacketinblock h_datalen h_syncblock h_unknown_fields length].
    destruct (is_set sync); lia. }
  unfold l, InternalSerializeWithCachedSizesToArray.
  cbn [field h_offsetinblock h_seqno h_lastpacketinblock h_datalen h_syncblock h_unknown_fields].
  rewrite merge_offset, merge_seqno, merge_last, merge_datalen by done. rewrite app_nil_r.
  destruct sync as [b|]; cbn [field]; [by rewrite merge_sync|].
  cbn [merge_loop]. unfold ReadTagWithCutoff. rewrite tag_at_end. done.
Qed.
End facts.

(* ------------------------------------------------------------------ *)
(** ** Parsing any input *)

(** What the runtime promises on any input: a tag other than zero takes bytes
    from the input, and no function gives bytes back. *)
Class RuntimeProgress `{!ProtobufRuntime} : Prop := {
  tag_progress l t fin l' : ReadTagFallback l = (t, fin, l') ->
    (length l' <= length l)%nat /\ (t <> 0 -> (length l' < length l)%nat);
  varint_progress l v l' : ReadVarint64Fallback l = Some (v, l') -> (length l' <= length l)%nat;
  skip_progress t l d l' : SkipField t l = Some (d, l') -> (length l' <= length l)%nat
}.

(** The fields that are set have values of their types. *)
Definition header_typed (h : PacketHeaderProto) : Prop :=
  (forall v, h_offsetinblock h = Some v -> - 2 ^ 63 <= v < 2 ^ 63) /\
  (forall v, h_seqno h = Some v -> - 2 ^ 63 <= v < 2 ^ 63) /\
  (forall v, h_datalen h = Some v -> - 2 ^ 31 <= v < 2 ^ 31).

Section parse_any.
Context `{PR : !ProtobufRuntime, RP : !RuntimeProgress}.

(** A parse that ends, with a typed message. *)
Definition parses (o : outcome parse_result) : Prop :=
  exists h r, o = Ret (h, r) /\ header_typed h.

Lemma tag_shorter cutoff l t ok fin l' : ReadTagWithCutoff cutoff l = (t, ok, fin, l') ->
  (length l' <= length l)%nat /\ (t <> 0 -> (length l' < length l)%nat).
Proof using RP.
  intros E. unfold ReadTagWithCutoff in E.
  destruct (ReadTagFallback l) as [[t0 fin0] l0] eqn:Ef. pose proof (tag_progress _ _ _ _ Ef) as Hp.
  destruct l as [|b0 l1]; [by simplify_eq|].
  destruct (0 <? char_val b0); [simplify_eq; cbn; lia|].
  destruct l1 as [|b1 l2]; [by simplify_eq|].
  destruct (_ && _); simplify_eq; [cbn; lia|done].
Qed.

Lemma raw_shorter n l v l' : ReadRaw n l = Some (v, l') -> (length l' <= length l)%nat.
Proof using Type.
  unfold ReadRaw. destruct (length l <? n)%nat; [done|]. intros [= _ <-]. rewrite length_drop. lia.
Qed.

Lemma SFixed64_typed l v l' : ReadSFixed64 l = Some (v, l') ->
  (length l' <= length l)%nat /\ - 2 ^ 63 <= v < 2 ^ 63.
Proof using Type.
  unfold ReadSFixed64, ReadLittleEndian64. destruct (ReadRaw 8 l) as [[x l0]|] eqn:E; [|done].
  intros [= <- <-]. split; [by eapply raw_shorter|]. by apply (sint_range 64).
Qed.

Lemma SFixed32_typed l v l' : ReadSFixed32 l = Some (v, l') ->
  (length l' <= length l)%nat /\ - 2 ^ 31 <= v < 2 ^ 31.
Proof using Type.
  unfold ReadSFixed32, ReadLittleEndian32. destruct (ReadRaw 4 l) as [[x l0]|] eqn:E; [|done].
  intros [= <- <-]. split; [by eapply raw_shorter|]. by apply (sint_range 32).
Qed.

Lemma Bool_shorter l v l' : ReadBool l = Some (v, l') -> (length l' <= length l)%nat.
Proof using RP.
  unfold ReadBool, ReadVarint64. destruct l as [|b l].
  - destruct (ReadVarint64Fallback []) as [[x l0]|] eqn:E; [|done]. intros [= _ <-].
    by eapply varint_progress.
  - destruct (byte_val b <? 0x80); [intros [= _ <-]; cbn; lia|].
    destruct (ReadVarint64Fallback (b :: l)) as [[x l0]|] eqn:E; [|done]. intros [= _ <-].
    by eapply varint_progress.
Qed.

Lemma field_parses {A} (read : list byte -> option (A * list byte)) set k l h n : header_typed h ->
  (forall v l', read l = Some (v, l') -> (length l' <= length l)%nat /\ header_typed (set v h)) ->
  (length l < n)%nat -> (forall l' h', (length l' < n)%nat -> header_typed h' -> parses (k l' h')) ->
  parses (read_field read set k l h).
Proof using Type.
  intros Hh Hr Hl Hk. unfold read_field. destruct (read l) as [[v l']|]; [|by exists h, None].
  destruct (Hr v l' eq_refl). apply Hk; [lia|done].
Qed.

Lemma merge_parses fuel l h : (length l < fuel)%nat -> header_typed h -> parses (merge_loop fuel l h).
Proof using RP.
  revert l h. induction fuel as [|fuel IH]; intros l h Hl Hh; [lia|]. cbn [merge_loop].
  destruct (ReadTagWithCutoff 127 l) as [[[tag ok] fin] l'] eqn:E.
  destruct (tag_shorter 127 _ _ _ _ _ E) as [Hle Hlt]. pose proof Hh as (H1 & H2 & H3).
  assert (parses (handle_unusual (merge_loop fuel) tag fin l' h)) as Hu.
  { unfold handle_unusual. destruct (Z.eqb_spec tag 0); cbn [orb]; [by eexists _, _|].
    destruct (Z.land tag 7 =? WIRETYPE_END_GROUP); [by eexists _, _|].
    destruct (SkipField tag l') as [[d l2]|] eqn:Es; [|by exists h, None].
    apply skip_progress in Es. apply IH; [specialize (Hlt ltac:(done)); lia|done]. }
  destruct ok; cbn [negb]; [|exact Hu].
  destruct (Z.shiftr tag 3 =? 1).
  { destruct (Z.eqb_spec tag 9) as [->|]; [|exact Hu]. specialize (Hlt ltac:(done)).
    eapply (field_parses _ _ _ _ _ fuel); [done| |lia|by intros; apply IH].
    intros v l2 [? ?]%SFixed64_typed. split; [done|]. split; [|done]. by intros ? [= <-]. }
  destruct (Z.shiftr tag 3 =? 2).
  { destruct (Z.eqb_spec tag 17) as [->|]; [|exact Hu]. specialize (Hlt ltac:(done)).
    eapply (field_parses _ _ _ _ _ fuel); [done| |lia|by intros; apply IH].
    intros v l2 [? ?]%SFixed64_typed. split; [done|]. split; [done|]. split; [|done]. by intros ? [= <-]. }
  destruct (Z.shiftr tag 3 =? 3).
  { destruct (Z.eqb_spec tag 24) as [->|]; [|exact Hu]. specialize (Hlt ltac:(done)).
    eapply (field_parses _ _ _ _ _ fuel); [done| |lia|by intros; apply IH].
    intros v l2 Hb%Bool_shorter. done. }
  destruct (Z.shiftr tag 3 =? 4).
  { destruct (Z.eqb_spec tag 37) as [->|]; [|exact Hu]. specialize (Hlt ltac:(done)).
    eapply (field_parses _ _ _ _ _ fuel); [done| |lia|by intros; apply IH].
    intros v l2 [? ?]%SFixed32_typed. split; [done|]. do 2 (split; [done|]). by intros ? [= <-]. }
  destruct (Z.shiftr tag 3 =? 5); [|exact Hu].
  destruct (Z.eqb_spec tag 40) as [->|]; [|exact Hu]. specialize (Hlt ltac:(done)).
  eapply (field_parses _ _ _ _ _ fuel); [done| |lia|].
  - intros v l2 Hb%Bool_shorter. done.
  - intros l2 h2 Hl2 Hh2. destruct (decide (l2 = [])); [|by apply IH].
    by eexists _, _.
Qed.
End parse_any.
