(* ===== verification/WireFormat.v ===== *)
(** * The wire format of protobuf values

    The inline functions of io/coded_stream.h, wire_format_lite.h and
    wire_format_lite_inl.h with which the generated code reads and writes values
    of every type that the .proto files of the program use, and the sizes of
    these values.  Functions of the runtime without source are operations of a
    class; its laws are what the comments of the headers say of them. *)

From S2P Require Import Prelude Protobuf.

(* ------------------------------------------------------------------ *)
(** ** Zig-zag, of wire_format_lite.h *)

(** [(uint32(n) << 1) ^ (n >> 31)], where [n >> 31] is converted to
    [uint32]. *)
Definition ZigZagEncode32 (n : Z) : Z := Z.lxor (u32 (Z.shiftl (u32 n) 1)) (u32 (Z.shiftr n 31)).
(** [(n >> 1) ^ -int32(n & 1)], converted to [int32]. *)
Definition ZigZagDecode32 (n : Z) : Z := sint 32 (Z.lxor (Z.shiftr n 1) (u32 (- Z.land n 1))).
Definition ZigZagEncode64 (n : Z) : Z := Z.lxor (u64 (Z.shiftl (u64 n) 1)) (u64 (Z.shiftr n 63)).
Definition ZigZagDecode64 (n : Z) : Z := sint 64 (Z.lxor (Z.shiftr n 1) (u64 (- Z.land n 1))).

(* ------------------------------------------------------------------ *)
(** ** Types of fields *)

(** [FieldType], for the types that the .proto files use; an enum comes with
    the values for which its [IsValid] holds, a message with its fields. *)
Inductive label : Type := LABEL_REQUIRED | LABEL_OPTIONAL | LABEL_REPEATED | LABEL_PACKED.
#[export] Instance label_eq_dec : EqDecision label.
Proof. solve_decision. Defined.

#[local] Unset Elimination Schemes.
Inductive ftype : Type :=
| TYPE_INT32 | TYPE_INT64 | TYPE_UINT32 | TYPE_UINT64 | TYPE_SINT32 | TYPE_SINT64
| TYPE_SFIXED32 | TYPE_SFIXED64 | TYPE_BOOL
| TYPE_ENUM (valid : list Z)
| TYPE_STRING | TYPE_BYTES
| TYPE_MESSAGE (fields : list (Z * label * ftype)).
#[local] Set Elimination Schemes.

(** A field: its number, its label and its type.  A message class is the list
    of its fields in the order of their numbers. *)
Definition fdesc : Type := Z * label * ftype.

(** [kWireTypeForFieldType] *)
Definition WIRETYPE_LENGTH_DELIMITED : Z := 2.

Definition wire_type (t : ftype) : Z :=
  match t with
  | TYPE_SFIXED32 => WIRETYPE_FIXED32
  | TYPE_SFIXED64 => WIRETYPE_FIXED64
  | TYPE_STRING | TYPE_BYTES | TYPE_MESSAGE _ => WIRETYPE_LENGTH_DELIMITED
  | _ => WIRETYPE_VARINT
  end.

(** The value of a field; a message has the values of each of its fields, none
    for a field that is not set, and the bytes of its unknown fields. *)
#[local] Unset Elimination Schemes.
Inductive value : Type :=
| VInt (z : Z)
| VBool (b : bool)
| VBytes (s : list byte)
| VMessage (fields : list (list value)) (unknown : list byte).
#[local] Set Elimination Schemes.

(* ------------------------------------------------------------------ *)
(** ** The runtime *)

(** The slow paths of the varint functions, [WriteVarint64ToArray],
    [WriteStringWithSizeToArray], [ReadBytes], [ReadLengthAndPushLimit] (the
    bytes up to the new limit, and those behind it), the packed form of an enum
    (its valid values, the bytes of the unknown ones, and the rest), and the bytes
    as which [AddVarint] keeps an unknown value. *)
Class WireRuntime : Type := {
  ReadVarint32Fallback : list byte -> option (Z * list byte);
  ReadVarintSizeAsIntFallback : list byte -> option (Z * list byte);
  VarintSize32Fallback : Z -> Z;
  WriteVarint64ToArray : Z -> list byte;
  WriteStringWithSizeToArray : list byte -> list byte;
  ReadLengthAndPushLimit : list byte -> list byte * list byte;
  ReadBytes : list byte -> option (list byte * list byte);
  ReadPackedEnumPreserveUnknowns : Z -> list Z -> list byte -> option (list Z * list byte * list byte);
  AddVarint : Z -> Z -> list byte
}.

(** Groups of seven bits, the lowest first; a [uint64] has at most ten. *)
Definition varint (v : Z) : list byte := varint_loop 9 v.

(** A varint is read as it was written; a [uint32] is read as a [uint64] and
    truncated; a string stands behind its length. *)
Class WireLaws `{!ProtobufRuntime, !WireRuntime} : Prop := {
  write_varint64 v : 0 <= v < 2 ^ 64 -> WriteVarint64ToArray v = varint v;
  read_varint64 v rest : 0x80 <= v < 2 ^ 64 -> ReadVarint64Fallback (varint v ++ rest) = Some (v, rest);
  read_varint32 l : ReadVarint32Fallback l =
    match ReadVarint64Fallback l with Some (v, l') => Some (u32 v, l') | None => None end;
  read_size v rest : 0x80 <= v < 2 ^ 31 ->
    ReadVarintSizeAsIntFallback (varint v ++ rest) = Some (v, rest);
  size_varint32 v : 0x80 <= v < 2 ^ 32 -> VarintSize32Fallback v = Z.of_nat (length (varint v));
  size_varint64 v : 0 <= v < 2 ^ 64 -> VarintSize64 v = Z.of_nat (length (varint v));
  write_string s : Z.of_nat (length s) < 2 ^ 31 ->
    WriteStringWithSizeToArray s = varint (Z.of_nat (length s)) ++ s;
  read_length v rest : 0 <= v < 2 ^ 31 ->
    ReadLengthAndPushLimit (varint v ++ rest) = (take (Z.to_nat v) rest, drop (Z.to_nat v) rest);
  read_bytes s rest : Z.of_nat (length s) < 2 ^ 31 ->
    ReadBytes (varint (Z.of_nat (length s)) ++ s ++ rest) = Some (s, rest)
}.

(** No function gives bytes back to the input, and reading a varint takes
    some. *)
Class WireProgress `{!ProtobufRuntime, !WireRuntime} : Prop := {
  varint64_takes l v l' : ReadVarint64Fallback l = Some (v, l') -> (length l' < length l)%nat;
  varint32_takes l v l' : ReadVarint32Fallback l = Some (v, l') -> (length l' < length l)%nat;
  size_takes l v l' : ReadVarintSizeAsIntFallback l = Some (v, l') -> (length l' < length l)%nat;
  length_takes l inside after : ReadLengthAndPushLimit l = (inside, after) ->
    (length inside + length after <= length l)%nat;
  bytes_takes l s l' : ReadBytes l = Some (s, l') -> (length l' < length l)%nat;
  packed_enum_takes n valid l vs u l' : ReadPackedEnumPreserveUnknowns n valid l = Some (vs, u, l') ->
    (length l' < length l)%nat
}.

(** The types of what the functions store: a [uint64], a [uint32], a string with a
    length of type [int], and values of the enum. *)
Class WireTyped `{!ProtobufRuntime, !WireRuntime} : Prop := {
  varint64_range l v l' : ReadVarint64Fallback l = Some (v, l') -> 0 <= v < 2 ^ 64;
  varint32_range l v l' : ReadVarint32Fallback l = Some (v, l') -> 0 <= v < 2 ^ 32;
  bytes_range l s l' : ReadBytes l = Some (s, l') -> Z.of_nat (length s) < 2 ^ 31;
  packed_enum_range n valid l zs u l' : ReadPackedEnumPreserveUnknowns n valid l = Some (zs, u, l') ->
    Forall (fun z => z ∈ valid /\ - 2 ^ 31 <= z < 2 ^ 31) zs
}.

(* ------------------------------------------------------------------ *)
(** ** io/coded_stream.h *)

Section wire.
Context `{PR : !ProtobufRuntime, WR : !WireRuntime}.

Definition ReadVarint32 (l : list byte) : option (Z * list byte) :=
  match l with
  | b :: l' => if byte_val b <? 0x80 then Some (byte_val b, l') else ReadVarint32Fallback l
  | [] => ReadVarint32Fallback l
  end.

(** [ReadVarintSizeAsInt]; the fallback fails with a negative value. *)
Definition ReadVarintSizeAsInt (l : list byte) : option (Z * list byte) :=
  match l with
  | b :: l' => if byte_val b <? 0x80 then Some (byte_val b, l') else ReadVarintSizeAsIntFallback l
  | [] => ReadVarintSizeAsIntFallback l
  end.

Definition ExpectTag (expected : Z) (l : list byte) : option (list byte) :=
  if expected <? 2 ^ 7 then
    match l with
    | b :: l => if byte_val b =? expected then Some l else None
    | [] => None
    end
  else if expected <? 2 ^ 14 then
    match l with
    | b0 :: b1 :: l =>
        if (byte_val b0 =? Z.lor expected 0x80 mod 2 ^ 8) && (byte_val b1 =? Z.shiftr expected 7 mod 2 ^ 8)
        then Some l else None
    | _ => None
    end
  else None.

Definition WriteVarint32SignExtendedToArray (value : Z) : list byte :=
  if value <? 0 then WriteVarint64ToArray (u64 value) else WriteVarint32ToArray (u32 value).

Definition WriteTagToArray (field_number type : Z) : list byte :=
  WriteVarint32ToArray (MakeTag field_number type).

Definition VarintSize32 (value : Z) : Z := if value <? 2 ^ 7 then 1 else VarintSize32Fallback value.

Definition VarintSize32SignExtended (value : Z) : Z :=
  if value <? 0 then 10 else VarintSize32 (u32 value).

(* ------------------------------------------------------------------ *)
(** ** wire_format_lite_inl.h *)

Definition as_int (r : option (Z * list byte)) : option (value * list byte) :=
  '(v, l) ← r; Some (VInt v, l).

(** [ReadPrimitive] of each type, and [ReadString] and [ReadBytes]. *)
Definition ReadPrimitive (t : ftype) (l : list byte) : option (value * list byte) :=
  match t with
  | TYPE_INT32 | TYPE_ENUM _ => as_int ('(temp, l) ← ReadVarint32 l; Some (sint 32 temp, l))
  | TYPE_INT64 => as_int ('(temp, l) ← ReadVarint64 l; Some (sint 64 temp, l))
  | TYPE_UINT32 => as_int (ReadVarint32 l)
  | TYPE_UINT64 => as_int (ReadVarint64 l)
  | TYPE_SINT32 => as_int ('(temp, l) ← ReadVarint32 l; Some (ZigZagDecode32 temp, l))
  | TYPE_SINT64 => as_int ('(temp, l) ← ReadVarint64 l; Some (ZigZagDecode64 temp, l))
  | TYPE_SFIXED32 => as_int (ReadSFixed32 l)
  | TYPE_SFIXED64 => as_int (ReadSFixed64 l)
  | TYPE_BOOL => '(b, l) ← ReadBool l; Some (VBool b, l)
  | TYPE_STRING | TYPE_BYTES => '(s, l) ← ReadBytes l; Some (VBytes s, l)
  | TYPE_MESSAGE _ => None
  end.

(** The values that [BytesUntilLimit() > 0] leaves to be read; every one takes
    bytes from the input. *)
Fixpoint packed_loop (fuel : nat) (t : ftype) (l : list byte) (vs : list value)
    : outcome (option (list value)) :=
  match fuel with
  | O => Stuck
  | S fuel =>
      if decide (l = []) then Ret (Some vs)
      else match ReadPrimitive t l with
           | None => Ret None
           | Some (v, l) => packed_loop fuel t l (vs ++ [v])
           end
  end.

(** [ReadPackedPrimitive]: the values with the new ones, and the rest.  The input
    [l] is what the stream has up to the limit in force: an array has its size as
    limit, a message in a stream the limit that was pushed for it, and [PushLimit]
    of more than is left keeps that limit.  A stream that ends before its limit,
    inside a packed group, is not modelled: there [BytesUntilLimit] stays positive
    and the read of the next value fails. *)
Definition ReadPackedPrimitive (t : ftype) (l : list byte) (vs : list value)
    : outcome (option (list value * list byte)) :=
  match ReadVarintSizeAsInt l with
  | None => Ret None
  | Some (length, l) =>
      let inside := take (Z.to_nat length) l in
      r ← packed_loop (S (List.length inside)) t inside vs;
      Ret (match r with None => None | Some vs => Some (vs, drop (Z.to_nat length) l) end)
  end.

(** The capacity of a [RepeatedField] to which [n] elements were added one by
    one: it is 0, 4, 8, 16, ... *)
Fixpoint capacity_loop (fuel : nat) (c n : Z) : Z :=
  match fuel with
  | O => c
  | S fuel => if n <=? c then c else capacity_loop fuel (2 * c) n
  end.
Definition repeated_capacity (n : nat) : Z :=
  if decide (n = 0%nat) then 0 else capacity_loop n 4 (Z.of_nat n).

(** The loop of [ReadRepeatedPrimitive] for the elements that fit without an
    allocation. *)
Fixpoint repeated_loop (reserved : nat) (t : ftype) (tag : Z) (l : list byte) (vs : list value)
    : option (list value * list byte) :=
  match reserved with
  | O => Some (vs, l)
  | S reserved =>
      match ExpectTag tag l with
      | None => Some (vs, l)
      | Some l =>
          match ReadPrimitive t l with
          | None => None
          | Some (v, l) => repeated_loop reserved t tag l (vs ++ [v])
          end
      end
  end.

Definition ReadRepeatedPrimitive (t : ftype) (tag : Z) (l : list byte) (vs : list value)
    : option (list value * list byte) :=
  match ReadPrimitive t l with
  | None => None
  | Some (v, l) =>
      let vs := vs ++ [v] in
      repeated_loop (Z.to_nat (repeated_capacity (length vs) - Z.of_nat (length vs))) t tag l vs
  end.

(** The [Write...NoTagToArray] functions, and [WriteStringToArray] and
    [WriteBytesToArray] behind the tag. *)
Definition WritePrimitive (t : ftype) (v : value) : list byte :=
  match v with
  | VInt z =>
      match t with
      | TYPE_INT32 | TYPE_ENUM _ => WriteVarint32SignExtendedToArray z
      | TYPE_INT64 | TYPE_UINT64 => WriteVarint64ToArray (u64 z)
      | TYPE_UINT32 => WriteVarint32ToArray (u32 z)
      | TYPE_SINT32 => WriteVarint32ToArray (ZigZagEncode32 z)
      | TYPE_SINT64 => WriteVarint64ToArray (ZigZagEncode64 z)
      | TYPE_SFIXED32 => WriteLittleEndian32ToArray (u32 z)
      | TYPE_SFIXED64 => WriteLittleEndian64ToArray (u64 z)
      | _ => []
      end
  | VBool b => WriteVarint32ToArray (if b then 1 else 0)
  | VBytes s => WriteStringWithSizeToArray s
  | VMessage _ _ => []
  end.

(** [Int32Size] and the other size functions; the sizes of the fixed types and
    of bool are constants. *)
Definition PrimitiveSize (t : ftype) (v : value) : Z :=
  match v with
  | VInt z =>
      match t with
      | TYPE_INT32 | TYPE_ENUM _ => VarintSize32SignExtended z
      | TYPE_INT64 | TYPE_UINT64 => VarintSize64 (u64 z)
      | TYPE_UINT32 => VarintSize32 (u32 z)
      | TYPE_SINT32 => VarintSize32 (ZigZagEncode32 z)
      | TYPE_SINT64 => VarintSize64 (ZigZagEncode64 z)
      | TYPE_SFIXED32 => 4
      | TYPE_SFIXED64 => 8
      | _ => 0
      end
  | VBool _ => 1
  | VBytes s => VarintSize32 (u32 (Z.of_nat (length s))) + Z.of_nat (length s)
  | VMessage _ _ => 0
  end.

Definition LengthDelimitedSize (length : Z) : Z := VarintSize32 (u32 length) + length.
End wire.
