(* ===== verification/WireFormatFacts.v ===== *)
(** * Values on the wire

    What is written for a value is read back, takes the number of bytes that
    the size functions compute, and reading any input ends. *)

From S2P Require Import Prelude Protobuf ProtobufFacts WireFormat.

(* ------------------------------------------------------------------ *)
(** ** Zig-zag *)

Lemma lxor_ones w x : 0 < w -> 0 <= x < 2 ^ w -> Z.lxor x (2 ^ w - 1) = 2 ^ w - 1 - x.
Proof.
  intros Hw Hx. assert (Z.log2 x < w) as Hl.
  { destruct (Z.eq_dec x 0) as [->|]; [cbn; lia|]. apply Z.log2_lt_pow2; lia. }
  assert (2 ^ w - 1 = Z.ones w) as -> by (rewrite Z.ones_equiv; lia).
  rewrite <-Z.ldiff_ones_l_low, <-Z.sub_nocarry_ldiff by (rewrite ?Z.ldiff_ones_r_low; lia). done.
Qed.

(** [(n << 1) ^ (n >> (w - 1))] and back, at width [w]. *)
Definition zigzag (w n : Z) : Z :=
  Z.lxor (Z.shiftl (n mod 2 ^ w) 1 mod 2 ^ w) (Z.shiftr n (w - 1) mod 2 ^ w).
Definition zagzig (w n : Z) : Z := sint w (Z.lxor (Z.shiftr n 1) (- Z.land n 1 mod 2 ^ w)).

Lemma zigzag_value w n : 1 < w -> - 2 ^ (w - 1) <= n < 2 ^ (w - 1) ->
  zigzag w n = if n <? 0 then - 2 * n - 1 else 2 * n.
Proof.
  intros Hw Hn. unfold zigzag. assert (2 ^ w = 2 * 2 ^ (w - 1)) as E by (rewrite <-Z.pow_succ_r; [f_equal|]; lia).
  rewrite Z.shiftl_mul_pow2, Z.shiftr_div_pow2 by lia. change (2 ^ 1) with 2. destruct (Z.ltb_spec n 0).
  - assert (n / 2 ^ (w - 1) = -1) as -> by (symmetry; apply (Z.div_unique _ _ _ (n + 2 ^ (w - 1))); lia).
    rewrite Z.mul_mod_idemp_l by lia.
    assert ((n * 2) mod 2 ^ w = 2 * n + 2 ^ w) as -> by (symmetry; apply (Z.mod_unique _ _ (-1)); lia).
    assert (-1 mod 2 ^ w = 2 ^ w - 1) as -> by (symmetry; apply (Z.mod_unique _ _ (-1)); lia).
    rewrite lxor_ones by lia. lia.
  - rewrite (Z.div_small n) by lia. rewrite Z.mod_0_l, Z.lxor_0_r by lia. rewrite (Z.mod_small n), Z.mod_small by lia. lia.
Qed.

Lemma zagzig_zigzag w n : 1 < w -> - 2 ^ (w - 1) <= n < 2 ^ (w - 1) -> zagzig w (zigzag w n) = n.
Proof.
  intros Hw Hn. rewrite zigzag_value by done. unfold zagzig.
  assert (2 ^ w = 2 * 2 ^ (w - 1)) as E by (rewrite <-Z.pow_succ_r; [f_equal|]; lia).
  rewrite Z.shiftr_div_pow2 by lia. rewrite (Z.land_ones _ 1) by lia.
  change (2 ^ 1) with 2. destruct (Z.ltb_spec n 0).
  - assert ((-2 * n - 1) / 2 = - n - 1) as -> by (symmetry; apply (Z.div_unique _ _ _ 1); lia).
    assert ((-2 * n - 1) mod 2 = 1) as -> by (symmetry; apply (Z.mod_unique _ _ (- n - 1)); lia).
    change (- (1)) with (-1). assert (-1 mod 2 ^ w = 2 ^ w - 1) as -> by (symmetry; apply (Z.mod_unique _ _ (-1)); lia).
    rewrite lxor_ones by lia. replace (2 ^ w - 1 - (- n - 1)) with (n + 1 * 2 ^ w) by lia.
    rewrite <-(sint_mod w n) at 2 by lia. unfold sint. by rewrite Z.mod_add, Z.mod_mod by lia.
  - rewrite (Z.mul_comm 2), Z.div_mul, Z.mod_mul by lia.
    change (-0) with 0. rewrite Z.mod_0_l, Z.lxor_0_r by lia. apply sint_small; lia.
Qed.

Lemma ZigZag32 n : - 2 ^ 31 <= n < 2 ^ 31 ->
  ZigZagDecode32 (ZigZagEncode32 n) = n /\ 0 <= ZigZagEncode32 n < 2 ^ 32.
Proof.
  intros Hn. split; [by apply (zagzig_zigzag 32)|]. change (ZigZagEncode32 n) with (zigzag 32 n).
  rewrite zigzag_value by done. destruct (Z.ltb_spec n 0); lia.
Qed.

Lemma ZigZag64 n : - 2 ^ 63 <= n < 2 ^ 63 ->
  ZigZagDecode64 (ZigZagEncode64 n) = n /\ 0 <= ZigZagEncode64 n < 2 ^ 64.
Proof.
  intros Hn. split; [by apply (zagzig_zigzag 64)|]. change (ZigZagEncode64 n) with (zigzag 64 n).
  rewrite zigzag_value by done. destruct (Z.ltb_spec n 0); lia.
Qed.

(* ------------------------------------------------------------------ *)
(** ** Varints *)

Lemma varint_loop_fuel a b v : 0 <= v < 128 ^ (Z.of_nat a + 1) -> 0 <= v < 128 ^ (Z.of_nat b + 1) ->
  varint_loop a v = varint_loop b v.
Proof.
  revert b v. induction a as [|a IH]; intros b v Ha Hb; destruct b as [|b]; cbn [varint_loop]; try done.
  - destruct (Z.geb_spec v 0x80); [cbn in Ha; lia|done].
  - destruct (Z.geb_spec v 0x80); [cbn in Hb; lia|done].
  - destruct (Z.geb_spec v 0x80); [|done]. f_equal. rewrite Z.shiftr_div_pow2 by lia.
    change (2 ^ 7) with 128.
    replace (Z.of_nat (S a) + 1) with (Z.succ (Z.of_nat a + 1)) in Ha by lia.
    replace (Z.of_nat (S b) + 1) with (Z.succ (Z.of_nat b + 1)) in Hb by lia.
    rewrite Z.pow_succ_r in Ha, Hb by lia.
    apply IH; (split; [apply Z.div_pos; lia|apply Z.div_lt_upper_bound; lia]).
Qed.

Lemma WriteVarint32_varint v : 0 <= v < 2 ^ 32 -> WriteVarint32ToArray v = varint v.
Proof. intros Hv. apply varint_loop_fuel; cbn; lia. Qed.

Lemma varint_small v : v < 0x80 -> varint v = [to_byte v].
Proof. intros Hv. unfold varint. cbn [varint_loop]. destruct (Z.geb_spec v 0x80); [lia|done]. Qed.

Lemma lor_80 v : 0 <= v -> Z.lor v 0x80 mod 256 = v mod 128 + 128.
Proof.
  intros Hv. change (Z.lor v 0x80 mod 2 ^ 8 = v mod 2 ^ 7 + 2 ^ 7).
  assert (Z.lor v 0x80 mod 2 ^ 8 = Z.lor (v mod 2 ^ 7) (2 ^ 7)) as ->.
  { apply Z.bits_inj'. intros i Hi. rewrite Z.lor_spec. change 0x80 with (2 ^ 7).
    destruct (Z.lt_ge_cases i 8).
    - rewrite Z.mod_pow2_bits_low, Z.lor_spec by lia. rewrite Z.pow2_bits_eqb by lia.
      destruct (Z.eqb_spec 7 i); [by rewrite !orb_true_r|]. by rewrite Z.mod_pow2_bits_low by lia.
    - rewrite Z.mod_pow2_bits_high by lia. rewrite Z.mod_pow2_bits_high by lia.
      rewrite Z.pow2_bits_eqb by lia. destruct (Z.eqb_spec 7 i); [lia|done]. }
  rewrite <-Z.lxor_lor, <-Z.add_nocarry_lxor; [done|..]; (apply Z.bits_inj'; intros i Hi;
    rewrite Z.land_spec, Z.bits_0, Z.pow2_bits_eqb by lia; destruct (Z.eqb_spec 7 i) as [<-|];
    [rewrite Z.mod_pow2_bits_high by lia; done|apply andb_false_r]).
Qed.

Lemma varint_big v : 0x80 <= v ->
  exists b l, varint v = b :: l /\ byte_val b = v mod 128 + 128 /\ l = varint_loop 8 (v / 128).
Proof.
  intros Hv. unfold varint. cbn [varint_loop]. destruct (Z.geb_spec v 0x80); [|lia].
  eexists _, _. split; [done|]. rewrite val_to_byte, lor_80 by lia. by rewrite Z.shiftr_div_pow2 by lia.
Qed.

Lemma varint_nonempty v : (1 <= length (varint v))%nat.
Proof. unfold varint. cbn [varint_loop]. destruct (v >=? 0x80); cbn; lia. Qed.

Lemma varint_loop_length n v : 128 ^ Z.of_nat n <= v < 128 ^ (Z.of_nat n + 1) ->
  length (varint_loop n v) = S n.
Proof.
  revert v. induction n as [|n IH]; intros v Hv; cbn [varint_loop].
  - destruct (Z.geb_spec v 0x80); [cbn in Hv; lia|done].
  - replace (Z.of_nat (S n) + 1) with (Z.succ (Z.of_nat n + 1)) in Hv by lia.
    replace (Z.of_nat (S n)) with (Z.succ (Z.of_nat n)) in Hv by lia.
    rewrite !Z.pow_succ_r in Hv by lia.
    assert (0 < 128 ^ Z.of_nat n) by (apply Z.pow_pos_nonneg; lia).
    destruct (Z.geb_spec v 0x80); [|lia]. cbn [length]. rewrite Z.shiftr_div_pow2 by lia. f_equal. apply IH.
    change (2 ^ 7) with 128.
    split; [apply Z.div_le_lower_bound|apply Z.div_lt_upper_bound]; lia.
Qed.

(** A negative [int32] is written in ten bytes. *)
Lemma varint_ten v : 2 ^ 63 <= v < 2 ^ 64 -> length (varint v) = 10%nat.
Proof. intros Hv. apply varint_loop_length. cbn. lia. Qed.

Section facts.
Context `{PR : !ProtobufRuntime, WR : !WireRuntime}.

(* ------------------------------------------------------------------ *)
(** ** Round trips *)

Section laws.
Context {WL : WireLaws}.

Lemma ReadVarint64_varint v rest : 0 <= v < 2 ^ 64 -> ReadVarint64 (varint v ++ rest) = Some (v, rest).
Proof using WL.
  intros Hv. destruct (Z.lt_ge_cases v 0x80).
  - rewrite varint_small by done. cbn [app ReadVarint64].
    rewrite val_to_byte, Z.mod_small by lia. destruct (Z.ltb_spec v 0x80); [done|lia].
  - destruct (varint_big v) as (b & l & E & Hb & _); [done|]. pose proof (Z.mod_pos_bound v 128 ltac:(lia)).
    pose proof (read_varint64 v rest) as Hr. rewrite E in *. cbn [app ReadVarint64] in *.
    destruct (Z.ltb_spec (byte_val b) 0x80); [lia|]. apply Hr. lia.
Qed.

Lemma ReadVarint32_varint v rest : 0 <= v < 2 ^ 64 -> ReadVarint32 (varint v ++ rest) = Some (u32 v, rest).
Proof using WL.
  intros Hv. destruct (Z.lt_ge_cases v 0x80).
  - rewrite varint_small by done. cbn [app ReadVarint32].
    rewrite val_to_byte, Z.mod_small by lia. rewrite u32_id by lia. destruct (Z.ltb_spec v 0x80); [done|lia].
  - destruct (varint_big v) as (b & l & E & Hb & _); [done|]. pose proof (Z.mod_pos_bound v 128 ltac:(lia)).
    pose proof (read_varint64 v rest) as Hr. rewrite E in *. cbn [app ReadVarint32] in *.
    destruct (Z.ltb_spec (byte_val b) 0x80); [lia|]. rewrite read_varint32, Hr by lia. done.
Qed.

Lemma ReadVarintSizeAsInt_varint v rest : 0 <= v < 2 ^ 31 ->
  ReadVarintSizeAsInt (varint v ++ rest) = Some (v, rest).
Proof using WL.
  intros Hv. destruct (Z.lt_ge_cases v 0x80).
  - rewrite varint_small by done. cbn [app ReadVarintSizeAsInt].
    rewrite val_to_byte, Z.mod_small by lia. destruct (Z.ltb_spec v 0x80); [done|lia].
  - destruct (varint_big v) as (b & l & E & Hb & _); [done|]. pose proof (Z.mod_pos_bound v 128 ltac:(lia)).
    pose proof (read_size v rest) as Hr. rewrite E in *. cbn [app ReadVarintSizeAsInt] in *.
    destruct (Z.ltb_spec (byte_val b) 0x80); [lia|]. apply Hr. lia.
Qed.

(** A length, and the bytes behind it. *)
Lemma ReadLengthAndPushLimit_varint body rest : Z.of_nat (length body) < 2 ^ 31 ->
  ReadLengthAndPushLimit (varint (Z.of_nat (length body)) ++ body ++ rest) = (body, rest).
Proof using WL.
  intros Hb. rewrite read_length, Nat2Z.id by lia. by rewrite take_app_length, drop_app_length.
Qed.

(** The values of the types other than messages. *)
Definition scalar_typed (t : ftype) (v : value) : bool :=
  match t, v with
  | (TYPE_INT32 | TYPE_SINT32 | TYPE_SFIXED32), VInt z => (- 2 ^ 31 <=? z) && (z <? 2 ^ 31)
  | (TYPE_INT64 | TYPE_SINT64 | TYPE_SFIXED64), VInt z => (- 2 ^ 63 <=? z) && (z <? 2 ^ 63)
  | TYPE_UINT32, VInt z => (0 <=? z) && (z <? 2 ^ 32)
  | TYPE_UINT64, VInt z => (0 <=? z) && (z <? 2 ^ 64)
  | TYPE_ENUM valid, VInt z => bool_decide (z ∈ valid) && (- 2 ^ 31 <=? z) && (z <? 2 ^ 31)
  | TYPE_BOOL, VBool _ => true
  | (TYPE_STRING | TYPE_BYTES), VBytes s => Z.of_nat (length s) <? 2 ^ 31
  | _, _ => false
  end.

Lemma ReadVarint32_signed z rest : - 2 ^ 31 <= z < 2 ^ 31 ->
  ('(temp, l) ← ReadVarint32 (WriteVarint32SignExtendedToArray z ++ rest); Some (sint 32 temp, l)) =
  Some (z, rest).
Proof using WL.
  intros Hz. unfold WriteVarint32SignExtendedToArray. destruct (Z.ltb_spec z 0).
  - pose proof (Z.mod_pos_bound z (2 ^ 64) ltac:(lia)).
    rewrite write_varint64, ReadVarint32_varint by (unfold u64; lia). cbn. do 2 f_equal.
    unfold u32, u64. rewrite Z.mod_mod_divide by (by exists (2 ^ 32)).
    apply sint_mod; lia.
  - rewrite u32_id by lia. rewrite WriteVarint32_varint, ReadVarint32_varint by lia. cbn. do 2 f_equal.
    rewrite u32_id by lia. apply sint_small; lia.
Qed.

Lemma ReadPrimitive_write t v rest : scalar_typed t v = true ->
  ReadPrimitive t (WritePrimitive t v ++ rest) = Some (v, rest).
Proof using WL.
  destruct t, v; try done; cbn [scalar_typed];
    rewrite ?andb_true_iff, ?Z.leb_le, ?Z.ltb_lt, ?bool_decide_eq_true; intros Hv;
    cbn [ReadPrimitive WritePrimitive]; unfold as_int.
  - by rewrite ReadVarint32_signed.
  - pose proof (Z.mod_pos_bound z (2 ^ 64) ltac:(lia)).
    rewrite write_varint64, ReadVarint64_varint by (unfold u64; lia). cbn. unfold u64. by rewrite sint_mod by lia.
  - rewrite u32_id, WriteVarint32_varint, ReadVarint32_varint by lia. cbn. by rewrite u32_id by lia.
  - unfold u64. rewrite Z.mod_small, write_varint64, ReadVarint64_varint by lia. done.
  - destruct (ZigZag32 z) as [E Hr]; [lia|].
    rewrite WriteVarint32_varint, ReadVarint32_varint by lia. cbn. by rewrite u32_id, E by lia.
  - destruct (ZigZag64 z) as [E Hr]; [lia|].
    rewrite write_varint64, ReadVarint64_varint by lia. cbn. by rewrite E.
  - unfold WriteLittleEndian32ToArray. by rewrite ReadSFixed32_le.
  - unfold WriteLittleEndian64ToArray. by rewrite ReadSFixed64_le.
  - destruct b; unfold ReadBool; rewrite WriteVarint32_varint, ReadVarint64_varint by lia; done.
  - by rewrite ReadVarint32_signed by lia.
  - by rewrite write_string, <-app_assoc, read_bytes by lia.
  - by rewrite write_string, <-app_assoc, read_bytes by lia.
Qed.

Lemma WritePrimitive_nonempty t v : scalar_typed t v = true -> (1 <= length (WritePrimitive t v))%nat.
Proof using WL.
  assert (forall z, (1 <= length (WriteVarint64ToArray (u64 z)))%nat) as H64.
  { intros z. rewrite write_varint64 by apply Z.mod_pos_bound, eq_refl. apply varint_nonempty. }
  assert (forall z, (1 <= length (WriteVarint32ToArray z))%nat) as H32.
  { intros z. unfold WriteVarint32ToArray. cbn [varint_loop]. destruct (z >=? 0x80); cbn; lia. }
  destruct t, v; try done; cbn [scalar_typed]; rewrite ?andb_true_iff, ?Z.leb_le, ?Z.ltb_lt;
    intros Hv; cbn [WritePrimitive]; unfold WriteVarint32SignExtendedToArray;
    rewrite ?write_string, ?length_app by done; try (destruct (_ <? 0)); try apply H64; try apply H32;
    try (unfold WriteLittleEndian32ToArray, WriteLittleEndian64ToArray; rewrite length_le_bytes; lia);
    try (pose proof (varint_nonempty (Z.of_nat (length s))); lia).
  destruct (ZigZag64 z) as [_ Hz]; [lia|]. rewrite write_varint64 by done. apply varint_nonempty.
Qed.

(* ------------------------------------------------------------------ *)
(** ** Sizes *)

Lemma VarintSize32_varint v : 0 <= v < 2 ^ 32 -> VarintSize32 v = Z.of_nat (length (varint v)).
Proof using WL.
  intros Hv. unfold VarintSize32. change (2 ^ 7) with 0x80. destruct (Z.ltb_spec v 0x80).
  - by rewrite varint_small by lia.
  - by rewrite size_varint32 by lia.
Qed.

Lemma PrimitiveSize_length t v : scalar_typed t v = true ->
  PrimitiveSize t v = Z.of_nat (length (WritePrimitive t v)).
Proof using WL.
  assert (forall z, - 2 ^ 31 <= z < 2 ^ 31 ->
    VarintSize32SignExtended z = Z.of_nat (length (WriteVarint32SignExtendedToArray z))) as Hs.
  { intros z Hz. unfold VarintSize32SignExtended, WriteVarint32SignExtendedToArray. destruct (Z.ltb_spec z 0).
    - assert (u64 z = z + 2 ^ 64) as -> by (symmetry; apply (Z.mod_unique _ _ (-1)); lia).
      rewrite write_varint64, varint_ten by lia. done.
    - rewrite u32_id by lia. by rewrite VarintSize32_varint, WriteVarint32_varint by lia. }
  destruct t, v; try done; cbn [scalar_typed];
    rewrite ?andb_true_iff, ?Z.leb_le, ?Z.ltb_lt, ?bool_decide_eq_true; intros Hv;
    cbn [PrimitiveSize WritePrimitive].
  - by apply Hs.
  - pose proof (Z.mod_pos_bound z (2 ^ 64) ltac:(lia)). by rewrite size_varint64, write_varint64 by (unfold u64; lia).
  - rewrite u32_id by lia. by rewrite VarintSize32_varint, WriteVarint32_varint by lia.
  - unfold u64. by rewrite Z.mod_small, size_varint64, write_varint64 by lia.
  - destruct (ZigZag32 z) as [E Hr]; [lia|]. by rewrite VarintSize32_varint, WriteVarint32_varint by lia.
  - destruct (ZigZag64 z) as [E Hr]; [lia|]. by rewrite size_varint64, write_varint64 by lia.
  - by destruct b.
  - apply Hs. lia.
  - rewrite u32_id, write_string, VarintSize32_varint, length_app by lia. lia.
  - rewrite u32_id, write_string, VarintSize32_varint, length_app by lia. lia.
Qed.
End laws.

(* ------------------------------------------------------------------ *)
(** ** Tags *)

Lemma MakeTag_value n w : 0 <= n -> 0 <= w < 8 -> MakeTag n w = 8 * n + w.
Proof using Type.
  intros Hn Hw. unfold MakeTag. rewrite Z.shiftl_mul_pow2 by lia. change (2 ^ 3) with 8.
  rewrite <-Z.lxor_lor, <-Z.add_nocarry_lxor; [lia|..]; (apply Z.bits_inj'; intros i Hi;
    rewrite Z.land_spec, Z.bits_0; change 8 with (2 ^ 3); destruct (Z.lt_ge_cases i 3);
    [rewrite Z.mul_pow2_bits_low by lia; done|];
    rewrite (Z.bits_above_log2 w i); [apply andb_false_r|lia|];
    destruct (Z.eq_dec w 0) as [->|]; [cbn; lia|];
    assert (Z.log2 w < 3) by (apply Z.log2_lt_pow2; lia); lia).
Qed.

Lemma tag_number n w : 0 <= n -> 0 <= w < 8 -> Z.shiftr (MakeTag n w) 3 = n.
Proof using Type.
  intros. rewrite MakeTag_value, Z.shiftr_div_pow2 by lia. change (2 ^ 3) with 8.
  symmetry. apply (Z.div_unique _ _ _ w); lia.
Qed.

Lemma testbit_7 z : 0 <= z -> Z.testbit z 7 = true -> 0x80 <= z.
Proof using Type.
  intros Hz Ht. destruct (Z.lt_ge_cases z 0x80); [|done]. exfalso.
  rewrite Z.bits_above_log2 in Ht; [done|done|].
  destruct (Z.eq_dec z 0) as [->|]; [cbn; lia|]. apply Z.log2_lt_pow2; lia.
Qed.

(** The test for a tag of two bytes. *)
Lemma two_bytes (b c : byte) : 0x80 <= byte_val b -> byte_val c < 0x80 ->
  0x80 <= Z.ldiff (byte_val b) (byte_val c).
Proof using Type.
  intros Hb Hc. pose proof (byte_val_range b). pose proof (byte_val_range c).
  apply testbit_7; [apply Z.ldiff_nonneg; left; lia|]. rewrite Z.ldiff_spec.
  assert (Z.testbit (byte_val c) 7 = false) as ->.
  { apply Z.bits_above_log2; [lia|]. destruct (Z.eq_dec (byte_val c) 0) as [->|]; [cbn; lia|].
    apply Z.log2_lt_pow2; lia. }
  assert (Z.testbit (byte_val b) 7 = true) as ->; [|done].
  replace 7 with (Z.log2 (byte_val b)); [apply Z.bit_log2; lia|]. apply Z.log2_unique; cbn; lia.
Qed.

(** A tag that is not above the cutoff is read inline. *)
Lemma ReadTag_write cutoff tag rest : 0 < tag <= cutoff -> cutoff = 127 \/ cutoff = 16383 ->
  ReadTagWithCutoff cutoff (WriteVarint32ToArray tag ++ rest) = (tag, true, false, rest).
Proof using Type.
  intros Ht Hc. rewrite WriteVarint32_varint by lia. destruct (Z.lt_ge_cases tag 0x80).
  - rewrite varint_small by done. cbn [app]. unfold ReadTagWithCutoff, char_val.
    rewrite val_to_byte, Z.mod_small by lia. destruct (Z.ltb_spec tag 128); [|lia].
    destruct (Z.ltb_spec 0 tag); [|lia]. destruct (Z.leb_spec tag cutoff); [|lia]. by rewrite orb_true_r.
  - destruct Hc as [->| ->]; [lia|]. destruct (varint_big tag) as (b & l & E & Hb & ->); [done|].
    rewrite E. cbn [varint_loop]. assert (tag / 128 < 128) by (apply Z.div_lt_upper_bound; lia).
    destruct (Z.geb_spec (tag / 128) 0x80); [lia|]. cbn [app]. unfold ReadTagWithCutoff, char_val.
    pose proof (Z.mod_pos_bound tag 128 ltac:(lia)). assert (0 <= tag / 128) by (apply Z.div_pos; lia).
    destruct (Z.ltb_spec (byte_val b) 128); [lia|]. destruct (Z.ltb_spec 0 (byte_val b - 256)); [lia|].
    rewrite val_to_byte, Z.mod_small by lia. destruct (Z.leb_spec 0x80 16383); [|lia].
    pose proof (two_bytes b (to_byte (tag / 128))) as Hd. rewrite val_to_byte, Z.mod_small in Hd by lia.
    destruct (Z.leb_spec 0x80 (Z.ldiff (byte_val b) (tag / 128))); [|lia]. cbn [andb orb].
    change (2 ^ 7) with 128. pose proof (Z.div_mod tag 128 ltac:(lia)).
    replace (128 * (tag / 128) + (byte_val b - 0x80)) with tag by lia. done.
Qed.
End facts.
