(* ===== verification/RepeatedField.v ===== *)
(** * Repeated fields of numbers

    repeated_field.h: class RepeatedField<Element>, the array behind a repeated
    field of numbers or enums.  The objects of this program are on the heap:
    [rep_->arena] is NULL.  The checks of [GOOGLE_DCHECK] are compiled in, since
    the makefile does not define NDEBUG; a failed one stops the process. *)

From S2P Require Import Prelude Protobuf WireFormat.

(** Addition of type [int]; an overflow is undefined. *)
Definition int_add (a b : Z) : outcome Z :=
  if (- 2 ^ 31 <=? a + b) && (a + b <? 2 ^ 31) then Ret (a + b) else Undef.
Definition int_mul (a b : Z) : outcome Z :=
  if (- 2 ^ 31 <=? a * b) && (a * b <? 2 ^ 31) then Ret (a * b) else Undef.

(** [GOOGLE_CHECK] and [GOOGLE_DCHECK] *)
Definition CHECK (b : bool) : outcome unit := if b then Ret () else Abort.

Definition kMinRepeatedFieldAllocationSize : Z := 4.
Definition kRepHeaderSize : Z := 8.

Module repeated_field.

(** [rep_] is NULL, or has [total_size_] elements. *)
Record RepeatedField (A : Type) : Type := mkRF {
  current_size : Z;
  total_size : Z;
  rep : option (list A)
}.
Arguments mkRF {A} _ _ _.
Arguments current_size {A} _.
Arguments total_size {A} _.
Arguments rep {A} _.

Section ops.
(** The value of [Element()] and [sizeof(Element)]. *)
Context {A : Type} (zero : A) (sizeof : Z).

Definition empty_field : RepeatedField A := mkRF 0 0 None.

Definition empty (r : RepeatedField A) : bool := current_size r =? 0.
Definition size (r : RepeatedField A) : Z := current_size r.
Definition Capacity (r : RepeatedField A) : Z := total_size r.

Definition elements (r : RepeatedField A) : outcome (list A) :=
  match rep r with Some l => Ret l | None => Undef end.
Definition with_elements (r : RepeatedField A) (l : list A) : RepeatedField A :=
  mkRF (current_size r) (total_size r) (Some l).
Definition with_size (r : RepeatedField A) (n : Z) : RepeatedField A :=
  mkRF n (total_size r) (rep r).

(** [CopyArray(to + offset, from, n)]: a [memcpy], or [std::copy]. *)
Definition CopyArray (to : list A) (offset : Z) (from : list A) (n : Z) : outcome (list A) :=
  if (0 <=? offset) && (0 <=? n) && (offset + n <=? Z.of_nat (length to)) && (n <=? Z.of_nat (length from))
  then Ret (take (Z.to_nat offset) to ++ take (Z.to_nat n) from ++ drop (Z.to_nat (offset + n)) to)
  else Undef.

Definition Reserve (new_size : Z) (r : RepeatedField A) : outcome (RepeatedField A) :=
  if new_size <=? total_size r then Ret r
  else
    twice ← int_mul (total_size r) 2;
    let new_size := Z.max kMinRepeatedFieldAllocationSize (Z.max twice new_size) in
    _ ← CHECK (new_size <=? (2 ^ 64 - 1 - kRepHeaderSize) / sizeof);
    let fresh := replicate (Z.to_nat new_size) zero in
    l ← if 0 <? current_size r then old ← elements r; CopyArray fresh 0 old (current_size r)
        else Ret fresh;
    Ret (mkRF (current_size r) new_size (Some l)).

(** [Add()]: the index of the new element. *)
Definition AddSlot (r : RepeatedField A) : outcome (RepeatedField A * Z) :=
  r ← if current_size r =? total_size r then n ← int_add (total_size r) 1; Reserve n r else Ret r;
  _ ← elements r;
  Ret (with_size r (current_size r + 1), current_size r).

(** [Add] and [Resize] have a reference as argument, and read it after the array
    may have been freed: [value] is not an element of the field itself. *)
Definition Add (value : A) (r : RepeatedField A) : outcome (RepeatedField A) :=
  r ← if current_size r =? total_size r then n ← int_add (total_size r) 1; Reserve n r else Ret r;
  l ← elements r;
  l ← store l (current_size r) value;
  Ret (mkRF (current_size r + 1) (total_size r) (Some l)).

Definition AddAlreadyReserved (value : A) (r : RepeatedField A) : outcome (RepeatedField A) :=
  _ ← CHECK (current_size r <? total_size r);
  l ← elements r;
  l ← store l (current_size r) value;
  Ret (mkRF (current_size r + 1) (total_size r) (Some l)).

(** [std::fill] of the elements from [lo] to [hi]. *)
Definition fill (l : list A) (lo hi : Z) (value : A) : outcome (list A) :=
  for_ lo hi (fun i l => store l i value) l.

Definition Resize (new_size : Z) (value : A) (r : RepeatedField A) : outcome (RepeatedField A) :=
  _ ← CHECK (0 <=? new_size);
  if current_size r <? new_size then
    r ← Reserve new_size r;
    l ← elements r;
    l ← fill l (current_size r) new_size value;
    Ret (mkRF new_size (total_size r) (Some l))
  else Ret (with_size r new_size).

Definition in_range (index : Z) (r : RepeatedField A) : outcome unit :=
  _ ← CHECK (0 <=? index); CHECK (index <? current_size r).

Definition Get (index : Z) (r : RepeatedField A) : outcome A :=
  _ ← in_range index r; l ← elements r; load l index.

Definition Set_ (index : Z) (value : A) (r : RepeatedField A) : outcome (RepeatedField A) :=
  _ ← in_range index r; l ← elements r; l ← store l index value; Ret (with_elements r l).

Definition RemoveLast (r : RepeatedField A) : outcome (RepeatedField A) :=
  _ ← CHECK (0 <? current_size r); Ret (with_size r (current_size r - 1)).

Definition Truncate (new_size : Z) (r : RepeatedField A) : outcome (RepeatedField A) :=
  _ ← CHECK (new_size <=? current_size r);
  Ret (if 0 <? current_size r then with_size r new_size else r).

(** [ExtractSubrange]: the elements that are removed, and the field. *)
Definition ExtractSubrange (start num : Z) (r : RepeatedField A) : outcome (list A * RepeatedField A) :=
  _ ← CHECK (0 <=? start);
  _ ← CHECK (0 <=? num);
  last ← int_add start num;
  _ ← CHECK (last <=? current_size r);
  out ← for_ 0 num (fun i out => x ← Get (i + start) r; Ret (out ++ [x])) [];
  if 0 <? num then
    r ← for_ last (current_size r) (fun i r => x ← Get i r; Set_ (i - num) x r) r;
    r ← Truncate (current_size r - num) r;
    Ret (out, r)
  else Ret (out, r).

Definition Clear (r : RepeatedField A) : RepeatedField A := with_size r 0.

(** [MergeFrom] of another field. *)
Definition MergeFrom (other r : RepeatedField A) : outcome (RepeatedField A) :=
  if current_size other =? 0 then Ret r
  else
    n ← int_add (current_size r) (current_size other);
    r ← Reserve n r;
    l ← elements r;
    from ← elements other;
    l ← CopyArray l (current_size r) from (current_size other);
    Ret (mkRF n (total_size r) (Some l)).

Definition CopyFrom (other r : RepeatedField A) : outcome (RepeatedField A) :=
  MergeFrom other (Clear r).

(** [erase(begin() + first, begin() + last)]; outside the field it is
    undefined. *)
Definition erase (first last : Z) (r : RepeatedField A) : outcome (RepeatedField A) :=
  if negb ((0 <=? first) && (first <=? last) && (last <=? current_size r)) then Undef
  else if first =? last then Ret r
  else
    l ← elements r;
    l ← CopyArray l first (drop (Z.to_nat last) l) (current_size r - last);
    Truncate (first + (current_size r - last)) (with_elements r l).

(** [Swap] of two fields on the heap is [InternalSwap]. *)
Definition Swap (r other : RepeatedField A) : RepeatedField A * RepeatedField A := (other, r).

Definition SwapElements (index1 index2 : Z) (r : RepeatedField A) : outcome (RepeatedField A) :=
  l ← elements r;
  x ← load l index1;
  y ← load l index2;
  l ← store l index1 y;
  l ← store l index2 x;
  Ret (with_elements r l).

Definition SpaceUsedExcludingSelf (r : RepeatedField A) : Z :=
  match rep r with Some _ => sint 32 (u64 (total_size r * sizeof + kRepHeaderSize)) | None => 0 end.

(** The constructor from two iterators over an array. *)
Definition of_range (l : list A) : outcome (RepeatedField A) :=
  r ← Reserve (Z.of_nat (length l)) empty_field;
  foldl (fun r x => r ← r; AddAlreadyReserved x r) (Ret r) l.
End ops.
End repeated_field.
