(* ===== verification/RepeatedFieldFacts.v ===== *)
(** * Repeated fields refine lists

    Every operation of RepeatedField does to the elements what the operation
    on lists does; the capacity stays within twice the size. *)

From S2P Require Import Prelude Protobuf WireFormat RepeatedField.
Import repeated_field.

Section facts.
Context {A : Type} (zero : A) (sizeof : Z).
Abbreviation RF := (RepeatedField A).

(** The elements of a field. *)
Definition contents (r : RF) : list A := take (Z.to_nat (current_size r)) (default [] (rep r)).

Record rf_ok (r : RF) : Prop := {
  ok_size : 0 <= current_size r <= total_size r;
  ok_total : total_size r < 2 ^ 31;
  ok_rep : Z.of_nat (length (default [] (rep r))) = total_size r
}.

Lemma contents_length r : rf_ok r -> Z.of_nat (length (contents r)) = current_size r.
Proof using Type. intros [H1 H2 H3]. unfold contents. rewrite length_take. lia. Qed.

Lemma contents_lookup r i : rf_ok r -> contents r !! i =
  if decide (Z.of_nat i < current_size r) then default [] (rep r) !! i else None.
Proof using Type.
  intros [H1 H2 H3]. unfold contents. destruct (decide _).
  - apply lookup_take_lt. lia.
  - apply lookup_take_ge. lia.
Qed.

Lemma empty_ok : rf_ok empty_field.
Proof using Type. split; cbn; lia. Qed.

Lemma elements_ok r : rf_ok r -> 0 < total_size r ->
  exists l, rep r = Some l /\ elements r = Ret l /\ Z.of_nat (length l) = total_size r /\
    contents r = take (Z.to_nat (current_size r)) l.
Proof using Type.
  intros [H1 H2 H3] H. unfold elements, contents. destruct (rep r) as [l|]; [by exists l|]. cbn in H3. lia.
Qed.

Lemma CopyArray_spec (to : list A) offset from n : 0 <= offset -> 0 <= n ->
  offset + n <= Z.of_nat (length to) -> n <= Z.of_nat (length from) ->
  CopyArray to offset from n =
    Ret (take (Z.to_nat offset) to ++ take (Z.to_nat n) from ++ drop (Z.to_nat (offset + n)) to).
Proof using Type. intros. unfold CopyArray. by case_tests. Qed.

(** The range in which a request for [n] elements never overflows. *)
Definition limit : Z := 2 ^ 30.

Context (Hsizeof : 0 < sizeof <= 8).

Lemma alloc_check n : n < 2 ^ 31 -> CHECK (n <=? (2 ^ 64 - 1 - kRepHeaderSize) / sizeof) = Ret ().
Proof using Hsizeof.
  intros Hn. unfold CHECK. destruct (Z.leb_spec n ((2 ^ 64 - 1 - kRepHeaderSize) / sizeof)) as [|H]; [done|exfalso].
  assert (2 ^ 31 <= (2 ^ 64 - 1 - kRepHeaderSize) / sizeof); [|lia].
  apply Z.div_le_lower_bound; [lia|]. unfold kRepHeaderSize. nia.
Qed.

(** What [Reserve] promises: the same elements, and room for the new ones; an
    array that is grown is at least doubled, and no more than that when the
    request is smaller. *)
Record reserved (n : Z) (r r' : RF) : Prop := {
  rs_ok : rf_ok r';
  rs_contents : contents r' = contents r;
  rs_size : current_size r' = current_size r;
  rs_room : n <= total_size r';
  rs_cap : total_size r' = if n <=? total_size r then total_size r else Z.max 4 (Z.max (2 * total_size r) n)
}.

Lemma Reserve_spec n r : rf_ok r -> n <= limit -> exists r', Reserve zero sizeof n r = Ret r' /\ reserved n r r'.
Proof using Hsizeof.
  intros Hr Hn. pose proof Hr as [H1 H2 H3]. unfold Reserve, limit in *. destruct (Z.leb_spec n (total_size r)) as [|Hlt].
  { exists r. split; [done|]. split; try done. by destruct (Z.leb_spec n (total_size r)); [|lia]. }
  unfold int_mul. destruct (Z.leb_spec (- 2 ^ 31) (total_size r * 2)); [|lia].
  destruct (Z.ltb_spec (total_size r * 2) (2 ^ 31)); [|lia]. cbn [andb]. rewrite bind_Ret.
  unfold kMinRepeatedFieldAllocationSize. set (n' := Z.max 4 (Z.max (total_size r * 2) n)).
  assert (n <= n' < 2 ^ 31 /\ 4 <= n' /\ total_size r <= n') as Hn' by lia.
  rewrite alloc_check, bind_Ret by lia.
  assert (exists l, (if 0 <? current_size r
      then old ← elements r; CopyArray (replicate (Z.to_nat n') zero) 0 old (current_size r)
      else Ret (replicate (Z.to_nat n') zero)) = Ret l /\
    Z.of_nat (length l) = n' /\ take (Z.to_nat (current_size r)) l = contents r) as (l & -> & Hl & Hc).
  { destruct (Z.ltb_spec 0 (current_size r)).
    - destruct (elements_ok r Hr) as (l & _ & -> & Hl & ->); [lia|]. rewrite bind_Ret.
      rewrite CopyArray_spec by (rewrite ?length_replicate; lia). eexists. split; [done|].
      change (Z.to_nat 0) with 0%nat. rewrite take_0. cbn [app].
      assert (length (take (Z.to_nat (current_size r)) l) = Z.to_nat (current_size r)) as El by (rewrite length_take; lia).
      split; [rewrite length_app, El, length_drop, length_replicate; lia|].
      rewrite take_app_le by lia. rewrite take_take. f_equal. lia.
    - exists (replicate (Z.to_nat n') zero). split; [done|]. split; [len|].
      unfold contents. by replace (Z.to_nat (current_size r)) with 0%nat by lia. }
  rewrite bind_Ret. eexists. split; [done|]. split; cbn [current_size total_size rep].
  - split; cbn; lia.
  - done.
  - done.
  - lia.
  - destruct (Z.leb_spec n (total_size r)); lia.
Qed.

(* ------------------------------------------------------------------ *)
(** ** The specification *)

Inductive op : Type :=
| OpReserve (n : Z)
| OpAdd (v : A)
| OpAddReserved (v : A)
| OpSet (i : Z) (v : A)
| OpRemoveLast
| OpTruncate (n : Z)
| OpResize (n : Z) (v : A)
| OpExtract (start num : Z)
| OpErase (first last : Z)
| OpSwapElements (i j : Z)
| OpClear
| OpMergeFrom (other : RF)
| OpCopyFrom (other : RF).

Definition step (o : op) (r : RF) : outcome RF :=
  match o with
  | OpReserve n => Reserve zero sizeof n r
  | OpAdd v => Add zero sizeof v r
  | OpAddReserved v => AddAlreadyReserved v r
  | OpSet i v => Set_ i v r
  | OpRemoveLast => RemoveLast r
  | OpTruncate n => Truncate n r
  | OpResize n v => Resize zero sizeof n v r
  | OpExtract start num => '(_, r) ← ExtractSubrange start num r; Ret r
  | OpErase first last => erase first last r
  | OpSwapElements i j => SwapElements i j r
  | OpClear => Ret (Clear r)
  | OpMergeFrom other => MergeFrom zero sizeof other r
  | OpCopyFrom other => CopyFrom zero sizeof other r
  end.

(** The elements behind an operation; [None] when a caller must not call it. *)
Definition spec (o : op) (l : list A) : option (list A) :=
  let n := Z.of_nat (length l) in
  match o with
  | OpReserve _ => Some l
  | OpAdd v | OpAddReserved v => Some (l ++ [v])
  | OpSet i v => if (0 <=? i) && (i <? n) then Some (<[Z.to_nat i := v]> l) else None
  | OpRemoveLast => if 0 <? n then Some (take (Z.to_nat (n - 1)) l) else None
  | OpTruncate k => if (0 <=? k) && (k <=? n) then Some (take (Z.to_nat k) l) else None
  | OpResize k v =>
      if 0 <=? k then Some (take (Z.to_nat k) l ++ replicate (Z.to_nat (k - n)) v) else None
  | OpExtract start num =>
      if (0 <=? start) && (0 <=? num) && (start + num <=? n)
      then Some (take (Z.to_nat start) l ++ drop (Z.to_nat (start + num)) l) else None
  | OpErase first last =>
      if (0 <=? first) && (first <=? last) && (last <=? n)
      then Some (take (Z.to_nat first) l ++ drop (Z.to_nat last) l) else None
  | OpSwapElements i j =>
      if (0 <=? i) && (0 <=? j) then
        match l !! Z.to_nat i, l !! Z.to_nat j with
        | Some x, Some y => Some (<[Z.to_nat j := x]> (<[Z.to_nat i := y]> l))
        | _, _ => None
        end
      else None
  | OpClear => Some []
  | OpMergeFrom other => Some (l ++ contents other)
  | OpCopyFrom other => Some (contents other)
  end.

(** The size for which an operation asks. *)
Definition request (o : op) (l : list A) : Z :=
  let n := Z.of_nat (length l) in
  match o with
  | OpReserve k | OpResize k _ => k
  | OpAdd _ => n + 1
  | OpMergeFrom other => n + current_size other
  | OpCopyFrom other => current_size other
  | _ => n
  end.

(** The fields that an operation reads are fields, and room that the caller
    promises is there. *)
Definition op_ok (o : op) (r : RF) : Prop :=
  match o with
  | OpMergeFrom other | OpCopyFrom other => rf_ok other
  | OpAddReserved _ => current_size r < total_size r
  | _ => True
  end.

(** What an operation leaves. *)
Record done_with (n : Z) (l : list A) (r r' : RF) : Prop := {
  dw_ok : rf_ok r';
  dw_contents : contents r' = l;
  dw_cap : total_size r <= total_size r' <= Z.max (total_size r) (Z.max 4 (2 * n))
}.

Lemma reserved_done n r r' : reserved n r r' -> done_with n (contents r) r r'.
Proof using Type.
  intros [H1 H2 H3 H4 H5]. split; try done. rewrite H5. destruct (Z.leb_spec n (total_size r)); lia.
Qed.

(** The operations that put elements [l'] into the array behind [Reserve]. *)
Lemma mk_done n m r r1 l l' : rf_ok r -> (r1 = r \/ reserved n r r1) -> 0 <= m <= total_size r1 ->
  Z.of_nat (length l) = total_size r1 -> take (Z.to_nat m) l = l' ->
  done_with n l' r (mkRF m (total_size r1) (Some l)).
Proof using Type.
  intros Hr Hr1 Hm Hl E. assert (rf_ok r1 /\ total_size r <= total_size r1 <= Z.max (total_size r) (Z.max 4 (2 * n))) as [Hok Hcap].
  { destruct Hr1 as [->|Hr1]; [split; [done|lia]|]. split; [by destruct Hr1|]. by destruct (reserved_done _ _ _ Hr1). }
  pose proof Hok as [H1 H2 H3]. split; [split; cbn; lia|done|done].
Qed.

Lemma take_insert_end (l : list A) n v : (n < length l)%nat -> take (S n) (<[n := v]> l) = take n l ++ [v].
Proof using Type.
  intros Hn. rewrite (take_S_r _ _ v) by (by apply list_lookup_insert_eq). by rewrite take_insert_ge.
Qed.

Lemma append_done n v r r1 : rf_ok r -> (r1 = r \/ reserved n r r1) -> current_size r1 < total_size r1 ->
  exists r', (l ← elements r1; l ← store l (current_size r1) v;
    Ret (mkRF (current_size r1 + 1) (total_size r1) (Some l))) = Ret r' /\ done_with n (contents r ++ [v]) r r'.
Proof using Type.
  intros Hr Hr1 Hlt. assert (rf_ok r1 /\ contents r1 = contents r) as [Hok Hc] by (destruct Hr1 as [->|[? ? ? ? ?]]; done).
  pose proof Hok as [H1 H2 H3]. destruct (elements_ok r1 Hok) as (l & _ & -> & Hl & Ec); [lia|].
  rewrite bind_Ret, store_Ret, bind_Ret by lia. eexists. split; [done|].
  apply mk_done; try done; [lia|len|].
  replace (Z.to_nat (current_size r1 + 1)) with (S (Z.to_nat (current_size r1))) by lia.
  rewrite take_insert_end by lia. by rewrite <-Ec, Hc.
Qed.

(* ------------------------------------------------------------------ *)
(** ** The operations *)

(** A field whose elements are the first [m] ones of the array. *)
Lemma shorter_done n m r : rf_ok r -> 0 <= m <= current_size r ->
  done_with n (take (Z.to_nat m) (contents r)) r (with_size r m).
Proof using Type.
  intros Hr Hm. pose proof Hr as [H1 H2 H3]. split.
  - split; cbn; lia.
  - unfold contents. cbn. rewrite take_take. f_equal. lia.
  - cbn. lia.
Qed.

Lemma add_done v r : rf_ok r -> Z.of_nat (length (contents r)) + 1 <= limit ->
  exists r', Add zero sizeof v r = Ret r' /\
    done_with (Z.of_nat (length (contents r)) + 1) (contents r ++ [v]) r r'.
Proof using Hsizeof.
  intros Hr Hn. rewrite contents_length in * by done. pose proof Hr as [H1 H2 H3]. unfold Add, limit in *.
  destruct (Z.eqb_spec (current_size r) (total_size r)) as [E|].
  - unfold int_add. destruct (Z.leb_spec (- 2 ^ 31) (total_size r + 1)); [|lia].
    destruct (Z.ltb_spec (total_size r + 1) (2 ^ 31)); [|lia]. cbn [andb]. rewrite bind_Ret.
    destruct (Reserve_spec (total_size r + 1) r Hr) as (r1 & -> & Hr1); [unfold limit; lia|]. rewrite bind_Ret.
    rewrite E. apply append_done; [done|by right|]. destruct Hr1 as [? ? Es ? ?]. rewrite Es. lia.
  - rewrite bind_Ret. apply append_done; [done|by left|lia].
Qed.

Lemma set_done n i v r : rf_ok r -> 0 <= i < current_size r ->
  exists r', Set_ i v r = Ret r' /\ done_with n (<[Z.to_nat i := v]> (contents r)) r r' /\
    current_size r' = current_size r /\ total_size r' = total_size r.
Proof using Type.
  intros Hr Hi. pose proof Hr as [H1 H2 H3]. unfold Set_, in_range, CHECK. case_tests.
  destruct (elements_ok r Hr) as (l & _ & E & Hl & ->); [lia|]. cbn [mbind outcome_bind]. rewrite E.
  cbn [mbind outcome_bind]. rewrite store_Ret by lia. cbn [mbind outcome_bind].
  eexists. split; [done|]. split; [|done]. unfold with_elements.
  apply mk_done; [done|by left|lia|len|]. by rewrite take_insert_lt by lia.
Qed.

Lemma get_done i r x : rf_ok r -> 0 <= i -> contents r !! Z.to_nat i = Some x -> Get i r = Ret x.
Proof using Type.
  intros Hr Hi E. pose proof Hr as [H1 H2 H3].
  assert (i < current_size r) by (apply lookup_lt_Some in E; pose proof (contents_length r Hr); lia).
  unfold Get, in_range, CHECK. case_tests. destruct (elements_ok r Hr) as (l & _ & -> & Hl & Ec); [lia|].
  cbn [mbind outcome_bind]. apply load_Ret; [done|]. rewrite Ec in E. by rewrite lookup_take_lt in E by lia.
Qed.

Lemma fill_spec (l : list A) lo hi v : 0 <= lo <= hi -> hi <= Z.of_nat (length l) ->
  fill l lo hi v = Ret (take (Z.to_nat lo) l ++ replicate (Z.to_nat (hi - lo)) v ++ drop (Z.to_nat hi) l).
Proof using Type.
  intros Hlo Hhi. unfold fill.
  destruct (for_inv (fun i l' => l' = take (Z.to_nat lo) l ++ replicate (Z.to_nat (i - lo)) v ++ drop (Z.to_nat i) l)
    lo hi (fun i l => store l i v) l) as (l' & -> & ->).
  - lia.
  - rewrite Z.sub_diag. symmetry. apply take_drop.
  - intros i l' Hi ->. assert (length (take (Z.to_nat lo) l) = Z.to_nat lo) as E1 by (rewrite length_take; lia).
    rewrite store_Ret by (len; lia). eexists. split; [done|].
    rewrite insert_app_r_alt by (rewrite E1; lia). rewrite insert_app_r_alt by (rewrite E1, length_replicate; lia).
    rewrite E1, length_replicate.
    replace (Z.to_nat i - Z.to_nat lo - Z.to_nat (i - lo))%nat with 0%nat by lia.
    replace (Z.to_nat (i + 1 - lo)) with (S (Z.to_nat (i - lo))) by lia.
    destruct (drop (Z.to_nat i) l) as [|y d] eqn:E.
    { apply (f_equal length) in E. rewrite length_drop in E. cbn in E. lia. }
    cbn [insert list_insert]. rewrite replicate_S_end, <-!app_assoc. cbn [app]. do 3 f_equal.
    replace (Z.to_nat (i + 1)) with (S (Z.to_nat i)) by lia.
    change d with (drop 1 (y :: d)). rewrite <-E, drop_drop. f_equal. lia.
  - done.
Qed.

Lemma resize_done n v r : rf_ok r -> 0 <= n <= limit ->
  exists r', Resize zero sizeof n v r = Ret r' /\
    done_with n (take (Z.to_nat n) (contents r) ++
      replicate (Z.to_nat (n - Z.of_nat (length (contents r)))) v) r r'.
Proof using Hsizeof.
  intros Hr Hn. rewrite contents_length by done. pose proof Hr as [H1 H2 H3]. unfold Resize, CHECK.
  destruct (Z.leb_spec 0 n); [|lia]. rewrite bind_Ret. destruct (Z.ltb_spec (current_size r) n) as [Hlt|Hge].
  - destruct (Reserve_spec n r Hr) as (r1 & -> & Hr1); [lia|]. rewrite bind_Ret.
    pose proof Hr1 as [Hok Hc Hs Hroom _]. pose proof Hok as [? ? ?].
    destruct (elements_ok r1 Hok) as (l & _ & -> & Hl & Ec); [lia|]. rewrite bind_Ret.
    rewrite fill_spec, bind_Ret by lia. eexists. split; [done|].
    assert (length (take (Z.to_nat (current_size r1)) l) = Z.to_nat (current_size r1)) as E1 by (rewrite length_take; lia).
    apply mk_done; [done|by right|lia|rewrite !length_app, E1, length_replicate, length_drop; lia|].
    rewrite app_assoc, take_app_le by (rewrite length_app, E1, length_replicate; lia).
    rewrite take_ge by (rewrite length_app, E1, length_replicate; lia).
    rewrite <-Ec, Hc, Hs. f_equal. rewrite take_ge; [done|]. pose proof (contents_length r Hr). lia.
  - eexists. split; [done|]. replace (Z.to_nat (n - current_size r)) with 0%nat by lia.
    cbn [replicate]. rewrite app_nil_r. apply shorter_done; [done|lia].
Qed.

(** The elements that are moved down over a gap. *)
Lemma slide_spec start num r : rf_ok r -> 0 <= start -> 0 < num -> start + num <= current_size r ->
  exists r', for_ (start + num) (current_size r) (fun i r => x ← Get i r; Set_ (i - num) x r) r = Ret r' /\
    rf_ok r' /\ current_size r' = current_size r /\ total_size r' = total_size r /\
    take (Z.to_nat (current_size r - num)) (contents r') =
      take (Z.to_nat start) (contents r) ++ drop (Z.to_nat (start + num)) (contents r).
Proof using Type.
  intros Hr Hs Hnum Hle. pose proof (contents_length r Hr) as Hlen. set (c := contents r) in *.
  destruct (for_inv (fun i r' => rf_ok r' /\ current_size r' = current_size r /\ total_size r' = total_size r /\
      (forall j, (Z.of_nat j < i - num -> contents r' !! j =
         if decide (Z.of_nat j < start) then c !! j else c !! (j + Z.to_nat num)%nat)) /\
      (forall j, i - num <= Z.of_nat j -> contents r' !! j = c !! j))
    (start + num) (current_size r) (fun i r => x ← Get i r; Set_ (i - num) x r) r)
    as (r' & -> & Hok & Hcs & Hts & Hlo & _).
  - lia.
  - split; [done|]. do 2 (split; [done|]). split; [|done]. intros j Hj. by rewrite decide_True by lia.
  - intros i r1 Hi (Hok1 & Hcs1 & Hts1 & Hlo & Hhi).
    destruct (lookup_lt_is_Some_2 c (Z.to_nat i)) as [x Hx]; [lia|].
    assert (contents r1 !! Z.to_nat i = Some x) as Hx1 by (by rewrite Hhi by lia).
    rewrite (get_done i r1 x), bind_Ret by (done || lia).
    destruct (set_done 0 (i - num) x r1 Hok1) as (r2 & -> & Hd & Hcs2 & Hts2); [lia|].
    exists r2. split; [done|]. destruct Hd as [Hok2 Hc2 Hcap2]. split; [done|]. split; [by rewrite Hcs2|].
    pose proof Hok1 as [? ? ?]. pose proof Hok2 as [? ? ?].
    split; [by rewrite Hts2|]. rewrite Hc2. split.
    + intros j Hj. destruct (decide (Z.of_nat j = i - num)) as [Ej|].
      * rewrite decide_False by lia. replace j with (Z.to_nat (i - num)) by lia.
        rewrite list_lookup_insert_eq by (pose proof (contents_length r1 Hok1); lia).
        rewrite <-Hx. f_equal. lia.
      * rewrite list_lookup_insert_ne by lia. apply Hlo. lia.
    + intros j Hj. rewrite list_lookup_insert_ne by lia. apply Hhi. lia.
  - exists r'. split; [done|]. split; [done|]. split; [done|]. split; [done|].
    apply list_eq. intros j. pose proof (contents_length r' Hok) as Hlen'.
    destruct (Z.lt_ge_cases (Z.of_nat j) (current_size r - num)) as [Hj|Hj].
    + rewrite lookup_take_lt, Hlo by lia. destruct (decide _).
      * rewrite lookup_app_l by (rewrite length_take; lia). by rewrite lookup_take_lt by lia.
      * rewrite lookup_app_r, length_take, lookup_drop by (rewrite length_take; lia). f_equal. lia.
    + rewrite lookup_take_ge by lia. symmetry. apply lookup_ge_None. rewrite length_app, length_take, length_drop. lia.
Qed.

(** The field behind a gap that is closed is truncated. *)
Lemma gap_done n m c r r1 : rf_ok r -> rf_ok r1 -> current_size r1 = current_size r ->
  total_size r1 = total_size r -> 0 <= m <= current_size r -> 0 < current_size r ->
  take (Z.to_nat m) (contents r1) = c ->
  exists r', Truncate m r1 = Ret r' /\ done_with n c r r'.
Proof using Type.
  intros Hr Hr1 Hcs Hts Hm Hpos <-. unfold Truncate, CHECK. rewrite Hcs. case_tests.
  eexists. split; [done|].
  destruct (shorter_done n m r1 Hr1) as [H1 H2 H3]; [lia|]. split; [done|done|]. cbn in *. lia.
Qed.

Lemma extract_done n start num r : rf_ok r -> 0 <= start -> 0 <= num -> start + num <= current_size r ->
  exists r', ExtractSubrange start num r =
      Ret (take (Z.to_nat num) (drop (Z.to_nat start) (contents r)), r') /\
    done_with n (take (Z.to_nat start) (contents r) ++ drop (Z.to_nat (start + num)) (contents r)) r r'.
Proof using Type.
  intros Hr Hs Hn Hle. pose proof Hr as [H1 H2 H3]. pose proof (contents_length r Hr) as Hlen.
  unfold ExtractSubrange, CHECK, int_add. destruct (Z.leb_spec 0 start); [|lia]. destruct (Z.leb_spec 0 num); [|lia].
  destruct (Z.leb_spec (- 2 ^ 31) (start + num)); [|lia]. destruct (Z.ltb_spec (start + num) (2 ^ 31)); [|lia].
  cbn [andb]. rewrite !bind_Ret. destruct (Z.leb_spec (start + num) (current_size r)); [|lia]. rewrite bind_Ret.
  destruct (for_inv (fun i out => out = take (Z.to_nat i) (drop (Z.to_nat start) (contents r))) 0 num
    (fun i out => x ← Get (i + start) r; Ret (out ++ [x])) []) as (out & -> & ->); [lia|done|..].
  { intros i out Hi ->. destruct (lookup_lt_is_Some_2 (contents r) (Z.to_nat (i + start))) as [x Hx]; [lia|].
    rewrite (get_done _ r x), bind_Ret by (done || lia). eexists. split; [done|].
    replace (Z.to_nat (i + 1)) with (S (Z.to_nat i)) by lia. symmetry. apply take_S_r. rewrite lookup_drop, <-Hx.
    f_equal. lia. }
  cbn [mbind outcome_bind]. destruct (Z.ltb_spec 0 num) as [Hpos|Hzero].
  - destruct (slide_spec start num r) as (r1 & -> & Hok & Hcs & Hts & Hc); try done.
    cbn [mbind outcome_bind]. rewrite Hcs.
    edestruct (gap_done n (current_size r - num)) as (r' & -> & Hd); [exact Hr|exact Hok|done|done|lia|lia|exact Hc|].
    by exists r'.
  - exists r. split; [done|]. replace (start + num) with start by lia. rewrite take_drop. split; [done|done|lia].
Qed.

Lemma erase_done n first last r : rf_ok r -> 0 <= first <= last -> last <= current_size r ->
  exists r', erase first last r = Ret r' /\
    done_with n (take (Z.to_nat first) (contents r) ++ drop (Z.to_nat last) (contents r)) r r'.
Proof using Type.
  intros Hr Hf Hl. pose proof Hr as [H1 H2 H3]. unfold erase. case_tests. cbn [andb negb].
  - exists r. split; [done|]. replace last with first by lia. rewrite take_drop. split; [done|done|lia].
  - destruct (elements_ok r Hr) as (l & _ & -> & Hlen & Ec); [lia|]. rewrite bind_Ret.
    rewrite CopyArray_spec, bind_Ret by (rewrite ?length_drop; lia).
    set (l1 := take (Z.to_nat first) l ++ _).
    assert (length (take (Z.to_nat first) l) = Z.to_nat first) as E1 by (rewrite length_take; lia).
    assert (length (take (Z.to_nat (current_size r - last)) (drop (Z.to_nat last) l)) =
      Z.to_nat (current_size r - last)) as E2 by (rewrite length_take, length_drop; lia).
    assert (Z.of_nat (length l1) = total_size r) as Hl1.
    { unfold l1. rewrite !length_app, E1, E2, length_drop. lia. }
    assert (rf_ok (with_elements r l1)) as Hok by (split; cbn; lia).
    apply (gap_done n _ _ r (with_elements r l1)); try done; [lia..|].
    unfold contents at 1. cbn. rewrite take_take, Nat.min_l by lia. unfold l1. rewrite app_assoc.
    rewrite take_app_le by (rewrite length_app; lia). rewrite take_ge by (rewrite length_app; lia).
    rewrite Ec, take_take, Nat.min_l by lia. f_equal. rewrite firstn_skipn_comm. do 2 f_equal. lia.
Qed.

Lemma merge_done other r : rf_ok r -> rf_ok other ->
  Z.of_nat (length (contents r)) + current_size other <= limit ->
  exists r', MergeFrom zero sizeof other r = Ret r' /\
    done_with (Z.of_nat (length (contents r)) + current_size other) (contents r ++ contents other) r r'.
Proof using Hsizeof.
  intros Hr Ho Hn. rewrite contents_length in * by done. pose proof Hr as [H1 H2 H3]. pose proof Ho as [O1 O2 O3].
  unfold MergeFrom. destruct (Z.eqb_spec (current_size other) 0) as [E0|Hpos].
  { exists r. split; [done|]. assert (contents other = []) as -> by (unfold contents; by rewrite E0).
    rewrite app_nil_r. split; [done|done|lia]. }
  unfold int_add, limit in *. destruct (Z.leb_spec (- 2 ^ 31) (current_size r + current_size other)); [|lia].
  destruct (Z.ltb_spec (current_size r + current_size other) (2 ^ 31)); [|lia]. cbn [andb]. rewrite bind_Ret.
  destruct (Reserve_spec (current_size r + current_size other) r Hr) as (r1 & -> & Hr1); [done|]. rewrite bind_Ret.
  pose proof Hr1 as [Hok Hc Hs Hroom _]. pose proof Hok as [? ? ?].
  destruct (elements_ok r1 Hok) as (l & _ & -> & Hl & Ec); [lia|].
  destruct (elements_ok other Ho) as (lo & _ & -> & Hlo & Eo); [lia|]. rewrite !bind_Ret.
  rewrite CopyArray_spec, bind_Ret by lia. eexists. split; [done|].
  assert (length (take (Z.to_nat (current_size r1)) l) = Z.to_nat (current_size r1)) as E1 by (rewrite length_take; lia).
  assert (length (take (Z.to_nat (current_size other)) lo) = Z.to_nat (current_size other)) as E2
    by (rewrite length_take; lia).
  apply mk_done; [done|by right|lia|rewrite !length_app, E1, E2, length_drop; lia|].
  rewrite app_assoc, take_app_le by (rewrite length_app; lia). rewrite take_ge by (rewrite length_app; lia).
  by rewrite Eo, <-Ec, Hc.
Qed.

Lemma swap_done n i j x y r : rf_ok r -> 0 <= i -> 0 <= j -> contents r !! Z.to_nat i = Some x ->
  contents r !! Z.to_nat j = Some y ->
  exists r', SwapElements i j r = Ret r' /\
    done_with n (<[Z.to_nat j := x]> (<[Z.to_nat i := y]> (contents r))) r r'.
Proof using Type.
  intros Hr Hi Hj Ex Ey. pose proof Hr as [H1 H2 H3]. pose proof (contents_length r Hr) as Hlen.
  assert (i < current_size r /\ j < current_size r) as [? ?].
  { apply lookup_lt_Some in Ex, Ey. lia. }
  unfold SwapElements. destruct (elements_ok r Hr) as (l & _ & -> & Hl & Ec); [lia|]. rewrite bind_Ret.
  rewrite Ec in *. rewrite lookup_take_lt in Ex, Ey by lia.
  rewrite (load_Ret _ _ _ Hi Ex), bind_Ret, (load_Ret _ _ _ Hj Ey), bind_Ret, store_Ret, bind_Ret, store_Ret, bind_Ret
    by (rewrite ?length_insert; lia).
  eexists. split; [done|]. unfold with_elements. apply mk_done; [done|by left|lia|by rewrite !length_insert|].
  by rewrite !take_insert_lt by lia.
Qed.

(** An operation that the specification allows returns, with the elements of
    the specification. *)
Lemma step_done o r l' : rf_ok r -> op_ok o r -> spec o (contents r) = Some l' ->
  request o (contents r) <= limit ->
  exists r', step o r = Ret r' /\ done_with (request o (contents r)) l' r r'.
Proof using Hsizeof.
  intros Hr Ho Hs Hn. pose proof Hr as [H1 H2 H3]. pose proof (contents_length r Hr) as Hlen.
  destruct o; cbn [step spec request op_ok] in *; rewrite ?Hlen in Hs;
    try match type of Hs with (if ?b then _ else _) = _ => destruct b eqn:E; [|done];
      rewrite ?andb_true_iff, ?Z.leb_le, ?Z.ltb_lt in E end.
  - injection Hs as <-. destruct (Reserve_spec n r Hr Hn) as (r' & -> & Hd). exists r'. split; [done|].
    by apply reserved_done.
  - injection Hs as <-. by apply add_done.
  - injection Hs as <-. unfold AddAlreadyReserved, CHECK. destruct (Z.ltb_spec (current_size r) (total_size r)); [|lia].
    rewrite bind_Ret. apply append_done; [done|by left|done].
  - injection Hs as <-. destruct (set_done (Z.of_nat (length (contents r))) i v r Hr E) as (r' & ? & ? & _). by exists r'.
  - injection Hs as <-. unfold RemoveLast, CHECK. destruct (Z.ltb_spec 0 (current_size r)); [|lia]. rewrite bind_Ret.
    eexists. split; [done|]. apply shorter_done; [done|lia].
  - injection Hs as <-. unfold Truncate, CHECK. destruct (Z.leb_spec n (current_size r)); [|lia]. rewrite bind_Ret.
    eexists. split; [done|]. destruct (Z.ltb_spec 0 (current_size r)); [by apply shorter_done|].
    replace n with (current_size r) by lia. rewrite take_ge by lia. split; [done|done|lia].
  - injection Hs as <-. rewrite <-Hlen. by apply resize_done.
  - injection Hs as <-. destruct E as [[? ?] ?].
    destruct (extract_done (Z.of_nat (length (contents r))) start num r) as (r' & -> & Hd); try done. by exists r'.
  - injection Hs as <-. destruct E as [? ?]. by apply erase_done.
  - destruct E as [? ?]. destruct (contents r !! Z.to_nat i) as [x|] eqn:Ex; [|done].
    destruct (contents r !! Z.to_nat j) as [y|] eqn:Ey; [|done]. injection Hs as <-. by apply swap_done.
  - injection Hs as <-. eexists. split; [done|].
    pose proof (shorter_done (Z.of_nat (length (contents r))) 0 r Hr ltac:(lia)) as Hd.
    change (Z.to_nat 0) with 0%nat in Hd. by rewrite take_0 in Hd.
  - injection Hs as <-. by apply merge_done.
  - injection Hs as <-. unfold CopyFrom.
    pose proof (shorter_done 0 0 r Hr ltac:(lia)) as Hd. change (Z.to_nat 0) with 0%nat in Hd.
    rewrite take_0 in Hd. destruct Hd as [Hok Hc _]. fold (Clear r) in *.
    destruct (merge_done other (Clear r) Hok Ho) as (r' & -> & Hd); [rewrite Hc; cbn; lia|].
    exists r'. split; [done|]. rewrite Hc in Hd. destruct Hd as [Hok' Hc' Hcap]. by split.
Qed.

(** A sequence of operations, on fields and on lists. *)
Fixpoint run (os : list op) (r : RF) : outcome RF :=
  match os with [] => Ret r | o :: os => r ← step o r; run os r end.

Fixpoint spec_run (os : list op) (l : list A) : option (list A) :=
  match os with [] => Some l | o :: os => l ← spec o l; spec_run os l end.

(** The largest size for which the operations ask. *)
Fixpoint peak (os : list op) (l : list A) : Z :=
  match os with
  | [] => 0
  | o :: os => Z.max (request o l) (match spec o l with Some l => peak os l | None => 0 end)
  end.

(** The operations that need no promise of the caller about the capacity. *)
Definition op_free (o : op) : Prop :=
  match o with
  | OpMergeFrom other | OpCopyFrom other => rf_ok other
  | OpAddReserved _ => False
  | _ => True
  end.

Lemma run_done os r l : rf_ok r -> Forall op_free os -> spec_run os (contents r) = Some l ->
  peak os (contents r) <= limit ->
  exists r', run os r = Ret r' /\ done_with (peak os (contents r)) l r r'.
Proof using Hsizeof.
  revert r. induction os as [|o os IH]; intros r Hr Hos Hs Hp; cbn [run spec_run peak] in *.
  { injection Hs as <-. exists r. split; [done|]. split; [done|done|lia]. }
  apply Forall_cons in Hos as [Ho Hos]. destruct (spec o (contents r)) as [l1|] eqn:E1; [|done].
  destruct (step_done o r l1 Hr) as (r1 & -> & [Hok1 Hc1 Hcap1]); [by destruct o|done|lia|]. rewrite bind_Ret.
  cbn in Hs. rewrite <-Hc1 in Hs, Hp |- *. destruct (IH r1 Hok1 Hos Hs) as (r' & -> & [Hok Hc Hcap]); [lia|].
  exists r'. split; [done|]. split; [done|done|]. lia.
Qed.

(* ------------------------------------------------------------------ *)
(** ** The capacity of a field that grows one by one *)

Lemma add_capacity v r : rf_ok r -> Z.of_nat (length (contents r)) + 1 <= limit ->
  exists r', Add zero sizeof v r = Ret r' /\ rf_ok r' /\ contents r' = contents r ++ [v] /\
    total_size r' = if current_size r =? total_size r then Z.max 4 (2 * total_size r) else total_size r.
Proof using Hsizeof.
  intros Hr Hn. destruct (add_done v r Hr Hn) as (r' & E & [Hok Hc _]). exists r'. split; [done|]. split; [done|].
  split; [done|]. rewrite contents_length in Hn by done. pose proof Hr as [H1 H2 H3]. unfold Add, limit in *.
  destruct (Z.eqb_spec (current_size r) (total_size r)) as [Eq|].
  - unfold int_add in E. destruct (Z.leb_spec (- 2 ^ 31) (total_size r + 1)); [|lia].
    destruct (Z.ltb_spec (total_size r + 1) (2 ^ 31)); [|lia]. cbn [andb] in E. rewrite bind_Ret in E.
    destruct (Reserve_spec (total_size r + 1) r Hr) as (r1 & E1 & [_ _ _ _ Hcap]); [unfold limit; lia|].
    rewrite E1, bind_Ret in E. bind_inv E. bind_inv E. injection E as <-. cbn. rewrite Hcap.
    destruct (Z.leb_spec (total_size r + 1) (total_size r)); lia.
  - rewrite bind_Ret in E. bind_inv E. bind_inv E. by injection E as <-.
Qed.
End facts.

(** The smallest capacity for [n] elements. *)
Definition least_capacity (n c : Z) : Prop :=
  exists k, 0 <= k /\ c = 4 * 2 ^ k /\ n <= c /\ (k = 0 \/ c < 2 * n).

Lemma least_capacity_unique n c d : least_capacity n c -> least_capacity n d -> c = d.
Proof.
  assert (forall k k', 0 <= k < k' -> 2 * (4 * 2 ^ k) <= 4 * 2 ^ k') as Hpow.
  { intros k k' Hk. assert (2 ^ (k + 1) <= 2 ^ k') by (apply Z.pow_le_mono_r; lia).
    rewrite Z.pow_add_r in * by lia. lia. }
  intros (k & Hk & -> & H1 & H2) (k' & Hk' & -> & H3 & H4).
  destruct (Z.lt_total k k') as [H|[->|H]]; [|done|]; specialize (Hpow _ _ ltac:(split; [|exact H]; lia)); lia.
Qed.

Lemma capacity_loop_least fuel k n : 0 <= k -> n <= 4 * 2 ^ (k + Z.of_nat fuel) -> (k = 0 \/ 4 * 2 ^ k < 2 * n) ->
  least_capacity n (capacity_loop fuel (4 * 2 ^ k) n).
Proof.
  revert k. induction fuel as [|fuel IH]; intros k Hk Hn Hlo; cbn [capacity_loop].
  { exists k. rewrite Z.add_0_r in Hn. done. }
  destruct (Z.leb_spec n (4 * 2 ^ k)) as [|Hlt]; [by exists k|].
  replace (2 * (4 * 2 ^ k)) with (4 * 2 ^ (k + 1)) by (rewrite Z.pow_add_r by lia; lia).
  apply IH; [lia| |right; rewrite Z.pow_add_r by lia; lia].
  by replace (k + 1 + Z.of_nat fuel) with (k + Z.of_nat (S fuel)) by lia.
Qed.

Lemma repeated_capacity_least n : n <> 0%nat -> least_capacity (Z.of_nat n) (repeated_capacity n).
Proof.
  intros Hn. unfold repeated_capacity. rewrite decide_False by done.
  change 4 with (4 * 2 ^ 0) at 1. apply capacity_loop_least; [lia| |by left].
  pose proof (Z.pow_gt_lin_r 2 (Z.of_nat n) ltac:(lia) ltac:(lia)). rewrite Z.add_0_l. lia.
Qed.

Lemma repeated_capacity_bounds n :
  Z.of_nat n <= repeated_capacity n <= Z.max 4 (2 * Z.of_nat n).
Proof.
  destruct (decide (n = 0%nat)) as [->|Hn]; [by cbn|].
  destruct (repeated_capacity_least n Hn) as (k & Hk & -> & H1 & [-> | H2]); lia.
Qed.

Lemma repeated_capacity_S n : repeated_capacity (S n) =
  if Z.of_nat n =? repeated_capacity n then Z.max 4 (2 * repeated_capacity n) else repeated_capacity n.
Proof.
  destruct (decide (n = 0%nat)) as [->|Hn]; [done|].
  pose proof (repeated_capacity_least (S n) ltac:(done)) as HS.
  apply (least_capacity_unique _ _ _ HS). destruct (repeated_capacity_least n Hn) as (k & Hk & E & H1 & H2).
  destruct (Z.eqb_spec (Z.of_nat n) (repeated_capacity n)) as [Eq|Hne].
  - exists (k + 1). rewrite Z.pow_add_r by lia. lia.
  - exists k. lia.
Qed.
