(* ===== verification/GeneratedCode.v ===== *)
(** * The generated message classes

    The code that protoc generates for a message class (common.pb.cc,
    datanode.pb.cc, namenode.pb.cc) differs from class to class only in the
    fields it is generated from.  The functions here are this code for a list of
    fields: [serialize] is [InternalSerializeWithCachedSizesToArray], [ByteSize],
    [IsInitialized] and [merge] ([MergePartialFromCodedStream]) have the names
    of the methods. *)

From S2P Require Import Prelude Protobuf WireFormat.

Module generated.

(** A message object of a class. *)
Record message : Type := mkMessage { m_fields : list (list value); m_unknown : list byte }.

Definition message_value (m : message) : value := VMessage (m_fields m) (m_unknown m).
Definition value_message (v : value) : message :=
  match v with VMessage vss u => mkMessage vss u | _ => mkMessage [] [] end.

(** [Clear], the state of a new object. *)
Definition default_message (fields : list fdesc) : message := mkMessage (replicate (length fields) []) [].

(* ------------------------------------------------------------------ *)
(** ** Merging and copying *)

(** A field that is repeated gets new elements, each merged from an element of
    [from]; [set_x] overwrites a field; a message is merged into [mutable_x()]. *)
Definition merge_field (lab : label) (t : ftype) (merge : value -> value -> value) (from to : list value)
    : list value :=
  let into_new v :=
    match t with TYPE_MESSAGE fields => merge v (message_value (default_message fields)) | _ => v end in
  match lab, from with
  | (LABEL_REPEATED | LABEL_PACKED), _ => to ++ (into_new <$> from)
  | _, [] => to
  | _, v :: _ =>
      match t, to with
      | TYPE_MESSAGE _, w :: _ => [merge v w]
      | _, _ => [into_new v]
      end
  end.

Fixpoint merge_value (t : ftype) (from to : value) : value :=
  match t, from, to with
  | TYPE_MESSAGE fields, VMessage fs fu, VMessage ts tu =>
      VMessage (zip_with (fun '(n, lab, t) '(f, g) => merge_field lab t (merge_value t) f g) fields (zip fs ts))
        (tu ++ fu)
  | _, _, _ => from
  end.

(** [MergeFrom] of another object, and [CopyFrom]. *)
Definition MergeFrom (fields : list fdesc) (from to : message) : message :=
  value_message (merge_value (TYPE_MESSAGE fields) (message_value from) (message_value to)).

Definition CopyFrom (fields : list fdesc) (from : message) : message :=
  MergeFrom fields from (default_message fields).

Section methods.
Context `{PR : !ProtobufRuntime, WR : !WireRuntime}.

(* ------------------------------------------------------------------ *)
(** ** Sizes and serialisation *)

(** The size that the field [(n, lab, t)] adds; [size] is the size of a value
    behind its tag. *)
Definition field_size (n : Z) (lab : label) (t : ftype) (size : value -> Z) (vs : list value) : Z :=
  let tag_size := VarintSize32 (MakeTag n (wire_type t)) in
  match lab with
  | LABEL_PACKED =>
      let data_size := foldr (fun v s => size v + s) 0 vs in
      (if 0 <? data_size
       then VarintSize32 (MakeTag n WIRETYPE_LENGTH_DELIMITED) + VarintSize32SignExtended data_size
       else 0) + data_size
  | _ => foldr (fun v s => tag_size + size v + s) 0 vs
  end.

(** The size of a value behind its tag; for a message it is [MessageSize]. *)
Fixpoint value_size (t : ftype) (v : value) : Z :=
  match t, v with
  | TYPE_MESSAGE fields, VMessage vss u =>
      LengthDelimitedSize
        (foldr Z.add 0 (zip_with (fun '(n, lab, t) vs => field_size n lab t (value_size t) vs) fields vss)
         + Z.of_nat (length u))
  | _, _ => PrimitiveSize t v
  end.

Definition ByteSize (fields : list fdesc) (m : message) : Z :=
  foldr Z.add 0 (zip_with (fun '(n, lab, t) vs => field_size n lab t (value_size t) vs) fields (m_fields m))
  + Z.of_nat (length (m_unknown m)).

(** The bytes of a field; [write] gives those of a value behind its tag. *)
Definition field_bytes (n : Z) (lab : label) (t : ftype) (write : value -> list byte) (vs : list value)
    : list byte :=
  match lab with
  | LABEL_PACKED =>
      if decide (vs = []) then []
      else
        WriteTagToArray n WIRETYPE_LENGTH_DELIMITED ++
        WriteVarint32ToArray (u32 (foldr (fun v s => value_size t v + s) 0 vs)) ++ concat (write <$> vs)
  | _ => concat ((fun v => WriteTagToArray n (wire_type t) ++ write v) <$> vs)
  end.

(** A value behind its tag; a message is written behind its cached size. *)
Fixpoint write_value (t : ftype) (v : value) : list byte :=
  match t, v with
  | TYPE_MESSAGE fields, VMessage vss u =>
      WriteVarint32ToArray (u32 (ByteSize fields (mkMessage vss u))) ++
      concat (zip_with (fun '(n, lab, t) vs => field_bytes n lab t (write_value t) vs) fields vss) ++ u
  | _, _ => WritePrimitive t v
  end.

Definition serialize (fields : list fdesc) (m : message) : list byte :=
  concat (zip_with (fun '(n, lab, t) vs => field_bytes n lab t (write_value t) vs) fields (m_fields m)) ++
  m_unknown m.

(** The required fields are set, and the messages inside are initialised. *)
Fixpoint value_initialized (t : ftype) (v : value) : bool :=
  match t, v with
  | TYPE_MESSAGE fields, VMessage vss _ =>
      forallb (fun b => b) (zip_with (fun '(n, lab, t) vs =>
        match lab with LABEL_REQUIRED => negb (bool_decide (vs = [])) | _ => true end &&
        forallb (value_initialized t) vs) fields vss)
  | _, _ => true
  end.

Definition IsInitialized (fields : list fdesc) (m : message) : bool :=
  value_initialized (TYPE_MESSAGE fields) (message_value m).

(* ------------------------------------------------------------------ *)
(** ** Parsing *)

(** What reading a field gives: the tag is not one of the field
    ([handle_unusual]), a failure, or the values of the field, the bytes to keep
    as unknown, and the rest. *)
Inductive field_result : Type :=
| Unusual
| Failure
| Done (vs : list value) (unknown rest : list byte).

Definition of_option (r : option (list value * list byte)) : field_result :=
  match r with None => Failure | Some (vs, l) => Done vs [] l end.

(** A value of a singular field replaces the old one, a value of a repeated
    field is added. *)
Definition put (lab : label) (vs : list value) (v : value) : list value :=
  match lab with LABEL_REQUIRED | LABEL_OPTIONAL => [v] | _ => vs ++ [v] end.

Definition is_repeated (lab : label) : bool :=
  match lab with LABEL_REQUIRED | LABEL_OPTIONAL => false | _ => true end.

(** The result of a parse: the message, whether the message ended at the limit,
    and the rest; [None] is failure. *)
Definition merge_result : Type := outcome (option (message * bool * list byte)).

Section merge.
(** The parser of the messages inside. *)
Context (rec : list fdesc -> list byte -> message -> merge_result).

(** The bytes inside a limit are parsed; the rest is what the parse left, and
    what is behind the limit. *)
Definition merge_inside (fields : list fdesc) (m : message) (inside after : list byte)
    : outcome (option (message * list byte)) :=
  r ← rec fields inside m;
  Ret (match r with
       | Some (m, true, rest) => Some (m, rest ++ after)
       | _ => None
       end).

(** [ReadMessageNoVirtual] into [mutable_x()], and
    [ReadMessageNoVirtualNoRecursionDepth] into [add_x()]. *)
Definition read_message_field (lab : label) (fields : list fdesc) (l : list byte) (vs : list value)
    : outcome field_result :=
  let done vs' (r : option (message * list byte)) :=
    match r with None => Failure | Some (m, l) => Done (vs' ++ [message_value m]) [] l end in
  if is_repeated lab then
    let '(inside, after) := ReadLengthAndPushLimit l in
    r ← merge_inside fields (default_message fields) inside after;
    Ret (done vs r)
  else
    match ReadVarintSizeAsInt l with
    | None => Ret Failure
    | Some (length, l) =>
        let m := match vs with v :: _ => value_message v | [] => default_message fields end in
        r ← merge_inside fields m (take (Z.to_nat length) l) (drop (Z.to_nat length) l);
        Ret (done [] r)
    end.

(** The case of the field [(n, lab, t)]; [ExpectTag] followed by a jump is a
    turn of the loop, and so is the loop of [ReadRepeatedPrimitive] when it
    expects the tag of the field itself. *)
Definition read_field (n : Z) (lab : label) (t : ftype) (tag : Z) (l : list byte) (vs : list value)
    : outcome field_result :=
  let own := MakeTag n (wire_type t) in
  let packed := MakeTag n WIRETYPE_LENGTH_DELIMITED in
  let single := of_option ('(v, l) ← ReadPrimitive t l; Some (put lab vs v, l)) in
  match t with
  | TYPE_MESSAGE fields =>
      if tag =? own then read_message_field lab fields l vs else Ret Unusual
  | TYPE_STRING | TYPE_BYTES => Ret (if tag =? own then single else Unusual)
  | TYPE_ENUM valid =>
      Ret (if tag =? own then
             match ReadPrimitive t l with
             | Some (VInt z, l) =>
                 if decide (z ∈ valid) then Done (put lab vs (VInt z)) [] l
                 else Done vs (AddVarint n (u64 z)) l
             | _ => Failure
             end
           else if is_repeated lab && (tag =? packed) then
             match ReadPackedEnumPreserveUnknowns n valid l with
             | None => Failure
             | Some (zs, u, l) => Done (vs ++ (VInt <$> zs)) u l
             end
           else Unusual)
  | _ =>
      match lab with
      | LABEL_REQUIRED | LABEL_OPTIONAL => Ret (if tag =? own then single else Unusual)
      | LABEL_REPEATED =>
          if tag =? own then Ret single
          else if tag =? packed then r ← ReadPackedPrimitive t l vs; Ret (of_option r)
          else Ret Unusual
      | LABEL_PACKED =>
          if tag =? packed then r ← ReadPackedPrimitive t l vs; Ret (of_option r)
          else if tag =? own then Ret (of_option (ReadRepeatedPrimitive t packed l vs))
          else Ret Unusual
      end
  end.

(** The case of [switch] for a field number, with the index of the field. *)
Fixpoint find_field (fields : list fdesc) (number : Z) : option (nat * fdesc) :=
  match fields with
  | [] => None
  | (n, lab, t) :: fields =>
      if n =? number then Some (0%nat, (n, lab, t))
      else '(i, f) ← find_field fields number; Some (S i, f)
  end.

(** The constant that the generator gives to [ReadTagWithCutoff]. *)
Definition cutoff (fields : list fdesc) : Z :=
  if forallb (fun '(n, _, t) => MakeTag n (wire_type t) <=? 127) fields then 127 else 16383.

(** The loop of [MergePartialFromCodedStream]; every turn but the last one
    takes a tag from the input.  Behind the last field it looks for the end of
    the input. *)
Fixpoint merge_loop (fuel : nat) (fields : list fdesc) (l : list byte) (m : message) : merge_result :=
  match fuel with
  | O => Stuck
  | S fuel =>
      let '(tag, ok, fin, l) := ReadTagWithCutoff (cutoff fields) l in
      let unusual :=
        if (tag =? 0) || (Z.land tag 7 =? WIRETYPE_END_GROUP) then Ret (Some (m, fin, l))
        else match SkipField tag l with
             | None => Ret None
             | Some (d, l) => merge_loop fuel fields l (mkMessage (m_fields m) (m_unknown m ++ d))
             end in
      if negb ok then unusual
      else
        match find_field fields (Z.shiftr tag 3) with
        | None => unusual
        | Some (i, (n, lab, t)) =>
            r ← read_field n lab t tag l (default [] (m_fields m !! i));
            match r with
            | Unusual => unusual
            | Failure => Ret None
            | Done vs u l =>
                let m := mkMessage (<[i := vs]> (m_fields m)) (m_unknown m ++ u) in
                if decide (S i = length fields /\ l = []) then Ret (Some (m, true, []))
                else merge_loop fuel fields l m
            end
        end
  end.
End merge.

(** [MergePartialFromCodedStream] with the given recursion budget. *)
Fixpoint merge (recursion_budget : nat) (fields : list fdesc) (l : list byte) (m : message) : merge_result :=
  merge_loop
    (match recursion_budget with
     | O => fun _ _ _ => Ret None
     | S recursion_budget => merge recursion_budget
     end) (S (length l)) fields l m.

(** [default_recursion_limit_] *)
Definition kDefaultRecursionLimit : nat := 100.

(** [ParseFromArray]: a parse of the whole array into a new object, which must
    be initialised then. *)
Definition parse (fields : list fdesc) (l : list byte) : outcome (option message) :=
  r ← merge kDefaultRecursionLimit fields l (default_message fields);
  Ret (match r with
       | Some (m, true, _) => if IsInitialized fields m then Some m else None
       | _ => None
       end).
End methods.
End generated.
