(* ===== verification/RepeatedPtrField.v ===== *)
(** * Repeated fields of strings and messages

    repeated_field.h: class RepeatedPtrFieldBase, an array of pointers to
    objects.  Behind the [current_size_] objects of the field there are cleared
    ones, which are kept for reuse, up to [allocated_size].  The objects are in a
    heap; arenas are not used by this program ([arena_] is NULL). *)

From S2P Require Import Prelude Protobuf WireFormat RepeatedField GeneratedCode.

(** A class TypeHandler: [New], [Clear] and [Merge(from, to)]. *)
Class TypeHandler (T : Type) : Type := {
  New : T;
  ClearObject : T -> T;
  Merge : T -> T -> T
}.

(** A cleared object is like a new one, and merging into a new one is a
    copy. *)
Class TypeHandlerLaws (T : Type) `{!TypeHandler T} : Type := {
  object_ok : T -> Prop;
  clear_object x : ClearObject x = New;
  merge_new x : object_ok x -> Merge x New = x
}.

(** [StringTypeHandlerBase] *)
Definition StringTypeHandler : TypeHandler (list byte) := {|
  New := [];
  ClearObject _ := [];
  Merge from _ := from
|}.

(** [GenericTypeHandler] of a message class. *)
Definition GenericTypeHandler (fields : list fdesc) : TypeHandler generated.message := {|
  New := generated.default_message fields;
  ClearObject _ := generated.default_message fields;
  Merge := generated.MergeFrom fields
|}.

Module repeated_ptr.

Abbreviation ptr := positive.
Abbreviation heap := (gmap ptr).

(** [rep_] is NULL, or has [allocated_size] and an array of [total_size_]
    pointers; an element that was never written is [None]. *)
Record RepeatedPtrField : Type := mkRPF {
  current_size : Z;
  total_size : Z;
  rep : option (Z * list (option ptr))
}.

(** The functions of repeated_field.cc: [Reserve(new_size)], and
    [InternalExtend(extend_amount)]. *)
Class PtrArray : Type := {
  Reserve : Z -> RepeatedPtrField -> outcome RepeatedPtrField;
  InternalExtend : Z -> RepeatedPtrField -> outcome RepeatedPtrField
}.

Section ops.
Context {T : Type} `{TH : !TypeHandler T, PA : !PtrArray}.
Abbreviation field := RepeatedPtrField.

Definition empty_field : field := mkRPF 0 0 None.

Definition size (r : field) : Z := current_size r.
Definition Capacity (r : field) : Z := total_size r.

Definition get_rep (r : field) : outcome (Z * list (option ptr)) :=
  match rep r with Some x => Ret x | None => Undef end.

(** [rep_->elements[index]] *)
Definition element (r : field) (index : Z) : outcome ptr :=
  '(_, elements) ← get_rep r;
  p ← load elements index;
  match p with Some p => Ret p | None => Undef end.

(** An object behind a pointer. *)
Definition deref (h : heap T) (p : ptr) : outcome T :=
  match h !! p with Some x => Ret x | None => Undef end.

(** [TypeHandler::NewFromPrototype], [Clear], [Merge] and [Delete] *)
Definition new_object (h : heap T) : heap T * ptr :=
  let p := fresh (dom h) in (<[p := New]> h, p).
Definition clear_at (h : heap T) (p : ptr) : outcome (heap T) :=
  x ← deref h p; Ret (<[p := ClearObject x]> h).
Definition merge_at (h : heap T) (from to : ptr) : outcome (heap T) :=
  x ← deref h from; y ← deref h to; Ret (<[to := Merge x y]> h).
Definition delete_at (h : heap T) (p : ptr) : outcome (heap T) :=
  _ ← deref h p; Ret (delete p h).

Definition in_range (index : Z) (r : field) : outcome unit :=
  _ ← CHECK (0 <=? index); CHECK (index <? current_size r).

Definition Mutable (index : Z) (r : field) : outcome ptr := _ ← in_range index r; element r index.
Definition Get (index : Z) (h : heap T) (r : field) : outcome T := p ← Mutable index r; deref h p.

Definition allocated (r : field) : Z := match rep r with Some (n, _) => n | None => 0 end.

(** [rep_ && current_size_ < rep_->allocated_size] *)
Definition has_cleared (r : field) : bool :=
  match rep r with Some (n, _) => current_size r <? n | None => false end.
(** [!rep_ || rep_->allocated_size == total_size_] *)
Definition is_full (r : field) : bool :=
  match rep r with Some (n, _) => n =? total_size r | None => true end.

(** [elements[index] = p] with the sizes of the field. *)
Definition set_element (index : Z) (p : option ptr) (r : field) : outcome field :=
  '(n, elements) ← get_rep r;
  elements ← store elements index p;
  Ret (mkRPF (current_size r) (total_size r) (Some (n, elements))).
Definition set_allocated (n : Z) (r : field) : outcome field :=
  '(_, elements) ← get_rep r; Ret (mkRPF (current_size r) (total_size r) (Some (n, elements))).
Definition set_current (n : Z) (r : field) : field := mkRPF n (total_size r) (rep r).

Definition AddFromCleared (r : field) : outcome (field * option ptr) :=
  if has_cleared r then
    p ← element r (current_size r); Ret (set_current (current_size r + 1) r, Some p)
  else Ret (r, None).

Definition Add (h : heap T) (r : field) : outcome (heap T * field * ptr) :=
  if has_cleared r then
    p ← element r (current_size r); Ret (h, set_current (current_size r + 1) r, p)
  else
    r ← if is_full r then n ← int_add (total_size r) 1; Reserve n r else Ret r;
    r ← set_allocated (allocated r + 1) r;
    let '(h, p) := new_object h in
    r ← set_element (current_size r) (Some p) r;
    Ret (h, set_current (current_size r + 1) r, p).

Definition RemoveLast (h : heap T) (r : field) : outcome (heap T * field) :=
  _ ← CHECK (0 <? current_size r);
  let r := set_current (current_size r - 1) r in
  p ← element r (current_size r);
  h ← clear_at h p;
  Ret (h, r).

Definition Clear (h : heap T) (r : field) : outcome (heap T * field) :=
  let n := current_size r in
  _ ← CHECK (0 <=? n);
  if 0 <? n then
    h ← for_ 0 n (fun i h => p ← element r i; clear_at h p) h;
    Ret (h, set_current 0 r)
  else Ret (h, r).

(** [MergeFromInnerLoop]: objects that are allocated are used first. *)
Definition MergeFromInnerLoop (other : field) (length already_allocated : Z) (h : heap T) (r : field)
    : outcome (heap T * field) :=
  h ← for_ 0 (Z.min already_allocated length) (fun i h =>
        from ← element other i; to ← element r (current_size r + i); merge_at h from to) h;
  for_ already_allocated length (fun i '(h, r) =>
        from ← element other i;
        let '(h, to) := new_object h in
        h ← merge_at h from to;
        r ← set_element (current_size r + i) (Some to) r;
        Ret (h, r)) (h, r).

Definition MergeFrom (other : field) (h : heap T) (r : field) : outcome (heap T * field) :=
  if current_size other =? 0 then Ret (h, r)
  else
    let other_size := current_size other in
    _ ← get_rep other;
    r ← InternalExtend other_size r;
    let allocated_elems := allocated r - current_size r in
    '(h, r) ← MergeFromInnerLoop other other_size allocated_elems h r;
    n ← int_add (current_size r) other_size;
    let r := set_current n r in
    r ← if allocated r <? current_size r then set_allocated (current_size r) r else Ret r;
    Ret (h, r).

Definition CopyFrom (other : field) (h : heap T) (r : field) : outcome (heap T * field) :=
  '(h, r) ← Clear h r; MergeFrom other h r.

Definition SwapElements (index1 index2 : Z) (r : field) : outcome field :=
  '(n, elements) ← get_rep r;
  x ← load elements index1;
  y ← load elements index2;
  elements ← store elements index1 y;
  elements ← store elements index2 x;
  Ret (mkRPF (current_size r) (total_size r) (Some (n, elements))).

Definition UnsafeArenaAddAllocated (value : ptr) (h : heap T) (r : field) : outcome (heap T * field) :=
  '(h, r) ←
    if match rep r with None => true | Some _ => current_size r =? total_size r end then
      n ← int_add (total_size r) 1;
      r ← Reserve n r;
      r ← set_allocated (allocated r + 1) r;
      Ret (h, r)
    else if allocated r =? total_size r then
      p ← element r (current_size r);
      h ← delete_at h p;
      Ret (h, r)
    else if current_size r <? allocated r then
      p ← element r (current_size r);
      r ← set_element (allocated r) (Some p) r;
      r ← set_allocated (allocated r + 1) r;
      Ret (h, r)
    else
      r ← set_allocated (allocated r + 1) r; Ret (h, r);
  r ← set_element (current_size r) (Some value) r;
  Ret (h, set_current (current_size r + 1) r).

(** [AddAllocatedInternal] of an object on the heap; [AddAllocatedSlowWithCopy]
    has nothing to copy. *)
Definition AddAllocated (value : ptr) (h : heap T) (r : field) : outcome (heap T * field) :=
  match rep r with
  | Some (n, _) =>
      if n <? total_size r then
        r ← if current_size r <? n then p ← element r (current_size r); set_element n (Some p) r else Ret r;
        r ← set_element (current_size r) (Some value) r;
        r ← set_allocated (allocated r + 1) (set_current (current_size r + 1) r);
        Ret (h, r)
      else UnsafeArenaAddAllocated value h r
  | None => UnsafeArenaAddAllocated value h r
  end.

(** [ReleaseLast] of a field that is not on an arena. *)
Definition ReleaseLast (r : field) : outcome (field * ptr) :=
  _ ← CHECK (0 <? current_size r);
  let r := set_current (current_size r - 1) r in
  result ← element r (current_size r);
  r ← set_allocated (allocated r - 1) r;
  r ← if current_size r <? allocated r
      then '(_, elements) ← get_rep r; p ← load elements (allocated r); set_element (current_size r) p r
      else Ret r;
  Ret (r, result).

Definition ClearedCount (r : field) : Z :=
  match rep r with Some (n, _) => n - current_size r | None => 0 end.

Definition AddCleared (value : ptr) (r : field) : outcome field :=
  r ← if is_full r then n ← int_add (total_size r) 1; Reserve n r else Ret r;
  r' ← set_element (allocated r) (Some value) r;
  set_allocated (allocated r + 1) r'.

Definition ReleaseCleared (r : field) : outcome (field * ptr) :=
  _ ← CHECK (match rep r with Some _ => true | None => false end);
  _ ← CHECK (current_size r <? allocated r);
  r ← set_allocated (allocated r - 1) r;
  p ← element r (allocated r);
  Ret (r, p).

(** [Destroy]: every object is deleted, the cleared ones too. *)
Definition Destroy (h : heap T) (r : field) : outcome (heap T * field) :=
  match rep r with
  | Some (n, _) =>
      h ← for_ 0 n (fun i h => p ← element r i; delete_at h p) h;
      Ret (h, mkRPF (current_size r) (total_size r) None)
  | None => Ret (h, r)
  end.
End ops.
End repeated_ptr.
