(* ===== verification/RepeatedPtrFacts.v ===== *)
(** * Repeated fields of objects own their objects

    Every operation of RepeatedPtrFieldBase does to the objects of the field
    what the operation on lists does; the field owns its objects and the cleared
    ones, and objects that it does not own are neither changed nor lost. *)

From S2P Require Import Prelude Protobuf WireFormat RepeatedField RepeatedFieldFacts GeneratedCode RepeatedPtrField.
Import repeated_ptr.

(* ------------------------------------------------------------------ *)
(** ** The array *)

(** The first elements of the array are the pointers [l]. *)
Definition pointers (r : RepeatedPtrField) (l : list ptr) : Prop :=
  total_size r < 2 ^ 31 /\
  match rep r with
  | None => l = [] /\ total_size r = 0
  | Some (n, elements) =>
      n = Z.of_nat (length l) /\ Z.of_nat (length elements) = total_size r /\
      exists junk, elements = (Some <$> l) ++ junk
  end.

(** The pointers to the objects, and to the cleared ones. *)
Definition layout (r : RepeatedPtrField) (cur clr : list ptr) : Prop :=
  current_size r = Z.of_nat (length cur) /\ pointers r (cur ++ clr).

(** What the declarations in repeated_field.h say about the functions of
    repeated_field.cc: the array has room for the elements, the objects stay. *)
Class PtrArrayLaws `{!PtrArray} : Prop := {
  reserve_room n r cur clr : layout r cur clr -> 0 <= n <= limit ->
    exists r', Reserve n r = Ret r' /\ layout r' cur clr /\ n <= total_size r';
  extend_room n r cur clr : layout r cur clr -> 0 < n -> current_size r + n <= limit ->
    exists r', InternalExtend n r = Ret r' /\ layout r' cur clr /\ current_size r + n <= total_size r'
}.

Lemma pointers_rep r l : pointers r l -> 0 < total_size r ->
  exists junk, rep r = Some (Z.of_nat (length l), (Some <$> l) ++ junk) /\
    Z.of_nat (length l) + Z.of_nat (length junk) = total_size r.
Proof.
  intros [Ht Hp] H. destruct (rep r) as [[n els]|]; [|lia]. destruct Hp as (-> & Hl & junk & ->).
  exists junk. split; [done|]. rewrite length_app, length_fmap in Hl. lia.
Qed.

Lemma pointers_total r l : pointers r l -> Z.of_nat (length l) <= total_size r < 2 ^ 31.
Proof.
  intros [Ht Hp]. split; [|done]. destruct (rep r) as [[n els]|].
  - destruct Hp as (-> & Hl & junk & ->). rewrite length_app, length_fmap in Hl. lia.
  - destruct Hp as [-> ->]. cbn. lia.
Qed.

Lemma pointers_allocated r l : pointers r l -> allocated r = Z.of_nat (length l).
Proof. intros [_ Hp]. unfold allocated. destruct (rep r) as [[n els]|]; [by destruct Hp as [-> _]|]. by destruct Hp as [-> _]. Qed.

Lemma pointers_mk c t l junk : t = Z.of_nat (length l) + Z.of_nat (length junk) -> t < 2 ^ 31 ->
  pointers (mkRPF c t (Some (Z.of_nat (length l), (Some <$> l) ++ junk))) l.
Proof.
  intros Et Hlt. split; [done|]. cbn. split; [done|]. split; [|by exists junk]. rewrite length_app, length_fmap. lia.
Qed.

Lemma element_at r l i p : pointers r l -> 0 <= i -> l !! Z.to_nat i = Some p -> element r i = Ret p.
Proof.
  intros Hp Hi E. pose proof (lookup_lt_Some _ _ _ E) as Hlt. pose proof (pointers_total r l Hp).
  destruct (pointers_rep r l Hp) as (junk & Er & _); [lia|]. unfold element, get_rep. rewrite Er, bind_Ret.
  rewrite (load_Ret _ _ (Some p)), bind_Ret; [done|done|].
  by rewrite lookup_app_l, list_lookup_fmap, E by (rewrite length_fmap; lia).
Qed.

(** An element behind the pointers, and one among them. *)
Lemma store_next {A} (l : list A) x y junk : store (l ++ x :: junk) (Z.of_nat (length l)) y = Ret (l ++ y :: junk).
Proof.
  rewrite store_Ret by (rewrite length_app; cbn; lia). f_equal. rewrite insert_app_r_alt, Nat2Z.id, Nat.sub_diag by lia.
  done.
Qed.

Lemma store_pointer (l : list ptr) junk i p : 0 <= i < Z.of_nat (length l) ->
  store ((Some <$> l) ++ junk) i (Some p) = Ret ((Some <$> <[Z.to_nat i := p]> l) ++ junk).
Proof.
  intros Hi. rewrite store_Ret by (rewrite length_app, length_fmap; lia). f_equal.
  rewrite insert_app_l by (rewrite length_fmap; lia). by rewrite list_fmap_insert.
Qed.

Lemma snoc_fmap (l : list ptr) p junk : (Some <$> l) ++ Some p :: junk = (Some <$> (l ++ [p])) ++ junk.
Proof. by rewrite fmap_app, <-app_assoc. Qed.

(** The allocated objects grow by one. *)
Lemma push_spec r l p : pointers r l -> Z.of_nat (length l) < total_size r ->
  (exists r1 r2, set_allocated (allocated r + 1) r = Ret r1 /\
    set_element (Z.of_nat (length l)) (Some p) r1 = Ret r2 /\
    current_size r1 = current_size r /\ current_size r2 = current_size r /\
    total_size r2 = total_size r /\ pointers r2 (l ++ [p])) /\
  (exists r1 r2, set_element (Z.of_nat (length l)) (Some p) r = Ret r1 /\
    set_allocated (allocated r + 1) r1 = Ret r2 /\ allocated r1 = allocated r /\
    current_size r1 = current_size r /\ current_size r2 = current_size r /\
    total_size r2 = total_size r /\ pointers r2 (l ++ [p])).
Proof.
  intros Hp Hlt. rewrite (pointers_allocated _ _ Hp). pose proof (pointers_total _ _ Hp) as Ht.
  destruct (pointers_rep r l Hp) as (junk & Er & Hj); [lia|]. destruct junk as [|x junk]; [cbn in Hj; lia|].
  assert (Z.of_nat (length l) = Z.of_nat (length (Some <$> l))) as El by (by rewrite length_fmap).
  assert (forall c, pointers (mkRPF c (total_size r) (Some (Z.of_nat (length l) + 1, (Some <$> l) ++ Some p :: junk)))
    (l ++ [p])) as Hend.
  { intros c. rewrite snoc_fmap. replace (Z.of_nat (length l) + 1) with (Z.of_nat (length (l ++ [p])))
      by (rewrite length_app; cbn; lia). apply pointers_mk; [rewrite length_app; cbn in *; lia|lia]. }
  unfold set_allocated, set_element, get_rep. rewrite Er. split.
  - eexists _, _. rewrite bind_Ret. split; [done|]. cbn [rep]. rewrite bind_Ret, El, store_next, <-El, bind_Ret.
    split; [done|]. do 3 (split; [done|]). apply Hend.
  - eexists _, _. rewrite bind_Ret, El, store_next, <-El, bind_Ret. split; [done|]. cbn [rep]. rewrite bind_Ret.
    split; [done|]. do 4 (split; [done|]). apply Hend.
Qed.

Lemma replace_spec r l i p : pointers r l -> 0 <= i < Z.of_nat (length l) ->
  exists r', set_element i (Some p) r = Ret r' /\ current_size r' = current_size r /\
    total_size r' = total_size r /\ pointers r' (<[Z.to_nat i := p]> l).
Proof.
  intros Hp Hi. pose proof (pointers_total _ _ Hp) as Ht.
  destruct (pointers_rep r l Hp) as (junk & Er & Hj); [lia|]. unfold set_element, get_rep. rewrite Er, bind_Ret.
  rewrite store_pointer, bind_Ret by done. eexists. split; [done|]. cbn. do 2 (split; [done|]).
  rewrite <-(length_insert l (Z.to_nat i) p). apply pointers_mk; [rewrite length_insert; lia|lia].
Qed.

Lemma pop_spec r l p : pointers r (l ++ [p]) ->
  exists r', set_allocated (allocated r - 1) r = Ret r' /\ current_size r' = current_size r /\
    total_size r' = total_size r /\ pointers r' l /\ allocated r' = Z.of_nat (length l) /\
    exists junk, rep r' = Some (Z.of_nat (length l), (Some <$> l) ++ Some p :: junk).
Proof.
  intros Hp. rewrite (pointers_allocated _ _ Hp). pose proof (pointers_total _ _ Hp) as Ht.
  rewrite length_app in Ht |- *. cbn in Ht |- *.
  destruct (pointers_rep r _ Hp) as (junk & Er & Hj); [lia|]. unfold set_allocated, get_rep. rewrite Er, bind_Ret.
  rewrite length_app in Hj. cbn in Hj.
  replace (Z.of_nat (length l + 1) - 1) with (Z.of_nat (length l)) by lia.
  eexists. split; [done|]. cbn. do 2 (split; [done|]). rewrite <-snoc_fmap.
  split; [apply pointers_mk; [cbn; lia|lia]|]. split; [done|]. by exists junk.
Qed.

Lemma set_current_pointers n r l : pointers (set_current n r) l <-> pointers r l.
Proof. done. Qed.

(* ------------------------------------------------------------------ *)
(** ** Ownership *)

Section ownership.
Context {T : Type} `{TH : !TypeHandler T, TL : !TypeHandlerLaws T, PA : !PtrArray, PL : !PtrArrayLaws}.

(** The objects behind pointers. *)
Definition holds (h : heap T) (l : list ptr) (xs : list T) : Prop := Forall2 (fun p x => h !! p = Some x) l xs.

Record owns (h : heap T) (r : RepeatedPtrField) (xs : list T) (cur clr : list ptr) : Prop := {
  ow_layout : layout r cur clr;
  ow_nodup : NoDup (cur ++ clr);
  ow_objects : holds h cur xs;
  ow_cleared : Forall (fun p => h !! p = Some New) clr
}.

(** From owning [own] to owning [own']: the other objects are untouched, the
    new ones were not in use, and the ones that are given up are deleted. *)
Record moves (h : heap T) (own : list ptr) (h' : heap T) (own' : list ptr) : Prop := {
  mv_same p : p ∉ own -> p ∉ own' -> h' !! p = h !! p;
  mv_new p : p ∉ own -> p ∈ own' -> h !! p = None;
  mv_gone p : p ∈ own -> p ∉ own' -> h' !! p = None
}.

Lemma moves_trans h1 o1 h2 o2 h3 o3 : moves h1 o1 h2 o2 -> moves h2 o2 h3 o3 -> moves h1 o1 h3 o3.
Proof using Type.
  intros [S1 N1 G1] [S2 N2 G2]. split; intros p Hp Hp'; destruct (decide (p ∈ o2)) as [H|H].
  - by rewrite G2, N1.
  - by rewrite S2, S1.
  - by apply N1.
  - rewrite <-S1 by done. by apply N2.
  - by apply G2.
  - rewrite S2 by done. by apply G1.
Qed.

(** Only objects that are owned before and behind change. *)
Lemma moves_within h h' own own' : (forall p, p ∈ own <-> p ∈ own') ->
  (forall p, p ∉ own -> h' !! p = h !! p) -> moves h own h' own'.
Proof using Type. intros He Hs. split; intros p Hp Hp'; [by apply Hs|..]; by rewrite He in *. Qed.

Lemma moves_refl h own own' : own ≡ₚ own' -> moves h own h own'.
Proof using Type. intros E. apply moves_within; [|done]. intros p. by rewrite E. Qed.

Lemma holds_insert h l xs p x : p ∉ l -> holds h l xs -> holds (<[p := x]> h) l xs.
Proof using Type.
  intros Hp Hl. induction Hl as [|q y l xs Hq Hl IH]; [constructor|]. apply not_elem_of_cons in Hp as [Hn Hp].
  constructor; [by rewrite lookup_insert_ne|by apply IH].
Qed.

Lemma cleared_insert (h : heap T) l p x : p ∉ l -> Forall (fun p => h !! p = Some New) l ->
  Forall (fun q => <[p := x]> h !! q = Some New) l.
Proof using Type.
  intros Hp Hl. rewrite Forall_forall in *. intros q Hq. rewrite lookup_insert_ne; [by apply Hl|]. by intros ->.
Qed.

Lemma holds_length h l xs : holds h l xs -> length l = length xs.
Proof using Type. apply Forall2_length. Qed.

Lemma holds_snoc h l xs p x : holds h l xs -> h !! p = Some x -> holds h (l ++ [p]) (xs ++ [x]).
Proof using Type. intros Hl Hp. apply Forall2_app; [done|]. by constructor. Qed.

Lemma holds_snoc_inv h l xs : holds h l xs -> xs <> [] ->
  exists l' p xs' x, l = l' ++ [p] /\ xs = xs' ++ [x] /\ holds h l' xs' /\ h !! p = Some x.
Proof using Type.
  intros Hl Hne. destruct (exists_last Hne) as (xs' & x & ->).
  apply Forall2_app_inv_r in Hl as (l1 & l2 & H1 & H2 & ->).
  apply Forall2_cons_inv_r in H2 as (p & l3 & Hp & H3 & ->). apply Forall2_nil_inv_r in H3 as ->.
  by exists l1, p, xs', x.
Qed.

Lemma dom_fresh (h : heap T) : h !! fresh (dom h) = None.
Proof using Type. apply not_elem_of_dom. apply is_fresh. Qed.

Lemma owned_in h r xs cur clr p : owns h r xs cur clr -> p ∈ cur ++ clr -> is_Some (h !! p).
Proof using Type.
  intros [_ _ Ho Hc] [Hp|Hp]%elem_of_app.
  - apply list_elem_of_lookup in Hp as [i Hi]. destruct (Forall2_lookup_l _ _ _ _ _ Ho Hi) as (x & _ & E). by exists x.
  - rewrite Forall_forall in Hc. exists New. by apply Hc.
Qed.

Lemma fresh_not_owned h r xs cur clr : owns h r xs cur clr -> fresh (dom h) ∉ cur ++ clr.
Proof using Type. intros Ho Hp. apply (owned_in _ _ _ _ _ _ Ho) in Hp as [x Hx]. by rewrite dom_fresh in Hx. Qed.

Lemma layout_sizes r cur clr : layout r cur clr ->
  allocated r = Z.of_nat (length cur) + Z.of_nat (length clr) /\
  Z.of_nat (length cur) + Z.of_nat (length clr) <= total_size r < 2 ^ 31.
Proof using Type.
  intros [Hc Hp]. pose proof (pointers_allocated _ _ Hp) as Ha. pose proof (pointers_total _ _ Hp) as Ht.
  rewrite length_app in *. lia.
Qed.

Lemma has_cleared_spec r cur clr : layout r cur clr -> has_cleared r = negb (bool_decide (clr = [])).
Proof using Type.
  intros Hl. pose proof (layout_sizes _ _ _ Hl) as [Ha Ht]. destruct Hl as [Hc Hp].
  unfold has_cleared, allocated in *. destruct Hp as [_ Hp]. destruct (rep r) as [[n els]|].
  - destruct clr as [|c clr]; cbn [negb bool_decide decide] in *.
    + rewrite bool_decide_true by done. apply Z.ltb_ge. cbn in Ha. lia.
    + rewrite bool_decide_false by done. apply Z.ltb_lt. cbn in Ha. lia.
  - destruct Hp as [E _]. apply app_eq_nil in E as [_ ->]. done.
Qed.

Lemma is_full_spec r cur clr : layout r cur clr -> is_full r = (Z.of_nat (length (cur ++ clr)) =? total_size r).
Proof using Type.
  intros [Hc Hp]. unfold is_full. destruct Hp as [_ Hp]. destruct (rep r) as [[n els]|].
  - by destruct Hp as [-> _].
  - destruct Hp as [-> ->]. done.
Qed.

(** [Reserve(total_size_ + 1)] *)
Lemma grow_spec r cur clr : layout r cur clr -> 0 <= total_size r < limit ->
  exists r', (n ← int_add (total_size r) 1; Reserve n r) = Ret r' /\ layout r' cur clr /\
    total_size r < total_size r'.
Proof using PL.
  intros Hl Hn. pose proof (layout_sizes _ _ _ Hl) as [_ Ht]. unfold limit in *. unfold int_add.
  destruct (Z.leb_spec (- 2 ^ 31) (total_size r + 1)); [|lia].
  destruct (Z.ltb_spec (total_size r + 1) (2 ^ 31)); [|lia]. cbn [andb]. rewrite bind_Ret.
  destruct (reserve_room (total_size r + 1) r cur clr Hl) as (r' & -> & Hl' & Hr); [unfold limit; lia|].
  exists r'. split; [done|]. split; [done|]. lia.
Qed.

(** Room behind the pointers, if the array is full. *)
Lemma room_spec r cur clr : layout r cur clr -> Z.of_nat (length (cur ++ clr)) < limit ->
  exists r', (if is_full r then n ← int_add (total_size r) 1; Reserve n r else Ret r) = Ret r' /\
    layout r' cur clr /\ Z.of_nat (length (cur ++ clr)) < total_size r'.
Proof using PL.
  intros Hl Hn. rewrite (is_full_spec _ _ _ Hl). pose proof (layout_sizes _ _ _ Hl) as [_ Ht].
  destruct (Z.eqb_spec (Z.of_nat (length (cur ++ clr))) (total_size r)) as [E|].
  - destruct (grow_spec r cur clr Hl) as (r' & -> & Hl' & Hr); [lia|]. exists r'. split; [done|]. split; [done|]. lia.
  - exists r. split; [done|]. split; [done|]. rewrite length_app in *. lia.
Qed.

(** [Add], and an assignment to the new object. *)
Lemma add_spec h r xs cur clr : owns h r xs cur clr -> Z.of_nat (length (cur ++ clr)) < limit ->
  exists h' r' p clr', Add h r = Ret (h', r', p) /\
    (forall v, owns (<[p := v]> h') r' (xs ++ [v]) (cur ++ [p]) clr' /\
      moves h (cur ++ clr) (<[p := v]> h') ((cur ++ [p]) ++ clr')) /\
    (length ((cur ++ [p]) ++ clr') <= S (length (cur ++ clr)))%nat.
Proof using PL.
  intros Ho Hn. pose proof Ho as [Hl Hnd Hxs Hcl]. unfold Add. rewrite (has_cleared_spec _ _ _ Hl).
  pose proof (layout_sizes _ _ _ Hl) as [Ha Ht]. pose proof Hl as [Hc Hp]. destruct clr as [|c clr].
  - rewrite bool_decide_true by done. cbn [negb]. pose proof (fresh_not_owned _ _ _ _ _ Ho) as Hf.
    destruct (room_spec r cur [] Hl Hn) as (r1 & -> & Hl1 & Hr1). rewrite bind_Ret. destruct Hl1 as [Hc1 Hp1].
    rewrite app_nil_r in *. set (p := fresh (dom h)) in *.
    destruct (push_spec r1 cur p Hp1 Hr1) as [(r2 & r3 & -> & E3 & Hc2 & Hc3 & Ht3 & Hp3) _].
    rewrite bind_Ret. unfold new_object. fold p. rewrite Hc2, Hc1, E3, bind_Ret.
    eexists _, _, p, []. split; [done|]. split; [|rewrite app_nil_r, length_app; cbn; lia].
    intros v. rewrite insert_insert_eq. split.
    + split; [|..]; rewrite ?app_nil_r.
      * split; [cbn; rewrite Hc3, Hc1, length_app; cbn; lia|]. by rewrite app_nil_r.
      * apply NoDup_app. split; [done|]. split; [|apply NoDup_singleton]. intros q Hq Hq2. apply list_elem_of_singleton in Hq2 as ->. done.
      * apply holds_snoc; [by apply holds_insert|]. by rewrite lookup_insert_eq.
      * constructor.
    + rewrite app_nil_r. split.
      * intros q Hq Hq'. rewrite lookup_insert_ne; [done|]. intros ->. apply Hq'. set_solver.
      * intros q Hq [?|Hq2]%elem_of_app; [done|]. apply list_elem_of_singleton in Hq2 as ->. apply dom_fresh.
      * intros q Hq Hq'. exfalso. apply Hq'. set_solver.
  - rewrite bool_decide_false by done. cbn [negb].
    rewrite (element_at r (cur ++ (c :: clr)) _ c), bind_Ret;
      [|done|lia|by rewrite Hc, Nat2Z.id, list_lookup_middle].
    eexists _, _, c, clr. split; [done|]. rewrite (cons_middle c cur clr), app_assoc in Hnd, Hp |- *.
    split; [|lia]. assert ((c ∉ cur) /\ (c ∉ clr)) as [Hc1 Hc2].
    { apply NoDup_app in Hnd as (Hnd & Hd & _). apply NoDup_app in Hnd as (_ & Hd' & _).
      split; [intros Hin; apply (Hd' _ Hin); set_solver|]. apply Hd. set_solver. }
    apply Forall_cons in Hcl as [_ Hcl]. intros v. split.
    + split; [split; [cbn; rewrite Hc, length_app; cbn; lia|done]|done| |by apply cleared_insert].
      apply holds_snoc; [by apply holds_insert|]. by rewrite lookup_insert_eq.
    + apply moves_within; [done|]. intros q Hq. rewrite lookup_insert_ne; [done|]. intros ->. set_solver.
Qed.

(** The last object becomes the first cleared one. *)
Lemma remove_last_spec h r xs cur clr : owns h r xs cur clr -> xs <> [] ->
  exists h' r' cur' p, RemoveLast h r = Ret (h', r') /\ cur = cur' ++ [p] /\
    owns h' r' (removelast xs) cur' (p :: clr) /\ moves h (cur ++ clr) h' (cur' ++ (p :: clr)).
Proof using TL PL.
  intros [Hl Hnd Hxs Hcl] Hne. pose proof Hl as [Hc Hp].
  destruct (holds_snoc_inv _ _ _ Hxs Hne) as (cur' & p & xs' & x & -> & -> & Hxs' & Hx).
  rewrite length_app in Hc. cbn in Hc. unfold RemoveLast, CHECK. destruct (Z.ltb_spec 0 (current_size r)); [|lia].
  rewrite bind_Ret. cbn [current_size set_current].
  rewrite (element_at (set_current (current_size r - 1) r) ((cur' ++ [p]) ++ clr) _ p), bind_Ret; [|done|lia|].
  2: { rewrite lookup_app_l by (rewrite length_app; cbn; lia).
       replace (Z.to_nat (current_size r - 1)) with (length cur') by lia. by rewrite list_lookup_middle. }
  unfold clear_at, deref. rewrite Hx. cbn [mbind outcome_bind]. rewrite clear_object.
  eexists _, _, cur', p. split; [done|]. split; [done|].
  rewrite <-app_assoc in Hnd, Hp |- *. cbn [app] in *. rewrite removelast_last.
  pose proof Hnd as (_ & Hd & Hnd2)%NoDup_app. apply NoDup_cons in Hnd2 as [Hpc _].
  assert (p ∉ cur') as Hpc' by (intros Hin; apply (Hd _ Hin); set_solver). split.
  - split; [split; [cbn; lia|done]|done|by apply holds_insert|].
    constructor; [by rewrite lookup_insert_eq|by apply cleared_insert].
  - apply moves_within; [done|]. intros q Hq. rewrite lookup_insert_ne; [done|]. intros ->. set_solver.
Qed.

(** Objects of which only the ones in [l] changed, or not at all. *)
Lemma holds_outside h h' l (l' : list ptr) xs : (forall q, q ∉ l' -> h' !! q = h !! q) -> (forall q, q ∈ l -> q ∉ l') ->
  holds h l xs -> holds h' l xs.
Proof using Type.
  intros Hs Hd Hl. induction Hl as [|q y l xs Hq Hl IH]; [constructor|].
  constructor; [rewrite Hs; [done|]; apply Hd; by left|]. apply IH. intros q' Hq'. apply Hd. by right.
Qed.

Lemma cleared_outside (h h' : heap T) (l l' : list ptr) : (forall q, q ∉ l' -> h' !! q = h !! q) -> (forall q, q ∈ l -> q ∉ l') ->
  Forall (fun p => h !! p = Some New) l -> Forall (fun p => h' !! p = Some New) l.
Proof using Type.
  intros Hs Hd Hl. rewrite Forall_forall in *. intros q Hq. rewrite Hs by (by apply Hd). by apply Hl.
Qed.

Lemma take_elem (l : list ptr) n q : q ∈ take n l -> q ∈ l.
Proof using Type. intros Hq. rewrite <-(take_drop n l). apply elem_of_app. by left. Qed.

Lemma take_S_elem (l : list ptr) i p q : l !! i = Some p -> q ∈ take (S i) l <-> q ∈ take i l \/ q = p.
Proof using Type.
  intros E. rewrite (take_S_r _ _ _ E), elem_of_app, list_elem_of_singleton. done.
Qed.

(** A loop that changes the objects behind the first pointers of the array. *)
Lemma loop_objects r l n (f : heap T -> ptr -> outcome (heap T)) (g : option T) h :
  pointers r l -> (n <= length l)%nat -> (forall p, p ∈ take n l -> is_Some (h !! p)) -> NoDup l ->
  (forall h' p, is_Some (h' !! p) -> exists h'', f h' p = Ret h'' /\ h'' !! p = g /\
     forall q, q <> p -> h'' !! q = h' !! q) ->
  exists h', for_ 0 (Z.of_nat n) (fun i h => p ← element r i; f h p) h = Ret h' /\
    (forall q, q ∈ take n l -> h' !! q = g) /\ (forall q, q ∉ take n l -> h' !! q = h !! q).
Proof using Type.
  intros Hp Hn Hin Hnd Hf.
  destruct (for_inv (fun i h' => (forall q, q ∈ take (Z.to_nat i) l -> h' !! q = g) /\
      (forall q, q ∉ take (Z.to_nat i) l -> h' !! q = h !! q)) 0 (Z.of_nat n) (fun i h => p ← element r i; f h p) h)
    as (h' & -> & Hh').
  - lia.
  - split; [by intros q Hq%elem_of_nil|done].
  - intros i h' Hi [Hg Hs]. destruct (lookup_lt_is_Some_2 l (Z.to_nat i)) as [p Ep]; [lia|].
    rewrite (element_at r l i p), bind_Ret by (done || lia).
    assert (p ∉ take (Z.to_nat i) l) as Hpi.
    { intros Hp'. apply list_elem_of_lookup in Hp' as [j Hj]. apply lookup_take_Some in Hj as [Hj Hji].
      assert (j = Z.to_nat i) as -> by (by eapply NoDup_lookup). lia. }
    destruct (Hf h' p) as (h'' & -> & Hp'' & Hq'').
    { rewrite Hs by done. apply Hin. apply list_elem_of_lookup. exists (Z.to_nat i). apply lookup_take_Some. split; [done|lia]. }
    exists h''. split; [done|]. replace (Z.to_nat (i + 1)) with (S (Z.to_nat i)) by lia. split; intros q.
    + rewrite (take_S_elem _ _ _ _ Ep). intros [Hq| ->]; [|done]. rewrite Hq''; [by apply Hg|]. by intros ->.
    + rewrite (take_S_elem _ _ _ _ Ep). intros Hq. rewrite Hq'' by tauto. apply Hs. tauto.
  - exists h'. split; [done|]. by rewrite Nat2Z.id in Hh'.
Qed.

Lemma clear_at_spec (h : heap T) p : is_Some (h !! p) ->
  exists h', clear_at h p = Ret h' /\ h' !! p = Some New /\ forall q, q <> p -> h' !! q = h !! q.
Proof using TL.
  intros [x Hx]. unfold clear_at, deref. rewrite Hx, bind_Ret, clear_object. eexists. split; [done|].
  split; [by rewrite lookup_insert_eq|]. intros q Hq. by rewrite lookup_insert_ne.
Qed.

Lemma delete_at_spec (h : heap T) p : is_Some (h !! p) ->
  exists h', delete_at h p = Ret h' /\ h' !! p = None /\ forall q, q <> p -> h' !! q = h !! q.
Proof using Type.
  intros [x Hx]. unfold delete_at, deref. rewrite Hx, bind_Ret. eexists. split; [done|].
  split; [by rewrite lookup_delete_eq|]. intros q Hq. by rewrite lookup_delete_ne.
Qed.

Lemma clear_spec h r xs cur clr : owns h r xs cur clr ->
  exists h' r', Clear h r = Ret (h', r') /\ owns h' r' [] [] (cur ++ clr) /\
    moves h (cur ++ clr) h' (cur ++ clr).
Proof using TL.
  intros Ho. pose proof Ho as [[Hc Hp] Hnd Hxs Hcl]. unfold Clear, CHECK. rewrite Hc.
  destruct (Z.leb_spec 0 (Z.of_nat (length cur))); [|lia]. rewrite bind_Ret.
  destruct (Z.ltb_spec 0 (Z.of_nat (length cur))).
  - destruct (loop_objects r (cur ++ clr) (length cur) clear_at (Some New) h Hp) as (h' & -> & Hg & Hs).
    { rewrite length_app. lia. }
    { intros p Hin. apply (owned_in _ _ _ _ _ _ Ho). rewrite take_app_length in Hin. apply elem_of_app. by left. }
    { done. }
    { intros h' p. apply clear_at_spec. }
    rewrite take_app_length in Hg, Hs. rewrite bind_Ret. eexists _, _. split; [done|]. split.
    + split; [split; [done|done]|done|constructor|]. rewrite Forall_forall. intros q Hq.
      destruct (decide (q ∈ cur)) as [Hin|Hin]; [by apply Hg|]. rewrite Hs by done.
      rewrite Forall_forall in Hcl. apply Hcl. apply elem_of_app in Hq as [?|?]; done.
    + apply moves_within; [done|]. intros q Hq. apply Hs. intros Hin. apply Hq. apply elem_of_app. by left.
  - destruct cur; [|cbn in *; lia]. exists h, r. split; [done|]. split; [|by apply moves_refl].
    split; [done|done|constructor|done].
Qed.

(** The field is destroyed, with all of its objects. *)
Lemma destroy_spec h r xs cur clr : owns h r xs cur clr ->
  exists h' r', Destroy h r = Ret (h', r') /\ moves h (cur ++ clr) h' [].
Proof using Type.
  intros Ho. pose proof Ho as [[Hc Hp] Hnd Hxs Hcl]. unfold Destroy. destruct (rep r) as [[n els]|] eqn:Er.
  - pose proof Hp as [_ Hp']. rewrite Er in Hp'. destruct Hp' as (-> & _).
    destruct (loop_objects r (cur ++ clr) (length (cur ++ clr)) delete_at None h Hp) as (h' & -> & Hg & Hs).
    { lia. }
    { intros p Hin. apply (owned_in _ _ _ _ _ _ Ho). by rewrite firstn_all in Hin. }
    { done. }
    { intros h' p. apply delete_at_spec. }
    rewrite firstn_all in Hg, Hs. rewrite bind_Ret. eexists _, _. split; [done|]. split.
    + intros q Hq _. by apply Hs.
    + by intros q _ Hq%elem_of_nil.
    + intros q Hq _. by apply Hg.
  - exists h, r. split; [done|]. destruct Hp as [_ Hp]. rewrite Er in Hp. destruct Hp as [-> _]. by apply moves_refl.
Qed.

(** An object of the caller becomes the last one; the cleared objects [clr']
    that stay are some of those before. *)
Definition added (h : heap T) xs cur clr p v h' r' clr' : Prop :=
  owns h' r' (xs ++ [v]) (cur ++ [p]) clr' /\ moves h (p :: cur ++ clr) h' ((cur ++ [p]) ++ clr').

(** The same objects, in an array that has [p] between them. *)
Lemma added_same h r xs cur clr p v r' clr' : owns h r xs cur clr -> h !! p = Some v -> p ∉ cur ++ clr ->
  clr ≡ₚ clr' -> layout r' (cur ++ [p]) clr' -> added h xs cur clr p v h r' clr'.
Proof using Type.
  intros [Hl Hnd Hxs Hcl] Hv Hp Hperm Hl'.
  assert (p :: cur ++ clr ≡ₚ (cur ++ [p]) ++ clr') as E.
  { rewrite <-app_assoc. cbn. rewrite <-Permutation_middle. by rewrite Hperm. }
  split; [split|].
  - done.
  - rewrite <-E. by constructor.
  - by apply holds_snoc.
  - by rewrite <-Hperm.
  - by apply moves_refl.
Qed.

(** A cleared object is deleted to make room. *)
Lemma added_delete h r xs cur c clr p v r' : owns h r xs cur (c :: clr) -> h !! p = Some v ->
  p ∉ cur ++ (c :: clr) -> layout r' (cur ++ [p]) clr -> added h xs cur (c :: clr) p v (delete c h) r' clr.
Proof using Type.
  intros [Hl Hnd Hxs Hcl] Hv Hp Hl'. pose proof Hnd as (Hn1 & Hd & Hn2)%NoDup_app.
  apply NoDup_cons in Hn2 as [Hcc Hn2]. apply Forall_cons in Hcl as [Hc Hcl].
  rewrite elem_of_app, elem_of_cons in Hp. assert (p <> c) as Hpc by tauto.
  assert (forall q, q <> c -> delete c h !! q = h !! q) as Hs by (intros q Hq; by rewrite lookup_delete_ne).
  assert (c ∉ cur) as Hccur by (intros Hin; apply (Hd _ Hin); by left).
  split; [split|].
  - done.
  - rewrite <-app_assoc. cbn. rewrite <-Permutation_middle. constructor; [rewrite elem_of_app; tauto|].
    apply NoDup_app. split; [done|]. split; [|done]. intros q Hq Hq2. apply (Hd _ Hq). by right.
  - apply holds_snoc; [|by rewrite Hs]. eapply (holds_outside h _ cur [c]); [..|done].
    + intros q Hq. apply Hs. by rewrite list_elem_of_singleton in Hq.
    + intros q Hq ->%list_elem_of_singleton. done.
  - eapply (cleared_outside h _ clr [c]); [..|done].
    + intros q Hq. apply Hs. by rewrite list_elem_of_singleton in Hq.
    + intros q Hq ->%list_elem_of_singleton. done.
  - rewrite <-app_assoc. cbn. split; intros q; rewrite ?elem_of_cons, !elem_of_app, !elem_of_cons; intros Hq Hq'.
    + apply Hs. intros ->. tauto.
    + tauto.
    + assert (q = c) as -> by tauto. by rewrite lookup_delete_eq.
Qed.

Lemma unsafe_add_allocated_spec h r xs cur clr p v : owns h r xs cur clr -> h !! p = Some v ->
  p ∉ cur ++ clr -> Z.of_nat (length (cur ++ clr)) < limit ->
  exists h' r' clr', UnsafeArenaAddAllocated p h r = Ret (h', r') /\ added h xs cur clr p v h' r' clr' /\
    (length clr' <= length clr)%nat.
Proof using PL.
  intros Ho Hv Hp Hn. pose proof Ho as [Hl _ _ Hcl]. pose proof (layout_sizes _ _ _ Hl) as [Ha Ht].
  pose proof Hl as [Hc Hpt]. unfold UnsafeArenaAddAllocated. rewrite length_app in Hn.
  assert (match rep r with None => true | Some _ => current_size r =? total_size r end =
    (current_size r =? total_size r)) as ->.
  { destruct Hpt as [_ Hr]. destruct (rep r) as [[n els]|]; [done|]. destruct Hr as [E ->]. rewrite Hc.
    apply app_eq_nil in E as [-> _]. done. }
  destruct (Z.eqb_spec (current_size r) (total_size r)) as [E1|N1].
  { assert (clr = []) as -> by (destruct clr; [done|cbn in *; lia]). rewrite app_nil_r in Hpt. cbn in Ht.
    destruct (grow_spec r cur [] Hl) as (r1 & E2 & [Hc1 Hp1] & Hr1); [lia|]. rewrite app_nil_r in Hp1.
    destruct (push_spec r1 cur p Hp1) as [(r2 & r3 & E3 & E4 & Hc2 & Hc3 & Ht3 & Hp3) _]; [lia|].
    exists h, (set_current (current_size r3 + 1) r3), []. split; [|split; [|done]].
    - destruct (int_add (total_size r) 1) as [n| | |]; try done. cbn [mbind outcome_bind] in E2 |- *.
      rewrite E2. cbn [mbind outcome_bind]. rewrite E3, !bind_Ret, Hc2, Hc1, E4. done.
    - eapply added_same; [exact Ho|done|done|done|]. split; [cbn; rewrite Hc3, Hc1, length_app; cbn; lia|]. by rewrite app_nil_r. }
  destruct (Z.eqb_spec (allocated r) (total_size r)) as [E2|N2].
  { destruct clr as [|c clr]; [cbn in *; lia|]. apply Forall_cons in Hcl as [Hcn _].
    rewrite (element_at r (cur ++ (c :: clr)) _ c), bind_Ret; [|done|lia|by rewrite Hc, Nat2Z.id, list_lookup_middle].
    unfold delete_at, deref. rewrite Hcn, !bind_Ret.
    destruct (replace_spec r (cur ++ (c :: clr)) (current_size r) p Hpt) as (r1 & -> & Hc1 & Ht1 & Hp1).
    { rewrite length_app. cbn. lia. }
    rewrite bind_Ret. exists (delete c h), (set_current (current_size r1 + 1) r1), clr. split; [done|].
    split; [|cbn; lia]. eapply added_delete; [exact Ho|done|done|]. split; [cbn; rewrite Hc1, length_app; cbn; lia|].
    rewrite Hc, Nat2Z.id, insert_app_r_alt, Nat.sub_diag in Hp1 by lia. rewrite <-app_assoc. exact Hp1. }
  destruct (Z.ltb_spec (current_size r) (allocated r)) as [H3|H3].
  - destruct clr as [|c clr]; [cbn in *; lia|].
    rewrite (element_at r (cur ++ (c :: clr)) _ c), bind_Ret; [|done|lia|by rewrite Hc, Nat2Z.id, list_lookup_middle].
    destruct (push_spec r (cur ++ (c :: clr)) c Hpt) as [_ (r1 & r2 & E3 & E4 & Ha1 & Hc1 & Hc2 & Ht2 & Hp2)].
    { rewrite length_app. lia. }
    rewrite <-(pointers_allocated _ _ Hpt) in E3. rewrite E3, bind_Ret, Ha1, E4, !bind_Ret.
    destruct (replace_spec r2 _ (current_size r2) p Hp2) as (r3 & -> & Hc3 & Ht3 & Hp3).
    { rewrite !length_app. cbn. lia. }
    rewrite bind_Ret. exists h, (set_current (current_size r3 + 1) r3), (clr ++ [c]). split; [done|].
    split; [|rewrite length_app; cbn; lia]. eapply added_same; [exact Ho|done|done|apply (Permutation_app_comm [c])|].
    split; [cbn; rewrite Hc3, Hc2, length_app; cbn; lia|].
    rewrite Hc2, Hc, Nat2Z.id, <-app_assoc, insert_app_r_alt, Nat.sub_diag in Hp3 by lia.
    rewrite <-app_assoc. exact Hp3.
  - assert (clr = []) as -> by (destruct clr; [done|cbn in *; lia]). rewrite app_nil_r in Hpt. cbn in Ht.
    destruct (push_spec r cur p Hpt) as [(r2 & r3 & E3 & E4 & Hc2 & Hc3 & Ht3 & Hp3) _]; [lia|].
    rewrite E3, !bind_Ret, Hc2, Hc, E4, bind_Ret. exists h, (set_current (current_size r3 + 1) r3), [].
    split; [by rewrite Hc3, Hc|]. split; [|done]. eapply added_same; [exact Ho|done|done|done|].
    split; [cbn; rewrite Hc3, Hc, length_app; cbn; lia|]. by rewrite app_nil_r.
Qed.

(** [set_allocated] and [set_current] commute. *)
Lemma set_allocated_current n m r r' : set_allocated n r = Ret r' ->
  set_allocated n (set_current m r) = Ret (set_current m r').
Proof using Type.
  unfold set_allocated, get_rep. cbn. destruct (rep r) as [[k els]|]; [|done]. cbn. by intros [= <-].
Qed.

(** Moving the first cleared object [c] behind the others and putting [p] in its
    place, before the number of objects is set. *)
Lemma move_cleared r cur c clr p : layout r cur (c :: clr) ->
  Z.of_nat (length (cur ++ (c :: clr))) < total_size r ->
  exists r1 r2 r3, set_element (allocated r) (Some c) r = Ret r1 /\ current_size r1 = current_size r /\
    set_element (current_size r) (Some p) r1 = Ret r2 /\ current_size r2 = current_size r /\
    allocated r2 = allocated r /\
    set_allocated (allocated r + 1) r2 = Ret r3 /\ pointers r3 (cur ++ (p :: clr ++ [c])).
Proof using Type.
  intros [Hc Hp] Hlt. rewrite (pointers_allocated _ _ Hp). pose proof (pointers_total _ _ Hp) as Ht.
  set (l := cur ++ (c :: clr)) in *.
  assert (current_size r < Z.of_nat (length l)) as Hcl by (unfold l; rewrite length_app; cbn; lia).
  destruct (pointers_rep r l Hp) as (junk & Er & Hj); [lia|]. destruct junk as [|x junk]; [cbn in Hj; lia|].
  assert (Z.of_nat (length l) = Z.of_nat (length (Some <$> l))) as El by (by rewrite length_fmap).
  unfold set_element at 1, get_rep. rewrite Er, bind_Ret, El, store_next, <-El, bind_Ret, snoc_fmap.
  eexists _, _, _. split; [done|]. split; [done|]. unfold set_element, get_rep. cbn [rep current_size total_size].
  rewrite bind_Ret, store_pointer, bind_Ret by (rewrite length_app; cbn; lia).
  split; [done|]. split; [done|]. split; [done|]. unfold set_allocated, get_rep. cbn [rep current_size total_size].
  rewrite bind_Ret. split; [done|].
  assert (<[Z.to_nat (current_size r) := p]> (l ++ [c]) = cur ++ (p :: clr ++ [c])) as ->.
  { unfold l. rewrite Hc, Nat2Z.id, <-app_assoc, insert_app_r_alt, Nat.sub_diag by lia. done. }
  replace (Z.of_nat (length l) + 1) with (Z.of_nat (length (cur ++ (p :: clr ++ [c]))))
    by (unfold l; rewrite !length_app; cbn; rewrite !length_app; cbn; lia).
  apply pointers_mk; [|lia]. unfold l in *. rewrite !length_app in *. cbn in *. rewrite !length_app in *. cbn in *. lia.
Qed.

Lemma add_allocated_spec h r xs cur clr p v : owns h r xs cur clr -> h !! p = Some v ->
  p ∉ cur ++ clr -> Z.of_nat (length (cur ++ clr)) < limit ->
  exists h' r' clr', AddAllocated p h r = Ret (h', r') /\ added h xs cur clr p v h' r' clr' /\
    (length clr' <= length clr)%nat.
Proof using PL.
  intros Ho Hv Hp Hn. pose proof Ho as [Hl _ _ _]. pose proof Hl as [Hc Hpt]. unfold AddAllocated.
  pose proof (unsafe_add_allocated_spec h r xs cur clr p v Ho Hv Hp Hn) as Hslow.
  destruct (rep r) as [[n els]|] eqn:Er; [|exact Hslow].
  assert (n = allocated r) as -> by (unfold allocated; by rewrite Er).
  destruct (Z.ltb_spec (allocated r) (total_size r)) as [Hlt|]; [|exact Hslow].
  pose proof (layout_sizes _ _ _ Hl) as [Ha Ht]. destruct (Z.ltb_spec (current_size r) (allocated r)) as [H3|H3].
  - destruct clr as [|c clr]; [cbn in *; lia|].
    rewrite (element_at r (cur ++ (c :: clr)) _ c), bind_Ret; [|done|lia|by rewrite Hc, Nat2Z.id, list_lookup_middle].
    destruct (move_cleared r cur c clr p Hl) as (r1 & r2 & r3 & -> & Hc1 & E2 & Hc2 & Ha2 & E3 & Hp3).
    { rewrite <-(pointers_allocated _ _ Hpt). lia. }
    rewrite bind_Ret, Hc1, E2, bind_Ret, Hc2. change (allocated (set_current ?m r2)) with (allocated r2).
    rewrite Ha2, (set_allocated_current _ _ _ _ E3), bind_Ret.
    exists h, (set_current (current_size r + 1) r3), (clr ++ [c]). split; [done|]. split; [|rewrite length_app; cbn; lia].
    eapply added_same; [exact Ho|done|done|apply (Permutation_app_comm [c])|].
    split; [cbn; rewrite Hc, length_app; cbn; lia|]. rewrite <-app_assoc. exact Hp3.
  - assert (clr = []) as -> by (destruct clr; [done|cbn in *; lia]). rewrite app_nil_r in Hpt. cbn in Ht, Ha.
    destruct (push_spec r cur p Hpt) as [_ (r1 & r2 & E1 & E2 & Ha1 & Hc1 & Hc2 & Ht2 & Hp2)]; [lia|].
    rewrite bind_Ret, Hc, E1, bind_Ret, Hc1, Hc. change (allocated (set_current ?m r1)) with (allocated r1).
    rewrite Ha1, (set_allocated_current _ _ _ _ E2), bind_Ret.
    exists h, (set_current (Z.of_nat (length cur) + 1) r2), []. split; [done|]. split; [|done].
    eapply added_same; [exact Ho|done|done|done|]. split; [cbn; rewrite length_app; cbn; lia|]. by rewrite app_nil_r.
Qed.

(** The last object is given to the caller; a cleared one takes its place. *)
Lemma release_last_spec h r xs cur clr : owns h r xs cur clr -> xs <> [] ->
  exists r' cur' p clr', ReleaseLast r = Ret (r', p) /\ cur = cur' ++ [p] /\ clr ≡ₚ clr' /\
    owns h r' (removelast xs) cur' clr'.
Proof using Type.
  intros [Hl Hnd Hxs Hcl] Hne. pose proof Hl as [Hc Hp].
  destruct (holds_snoc_inv _ _ _ Hxs Hne) as (cur' & p & xs' & x & -> & -> & Hxs' & Hx).
  rewrite length_app in Hc. cbn in Hc. unfold ReleaseLast, CHECK. destruct (Z.ltb_spec 0 (current_size r)); [|lia].
  rewrite bind_Ret. cbn [current_size set_current].
  rewrite (element_at (set_current (current_size r - 1) r) ((cur' ++ [p]) ++ clr) _ p), bind_Ret; [|done|lia|].
  2: { rewrite lookup_app_l by (rewrite length_app; cbn; lia).
       replace (Z.to_nat (current_size r - 1)) with (length cur') by lia. by rewrite list_lookup_middle. }
  rewrite removelast_last. set (r0 := set_current (current_size r - 1) r).
  assert (pointers r0 ((cur' ++ [p]) ++ clr)) as Hp0 by done.
  destruct (decide (clr = [])) as [->|Hclr].
  - rewrite app_nil_r in Hp0, Hnd. destruct (pop_spec r0 cur' p Hp0) as (r1 & -> & Hc1 & Ht1 & Hp1 & Ha1 & _).
    rewrite bind_Ret, Ha1, Hc1. cbn [current_size set_current r0].
    destruct (Z.ltb_spec (current_size r - 1) (Z.of_nat (length cur'))); [lia|]. rewrite bind_Ret.
    exists r1, cur', p, []. split; [done|]. split; [done|]. split; [done|].
    split; [split; [rewrite Hc1; cbn; lia|by rewrite app_nil_r]| |done|done].
    rewrite app_nil_r. by apply NoDup_app in Hnd as [? _].
  - destruct (exists_last Hclr) as (clr0 & c & ->). rewrite app_assoc in Hp0.
    destruct (pop_spec r0 _ c Hp0) as (r1 & -> & Hc1 & Ht1 & Hp1 & Ha1 & junk & Er1).
    rewrite bind_Ret, Ha1, Hc1. cbn [current_size set_current r0].
    assert (length ((cur' ++ [p]) ++ clr0) = (length cur' + S (length clr0))%nat) as El by (rewrite !length_app; cbn; lia).
    destruct (Z.ltb_spec (current_size r - 1) (Z.of_nat (length ((cur' ++ [p]) ++ clr0)))); [|lia].
    unfold get_rep at 1. rewrite Er1, bind_Ret, (load_Ret _ _ (Some c)), bind_Ret; [|lia|].
    2: { rewrite Nat2Z.id, <-(length_fmap Some), list_lookup_middle; done. }
    destruct (replace_spec r1 _ (current_size r - 1) c Hp1) as (r2 & -> & Hc2 & Ht2 & Hp2); [lia|]. rewrite bind_Ret.
    assert (<[Z.to_nat (current_size r - 1) := c]> ((cur' ++ [p]) ++ clr0) = cur' ++ (c :: clr0)) as E.
    { replace (Z.to_nat (current_size r - 1)) with (length cur') by lia.
      rewrite <-app_assoc, insert_app_r_alt, Nat.sub_diag by lia. done. }
    rewrite E in Hp2. exists r2, cur', p, (c :: clr0). split; [done|]. split; [done|].
    assert (clr0 ++ [c] ≡ₚ c :: clr0) as Hperm by (apply (Permutation_app_comm clr0 [c])).
    split; [done|]. split; [split; [rewrite Hc2, Hc1; cbn; lia|done]| |done|by rewrite <-Hperm].
    rewrite <-Hperm. rewrite <-app_assoc in Hnd. cbn in Hnd. rewrite <-Permutation_middle in Hnd.
    by apply NoDup_cons in Hnd as [_ ?].
Qed.

(** A cleared object of the caller is kept. *)
Lemma add_cleared_spec h r xs cur clr p : owns h r xs cur clr -> h !! p = Some New -> p ∉ cur ++ clr ->
  Z.of_nat (length (cur ++ clr)) < limit ->
  exists r', AddCleared p r = Ret r' /\ owns h r' xs cur (clr ++ [p]).
Proof using PL.
  intros [Hl Hnd Hxs Hcl] Hv Hp Hn. unfold AddCleared.
  destruct (room_spec r cur clr Hl Hn) as (r1 & -> & [Hc1 Hp1] & Hr1). rewrite bind_Ret.
  destruct (push_spec r1 _ p Hp1 Hr1) as [_ (r2 & r3 & E2 & E3 & Ha2 & Hc2 & Hc3 & Ht3 & Hp3)].
  rewrite <-(pointers_allocated _ _ Hp1) in E2. rewrite E2, bind_Ret, E3. exists r3. split; [done|].
  rewrite <-app_assoc in Hp3. split; [split; [by rewrite Hc3|done]| |done|].
  - rewrite app_assoc. apply NoDup_app. split; [done|]. split; [|apply NoDup_singleton].
    intros q Hq ->%list_elem_of_singleton. done.
  - apply Forall_app. split; [done|]. by constructor.
Qed.

(** A cleared object is given to the caller. *)
Lemma release_cleared_spec h r xs cur clr : owns h r xs cur clr -> clr <> [] ->
  exists r' p clr', ReleaseCleared r = Ret (r', p) /\ clr = clr' ++ [p] /\ owns h r' xs cur clr'.
Proof using Type.
  intros [Hl Hnd Hxs Hcl] Hne. pose proof (layout_sizes _ _ _ Hl) as [Ha Ht]. pose proof Hl as [Hc Hp].
  destruct (exists_last Hne) as (clr' & p & ->). rewrite app_assoc in Hp, Hnd.
  unfold ReleaseCleared, CHECK. rewrite length_app in Ha, Ht. cbn in Ha, Ht.
  destruct (pointers_rep _ _ Hp) as (junk0 & Er & _); [lia|]. rewrite Er, bind_Ret.
  destruct (Z.ltb_spec (current_size r) (allocated r)); [|lia]. rewrite bind_Ret.
  destruct (pop_spec r _ p Hp) as (r1 & -> & Hc1 & Ht1 & Hp1 & Ha1 & junk & Er1). rewrite bind_Ret.
  unfold element, get_rep. rewrite Er1, bind_Ret, (load_Ret _ _ (Some p)), !bind_Ret; [|lia|].
  2: { rewrite Ha1, Nat2Z.id, <-(length_fmap Some), list_lookup_middle; done. }
  exists r1, p, clr'. split; [done|]. split; [done|]. apply Forall_app in Hcl as [Hcl _].
  split; [split; [by rewrite Hc1|done]| |done|done]. by apply NoDup_app in Hnd as [? _].
Qed.

Lemma swap_spec h r xs cur clr i j x y : owns h r xs cur clr -> 0 <= i -> 0 <= j ->
  xs !! Z.to_nat i = Some x -> xs !! Z.to_nat j = Some y ->
  exists r' cur', SwapElements i j r = Ret r' /\ cur ≡ₚ cur' /\
    owns h r' (<[Z.to_nat j := x]> (<[Z.to_nat i := y]> xs)) cur' clr.
Proof using Type.
  intros [Hl Hnd Hxs Hcl] Hi Hj Ex Ey. pose proof (layout_sizes _ _ _ Hl) as [Ha Ht]. pose proof Hl as [Hc Hp].
  destruct (Forall2_lookup_r _ _ _ _ _ Hxs Ex) as (p & Ep & Hpx).
  destruct (Forall2_lookup_r _ _ _ _ _ Hxs Ey) as (q & Eq & Hqy).
  pose proof (lookup_lt_Some _ _ _ Ep). pose proof (lookup_lt_Some _ _ _ Eq).
  destruct (pointers_rep _ _ Hp) as (junk & Er & Hj2); [lia|].
  assert (forall k z, cur !! k = Some z -> ((Some <$> (cur ++ clr)) ++ junk) !! k = Some (Some z)) as Hlk.
  { intros k z E. pose proof (lookup_lt_Some _ _ _ E).
    rewrite lookup_app_l, list_lookup_fmap, lookup_app_l by (rewrite ?length_fmap, ?length_app; lia). by rewrite E. }
  unfold SwapElements, get_rep. rewrite Er, bind_Ret, (load_Ret _ _ (Some p) Hi), bind_Ret, (load_Ret _ _ (Some q) Hj),
    bind_Ret by (by apply Hlk).
  rewrite store_pointer, bind_Ret, store_pointer, bind_Ret by (rewrite ?length_insert, ?length_app; lia).
  rewrite !insert_app_l by (rewrite ?length_insert; lia).
  set (cur' := <[Z.to_nat j := p]> (<[Z.to_nat i := q]> cur)).
  assert (cur ≡ₚ cur') as Hperm.
  { symmetry. by apply Permutation_insert_swap. }
  assert (length (cur' ++ clr) = length (cur ++ clr)) as Elen by (rewrite !length_app; by rewrite <-Hperm).
  eexists _, cur'. split; [done|]. split; [done|]. split; [split|..].
  - cbn. by rewrite Hc, Hperm.
  - rewrite <-Elen. apply pointers_mk; [rewrite Elen; lia|cbn; lia].
  - by rewrite <-Hperm.
  - unfold cur'. by repeat apply Forall2_insert.
  - done.
Qed.

(* ------------------------------------------------------------------ *)
(** ** Merging *)

Lemma merge_at_spec (h : heap T) p q x : object_ok x -> h !! p = Some x -> h !! q = Some New ->
  merge_at h p q = Ret (<[q := x]> h).
Proof using TL. intros Hx Hp Hq. unfold merge_at, deref. by rewrite Hp, Hq, !bind_Ret, merge_new. Qed.

(** The loop over the objects that are allocated. *)
Lemma merge_cleared_spec h r other cur clr ocur oclr ys n : layout r cur clr -> layout other ocur oclr ->
  NoDup (cur ++ clr) -> holds h ocur ys -> Forall (fun p => h !! p = Some New) clr ->
  (forall p, p ∈ ocur -> p ∉ clr) -> Forall object_ok ys -> (n <= length clr)%nat -> (n <= length ys)%nat ->
  exists h', for_ 0 (Z.of_nat n) (fun i h =>
      from ← element other i; to ← element r (current_size r + i); merge_at h from to) h = Ret h' /\
    holds h' (take n clr) (take n ys) /\ (forall q, q ∉ take n clr -> h' !! q = h !! q).
Proof using TL.
  intros [Hc Hp] [Hoc Hop] Hnd Hys Hcl Hd Hok Hn1 Hn2. pose proof (holds_length _ _ _ Hys) as Hlen.
  apply NoDup_app in Hnd as (_ & _ & Hnd).
  destruct (for_inv (fun i h' => holds h' (take (Z.to_nat i) clr) (take (Z.to_nat i) ys) /\
      (forall q, q ∉ take (Z.to_nat i) clr -> h' !! q = h !! q)) 0 (Z.of_nat n)
    (fun i h => from ← element other i; to ← element r (current_size r + i); merge_at h from to) h) as (h' & -> & Hh').
  - lia.
  - split; [constructor|done].
  - intros i h' Hi [Hg Hs]. destruct (lookup_lt_is_Some_2 clr (Z.to_nat i)) as [q Eq]; [lia|].
    destruct (lookup_lt_is_Some_2 ys (Z.to_nat i)) as [y Ey]; [lia|].
    destruct (Forall2_lookup_r _ _ _ _ _ Hys Ey) as (p & Ep & Hpy).
    rewrite (element_at other (ocur ++ oclr) i p), bind_Ret; [|done|lia|by apply lookup_app_l_Some].
    rewrite (element_at r (cur ++ clr) _ q), bind_Ret; [|done|lia|].
    2: { rewrite lookup_app_r by lia. rewrite <-Eq. f_equal. lia. }
    assert (q ∉ take (Z.to_nat i) clr) as Hqi.
    { intros Hq. apply list_elem_of_lookup in Hq as [j Hj]. apply lookup_take_Some in Hj as [Hj Hji].
      assert (j = Z.to_nat i) as -> by (by eapply NoDup_lookup). lia. }
    assert (p ∉ take (Z.to_nat i) clr) as Hpi.
    { intros Hin. apply (Hd p); [by eapply list_elem_of_lookup_2|]. by eapply take_elem. }
    rewrite (merge_at_spec h' p q y).
    + eexists. split; [done|]. replace (Z.to_nat (i + 1)) with (S (Z.to_nat i)) by lia.
      rewrite (take_S_r _ _ _ Eq), (take_S_r _ _ _ Ey). split.
      * apply holds_snoc; [by apply holds_insert|]. by rewrite lookup_insert_eq.
      * intros z Hz. rewrite elem_of_app, list_elem_of_singleton in Hz. rewrite lookup_insert_ne by (intros ->; tauto).
        apply Hs. tauto.
    + rewrite Forall_forall in Hok. apply Hok. by eapply list_elem_of_lookup_2.
    + by rewrite Hs.
    + rewrite Hs by done. rewrite Forall_forall in Hcl. apply Hcl. by eapply list_elem_of_lookup_2.
  - exists h'. split; [done|]. by rewrite Nat2Z.id in Hh'.
Qed.

(** An array whose first elements are [l], of which [k] are counted. *)
Definition array (r : RepeatedPtrField) (k : Z) (l : list ptr) : Prop :=
  exists junk, rep r = Some (k, (Some <$> l) ++ junk) /\
    Z.of_nat (length l) + Z.of_nat (length junk) = total_size r.

Lemma array_push r k l p : array r k l -> Z.of_nat (length l) < total_size r ->
  exists r', set_element (Z.of_nat (length l)) (Some p) r = Ret r' /\ current_size r' = current_size r /\
    total_size r' = total_size r /\ array r' k (l ++ [p]).
Proof using Type.
  intros (junk & Er & Hj) Hlt. destruct junk as [|x junk]; [cbn in Hj; lia|].
  unfold set_element, get_rep. rewrite Er, bind_Ret, <-(length_fmap Some l), store_next, bind_Ret.
  eexists. split; [done|]. do 2 (split; [done|]). exists junk. cbn. split; [by rewrite snoc_fmap|].
  rewrite length_app. cbn in *. lia.
Qed.

(** The loop over the objects that are not. *)
Lemma merge_new_spec h r other k l ocur oclr ys a : array r k l -> layout other ocur oclr -> holds h ocur ys ->
  Forall object_ok ys -> (a <= length ys)%nat -> Z.of_nat (length l) = current_size r + Z.of_nat a ->
  current_size r + Z.of_nat (length ys) <= total_size r ->
  exists h' r' news, for_ (Z.of_nat a) (Z.of_nat (length ys)) (fun i '(h, r) =>
      from ← element other i;
      let '(h, to) := new_object h in
      h ← merge_at h from to;
      r ← set_element (current_size r + i) (Some to) r;
      Ret (h, r)) (h, r) = Ret (h', r') /\
    current_size r' = current_size r /\ total_size r' = total_size r /\ array r' k (l ++ news) /\
    holds h' news (drop a ys) /\ NoDup news /\ (forall q, q ∈ news -> h !! q = None) /\
    (forall q, q ∉ news -> h' !! q = h !! q).
Proof using TL.
  intros Ha [Hoc Hop] Hys Hok Han Hl Hroom. pose proof (holds_length _ _ _ Hys) as Hlen.
  set (I := fun i (s : heap T * RepeatedPtrField) => exists news, length news = (Z.to_nat i - a)%nat /\
    current_size s.2 = current_size r /\ total_size s.2 = total_size r /\ array s.2 k (l ++ news) /\
    holds s.1 news (take (Z.to_nat i - a) (drop a ys)) /\ NoDup news /\ (forall q, q ∈ news -> h !! q = None) /\
    (forall q, q ∉ news -> s.1 !! q = h !! q)).
  match goal with |- exists h' r' news, for_ ?lo ?hi ?body ?s = _ /\ _ =>
    destruct (for_inv I lo hi body s) as ([h' r'] & -> & Hend) end.
  - lia.
  - exists []. rewrite Nat2Z.id, Nat.sub_diag, app_nil_r. do 4 (split; [done|]). split; [constructor|].
    split; [constructor|]. split; [by intros q Hq%elem_of_nil|done].
  - intros i [h1 r1] Hi (news & Hnl & Hc1 & Ht1 & Ha1 & Hn & Hnd & Hfr & Hs). cbn [fst snd] in *.
    destruct (lookup_lt_is_Some_2 ys (Z.to_nat i)) as [y Ey]; [lia|].
    destruct (Forall2_lookup_r _ _ _ _ _ Hys Ey) as (p & Ep & Hpy).
    rewrite (element_at other (ocur ++ oclr) i p), bind_Ret; [|done|lia|by apply lookup_app_l_Some].
    unfold new_object. set (t := fresh (dom h1)). pose proof (dom_fresh h1 : h1 !! t = None) as Ht.
    assert (p ∉ news) as Hpn by (intros Hin; rewrite (Hfr p Hin) in Hpy; done).
    assert (h1 !! p = Some y) as Hp1 by (by rewrite Hs).
    assert (t ∉ news) as Htn.
    { intros Hin. apply list_elem_of_lookup in Hin as [j Hj]. destruct (Forall2_lookup_l _ _ _ _ _ Hn Hj) as (z & _ & Hz).
      by rewrite Ht in Hz. }
    assert (p <> t) as Hpt by (intros ->; by rewrite Ht in Hp1).
    rewrite (merge_at_spec _ p t y), bind_Ret, insert_insert_eq.
    + destruct (array_push r1 k (l ++ news) t Ha1) as (r2 & E2 & Hc2 & Ht2 & Ha2); [rewrite length_app; lia|].
      replace (current_size r1 + i) with (Z.of_nat (length (l ++ news))) by (rewrite length_app; lia).
      rewrite E2, bind_Ret. eexists. split; [done|]. exists (news ++ [t]). cbn [fst snd].
      replace (Z.to_nat (i + 1) - a)%nat with (S (Z.to_nat i - a)) by lia.
      split; [rewrite length_app; cbn; lia|]. split; [by rewrite Hc2|]. split; [by rewrite Ht2|].
      split; [by rewrite app_assoc|]. split.
      { rewrite (take_S_r _ _ y) by (rewrite lookup_drop, <-Ey; f_equal; lia).
        apply holds_snoc; [by apply holds_insert|]. by rewrite lookup_insert_eq. }
      split; [apply NoDup_app; split; [done|]; split; [|apply NoDup_singleton]; intros q Hq ->%list_elem_of_singleton; done|].
      split; intros q; rewrite elem_of_app, list_elem_of_singleton.
      * intros [Hq| ->]; [by apply Hfr|]. by rewrite <-Hs.
      * intros Hq. rewrite lookup_insert_ne by (intros ->; tauto). apply Hs. tauto.
    + rewrite Forall_forall in Hok. apply Hok. by eapply list_elem_of_lookup_2.
    + by rewrite lookup_insert_ne.
    + by rewrite lookup_insert_eq.
  - destruct Hend as (news & Hnl & Hc1 & Ht1 & Ha1 & Hn & Hnd & Hfr & Hs). cbn [fst snd] in *.
    exists h', r', news. do 4 (split; [done|]). split; [|done]. rewrite Nat2Z.id in Hn.
    by rewrite take_ge in Hn by (rewrite length_drop; lia).
Qed.

(** All new objects fit into the cleared ones. *)
Lemma merge_reuse_owns h h' r xs ys cur clr n : owns h r xs cur clr -> n = length ys -> (n <= length clr)%nat ->
  holds h' (take n clr) ys -> (forall q, q ∉ take n clr -> h' !! q = h !! q) ->
  owns h' (set_current (Z.of_nat (length cur + n)) r) (xs ++ ys) (cur ++ take n clr) (drop n clr) /\
  moves h (cur ++ clr) h' ((cur ++ take n clr) ++ drop n clr).
Proof using Type.
  intros [[Hc Hp] Hnd Hxs Hcl] -> Hle Hys Hs. assert ((cur ++ take (length ys) clr) ++ drop (length ys) clr = cur ++ clr) as E.
  { by rewrite <-app_assoc, take_drop. }
  pose proof Hnd as (_ & Hd & Hn2)%NoDup_app. split; [split|].
  - split; [cbn; rewrite length_app, length_take; lia|by rewrite E].
  - by rewrite E.
  - apply Forall2_app; [|done]. eapply holds_outside; [exact Hs| |done].
    intros q Hq Hq2. apply (Hd q Hq). by eapply take_elem.
  - rewrite <-(take_drop (length ys) clr) in Hcl. apply Forall_app in Hcl as [_ Hcl].
    eapply cleared_outside; [exact Hs| |done]. rewrite <-(take_drop (length ys) clr) in Hn2.
    apply NoDup_app in Hn2 as (_ & Hd2 & _). intros q Hq Hq2. by apply (Hd2 q).
  - rewrite E. apply moves_within; [done|]. intros q Hq. apply Hs. intros Hin. apply Hq, elem_of_app. right.
    by eapply take_elem.
Qed.

(** Some objects are new. *)
Lemma merge_fresh_owns h h1 h' r r' xs ys cur clr news : owns h r xs cur clr ->
  current_size r' = Z.of_nat (length (cur ++ clr ++ news)) -> pointers r' (cur ++ clr ++ news) ->
  holds h1 clr (take (length clr) ys) -> (forall q, q ∉ clr -> h1 !! q = h !! q) ->
  holds h' news (drop (length clr) ys) -> NoDup news -> (forall q, q ∈ news -> h1 !! q = None) ->
  (forall q, q ∉ news -> h' !! q = h1 !! q) ->
  owns h' r' (xs ++ ys) (cur ++ clr ++ news) [] /\ moves h (cur ++ clr) h' ((cur ++ clr ++ news) ++ []).
Proof using Type.
  intros Ho Hc' Hp' H1 Hs1 Hn Hnd Hfr Hs. pose proof Ho as [[Hc Hp] Hndl Hxs Hcl].
  pose proof Hndl as (_ & Hd & Hn2)%NoDup_app.
  assert (forall q, q ∈ cur ++ clr -> q ∉ news) as Hdn.
  { intros q Hq Hq2. specialize (Hfr q Hq2). destruct (decide (q ∈ clr)) as [Hin|Hin].
    - apply list_elem_of_lookup in Hin as [j Hj]. destruct (Forall2_lookup_l _ _ _ _ _ H1 Hj) as (z & _ & Hz). by rewrite Hfr in Hz.
    - rewrite Hs1 in Hfr by done. apply (owned_in _ _ _ _ _ _ Ho) in Hq as [z Hz]. by rewrite Hfr in Hz. }
  rewrite !app_nil_r. split; [split|].
  - by split; [|rewrite app_nil_r].
  - rewrite app_nil_r, app_assoc. apply NoDup_app. by split; [|split].
  - apply Forall2_app.
    + eapply (holds_outside h1 _ _ news); [exact Hs|intros q Hq; apply Hdn, elem_of_app; by left|].
      eapply (holds_outside h _ _ clr); [exact Hs1|exact Hd|done].
    + rewrite <-(take_drop (length clr) ys). apply Forall2_app; [|done].
      eapply (holds_outside h1 _ _ news); [exact Hs|intros q Hq; apply Hdn, elem_of_app; by right|done].
  - constructor.
  - split; intros q; rewrite ?(app_assoc cur clr news), ?elem_of_app; intros Hq Hq'.
    + rewrite Hs by tauto. apply Hs1. tauto.
    + assert (q ∈ news) as Hin by tauto. rewrite <-Hs1 by tauto. by apply Hfr.
    + tauto.
Qed.

Lemma merge_from_spec h r other xs ys cur clr ocur oclr : owns h r xs cur clr -> owns h other ys ocur oclr ->
  (forall p, p ∈ ocur ++ oclr -> p ∉ cur ++ clr) -> Forall object_ok ys ->
  Z.of_nat (length (cur ++ clr)) + Z.of_nat (length ys) <= limit ->
  exists h' r' cur' clr', MergeFrom other h r = Ret (h', r') /\ owns h' r' (xs ++ ys) cur' clr' /\
    moves h (cur ++ clr) h' (cur' ++ clr') /\
    (length (cur' ++ clr') <= length (cur ++ clr) + length ys)%nat.
Proof using TL PL.
  intros Ho Hoo Hd Hok Hn. pose proof Hoo as [Hol _ Hys _]. pose proof Hol as [Hoc Hop].
  pose proof (holds_length _ _ _ Hys) as Hlen. rewrite length_app in Hn. unfold MergeFrom. rewrite Hoc, Hlen.
  destruct (Z.eqb_spec (Z.of_nat (length ys)) 0) as [E0|Hpos].
  { destruct ys; [|done]. exists h, r, cur, clr. rewrite app_nil_r. split; [done|]. split; [done|].
    split; [by apply moves_refl|lia]. }
  pose proof (layout_sizes _ _ _ Hol) as [_ Hot]. destruct (pointers_rep _ _ Hop) as (ojunk & Eor & _); [lia|].
  unfold get_rep. rewrite Eor, bind_Ret. pose proof Ho as [Hl Hnd Hxs Hcl]. pose proof Hl as [Hc _].
  destruct (extend_room (Z.of_nat (length ys)) r cur clr Hl) as (r1 & -> & Hl1 & Hroom); [lia|unfold limit in *; lia|].
  rewrite bind_Ret. pose proof (layout_sizes _ _ _ Hl1) as [Ha1 Ht1]. pose proof Hl1 as [Hc1 Hp1].
  assert (owns h r1 xs cur clr) as Ho1 by (by split).
  replace (allocated r1 - current_size r1) with (Z.of_nat (length clr)) by lia.
  unfold MergeFromInnerLoop. set (k := Nat.min (length clr) (length ys)).
  replace (Z.min (Z.of_nat (length clr)) (Z.of_nat (length ys))) with (Z.of_nat k) by lia.
  destruct (merge_cleared_spec h r1 other cur clr ocur oclr ys k) as (h1 & -> & Hh1 & Hs1); try done; [|lia..|].
  { intros p Hp1' Hp2. apply (Hd p); [apply elem_of_app; by left|apply elem_of_app; by right]. }
  rewrite bind_Ret. destruct (Nat.le_gt_cases (length ys) (length clr)) as [Hle|Hgt].
  - rewrite for_empty, bind_Ret by lia. unfold int_add, limit in *. rewrite Hc1.
    destruct (Z.leb_spec (- 2 ^ 31) (Z.of_nat (length cur) + Z.of_nat (length ys))); [|lia].
    destruct (Z.ltb_spec (Z.of_nat (length cur) + Z.of_nat (length ys)) (2 ^ 31)); [|lia]. cbn [andb]. rewrite bind_Ret.
    change (allocated (set_current ?m r1)) with (allocated r1). cbn [current_size set_current].
    destruct (Z.ltb_spec (allocated r1) (Z.of_nat (length cur) + Z.of_nat (length ys))); [lia|]. rewrite bind_Ret.
    replace k with (length ys) in * by lia. rewrite (firstn_all ys) in Hh1.
    replace (Z.of_nat (length cur) + Z.of_nat (length ys)) with (Z.of_nat (length cur + length ys)) by lia.
    destruct (merge_reuse_owns h h1 r1 xs ys cur clr (length ys) Ho1) as [Hown Hmv]; try done.
    eexists _, _, _, _. split; [done|]. split; [exact Hown|]. split; [exact Hmv|].
    rewrite <-app_assoc, take_drop. lia.
  - replace k with (length clr) in * by lia. rewrite firstn_all in Hh1, Hs1.
    destruct (pointers_rep _ _ Hp1) as (junk & Er1 & Hj); [lia|].
    destruct (merge_new_spec h1 r1 other (Z.of_nat (length (cur ++ clr))) (cur ++ clr) ocur oclr ys (length clr))
      as (h2 & r2 & news & -> & Hc2 & Ht2 & (junk2 & Er2 & Hj2) & Hn2 & Hnd2 & Hfr2 & Hs2); try done.
    { by exists junk. }
    { eapply holds_outside; [exact Hs1| |done]. intros p Hp Hp2. apply (Hd p); apply elem_of_app; [by left|by right]. }
    { lia. }
    { rewrite length_app. lia. }
    { lia. }
    pose proof (holds_length _ _ _ Hn2) as Hnl. rewrite length_drop in Hnl.
    rewrite bind_Ret. unfold int_add, limit in *. rewrite Hc2, Hc1.
    destruct (Z.leb_spec (- 2 ^ 31) (Z.of_nat (length cur) + Z.of_nat (length ys))); [|lia].
    destruct (Z.ltb_spec (Z.of_nat (length cur) + Z.of_nat (length ys)) (2 ^ 31)); [|lia]. cbn [andb]. rewrite bind_Ret.
    set (m := Z.of_nat (length cur) + Z.of_nat (length ys)) in *.
    assert (m = Z.of_nat (length ((cur ++ clr) ++ news))) as Em by (rewrite !length_app; lia).
    unfold set_allocated, get_rep, allocated. cbn [rep set_current current_size]. rewrite Er2.
    destruct (Z.ltb_spec (Z.of_nat (length (cur ++ clr))) m); [|rewrite length_app in *; lia]. rewrite !bind_Ret.
    destruct (merge_fresh_owns h h1 h2 r1 (mkRPF m (total_size r2) (Some (m, (Some <$> ((cur ++ clr) ++ news)) ++ junk2)))
      xs ys cur clr news Ho1) as [Hown Hmv]; try done.
    { rewrite app_assoc. exact Em. }
    { rewrite Em, app_assoc. apply pointers_mk; lia. }
    eexists _, _, _, _. split; [done|]. split; [exact Hown|]. split; [exact Hmv|]. rewrite app_nil_r, !length_app. lia.
Qed.
End ownership.

(* ------------------------------------------------------------------ *)
(** ** Clients *)

Section clients.
Context {T : Type} `{TH : !TypeHandler T, TL : !TypeHandlerLaws T, PA : !PtrArray, PL : !PtrArrayLaws}.
(** Another field, from which the client merges and copies. *)
Context (other : RepeatedPtrField).

(** What a client does with a field; it assigns to the objects that it adds and
    deletes the objects that it gets back. *)
Inductive ptr_op : Type :=
| PtrAdd (v : T)
| PtrAddAllocated (v : T)
| PtrAddCleared
| PtrRemoveLast
| PtrReleaseLast
| PtrReleaseCleared
| PtrSwapElements (i j : Z)
| PtrClear
| PtrMergeFrom
| PtrCopyFrom.

Definition ptr_step (o : ptr_op) (h : heap T) (r : RepeatedPtrField) : outcome (heap T * RepeatedPtrField) :=
  match o with
  | PtrAdd v => '(h, r, p) ← Add h r; Ret (<[p := v]> h, r)
  | PtrAddAllocated v => let p := fresh (dom h) in AddAllocated p (<[p := v]> h) r
  | PtrAddCleared => let p := fresh (dom h) in r ← AddCleared p r; Ret (<[p := New]> h, r)
  | PtrRemoveLast => RemoveLast h r
  | PtrReleaseLast => '(r, p) ← ReleaseLast r; Ret (delete p h, r)
  | PtrReleaseCleared =>
      if 0 <? ClearedCount r then '(r, p) ← ReleaseCleared r; Ret (delete p h, r) else Ret (h, r)
  | PtrSwapElements i j => r ← SwapElements i j r; Ret (h, r)
  | PtrClear => Clear h r
  | PtrMergeFrom => MergeFrom other h r
  | PtrCopyFrom => CopyFrom other h r
  end.

Fixpoint ptr_run (os : list ptr_op) (h : heap T) (r : RepeatedPtrField) : outcome (heap T * RepeatedPtrField) :=
  match os with [] => Ret (h, r) | o :: os => '(h, r) ← ptr_step o h r; ptr_run os h r end.

(** The objects of the field, where [ys] are those of the other one. *)
Definition ptr_spec (ys : list T) (o : ptr_op) (xs : list T) : option (list T) :=
  match o with
  | PtrAdd v | PtrAddAllocated v => Some (xs ++ [v])
  | PtrAddCleared | PtrReleaseCleared => Some xs
  | PtrRemoveLast | PtrReleaseLast => match xs with [] => None | _ => Some (removelast xs) end
  | PtrSwapElements i j =>
      if (0 <=? i) && (0 <=? j) then
        match xs !! Z.to_nat i, xs !! Z.to_nat j with
        | Some x, Some y => Some (<[Z.to_nat j := x]> (<[Z.to_nat i := y]> xs))
        | _, _ => None
        end
      else None
  | PtrClear => Some []
  | PtrMergeFrom => Some (xs ++ ys)
  | PtrCopyFrom => Some ys
  end.

Fixpoint ptr_spec_run (ys : list T) (os : list ptr_op) (xs : list T) : option (list T) :=
  match os with [] => Some xs | o :: os => xs ← ptr_spec ys o xs; ptr_spec_run ys os xs end.

(** The most objects that an operation allocates. *)
Definition weight (ys : list T) (o : ptr_op) : nat :=
  match o with
  | PtrAdd _ | PtrAddAllocated _ | PtrAddCleared => 1
  | PtrMergeFrom | PtrCopyFrom => length ys
  | _ => 0
  end.

Definition run_weight (ys : list T) (os : list ptr_op) : nat := sum_list (weight ys <$> os).

(** The objects of the caller before it gives one away, or behind. *)
Lemma moves_alloc (h : heap T) own p v : h !! p = None -> moves h own (<[p := v]> h) (p :: own).
Proof using Type.
  intros Hp. split; intros q; rewrite ?elem_of_cons; intros Hq Hq'.
  - rewrite lookup_insert_ne; [done|]. intros ->. tauto.
  - assert (q = p) as -> by tauto. done.
  - tauto.
Qed.

Lemma moves_delete (h : heap T) own p : p ∉ own -> moves h (p :: own) (delete p h) own.
Proof using Type.
  intros Hp. split; intros q; rewrite ?elem_of_cons; intros Hq Hq'.
  - rewrite lookup_delete_ne; [done|]. intros ->. tauto.
  - tauto.
  - assert (q = p) as -> by tauto. by rewrite lookup_delete_eq.
Qed.

Lemma owns_insert (h : heap T) r xs cur clr p v : p ∉ cur ++ clr -> owns h r xs cur clr ->
  owns (<[p := v]> h) r xs cur clr.
Proof using Type.
  rewrite elem_of_app. intros Hp [H1 H2 H3 H4]. split; [done|done|apply holds_insert; tauto|apply cleared_insert; tauto].
Qed.

Lemma owns_delete (h : heap T) r xs cur clr p : p ∉ cur ++ clr -> owns h r xs cur clr ->
  owns (delete p h) r xs cur clr.
Proof using Type.
  rewrite elem_of_app. intros Hp [H1 H2 H3 H4].
  assert (forall q, q ∉ [p] -> delete p h !! q = h !! q) as Hs.
  { intros q Hq. rewrite list_elem_of_singleton in Hq. by rewrite lookup_delete_ne. }
  split; [done|done|eapply holds_outside; [exact Hs| |done]|eapply cleared_outside; [exact Hs| |done]];
    intros q Hq ->%list_elem_of_singleton; tauto.
Qed.

(** A field that another one does not touch. *)
Lemma owns_kept (h h' : heap T) own own' r xs cur clr : owns h r xs cur clr -> moves h own h' own' ->
  (forall p, p ∈ cur ++ clr -> p ∉ own) ->
  owns h' r xs cur clr /\ (forall p, p ∈ cur ++ clr -> p ∉ own').
Proof using Type.
  intros Ho [Hs Hn Hg] Hd. assert (forall p, p ∈ cur ++ clr -> p ∉ own') as Hd'.
  { intros p Hp Hp'. destruct (owned_in _ _ _ _ _ _ Ho Hp) as [x Hx]. by rewrite (Hn p (Hd p Hp) Hp') in Hx. }
  split; [|done]. destruct Ho as [H1 H2 H3 H4].
  assert (forall p, p ∈ cur ++ clr -> h' !! p = h !! p) as Hsame by (intros p Hp; apply Hs; auto).
  split; [done|done| |].
  - apply Forall2_same_length_lookup. pose proof H3 as H3'. apply Forall2_same_length_lookup in H3' as [Hl Hlk].
    split; [done|]. intros i p x Ep Ex. rewrite Hsame; [by eapply Hlk|]. apply elem_of_app. left. by eapply list_elem_of_lookup_2.
  - rewrite Forall_forall in *. intros p Hp. rewrite Hsame; [by apply H4|]. apply elem_of_app. by right.
Qed.

(** What an operation of a client leaves. *)
Definition ptr_done (h : heap T) (own : list ptr) (n : nat) (xs : list T) (o : outcome (heap T * RepeatedPtrField))
    : Prop :=
  exists h' r' cur clr, o = Ret (h', r') /\ owns h' r' xs cur clr /\ moves h own h' (cur ++ clr) /\
    (length (cur ++ clr) <= length own + n)%nat.

Lemma add_allocated_done h r xs cur clr v : owns h r xs cur clr -> Z.of_nat (length (cur ++ clr)) < limit ->
  ptr_done h (cur ++ clr) 1 (xs ++ [v]) (ptr_step (PtrAddAllocated v) h r).
Proof using PL.
  intros Ho Hn. cbn [ptr_step]. set (p := fresh (dom h)). pose proof (dom_fresh h : h !! p = None) as Hp.
  assert (p ∉ cur ++ clr) as Hpo by (by eapply fresh_not_owned).
  destruct (add_allocated_spec (<[p := v]> h) r xs cur clr p v) as (h' & r' & clr' & E & [Hown Hmv] & Hlen).
  - by apply owns_insert.
  - by rewrite lookup_insert_eq.
  - done.
  - done.
  - exists h', r', (cur ++ [p]), clr'. split; [done|]. split; [done|]. split; [|rewrite !length_app; cbn; lia].
    eapply moves_trans; [by apply moves_alloc|exact Hmv].
Qed.

Lemma add_cleared_done h r xs cur clr : owns h r xs cur clr -> Z.of_nat (length (cur ++ clr)) < limit ->
  ptr_done h (cur ++ clr) 1 xs (ptr_step PtrAddCleared h r).
Proof using PL.
  intros Ho Hn. cbn [ptr_step]. set (p := fresh (dom h)). pose proof (dom_fresh h : h !! p = None) as Hp.
  assert (p ∉ cur ++ clr) as Hpo by (by eapply fresh_not_owned).
  destruct (add_cleared_spec (<[p := New]> h) r xs cur clr p) as (r' & -> & Hown).
  - by apply owns_insert.
  - by rewrite lookup_insert_eq.
  - done.
  - done.
  - eexists _, r', cur, (clr ++ [p]). rewrite bind_Ret. split; [done|]. split; [done|].
    split; [|rewrite !length_app; cbn; lia].
    eapply moves_trans; [by apply moves_alloc|]. apply moves_refl. rewrite app_assoc. apply (Permutation_app_comm [p]).
Qed.

Lemma release_last_done h r xs cur clr : owns h r xs cur clr -> xs <> [] ->
  ptr_done h (cur ++ clr) 0 (removelast xs) (ptr_step PtrReleaseLast h r).
Proof using Type.
  intros Ho Hne. cbn [ptr_step].
  destruct (release_last_spec h r xs cur clr Ho Hne) as (r' & cur' & p & clr' & -> & -> & Hperm & Hown).
  assert ((cur' ++ [p]) ++ clr ≡ₚ p :: cur' ++ clr') as E.
  { rewrite <-app_assoc. cbn. rewrite <-Permutation_middle. by rewrite Hperm. }
  assert (p ∉ cur' ++ clr') as Hp.
  { destruct Ho as [_ Hnd _ _]. rewrite E in Hnd. by apply NoDup_cons in Hnd as [? _]. }
  eexists _, r', cur', clr'. rewrite bind_Ret. split; [done|]. split; [by apply owns_delete|]. split.
  - eapply moves_trans; [apply (moves_refl h _ _ E)|by apply moves_delete].
  - apply Permutation_length in E. rewrite E. cbn. lia.
Qed.

Lemma release_cleared_done h r xs cur clr : owns h r xs cur clr ->
  ptr_done h (cur ++ clr) 0 xs (ptr_step PtrReleaseCleared h r).
Proof using Type.
  intros Ho. cbn [ptr_step]. pose proof Ho as [Hl Hnd _ _]. pose proof (layout_sizes _ _ _ Hl) as [Ha _].
  pose proof Hl as [Hc _]. assert (ClearedCount r = Z.of_nat (length clr)) as Ec.
  { unfold ClearedCount, allocated in *. destruct (rep r) as [[n els]|]; lia. }
  rewrite Ec. destruct (Z.ltb_spec 0 (Z.of_nat (length clr))) as [Hpos|].
  - destruct (release_cleared_spec h r xs cur clr Ho) as (r' & p & clr' & -> & -> & Hown).
    { intros ->. cbn in Hpos. lia. }
    assert (cur ++ clr' ++ [p] ≡ₚ p :: cur ++ clr') as E by (rewrite app_assoc; apply (Permutation_app_comm _ [p])).
    assert (p ∉ cur ++ clr') as Hp by (rewrite E in Hnd; by apply NoDup_cons in Hnd as [? _]).
    eexists _, r', cur, clr'. rewrite bind_Ret. split; [done|]. split; [by apply owns_delete|]. split.
    + eapply moves_trans; [apply (moves_refl h _ _ E)|by apply moves_delete].
    + apply Permutation_length in E. rewrite E. cbn. lia.
  - exists h, r, cur, clr. split; [done|]. split; [done|]. split; [by apply moves_refl|lia].
Qed.

Lemma ptr_step_done ys o h r xs xs' cur clr ocur oclr : owns h r xs cur clr -> owns h other ys ocur oclr ->
  (forall p, p ∈ ocur ++ oclr -> p ∉ cur ++ clr) -> Forall object_ok ys -> ptr_spec ys o xs = Some xs' ->
  Z.of_nat (length (cur ++ clr) + weight ys o) <= limit ->
  ptr_done h (cur ++ clr) (weight ys o) xs' (ptr_step o h r).
Proof using TL PL.
  intros Ho Hoo Hd Hok Hs Hn. destruct o; cbn [ptr_spec weight] in *; try (injection Hs as <-).
  - cbn [ptr_step]. destruct (add_spec h r xs cur clr Ho) as (h' & r' & p & clr' & -> & Hv & Hlen); [lia|].
    destruct (Hv v) as [Hown Hmv]. rewrite bind_Ret. eexists _, _, _, _. split; [done|]. split; [exact Hown|].
    split; [exact Hmv|lia].
  - apply add_allocated_done; [done|lia].
  - apply add_cleared_done; [done|lia].
  - destruct xs as [|x xs]; [done|]. injection Hs as <-. cbn [ptr_step].
    destruct (remove_last_spec h r (x :: xs) cur clr Ho) as (h' & r' & cur' & p & -> & -> & Hown & Hmv); [done|].
    eexists _, _, _, _. split; [done|]. split; [exact Hown|]. split; [exact Hmv|].
    rewrite !length_app. cbn. lia.
  - destruct xs as [|x xs]; [done|]. injection Hs as <-. by apply (release_last_done h r (x :: xs)).
  - by apply release_cleared_done.
  - cbn [ptr_step]. destruct ((0 <=? i) && (0 <=? j)) eqn:E; [|done]. rewrite andb_true_iff, !Z.leb_le in E. destruct E as [? ?].
    destruct (xs !! Z.to_nat i) as [x|] eqn:Ex; [|done]. destruct (xs !! Z.to_nat j) as [y|] eqn:Ey; [|done].
    injection Hs as <-. destruct (swap_spec h r xs cur clr i j x y Ho) as (r' & cur' & -> & Hperm & Hown); try done.
    rewrite bind_Ret. eexists _, _, cur', clr. split; [done|]. split; [exact Hown|].
    split; [apply moves_refl; by rewrite Hperm|rewrite !length_app; rewrite Hperm; lia].
  - cbn [ptr_step]. destruct (clear_spec h r xs cur clr Ho) as (h' & r' & -> & Hown & Hmv).
    eexists _, _, _, _. split; [done|]. split; [exact Hown|]. split; [exact Hmv|cbn; lia].
  - cbn [ptr_step]. destruct (merge_from_spec h r other xs ys cur clr ocur oclr Ho Hoo Hd Hok) as
      (h' & r' & cur' & clr' & -> & Hown & Hmv & Hlen); [lia|].
    eexists _, _, _, _. split; [done|]. split; [exact Hown|]. by split.
  - cbn [ptr_step]. unfold CopyFrom. destruct (clear_spec h r xs cur clr Ho) as (h1 & r1 & -> & Hown1 & Hmv1).
    rewrite bind_Ret. destruct (owns_kept h h1 _ _ other ys ocur oclr Hoo Hmv1 Hd) as [Hoo1 Hd1].
    destruct (merge_from_spec h1 r1 other [] ys [] (cur ++ clr) ocur oclr Hown1 Hoo1 Hd1 Hok) as
      (h' & r' & cur' & clr' & -> & Hown & Hmv & Hlen); [cbn [app]; lia|].
    eexists _, _, _, _. split; [done|]. split; [exact Hown|].
    split; [by eapply moves_trans|exact Hlen].
Qed.

Lemma ptr_run_done ys os h r xs xs' cur clr ocur oclr : owns h r xs cur clr -> owns h other ys ocur oclr ->
  (forall p, p ∈ ocur ++ oclr -> p ∉ cur ++ clr) -> Forall object_ok ys -> ptr_spec_run ys os xs = Some xs' ->
  Z.of_nat (length (cur ++ clr) + run_weight ys os) <= limit ->
  exists h' r' cur' clr', ptr_run os h r = Ret (h', r') /\ owns h' r' xs' cur' clr' /\
    owns h' other ys ocur oclr /\ moves h (cur ++ clr) h' (cur' ++ clr').
Proof using TL PL.
  revert h r xs cur clr. induction os as [|o os IH]; intros h r xs cur clr Ho Hoo Hd Hok Hs Hn; cbn [ptr_run ptr_spec_run] in *.
  { injection Hs as <-. exists h, r, cur, clr. do 3 (split; [done|]). by apply moves_refl. }
  change (run_weight ys (o :: os)) with (weight ys o + run_weight ys os)%nat in Hn.
  destruct (ptr_spec ys o xs) as [xs1|] eqn:E1; [|done]. cbn in Hs.
  destruct (ptr_step_done ys o h r xs xs1 cur clr ocur oclr) as (h1 & r1 & cur1 & clr1 & -> & Ho1 & Hmv1 & Hlen1); try done.
  { lia. }
  rewrite bind_Ret. destruct (owns_kept h h1 _ _ other ys ocur oclr Hoo Hmv1 Hd) as [Hoo1 Hd1].
  destruct (IH h1 r1 xs1 cur1 clr1) as (h' & r' & cur' & clr' & -> & Ho' & Hoo' & Hmv'); try done; [lia|].
  exists h', r', cur', clr'. do 3 (split; [done|]). by eapply moves_trans.
Qed.

Lemma empty_owns (h : heap T) : owns h empty_field [] [] [].
Proof using Type. split; [by split; [|split]|constructor|constructor|constructor]. Qed.

Lemma get_owned (h : heap T) r xs cur clr i x : owns h r xs cur clr -> xs !! i = Some x ->
  Get (Z.of_nat i) h r = Ret x.
Proof using Type.
  intros [Hl Hnd Hxs Hcl] Hi. destruct (Forall2_lookup_r _ _ _ _ _ Hxs Hi) as (p & Ep & Hp).
  pose proof (lookup_lt_Some _ _ _ Ep) as Hlt. destruct Hl as [Hc Hpt].
  unfold Get, Mutable, in_range, CHECK. destruct (Z.leb_spec 0 (Z.of_nat i)); [|lia]. rewrite bind_Ret.
  destruct (Z.ltb_spec (Z.of_nat i) (current_size r)); [|lia]. rewrite bind_Ret.
  rewrite (element_at r (cur ++ clr) _ p), bind_Ret; [|done|lia|by rewrite Nat2Z.id; apply lookup_app_l_Some].
  unfold deref. by rewrite Hp.
Qed.
End clients.
