(* ===== verification/Runtime.v ===== *)
(** * A runtime of the protobuf library

    The functions that the headers only declare, written from their documentation
    in coded_stream.h and wire_format.h.  They show that what is assumed of the
    runtime can be met, and let the generated code be run on examples. *)

From S2P Require Import Prelude Protobuf ProtobufFacts WireFormat WireFormatFacts.

Module runtime.

(** A varint of at most [n] bytes. *)
Fixpoint read_varint (n : nat) (l : list byte) : option (Z * list byte) :=
  match n, l with
  | S n, b :: l =>
      if byte_val b <? 0x80 then Some (byte_val b, l)
      else '(v, l) ← read_varint n l; Some (byte_val b - 0x80 + 0x80 * v, l)
  | _, _ => None
  end.

Definition read_varint64 (l : list byte) : option (Z * list byte) :=
  '(v, l) ← read_varint 10 l; Some (u64 v, l).

Definition read_tag (l : list byte) : Z * bool * list byte :=
  match l with
  | [] => (0, true, [])
  | _ => match read_varint64 l with
         | Some (v, l) => (u32 v, false, l)
         | None => (0, false, l)
         end
  end.

Definition read_size (l : list byte) : option (Z * list byte) :=
  '(v, l) ← read_varint64 l; if v <? 2 ^ 31 then Some (v, l) else None.

Definition read_string (l : list byte) : option (list byte * list byte) :=
  '(n, l) ← read_size l; ReadRaw (Z.to_nat n) l.

Definition write_string (s : list byte) : list byte := varint (Z.of_nat (length s)) ++ s.

Definition push_limit (l : list byte) : list byte * list byte :=
  match read_varint64 l with
  | Some (v, l) => (take (Z.to_nat (u32 v)) l, drop (Z.to_nat (u32 v)) l)
  | None => ([], l)
  end.

(** The bytes that skipping a field takes, by its wire type. *)
Definition skip_body (tag : Z) (l : list byte) : option (list byte) :=
  if Z.land tag 7 =? WIRETYPE_VARINT then snd <$> read_varint64 l
  else if Z.land tag 7 =? WIRETYPE_FIXED64 then snd <$> ReadRaw 8 l
  else if Z.land tag 7 =? WIRETYPE_LENGTH_DELIMITED then snd <$> read_string l
  else if Z.land tag 7 =? WIRETYPE_FIXED32 then snd <$> ReadRaw 4 l
  else None.

Definition skip (tag : Z) (l : list byte) : option (list byte * list byte) :=
  l' ← skip_body tag l; Some (varint tag ++ take (length l - length l') l, l').

Definition add_varint (n v : Z) : list byte := varint (MakeTag n WIRETYPE_VARINT) ++ varint v.

(** The enums in a packed field. *)
Fixpoint enums (fuel : nat) (n : Z) (valid : list Z) (l : list byte) : option (list Z * list byte) :=
  match fuel with
  | O => Some ([], [])
  | S fuel =>
      if decide (l = []) then Some ([], [])
      else
        '(v, l) ← read_varint64 l;
        '(zs, u) ← enums fuel n valid l;
        let z := sint 32 (u32 v) in
        Some (if decide (z ∈ valid) then (z :: zs, u) else (zs, add_varint n (u64 z) ++ u))
  end.

Definition read_packed_enum (n : Z) (valid : list Z) (l : list byte) : option (list Z * list byte * list byte) :=
  '(size, l) ← read_size l;
  let inside := take (Z.to_nat size) l in
  '(zs, u) ← enums (length inside) n valid inside;
  Some (zs, u, drop (Z.to_nat size) l).

#[export] Instance protobuf : ProtobufRuntime := {|
  ReadTagFallback := read_tag;
  ReadVarint64Fallback := read_varint64;
  SkipField := skip;
  VarintSize64 v := Z.of_nat (length (varint v))
|}.

#[export] Instance wire : WireRuntime := {|
  ReadVarint32Fallback l := '(v, l) ← read_varint64 l; Some (u32 v, l);
  ReadVarintSizeAsIntFallback := read_size;
  VarintSize32Fallback v := Z.of_nat (length (varint v));
  WriteVarint64ToArray := varint;
  WriteStringWithSizeToArray := write_string;
  ReadLengthAndPushLimit := push_limit;
  ReadBytes := read_string;
  ReadPackedEnumPreserveUnknowns := read_packed_enum;
  AddVarint := add_varint
|}.

(* ------------------------------------------------------------------ *)
(** ** The laws *)

Lemma varint_loop_reads n v rest : 0 <= v < 128 ^ (Z.of_nat n + 1) ->
  read_varint (S n) (varint_loop n v ++ rest) = Some (v, rest).
Proof.
  revert v. induction n as [|n IH]; intros v Hv.
  - cbn in Hv. cbn [varint_loop]. destruct (Z.geb_spec v 0x80); [lia|]. cbn [app read_varint].
    rewrite val_to_byte, Z.mod_small by lia. by destruct (Z.ltb_spec v 0x80); [|lia].
  - cbn [varint_loop]. destruct (Z.geb_spec v 0x80) as [Hb|Hs]; remember (S n) as k; cbn [app read_varint].
    + rewrite val_to_byte, lor_80 by lia. pose proof (Z.mod_pos_bound v 128 ltac:(lia)).
      destruct (Z.ltb_spec (v mod 128 + 128) 0x80); [lia|]. rewrite Z.shiftr_div_pow2 by lia.
      subst k. change (2 ^ 7) with 128.
      replace (Z.of_nat (S n) + 1) with (Z.succ (Z.of_nat n + 1)) in Hv by lia.
      rewrite Z.pow_succ_r in Hv by lia. rewrite IH.
      * cbn. do 2 f_equal. pose proof (Z.div_mod v 128 ltac:(lia)). lia.
      * split; [apply Z.div_pos; lia|]. apply Z.div_lt_upper_bound; lia.
    + rewrite val_to_byte, Z.mod_small by lia. by destruct (Z.ltb_spec v 0x80); [|lia].
Qed.

Lemma read_varint64_write v rest : 0 <= v < 2 ^ 64 -> read_varint64 (varint v ++ rest) = Some (v, rest).
Proof.
  intros Hv. unfold read_varint64, varint. rewrite varint_loop_reads by (cbn; lia). cbn. unfold u64.
  by rewrite Z.mod_small.
Qed.

Lemma read_size_write v rest : 0 <= v < 2 ^ 31 -> read_size (varint v ++ rest) = Some (v, rest).
Proof.
  intros Hv. unfold read_size. rewrite read_varint64_write by lia. cbn. by destruct (Z.ltb_spec v (2 ^ 31)); [|lia].
Qed.

#[export] Instance protobuf_laws : RuntimeLaws.
Proof. split; [done|]. intros v Hv. rewrite WriteVarint32_varint by lia. done. Qed.

#[export] Instance wire_laws : WireLaws.
Proof.
  split; cbn [ReadVarint64Fallback ReadVarint32Fallback ReadVarintSizeAsIntFallback ReadBytes VarintSize32Fallback
    VarintSize64 WriteVarint64ToArray WriteStringWithSizeToArray ReadLengthAndPushLimit protobuf wire].
  - done.
  - intros v rest Hv. apply read_varint64_write. lia.
  - intros l. by destruct (read_varint64 l) as [[v l']|].
  - intros v rest Hv. apply read_size_write. lia.
  - done.
  - done.
  - done.
  - intros v rest Hv. unfold push_limit. rewrite read_varint64_write by lia. by rewrite u32_id by lia.
  - intros s rest Hs. unfold read_string. rewrite read_size_write by lia. cbn [mbind option_bind]. unfold ReadRaw.
    rewrite Nat2Z.id. destruct (Nat.ltb_spec (length (s ++ rest)) (length s)) as [H|_].
    + rewrite length_app in H. lia.
    + by rewrite take_app_length, drop_app_length.
Qed.

(* ------------------------------------------------------------------ *)
(** ** Progress *)

Lemma read_varint_shorter n l v l' : read_varint n l = Some (v, l') -> (length l' < length l)%nat.
Proof.
  revert l v l'. induction n as [|n IH]; intros [|b l] v l' E; try done. cbn in E.
  destruct (_ <? _); [simplify_eq; cbn; lia|].
  destruct (read_varint n l) as [[w l1]|] eqn:E1; [|done]. cbn in E. simplify_eq. apply IH in E1. cbn. lia.
Qed.

Lemma read_varint64_shorter l v l' : read_varint64 l = Some (v, l') -> (length l' < length l)%nat.
Proof.
  unfold read_varint64. intros E. destruct (read_varint 10 l) as [[w l1]|] eqn:E1; [|done].
  cbn in E. simplify_eq. by eapply read_varint_shorter.
Qed.

Lemma read_size_shorter l v l' : read_size l = Some (v, l') -> (length l' < length l)%nat.
Proof.
  unfold read_size. intros E. destruct (read_varint64 l) as [[w l1]|] eqn:E1; [|done].
  cbn in E. destruct (_ <? _); simplify_eq. by eapply read_varint64_shorter.
Qed.

Lemma read_string_shorter l s l' : read_string l = Some (s, l') -> (length l' < length l)%nat.
Proof.
  unfold read_string. intros E. destruct (read_size l) as [[w l1]|] eqn:E1; [|done]. cbn in E.
  apply read_size_shorter in E1. apply raw_shorter in E. lia.
Qed.

Lemma skip_body_shorter tag l l' : skip_body tag l = Some l' -> (length l' <= length l)%nat.
Proof.
  unfold skip_body. intros E.
  repeat match type of E with context [if ?b then _ else _] => destruct b end; try done;
    apply fmap_Some in E as ([x y] & E & ->); cbn.
  - apply read_varint64_shorter in E. lia.
  - by eapply raw_shorter.
  - apply read_string_shorter in E. lia.
  - by eapply raw_shorter.
Qed.

#[export] Instance protobuf_progress : RuntimeProgress.
Proof.
  split; cbn.
  - intros l t fin l' E. unfold read_tag in E. destruct l as [|b l]; [by simplify_eq|].
    destruct (read_varint64 (b :: l)) as [[v l1]|] eqn:E1; [|by simplify_eq].
    apply read_varint64_shorter in E1. simplify_eq. lia.
  - intros l v l' E%read_varint64_shorter. lia.
  - intros t l d l' E. unfold skip in E. destruct (skip_body t l) as [l1|] eqn:E1; [|done]. cbn in E. simplify_eq.
    by eapply skip_body_shorter.
Qed.

#[export] Instance wire_progress : WireProgress.
Proof.
  split; cbn [ReadVarint64Fallback ReadVarint32Fallback ReadVarintSizeAsIntFallback ReadBytes
    ReadLengthAndPushLimit ReadPackedEnumPreserveUnknowns protobuf wire].
  - apply read_varint64_shorter.
  - intros l v l' E. destruct (read_varint64 l) as [[w l1]|] eqn:E1; [|done]. cbn in E. simplify_eq.
    by eapply read_varint64_shorter.
  - apply read_size_shorter.
  - intros l inside after E. unfold push_limit in E. destruct (read_varint64 l) as [[v l1]|] eqn:E1; [|by simplify_eq].
    apply read_varint64_shorter in E1. simplify_eq. rewrite length_take, length_drop. lia.
  - apply read_string_shorter.
  - intros n valid l vs u l' E. unfold read_packed_enum in E.
    destruct (read_size l) as [[w l1]|] eqn:E1; [|done]. cbn in E.
    destruct (enums _ _ _ _) as [[zs u']|]; [|done]. cbn in E. simplify_eq.
    apply read_size_shorter in E1. rewrite length_drop. lia.
Qed.

(* ------------------------------------------------------------------ *)
(** ** Types *)

Lemma read_size_range l v l' : read_size l = Some (v, l') -> v < 2 ^ 31.
Proof.
  unfold read_size. destruct (read_varint64 l) as [[w l1]|]; [|discriminate]. cbn [mbind option_bind].
  destruct (Z.ltb_spec w (2 ^ 31)); [|discriminate]. by intros [= <- _].
Qed.

Lemma enums_range fuel n valid l zs u : enums fuel n valid l = Some (zs, u) ->
  Forall (fun z => z ∈ valid /\ - 2 ^ 31 <= z < 2 ^ 31) zs.
Proof.
  revert l zs u. induction fuel as [|fuel IH]; intros l zs u; cbn [enums]; [by intros [= <- _]|].
  destruct (decide (l = [])); [by intros [= <- _]|]. destruct (read_varint64 l) as [[v l1]|]; [|discriminate]. cbn [mbind option_bind].
  destruct (enums fuel n valid l1) as [[zs1 u1]|] eqn:E; [|discriminate]. cbn [mbind option_bind]. apply IH in E.
  destruct (decide _); intros [= <- _]; [|done]. constructor; [|done]. split; [done|]. apply (sint_range 32); lia.
Qed.

#[export] Instance wire_typed : WireTyped.
Proof.
  assert (forall l v l', read_varint64 l = Some (v, l') -> 0 <= v < 2 ^ 64) as H64.
  { intros l v l'. unfold read_varint64. destruct (read_varint 10 l) as [[w l1]|]; [|discriminate]. cbn [mbind option_bind].
    intros [= <- _]. by apply Z.mod_pos_bound. }
  split; cbn [ReadVarint64Fallback ReadVarint32Fallback ReadBytes ReadPackedEnumPreserveUnknowns protobuf wire].
  - exact H64.
  - intros l v l' E. destruct (read_varint64 l) as [[w l1]|]; [|discriminate E]. cbn [mbind option_bind] in E. simplify_eq.
    by apply Z.mod_pos_bound.
  - intros l s l' E. unfold read_string in E. destruct (read_size l) as [[w l1]|] eqn:Es; [|discriminate E]. cbn [mbind option_bind] in E.
    apply read_size_range in Es. unfold ReadRaw in E. destruct (_ <? _)%nat; [done|]. simplify_eq.
    rewrite length_take. lia.
  - intros n valid l zs u l' E. unfold read_packed_enum in E. destruct (read_size l) as [[w l1]|]; [|discriminate E]. cbn [mbind option_bind] in E.
    destruct (enums _ _ _ _) as [[zs' u']|] eqn:Ee; [|discriminate E]. cbn [mbind option_bind] in E. simplify_eq. by eapply enums_range.
Qed.
End runtime.
