(* ===== verification/GeneratedFacts.v ===== *)
(** * Facts about the generated message classes

    For every class whose fields are in order: [ByteSize] is the number of
    bytes that are written, a typed message survives serialising and parsing,
    and parsing ends on every input. *)

From S2P Require Import Prelude Protobuf ProtobufFacts WireFormat WireFormatFacts GeneratedCode.
Import generated.

(* ------------------------------------------------------------------ *)
(** ** Types and values *)

Definition is_message (t : ftype) : bool := match t with TYPE_MESSAGE _ => true | _ => false end.

(** Induction over types: the types of the fields of a message are smaller. *)
Section ftype_ind.
Context (P : ftype -> Prop) (Hs : forall t, is_message t = false -> P t).
Context (Hm : forall fields, Forall (fun f : fdesc => P f.2) fields -> P (TYPE_MESSAGE fields)).

Fixpoint ftype_ind (t : ftype) : P t :=
  match t with
  | TYPE_MESSAGE fields =>
      Hm fields ((fix go (fs : list fdesc) : Forall (fun f : fdesc => P f.2) fs :=
        match fs with
        | [] => Forall_nil_2 _
        | (n, lab, t) :: fs => Forall_cons_2 _ (n, lab, t) fs (ftype_ind t) (go fs)
        end) fields)
  | t => Hs t eq_refl
  end.
End ftype_ind.

(** A value of a type; a singular field has at most one value. *)
Fixpoint typed (t : ftype) (v : value) : bool :=
  match t, v with
  | TYPE_MESSAGE fields, VMessage vss u =>
      bool_decide (u = []) && (length vss =? length fields)%nat &&
      forallb (fun b => b) (zip_with (fun '(n, lab, t) vs =>
        (is_repeated lab || (length vs <=? 1)%nat) && forallb (typed t) vs) fields vss)
  | TYPE_MESSAGE _, _ => false
  | _, _ => scalar_typed t v
  end.

Definition message_typed (fields : list fdesc) (m : message) : bool :=
  typed (TYPE_MESSAGE fields) (message_value m).

(** The numbers of the fields increase and have tags of at most two bytes, only
    numbers are packed, and the values of enums are of type [int]. *)
Fixpoint increasing (lo : Z) (ns : list Z) : bool :=
  match ns with [] => true | n :: ns => (lo <? n) && increasing n ns end.

Definition is_number (t : ftype) : bool :=
  match t with TYPE_ENUM _ | TYPE_STRING | TYPE_BYTES | TYPE_MESSAGE _ => false | _ => true end.

Fixpoint type_ok (t : ftype) : bool :=
  match t with
  | TYPE_MESSAGE fields =>
      increasing 0 ((fun '(n, _, _) => n) <$> fields) &&
      forallb (fun '(n, lab, t) =>
        (n <? 2048) && match lab with LABEL_PACKED => is_number t | _ => true end && type_ok t) fields
  | TYPE_ENUM valid => forallb (fun z => (- 2 ^ 31 <=? z) && (z <? 2 ^ 31)) valid
  | _ => true
  end.

(** How deep messages are nested in a value of the type. *)
Fixpoint type_depth (t : ftype) : nat :=
  match t with
  | TYPE_MESSAGE fields => S (foldr (fun '(_, _, t) d => Nat.max (type_depth t) d) 0%nat fields)
  | _ => 0%nat
  end.

(** The values of a field. *)
Definition field_typed (f : fdesc) (vs : list value) : Prop :=
  (is_repeated f.1.2 = false -> (length vs <= 1)%nat) /\ Forall (fun v => typed f.2 v = true) vs.

Lemma message_typed_fields fields m : message_typed fields m = true <->
  m_unknown m = [] /\ Forall2 field_typed fields (m_fields m).
Proof.
  unfold message_typed, message_value. cbn [typed]. rewrite !andb_true_iff, bool_decide_eq_true, Nat.eqb_eq.
  destruct m as [vss u]. cbn [m_fields m_unknown]. split.
  - intros [[-> Hl] Hf]. split; [done|]. revert vss Hl Hf.
    induction fields as [|[[n lab] t] fields IH]; intros [|vs vss] Hl Hf; try done.
    cbn in Hf. rewrite !andb_true_iff in Hf. destruct Hf as [[Hs Ht] Hf]. constructor; [|apply IH; [cbn in Hl; lia|done]].
    split; cbn.
    + intros E. rewrite E in Hs. by apply Nat.leb_le.
    + apply Forall_forall. intros v Hv. rewrite forallb_forall in Ht. apply Ht. by apply list_elem_of_In.
  - intros [-> Hf]. assert (length vss = length fields) as Hl by (symmetry; by eapply Forall2_length).
    split; [done|]. clear Hl. induction Hf as [|[[n lab] t] vs fields vss [Hs Ht] Hf IH]; [done|].
    cbn. rewrite IH, andb_true_r. apply andb_true_iff. split.
    + destruct (is_repeated lab) eqn:E; [done|]. apply Nat.leb_le. by apply Hs.
    + apply forallb_forall. intros v Hv. eapply Forall_forall in Ht; [exact Ht|]. by apply list_elem_of_In.
Qed.

(** A class has fields in order, and does not nest messages deeper than the
    limit of the parser. *)
Definition class_fits (fields : list fdesc) : bool :=
  type_ok (TYPE_MESSAGE fields) && (type_depth (TYPE_MESSAGE fields) <=? S kDefaultRecursionLimit)%nat.

Lemma class_fits_spec fields : class_fits fields = true ->
  type_ok (TYPE_MESSAGE fields) = true /\ (type_depth (TYPE_MESSAGE fields) <= S kDefaultRecursionLimit)%nat.
Proof. unfold class_fits. by rewrite andb_true_iff, Nat.leb_le. Qed.

Lemma increasing_spec lo ns : increasing lo ns = true ->
  Forall (fun n => lo < n) ns /\ NoDup ns.
Proof.
  revert lo. induction ns as [|n ns IH]; intros lo; [by repeat constructor|]. cbn [increasing].
  rewrite andb_true_iff, Z.ltb_lt. intros [Hn Hns]. destruct (IH n Hns) as [HF Hd]. split.
  - constructor; [done|]. eapply Forall_impl; [exact HF|]. cbn. lia.
  - constructor; [|done]. intros Hin. eapply Forall_forall in HF; [|exact Hin]. lia.
Qed.

(** A class whose fields are in order. *)
Record class_ok (fields : list fdesc) : Prop := {
  co_nodup : NoDup ((fun f : fdesc => f.1.1) <$> fields);
  co_range : Forall (fun f : fdesc => 0 < f.1.1 < 2048) fields;
  co_packed : Forall (fun f : fdesc => f.1.2 = LABEL_PACKED -> is_number f.2 = true) fields;
  co_type : Forall (fun f : fdesc => type_ok f.2 = true) fields
}.

Lemma type_ok_class fields : type_ok (TYPE_MESSAGE fields) = true -> class_ok fields.
Proof.
  cbn [type_ok]. rewrite andb_true_iff, forallb_forall. intros [Hi Hf].
  destruct (increasing_spec _ _ Hi) as [Hlo Hnd].
  assert (((fun '(n, _, _) => n) <$> fields) = ((fun f : fdesc => f.1.1) <$> fields)) as En.
  { apply list_fmap_ext. by intros ? [[n lab] t] _. }
  rewrite En in *.
  assert (forall n lab t, (n, lab, t) ∈ fields -> 0 < n < 2048 /\
    (lab = LABEL_PACKED -> is_number t = true) /\ type_ok t = true) as H.
  { intros n lab t Hin. specialize (Hf _ (proj1 (list_elem_of_In _ _) Hin)). cbn in Hf.
    rewrite !andb_true_iff, Z.ltb_lt in Hf. destruct Hf as [[Hn Hp] Ht].
    rewrite Forall_fmap in Hlo. eapply Forall_forall in Hlo; [|exact Hin]. cbn in Hlo.
    split; [lia|]. split; [by intros ->|done]. }
  split; [done|..]; apply Forall_forall; intros [[n lab] t] Hin; by apply H in Hin as (? & ? & ?).
Qed.

(** ** Merging *)

Lemma message_value_inv m : value_message (message_value m) = m.
Proof. by destruct m. Qed.

Lemma MergeFrom_value fields m m0 :
  message_value (MergeFrom fields m m0) = merge_value (TYPE_MESSAGE fields) (message_value m) (message_value m0).
Proof. by destruct m, m0. Qed.

Lemma MergeFrom_fields fields m m0 :
  MergeFrom fields m m0 =
  mkMessage (zip_with (fun '(n, lab, t) '(f, g) => merge_field lab t (merge_value t) f g) fields
    (zip (m_fields m) (m_fields m0))) (m_unknown m0 ++ m_unknown m).
Proof. by destruct m, m0. Qed.

(** One value, and then the others. *)
Lemma merge_field_cons lab t v vs acc : (is_repeated lab = false -> vs = []) ->
  merge_field lab t (merge_value t) (v :: vs) acc =
  merge_field lab t (merge_value t) vs (merge_field lab t (merge_value t) [v] acc).
Proof. intros Hs. destruct lab; cbn; try (by rewrite (Hs eq_refl)); by rewrite <-app_assoc. Qed.

Lemma merge_field_nil lab t acc : merge_field lab t (merge_value t) [] acc = acc.
Proof. destruct lab; cbn; by rewrite ?app_nil_r. Qed.

Lemma merge_field_scalar lab t vs acc : is_message t = false -> is_repeated lab = true ->
  merge_field lab t (merge_value t) vs acc = acc ++ vs.
Proof.
  intros Ht Hl. assert (forall f : value -> value, (forall v, f v = v) -> f <$> vs = vs) as Hid.
  { intros f Hf. rewrite <-(list_fmap_id vs) at 2. apply list_fmap_ext. intros ? v _. apply Hf. }
  destruct lab; try done; cbn [merge_field]; f_equal; apply Hid; by destruct t.
Qed.

Lemma Forall2_with {A B} (P : A -> B -> Prop) (Q : A -> Prop) l k : Forall2 P l k -> Forall Q l ->
  Forall2 (fun x y => P x y /\ Q x) l k.
Proof. induction 1; intros HQ; [constructor|]. apply Forall_cons in HQ as [? ?]. constructor; auto. Qed.

Lemma Forall2_both {A B} (P Q : A -> B -> Prop) l k : Forall2 P l k -> Forall2 Q l k ->
  Forall2 (fun x y => P x y /\ Q x y) l k.
Proof. induction 1; intros HQ; [constructor|]. apply Forall2_cons in HQ as [? ?]. constructor; auto. Qed.

Section facts.
Context `{PR : !ProtobufRuntime, WR : !WireRuntime, RL : !RuntimeLaws, WL : !WireLaws}.

(* ------------------------------------------------------------------ *)
(** ** Sizes *)

Lemma write_value_message fields m :
  write_value (TYPE_MESSAGE fields) (message_value m) =
  WriteVarint32ToArray (u32 (ByteSize fields m)) ++ serialize fields m.
Proof using Type. by destruct m. Qed.

Lemma value_size_message fields m :
  value_size (TYPE_MESSAGE fields) (message_value m) = LengthDelimitedSize (ByteSize fields m).
Proof using Type. by destruct m. Qed.

Lemma write_value_scalar t v : is_message t = false -> write_value t v = WritePrimitive t v.
Proof using Type. by destruct t. Qed.

Lemma value_size_scalar t v : is_message t = false -> value_size t v = PrimitiveSize t v.
Proof using Type. by destruct t. Qed.

Lemma typed_scalar t v : is_message t = false -> typed t v = scalar_typed t v.
Proof using Type. by destruct t, v. Qed.

Lemma typed_message fields v : typed (TYPE_MESSAGE fields) v = true ->
  exists m, v = message_value m /\ message_typed fields m = true.
Proof using Type. destruct v as [| | |vss u]; try done. intros H. by exists (mkMessage vss u). Qed.

Lemma wire_type_range t : 0 <= wire_type t < 8.
Proof using Type. by destruct t. Qed.

Lemma tag_range n t : 0 < n < 2048 -> 0 < MakeTag n (wire_type t) < 16384.
Proof using Type. intros Hn. pose proof (wire_type_range t). rewrite MakeTag_value by lia. lia. Qed.

Lemma tag_size_length n w : 0 < n < 2048 -> 0 <= w < 8 ->
  VarintSize32 (MakeTag n w) = Z.of_nat (length (WriteTagToArray n w)) /\ 1 <= VarintSize32 (MakeTag n w).
Proof using WL.
  intros Hn Hw. unfold WriteTagToArray. rewrite MakeTag_value by lia.
  rewrite VarintSize32_varint, WriteVarint32_varint by lia. pose proof (varint_nonempty (8 * n + w)). lia.
Qed.

Lemma VarintSize32_pos v : 1 <= VarintSize32 (u32 v).
Proof using WL.
  pose proof (Z.mod_pos_bound v (2 ^ 32) ltac:(lia)). rewrite VarintSize32_varint by (unfold u32; lia).
  pose proof (varint_nonempty (u32 v)). lia.
Qed.

Lemma sizes_nonneg (size : value -> Z) vs : Forall (fun v => 0 <= size v) vs ->
  0 <= foldr (fun v s => size v + s) 0 vs.
Proof using Type. induction 1; cbn; lia. Qed.

Lemma field_size_nonneg f vs : 0 < f.1.1 < 2048 -> Forall (fun v => 0 <= value_size f.2 v) vs ->
  0 <= field_size f.1.1 f.1.2 f.2 (value_size f.2) vs.
Proof using WL.
  destruct f as [[n lab] t]. cbn [fst snd]. intros Hn Hvs. unfold field_size.
  destruct (tag_size_length n (wire_type t) Hn (wire_type_range t)) as [_ Ht].
  assert (0 <= foldr (fun v s => VarintSize32 (MakeTag n (wire_type t)) + value_size t v + s) 0 vs)
    by (induction Hvs; cbn; lia).
  destruct lab; try done. pose proof (sizes_nonneg _ _ Hvs).
  destruct (Z.ltb_spec 0 (foldr (fun v s => value_size t v + s) 0 vs)); [|lia].
  destruct (tag_size_length n WIRETYPE_LENGTH_DELIMITED Hn) as [_ Ht2]; [done|].
  unfold VarintSize32SignExtended. destruct (_ <? 0); [lia|].
  pose proof (VarintSize32_pos (foldr (fun v s => value_size t v + s) 0 vs)). lia.
Qed.

Definition fields_size (fields : list fdesc) (vss : list (list value)) : Z :=
  foldr Z.add 0 (zip_with (fun '(n, lab, t) vs => field_size n lab t (value_size t) vs) fields vss).

Lemma fields_size_nonneg fields vss :
  Forall2 (fun (f : fdesc) vs => 0 < f.1.1 < 2048 /\ Forall (fun v => 0 <= value_size f.2 v) vs) fields vss ->
  0 <= fields_size fields vss.
Proof using WL.
  induction 1 as [|[[n lab] t] vs fields vss [Hn Hv] _ IH]; [done|].
  pose proof (field_size_nonneg (n, lab, t) vs Hn Hv). unfold fields_size in *. cbn in *. lia.
Qed.

Lemma value_size_pos t v : type_ok t = true -> typed t v = true -> 1 <= value_size t v.
Proof using WL.
  revert v. induction t as [t Hs|fields IH] using ftype_ind; intros v Hok Ht.
  - rewrite value_size_scalar by done. rewrite typed_scalar in Ht by done.
    rewrite PrimitiveSize_length by done. pose proof (WritePrimitive_nonempty t v Ht). lia.
  - destruct (typed_message _ _ Ht) as (m & -> & Hm). rewrite value_size_message. unfold LengthDelimitedSize.
    apply message_typed_fields in Hm as [_ Hm]. destruct (type_ok_class _ Hok) as [_ Hr _ Hty].
    pose proof (VarintSize32_pos (ByteSize fields m)).
    assert (0 <= fields_size fields (m_fields m)) as H0.
    2: { change (ByteSize fields m) with (fields_size fields (m_fields m) + Z.of_nat (length (m_unknown m))) in *. lia. }
    apply fields_size_nonneg. pose proof (Forall2_with _ _ _ _ (Forall2_with _ _ _ _ (Forall2_with _ _ _ _ Hm Hr) Hty) IH) as H2.
    eapply Forall2_impl; [exact H2|]. intros f vs [[[[_ Hvs] Hn] Hf] Hi]. split; [done|].
    eapply Forall_impl; [exact Hvs|]. intros v Hv. specialize (Hi v Hf Hv). lia.
Qed.

(** The bytes of a field are as many as its size. *)
Lemma field_size_length f vs : 0 < f.1.1 < 2048 -> (f.1.2 = LABEL_PACKED -> is_number f.2 = true) ->
  Forall (fun v => 1 <= value_size f.2 v /\
    (value_size f.2 v < 2 ^ 31 -> value_size f.2 v = Z.of_nat (length (write_value f.2 v)))) vs ->
  field_size f.1.1 f.1.2 f.2 (value_size f.2) vs < 2 ^ 31 ->
  field_size f.1.1 f.1.2 f.2 (value_size f.2) vs =
  Z.of_nat (length (field_bytes f.1.1 f.1.2 f.2 (write_value f.2) vs)).
Proof using WL.
  destruct f as [[n lab] t]. cbn [fst snd]. intros Hn Hp Hvs.
  destruct (tag_size_length n (wire_type t) Hn (wire_type_range t)) as [Ht1 Ht2].
  assert (foldr (fun v s => VarintSize32 (MakeTag n (wire_type t)) + value_size t v + s) 0 vs < 2 ^ 31 ->
    foldr (fun v s => VarintSize32 (MakeTag n (wire_type t)) + value_size t v + s) 0 vs =
    Z.of_nat (length (concat ((fun v => WriteTagToArray n (wire_type t) ++ write_value t v) <$> vs)))) as Hrep.
  { clear Hp. induction Hvs as [|v vs [Hv0 Hv] Hvs IH]; [done|]. cbn [foldr fmap list_fmap concat]. intros Hlt.
    assert (0 <= foldr (fun v s => VarintSize32 (MakeTag n (wire_type t)) + value_size t v + s) 0 vs).
    { clear -Hvs Ht2. induction Hvs as [|v' vs [? _]]; cbn; lia. }
    rewrite !length_app. rewrite IH, Hv by lia. lia. }
  destruct lab; try exact Hrep. specialize (Hp eq_refl). unfold field_size, field_bytes.
  set (data := foldr (fun v s => value_size t v + s) 0 vs). intros Hlt.
  assert (0 <= data) as Hd0.
  { apply sizes_nonneg. eapply Forall_impl; [exact Hvs|]. intros v [? _]. lia. }
  assert (data < 2 ^ 31) as Hd.
  { revert Hlt. destruct (tag_size_length n WIRETYPE_LENGTH_DELIMITED Hn) as [_ Htp]; [done|].
    unfold VarintSize32SignExtended. destruct (Z.ltb_spec 0 data); [|lia].
    pose proof (VarintSize32_pos data). destruct (_ <? 0); lia. }
  assert (data = Z.of_nat (length (concat (write_value t <$> vs)))) as Ed.
  { revert Hd. unfold data. clear -Hvs. induction Hvs as [|v vs [Hv0 Hv] Hvs IH]; [done|]. cbn [foldr fmap list_fmap concat]. intros Hlt.
    assert (0 <= foldr (fun v s => value_size t v + s) 0 vs).
    { apply sizes_nonneg. eapply Forall_impl; [exact Hvs|]. intros ? [? _]. lia. }
    rewrite length_app, IH, Hv by lia. lia. }
  destruct (decide (vs = [])) as [->|Hne]; [done|].
  assert (0 < data) as Hpos.
  { destruct Hvs as [|v vs [Hv _] Hvs]; [done|]. unfold data. cbn.
    assert (0 <= foldr (fun v s => value_size t v + s) 0 vs); [|lia].
    apply sizes_nonneg. eapply Forall_impl; [exact Hvs|]. intros ? [? _]. lia. }
  destruct (Z.ltb_spec 0 data); [|lia]. unfold VarintSize32SignExtended. destruct (Z.ltb_spec data 0); [lia|].
  destruct (tag_size_length n WIRETYPE_LENGTH_DELIMITED Hn) as [-> _]; [done|].
  rewrite u32_id by lia. rewrite VarintSize32_varint, WriteVarint32_varint by lia.
  rewrite !length_app. lia.
Qed.

Definition fields_bytes (fields : list fdesc) (vss : list (list value)) : list byte :=
  concat (zip_with (fun '(n, lab, t) vs => field_bytes n lab t (write_value t) vs) fields vss).

(** What the fields of a typed message of a class satisfy. *)
Definition sized (f : fdesc) (vs : list value) : Prop :=
  0 < f.1.1 < 2048 /\ (f.1.2 = LABEL_PACKED -> is_number f.2 = true) /\
  Forall (fun v => 1 <= value_size f.2 v /\
    (value_size f.2 v < 2 ^ 31 -> value_size f.2 v = Z.of_nat (length (write_value f.2 v)))) vs.

Lemma sized_nonneg fields vss : Forall2 sized fields vss -> 0 <= fields_size fields vss.
Proof using WL.
  intros Hsz. apply fields_size_nonneg. eapply Forall2_impl; [exact Hsz|]. intros f vs (Hn & _ & Hv). split; [done|].
  eapply Forall_impl; [exact Hv|]. intros ? [? _]. lia.
Qed.

Lemma fields_size_length fields vss : Forall2 sized fields vss ->
  fields_size fields vss < 2 ^ 31 -> fields_size fields vss = Z.of_nat (length (fields_bytes fields vss)).
Proof using WL.
  induction 1 as [|[[n lab] t] vs fields vss (Hn & Hp & Hv) Hf IH]; [done|].
  assert (0 <= field_size n lab t (value_size t) vs) as H1.
  { apply (field_size_nonneg (n, lab, t)); [done|]. eapply Forall_impl; [exact Hv|]. cbn. intros ? [? _]. lia. }
  assert (0 <= fields_size fields vss) as H2 by (by apply sized_nonneg).
  change (fields_size ((n, lab, t) :: fields) (vs :: vss))
    with (field_size n lab t (value_size t) vs + fields_size fields vss).
  change (fields_bytes ((n, lab, t) :: fields) (vs :: vss))
    with (field_bytes n lab t (write_value t) vs ++ fields_bytes fields vss).
  intros Hlt. rewrite length_app, Nat2Z.inj_add, <-IH by lia. f_equal.
  apply (field_size_length (n, lab, t)); try done. cbn [fst snd]. lia.
Qed.

Lemma value_size_length t v : type_ok t = true -> typed t v = true -> value_size t v < 2 ^ 31 ->
  value_size t v = Z.of_nat (length (write_value t v)).
Proof using WL.
  revert v. induction t as [t Hs|fields IH] using ftype_ind; intros v Hok Ht Hlt.
  - rewrite value_size_scalar, write_value_scalar by done. rewrite typed_scalar in Ht by done.
    by apply PrimitiveSize_length.
  - destruct (typed_message _ _ Ht) as (m & -> & Hm). rewrite value_size_message in *.
    rewrite write_value_message, length_app. unfold LengthDelimitedSize in *.
    apply message_typed_fields in Hm as [Hu Hm]. destruct (type_ok_class _ Hok) as [_ Hr Hp Hty].
    assert (Forall2 sized fields (m_fields m)) as Hsz.
    { pose proof (Forall2_with _ _ _ _ (Forall2_with _ _ _ _ (Forall2_with _ _ _ _ (Forall2_with _ _ _ _ Hm Hr) Hp) Hty) IH) as H2.
      eapply Forall2_impl; [exact H2|]. intros f vs [[[[[_ Hvs] Hn] Hpk] Hf] Hi]. split; [done|]. split; [done|].
      eapply Forall_impl; [exact Hvs|]. intros x Hx. split; [by apply value_size_pos|by apply Hi]. }
    change (ByteSize fields m) with (fields_size fields (m_fields m) + Z.of_nat (length (m_unknown m))) in *.
    change (serialize fields m) with (fields_bytes fields (m_fields m) ++ m_unknown m).
    rewrite Hu in *. cbn [length] in *. rewrite Z.add_0_r, app_nil_r in *.
    assert (0 <= fields_size fields (m_fields m)) as H0 by (by apply sized_nonneg).
    pose proof (VarintSize32_pos (fields_size fields (m_fields m))).
    rewrite u32_id by lia. rewrite VarintSize32_varint, WriteVarint32_varint by lia.
    rewrite Nat2Z.inj_add, <-fields_size_length by (done || lia). done.
Qed.

Lemma typed_sized fields m : type_ok (TYPE_MESSAGE fields) = true -> message_typed fields m = true ->
  Forall2 sized fields (m_fields m).
Proof using WL.
  intros Hok Hm. apply message_typed_fields in Hm as [_ Hm]. destruct (type_ok_class _ Hok) as [_ Hr Hp Hty].
  pose proof (Forall2_with _ _ _ _ (Forall2_with _ _ _ _ (Forall2_with _ _ _ _ Hm Hr) Hp) Hty) as H2.
  eapply Forall2_impl; [exact H2|]. intros f vs [[[[_ Hvs] Hn] Hpk] Hf]. split; [done|]. split; [done|].
  eapply Forall_impl; [exact Hvs|]. intros x Hx. split; [by apply value_size_pos|by apply value_size_length].
Qed.

Lemma ByteSize_length fields m : type_ok (TYPE_MESSAGE fields) = true -> message_typed fields m = true ->
  0 <= ByteSize fields m /\
  (ByteSize fields m < 2 ^ 31 -> ByteSize fields m = Z.of_nat (length (serialize fields m))).
Proof using WL.
  intros Hok Hm. pose proof (typed_sized _ _ Hok Hm) as Hsz. apply message_typed_fields in Hm as [Hu _].
  change (ByteSize fields m) with (fields_size fields (m_fields m) + Z.of_nat (length (m_unknown m))).
  change (serialize fields m) with (fields_bytes fields (m_fields m) ++ m_unknown m).
  rewrite Hu. cbn [length]. rewrite Z.add_0_r, app_nil_r. split; [|by apply fields_size_length].
  by apply sized_nonneg.
Qed.

(* ------------------------------------------------------------------ *)
(** ** Reading one field *)

Lemma find_field_lookup fields i f : NoDup ((fun f : fdesc => f.1.1) <$> fields) ->
  fields !! i = Some f -> find_field fields f.1.1 = Some (i, f).
Proof using Type.
  revert i. induction fields as [|[[n lab] t] fields IH]; intros i Hnd Hi; [done|].
  apply NoDup_cons in Hnd as [Hn Hnd]. cbn [find_field]. destruct i as [|i]; cbn in Hi.
  - injection Hi as <-. cbn. by rewrite Z.eqb_refl.
  - destruct (Z.eqb_spec n f.1.1) as [->|].
    + exfalso. apply Hn. cbn. apply list_elem_of_fmap. exists f. split; [done|]. by eapply list_elem_of_lookup_2.
    + by rewrite (IH i).
Qed.

Lemma cutoff_cases fields : cutoff fields = 127 \/ cutoff fields = 16383.
Proof using Type. unfold cutoff. destruct (forallb _ _); auto. Qed.

Lemma tag_cutoff fields n lab t w : (n, lab, t) ∈ fields -> 0 < n < 2048 -> 0 <= w < 8 ->
  0 < MakeTag n w <= cutoff fields.
Proof using Type.
  intros Hin Hn Hw. rewrite MakeTag_value by lia. split; [lia|]. unfold cutoff.
  destruct (forallb _ _) eqn:E; [|lia]. rewrite forallb_forall in E.
  specialize (E _ (proj1 (list_elem_of_In _ _) Hin)). cbn [fst snd] in E. apply Z.leb_le in E.
  pose proof (wire_type_range t). rewrite MakeTag_value in E by lia. lia.
Qed.

(** At the end of the input the loop ends. *)
Lemma merge_loop_end rec fuel fields m : merge_loop rec (S fuel) fields [] m = Ret (Some (m, true, [])).
Proof using RL.
  cbn [merge_loop]. unfold ReadTagWithCutoff. rewrite tag_at_end. by destruct (cutoff_cases fields) as [-> | ->].
Qed.

(** A turn of the loop: the field with the tag is read. *)
Lemma merge_loop_turn rec fuel fields i n lab t tag body rest vs' F :
  class_ok fields -> fields !! i = Some (n, lab, t) -> 0 < tag <= cutoff fields -> Z.shiftr tag 3 = n ->
  read_field rec n lab t tag (body ++ rest) (default [] (F !! i)) = Ret (Done vs' [] rest) ->
  merge_loop rec (S (S fuel)) fields (WriteVarint32ToArray tag ++ body ++ rest) (mkMessage F []) =
  merge_loop rec (S fuel) fields rest (mkMessage (<[i := vs']> F) []).
Proof using RL.
  intros Hc Hi Ht Hn Hr. remember (S fuel) as f eqn:Ef. cbn [merge_loop].
  rewrite ReadTag_write by (done || apply cutoff_cases). cbn [negb].
  pose proof (find_field_lookup _ _ (n, lab, t) (co_nodup _ Hc) Hi) as E. cbn [fst] in E.
  rewrite Hn, E. cbn [m_fields m_unknown].
  rewrite Hr, bind_Ret. cbn [app]. destruct (decide _) as [[_ ->]|]; [|done]. subst f. by rewrite merge_loop_end.
Qed.


(* ------------------------------------------------------------------ *)
(** ** Copies *)

(** Elements that are merged into new objects are copies. *)
Definition copies (t : ftype) : Prop := forall v, typed t v = true ->
  match t with TYPE_MESSAGE fields => merge_value t v (message_value (default_message fields)) | _ => v end = v.

Lemma merge_field_copy lab t vs : copies t -> Forall (fun v => typed t v = true) vs ->
  (is_repeated lab = false -> (length vs <= 1)%nat) -> merge_field lab t (merge_value t) vs [] = vs.
Proof using Type.
  intros Hc Hvs Hs. assert ((fun v => match t with TYPE_MESSAGE fields =>
    merge_value t v (message_value (default_message fields)) | _ => v end) <$> vs = vs) as E.
  { clear Hs. induction Hvs as [|v vs Hv Hvs IH]; [done|]. cbn [fmap list_fmap]. f_equal; [|exact IH]. by apply Hc. }
  destruct lab; cbn [merge_field]; try exact E; specialize (Hs eq_refl);
    (destruct vs as [|v [|w vs]]; [done| |cbn in Hs; lia]); apply Forall_cons in Hvs as [Hv _];
    specialize (Hc v Hv); destruct t; try done; cbn in *; by rewrite Hc.
Qed.

Lemma copies_all t : copies t.
Proof using Type.
  induction t as [t Hs|fields IH] using ftype_ind; intros v Ht; [by destruct t|].
  destruct (typed_message _ _ Ht) as (m & -> & Hm). apply message_typed_fields in Hm as [Hu Hm].
  rewrite <-MergeFrom_value, MergeFrom_fields. destruct m as [vss u]. cbn [m_fields m_unknown default_message] in *.
  subst u. unfold message_value. cbn [m_fields m_unknown app]. f_equal.
  clear Ht. induction Hm as [|[[n lab] t] vs fields vss [Hsg Hvs] Hm IHm]; [done|].
  apply Forall_cons in IH as [Hc IH]. cbn [length replicate zip zip_with]. f_equal; [|by apply IHm].
  by apply merge_field_copy.
Qed.

(** A copy of an object is the object. *)
Lemma CopyFrom_same fields m : message_typed fields m = true -> CopyFrom fields m = m.
Proof using Type.
  intros Hm. unfold CopyFrom, MergeFrom.
  rewrite <-(message_value_inv m) at 2. f_equal. exact (copies_all (TYPE_MESSAGE fields) _ Hm).
Qed.

(* ------------------------------------------------------------------ *)
(** ** Reading values *)

(** The messages inside are merged with what was written. *)
Definition rec_ok (rec : list fdesc -> list byte -> message -> merge_result) (t : ftype) : Prop :=
  forall fields m m0, t = TYPE_MESSAGE fields -> message_typed fields m = true ->
    message_typed fields m0 = true -> ByteSize fields m < 2 ^ 31 ->
    rec fields (serialize fields m) m0 = Ret (Some (MergeFrom fields m m0, true, [])).

Lemma default_typed fields : message_typed fields (default_message fields) = true.
Proof using Type.
  apply message_typed_fields. split; [done|]. cbn. induction fields as [|f fields IH]; [constructor|].
  constructor; [|exact IH]. split; [cbn; lia|constructor].
Qed.

Lemma read_message_value rec lab fields m vs rest : type_ok (TYPE_MESSAGE fields) = true ->
  message_typed fields m = true -> ByteSize fields m < 2 ^ 31 -> rec_ok rec (TYPE_MESSAGE fields) ->
  (is_repeated lab = false -> Forall (fun v => typed (TYPE_MESSAGE fields) v = true) vs) ->
  read_message_field rec lab fields (write_value (TYPE_MESSAGE fields) (message_value m) ++ rest) vs =
  Ret (Done (merge_field lab (TYPE_MESSAGE fields) (merge_value (TYPE_MESSAGE fields)) [message_value m] vs) [] rest).
Proof using WL.
  intros Hok Hm Hlt Hrec Hs. destruct (ByteSize_length fields m Hok Hm) as [H0 HL]. specialize (HL Hlt).
  rewrite write_value_message, u32_id, WriteVarint32_varint by lia. pose proof (default_typed fields) as Hdef.
  unfold read_message_field, merge_inside. destruct (is_repeated lab) eqn:El.
  - rewrite HL, <-app_assoc, ReadLengthAndPushLimit_varint by lia. rewrite (Hrec fields m) by done.
    rewrite !bind_Ret. cbn [app]. rewrite MergeFrom_value. by destruct lab.
  - rewrite <-app_assoc, ReadVarintSizeAsInt_varint by lia.
    rewrite HL, Nat2Z.id, take_app_length, drop_app_length. specialize (Hs eq_refl).
    destruct Hs as [|v vs Hv Hvs].
    + rewrite (Hrec fields m) by done. rewrite !bind_Ret. cbn [app]. rewrite MergeFrom_value. by destruct lab.
    + destruct (typed_message _ _ Hv) as (m0 & -> & Hm0). rewrite message_value_inv, (Hrec fields m) by done.
      rewrite !bind_Ret. cbn [app]. rewrite MergeFrom_value. by destruct lab.
Qed.

(** A value behind its tag. *)
Lemma read_field_value rec n lab t v vs rest : lab <> LABEL_PACKED -> type_ok t = true ->
  typed t v = true -> value_size t v < 2 ^ 31 -> rec_ok rec t ->
  (is_repeated lab = false -> Forall (fun v => typed t v = true) vs) ->
  read_field rec n lab t (MakeTag n (wire_type t)) (write_value t v ++ rest) vs =
  Ret (Done (merge_field lab t (merge_value t) [v] vs) [] rest).
Proof using WL.
  intros Hlab Hok Ht Hlt Hrec Hs. destruct (is_message t) eqn:Em.
  { destruct t; try done. destruct (typed_message _ _ Ht) as (m & -> & Hm).
    rewrite value_size_message in Hlt. unfold LengthDelimitedSize in Hlt.
    pose proof (VarintSize32_pos (ByteSize fields m)). cbn [read_field]. rewrite Z.eqb_refl.
    apply read_message_value; try done. lia. }
  assert (put lab vs v = merge_field lab t (merge_value t) [v] vs) as Hput.
  { by destruct lab, t. }
  rewrite typed_scalar in Ht by done. rewrite write_value_scalar by done.
  pose proof (ReadPrimitive_write t v rest Ht) as Hr. destruct t; try done; cbn [read_field] in *;
    rewrite ?Z.eqb_refl, ?Hr; try (rewrite <-Hput; by destruct lab).
  destruct v as [z| | |]; try done. cbn [scalar_typed] in Ht.
  rewrite !andb_true_iff, bool_decide_eq_true in Ht.
  destruct Ht as [[Hin _] _]. rewrite decide_True by done. by rewrite Hput.
Qed.

Lemma packed_loop_write t vs acc fuel : Forall (fun v => scalar_typed t v = true) vs ->
  (length (concat (WritePrimitive t <$> vs)) < fuel)%nat ->
  packed_loop fuel t (concat (WritePrimitive t <$> vs)) acc = Ret (Some (acc ++ vs)).
Proof using WL.
  intros Hvs. revert acc fuel. induction Hvs as [|v vs Hv Hvs IH]; intros acc fuel Hf;
    (destruct fuel as [|fuel]; [lia|]); cbn [packed_loop fmap list_fmap concat] in *.
  - rewrite decide_True by done. by rewrite app_nil_r.
  - pose proof (WritePrimitive_nonempty t v Hv). rewrite length_app in Hf.
    rewrite decide_False by (intros [E _]%app_eq_nil; rewrite E in *; cbn in *; lia).
    rewrite ReadPrimitive_write by done. rewrite IH by lia. by rewrite <-app_assoc.
Qed.

Lemma is_number_scalar t : is_number t = true -> is_message t = false.
Proof using Type. by destruct t. Qed.

(** A packed field. *)
Lemma read_field_packed rec n t vs acc rest : is_number t = true ->
  Forall (fun v => typed t v = true) vs ->
  foldr (fun v s => value_size t v + s) 0 vs < 2 ^ 31 ->
  read_field rec n LABEL_PACKED t (MakeTag n WIRETYPE_LENGTH_DELIMITED)
    (WriteVarint32ToArray (u32 (foldr (fun v s => value_size t v + s) 0 vs)) ++
     concat (write_value t <$> vs) ++ rest) acc = Ret (Done (acc ++ vs) [] rest).
Proof using WL.
  intros Ht Hvs Hlt. pose proof (is_number_scalar t Ht) as Hm.
  assert (Forall (fun v => scalar_typed t v = true) vs) as Hsc.
  { eapply Forall_impl; [exact Hvs|]. intros v. cbn. by rewrite typed_scalar. }
  assert (concat (write_value t <$> vs) = concat (WritePrimitive t <$> vs)) as ->.
  { f_equal. apply list_fmap_ext. intros ? v _. by apply write_value_scalar. }
  assert (foldr (fun v s => value_size t v + s) 0 vs = Z.of_nat (length (concat (WritePrimitive t <$> vs)))) as E.
  { clear -Hsc Hm WL. induction Hsc as [|v vs Hv Hvs IH]; [done|]. cbn [foldr fmap list_fmap concat].
    rewrite length_app, IH, value_size_scalar, PrimitiveSize_length by done. lia. }
  rewrite E in *. rewrite u32_id, WriteVarint32_varint by lia.
  assert (ReadPackedPrimitive t (varint (Z.of_nat (length (concat (WritePrimitive t <$> vs)))) ++
    concat (WritePrimitive t <$> vs) ++ rest) acc = Ret (Some (acc ++ vs, rest))) as Hr.
  { unfold ReadPackedPrimitive. rewrite ReadVarintSizeAsInt_varint by lia.
    rewrite Nat2Z.id, take_app_length, drop_app_length. by rewrite packed_loop_write by (done || lia). }
  destruct t; try done; cbn [read_field]; rewrite Z.eqb_refl, Hr; done.
Qed.

(* ------------------------------------------------------------------ *)
(** ** Parsing what was written *)

Lemma tag_nonempty n w : 0 < n < 2048 -> 0 <= w < 8 -> (1 <= length (WriteVarint32ToArray (MakeTag n w)))%nat.
Proof using Type.
  intros Hn Hw. rewrite MakeTag_value, WriteVarint32_varint by lia. apply varint_nonempty.
Qed.

(** What the values of a field satisfy in the message that is read back, and
    the values to which they are added. *)
Definition readable rec (f : fdesc) (vs : list value) : Prop :=
  0 < f.1.1 < 2048 /\ (f.1.2 = LABEL_PACKED -> is_number f.2 = true) /\ type_ok f.2 = true /\
  rec_ok rec f.2 /\ field_typed f vs /\ field_size f.1.1 f.1.2 f.2 (value_size f.2) vs < 2 ^ 31.

(** The values of a field that is not packed, each behind its tag. *)
Lemma merge_loop_values rec fields i n lab t vs rest : class_ok fields -> fields !! i = Some (n, lab, t) ->
  0 < n < 2048 -> lab <> LABEL_PACKED -> type_ok t = true -> rec_ok rec t ->
  Forall (fun v => typed t v = true /\ value_size t v < 2 ^ 31) vs ->
  forall F acc fuel, F !! i = Some acc -> (is_repeated lab = false -> (length vs <= 1)%nat) ->
  (is_repeated lab = false -> Forall (fun v => typed t v = true) acc) ->
  let bytes := concat ((fun v => WriteTagToArray n (wire_type t) ++ write_value t v) <$> vs) in
  (length (bytes ++ rest) <= fuel)%nat ->
  exists fuel', (length rest <= fuel')%nat /\
    merge_loop rec (S fuel) fields (bytes ++ rest) (mkMessage F []) =
    merge_loop rec (S fuel') fields rest (mkMessage (<[i := merge_field lab t (merge_value t) vs acc]> F) []).
Proof using RL WL.
  intros Hc Hi Hn Hlab Hok Hrec Hvs. pose proof (wire_type_range t) as Hw.
  induction Hvs as [|v vs [Ht Hlt] Hvs IH]; intros F acc fuel HF Hs Hacc; cbn [fmap list_fmap concat app]; intros Hfuel.
  { exists fuel. rewrite merge_field_nil, list_insert_id; done. }
  assert (is_repeated lab = false -> vs = []) as Hone.
  { intros E. specialize (Hs E). destruct vs; [done|cbn in Hs; lia]. }
  pose proof (tag_nonempty n (wire_type t) Hn Hw) as Hne. unfold WriteTagToArray in *.
  rewrite <-!app_assoc in *. rewrite !length_app in Hfuel. destruct fuel as [|fuel]; [lia|].
  rewrite (merge_loop_turn rec fuel fields i n lab t (MakeTag n (wire_type t)) (write_value t v) _
    (merge_field lab t (merge_value t) [v] acc)).
  2: done. 2: done. 2: { eapply tag_cutoff; [by eapply list_elem_of_lookup_2|done..]. } 2: { apply tag_number; lia. }
  2: { rewrite HF. by apply read_field_value. }
  rewrite (merge_field_cons lab t v vs acc) by done. destruct (is_repeated lab) eqn:El.
  - destruct (IH (<[i := merge_field lab t (merge_value t) [v] acc]> F) (merge_field lab t (merge_value t) [v] acc) fuel)
      as (fuel' & Hf' & E); try done.
    { rewrite list_lookup_insert_eq; [done|]. by eapply lookup_lt_Some. }
    { rewrite length_app. lia. }
    exists fuel'. split; [done|]. by rewrite E, list_insert_insert_eq.
  - rewrite (Hone eq_refl), merge_field_nil. exists fuel. split; [lia|]. done.
Qed.

Lemma member_size (a : Z) (size : value -> Z) vs : 0 <= a -> Forall (fun v => 1 <= size v) vs ->
  foldr (fun v s => a + size v + s) 0 vs < 2 ^ 31 -> Forall (fun v => size v < 2 ^ 31) vs.
Proof using Type.
  intros Ha. induction 1 as [|v vs Hv Hvs IH]; [constructor|]. cbn [foldr]. intros Hlt.
  assert (0 <= foldr (fun v s => a + size v + s) 0 vs) by (clear -Hvs Ha; induction Hvs; cbn; lia).
  constructor; [lia|]. apply IH. lia.
Qed.

(** The bytes of one field. *)
Lemma merge_loop_field rec fields i f vs acc rest F fuel : class_ok fields -> fields !! i = Some f ->
  readable rec f vs -> field_typed f acc -> F !! i = Some acc ->
  (length (field_bytes f.1.1 f.1.2 f.2 (write_value f.2) vs ++ rest) <= fuel)%nat ->
  exists fuel', (length rest <= fuel')%nat /\
    merge_loop rec (S fuel) fields (field_bytes f.1.1 f.1.2 f.2 (write_value f.2) vs ++ rest) (mkMessage F []) =
    merge_loop rec (S fuel') fields rest (mkMessage (<[i := merge_field f.1.2 f.2 (merge_value f.2) vs acc]> F) []).
Proof using RL WL.
  destruct f as [[n lab] t]. unfold readable, field_typed. cbn [fst snd].
  intros Hc Hi (Hn & Hp & Hok & Hrec & [Hs Ht] & Hlt) [_ Hacc] HF Hfuel.
  assert (Forall (fun v => 1 <= value_size t v) vs) as Hpos.
  { eapply Forall_impl; [exact Ht|]. intros v Hv. by apply value_size_pos. }
  destruct (decide (lab = LABEL_PACKED)) as [->|Hlab].
  - specialize (Hp eq_refl). rewrite merge_field_scalar by (done || by apply is_number_scalar).
    unfold field_bytes in *. destruct (decide (vs = [])) as [->|Hne].
    { exists fuel. by rewrite app_nil_r, list_insert_id. }
    pose proof (tag_nonempty n WIRETYPE_LENGTH_DELIMITED Hn ltac:(done)) as Hnt.
    unfold WriteTagToArray in *. rewrite <-!app_assoc in *. rewrite !length_app in Hfuel. destruct fuel as [|fuel]; [lia|].
    exists fuel. split; [lia|]. rewrite (app_assoc (WriteVarint32ToArray (u32 _)) (concat _) rest).
    apply (merge_loop_turn rec fuel fields i n LABEL_PACKED t); try done.
    + eapply tag_cutoff; [by eapply list_elem_of_lookup_2|done..].
    + apply tag_number; [lia|done].
    + rewrite HF, <-app_assoc. apply read_field_packed; try done.
      unfold field_size in Hlt. destruct (Z.ltb_spec 0 (foldr (fun v s => value_size t v + s) 0 vs)); [|lia].
      destruct (tag_size_length n WIRETYPE_LENGTH_DELIMITED Hn) as [_ ?]; [done|].
      unfold VarintSize32SignExtended in Hlt. pose proof (VarintSize32_pos (foldr (fun v s => value_size t v + s) 0 vs)).
      destruct (_ <? 0); lia.
  - assert (Forall (fun v => value_size t v < 2 ^ 31) vs) as Hv.
    { destruct (tag_size_length n (wire_type t) Hn (wire_type_range t)) as [_ ?].
      eapply member_size; [|exact Hpos|]; [|by destruct lab; try done; exact Hlt]. lia. }
    assert (field_bytes n lab t (write_value t) vs =
      concat ((fun v => WriteTagToArray n (wire_type t) ++ write_value t v) <$> vs)) as E by (by destruct lab).
    rewrite E in *. apply (merge_loop_values rec fields i n lab t vs rest); try done.
    by apply Forall_and.
Qed.

Definition merge_fields (fields : list fdesc) (vss wss : list (list value)) : list (list value) :=
  zip_with (fun '(n, lab, t) '(f, g) => merge_field lab t (merge_value t) f g) fields (zip vss wss).

(** The bytes of the fields from the [i]-th on, when the ones before were read. *)
Lemma merge_loop_fields rec fields fs vss rest : class_ok fields -> Forall2 (readable rec) fs vss ->
  forall wss pre acc fuel, Forall2 field_typed fs wss -> fields = pre ++ fs -> length acc = length pre ->
  (length (fields_bytes fs vss ++ rest) <= fuel)%nat ->
  exists fuel', (length rest <= fuel')%nat /\
    merge_loop rec (S fuel) fields (fields_bytes fs vss ++ rest) (mkMessage (acc ++ wss) []) =
    merge_loop rec (S fuel') fields rest (mkMessage (acc ++ merge_fields fs vss wss) []).
Proof using RL WL.
  intros Hc. induction 1 as [|[[n lab] t] vs fs vss Hr Hrs IH]; intros wss pre acc fuel Hw Hf Hl Hfuel.
  { apply Forall2_nil_inv_l in Hw as ->. by exists fuel. }
  apply Forall2_cons_inv_l in Hw as (ws & wss' & Hw & Hws & ->).
  change (fields_bytes ((n, lab, t) :: fs) (vs :: vss))
    with (field_bytes n lab t (write_value t) vs ++ fields_bytes fs vss) in *.
  rewrite <-app_assoc in *.
  destruct (merge_loop_field rec fields (length pre) (n, lab, t) vs ws (fields_bytes fs vss ++ rest)
    (acc ++ ws :: wss') fuel) as (fuel1 & Hfuel1 & E1); try done.
  { by rewrite Hf, list_lookup_middle. }
  { by rewrite <-Hl, list_lookup_middle. }
  cbn [fst snd] in E1. rewrite E1, <-Hl, insert_app_r_alt, Nat.sub_diag by lia. cbn [insert list_insert].
  change (merge_fields ((n, lab, t) :: fs) (vs :: vss) (ws :: wss'))
    with (merge_field lab t (merge_value t) vs ws :: merge_fields fs vss wss').
  rewrite (cons_middle _ acc wss'), app_assoc, (cons_middle _ acc (merge_fields _ _ _)), app_assoc.
  apply (IH wss' (pre ++ [(n, lab, t)])); [done|by rewrite <-app_assoc|by rewrite !length_app, Hl|done].
Qed.

Lemma type_depth_field fields f budget : (type_depth (TYPE_MESSAGE fields) <= S budget)%nat -> f ∈ fields ->
  (type_depth f.2 <= budget)%nat.
Proof using Type.
  cbn [type_depth]. intros Hd Hf.
  enough (type_depth f.2 <= foldr (fun '(_, _, t) d => Nat.max (type_depth t) d) 0 fields)%nat by lia.
  clear Hd. induction Hf as [[[n lab] t] fs|[[n lab] t] [[n' lab'] t'] fs _ IH]; cbn in *; lia.
Qed.

Lemma field_size_bound fields vss : Forall2 sized fields vss -> fields_size fields vss < 2 ^ 31 ->
  Forall2 (fun f vs => field_size f.1.1 f.1.2 f.2 (value_size f.2) vs < 2 ^ 31) fields vss.
Proof using WL.
  induction 1 as [|[[n lab] t] vs fields vss (Hn & Hp & Hv) Hf IH]; [constructor|].
  change (fields_size ((n, lab, t) :: fields) (vs :: vss))
    with (field_size n lab t (value_size t) vs + fields_size fields vss).
  assert (0 <= field_size n lab t (value_size t) vs) as H1.
  { apply (field_size_nonneg (n, lab, t)); [done|]. eapply Forall_impl; [exact Hv|]. cbn. intros ? [? _]. lia. }
  assert (0 <= fields_size fields vss) as H2 by (by apply sized_nonneg).
  intros Hlt. constructor; [cbn [fst snd]; lia|]. apply IH. lia.
Qed.

(** The parser of the messages inside. *)
Definition inside_merge (budget : nat) : list fdesc -> list byte -> message -> merge_result :=
  match budget with O => fun _ _ _ => Ret None | S budget => merge budget end.

Lemma merge_unfold budget fields l m :
  merge budget fields l m = merge_loop (inside_merge budget) (S (length l)) fields l m.
Proof using Type. by destruct budget. Qed.

(** A typed message that is merged with the parsed one, and the rest. *)
Lemma merge_loop_serialize budget fields m m0 rest fuel :
  (forall f, f ∈ fields -> rec_ok (inside_merge budget) f.2) -> type_ok (TYPE_MESSAGE fields) = true ->
  message_typed fields m = true -> message_typed fields m0 = true -> ByteSize fields m < 2 ^ 31 ->
  (length (serialize fields m ++ rest) <= fuel)%nat ->
  exists fuel', (length rest <= fuel')%nat /\
    merge_loop (inside_merge budget) (S fuel) fields (serialize fields m ++ rest) m0 =
    merge_loop (inside_merge budget) (S fuel') fields rest (MergeFrom fields m m0).
Proof using RL WL.
  intros Hrec Hok Hm Hm0 Hlt Hfuel. pose proof (typed_sized _ _ Hok Hm) as Hsz. pose proof (type_ok_class _ Hok) as Hc.
  apply message_typed_fields in Hm as [Hu Hm]. apply message_typed_fields in Hm0 as [Hu0 Hm0].
  change (ByteSize fields m) with (fields_size fields (m_fields m) + Z.of_nat (length (m_unknown m))) in Hlt.
  change (serialize fields m) with (fields_bytes fields (m_fields m) ++ m_unknown m) in *.
  rewrite MergeFrom_fields. destruct m as [vss u], m0 as [wss u0]. cbn [m_fields m_unknown] in *. subst u u0.
  rewrite app_nil_r in *. cbn [length] in Hlt. rewrite Z.add_0_r in Hlt.
  pose proof (field_size_bound _ _ Hsz Hlt) as Hb. pose proof Hc as [_ Hr Hp Hty].
  apply (merge_loop_fields _ fields fields vss rest Hc) with (pre := []) (acc := []); try done.
  pose proof (Forall2_with _ _ _ _ (Forall2_with _ _ _ _ (Forall2_with _ _ _ _ (Forall2_with _ _ _ _ Hm Hr) Hp) Hty)
      (proj2 (Forall_forall _ _) Hrec)) as H2.
  eapply Forall2_impl; [exact (Forall2_both _ _ _ _ H2 Hb)|].
  by intros f vs [[[[[Hvs Hn] Hpk] Hf] Hdf] Hsf].
Qed.

Lemma merge_serialize budget fields m m0 : type_ok (TYPE_MESSAGE fields) = true ->
  (type_depth (TYPE_MESSAGE fields) <= S budget)%nat ->
  message_typed fields m = true -> message_typed fields m0 = true -> ByteSize fields m < 2 ^ 31 ->
  merge budget fields (serialize fields m) m0 = Ret (Some (MergeFrom fields m m0, true, [])).
Proof using RL WL.
  revert fields m m0. induction budget as [|budget IH]; intros fields m m0 Hok Hd Hm Hm0 Hlt; rewrite merge_unfold.
  all: match goal with |- context [inside_merge ?b] =>
    assert (forall f, f ∈ fields -> rec_ok (inside_merge b) f.2) as Hrec end.
  1, 3: intros f Hf fs m1 m2 E Hm1 Hm2 Hlt1; pose proof (type_depth_field fields f _ Hd Hf) as Hdf;
    pose proof (co_type _ (type_ok_class _ Hok)) as Hty; rewrite Forall_forall in Hty; specialize (Hty f Hf);
    rewrite E in *; (by apply IH) || (cbn in Hdf; lia).
  all: edestruct (merge_loop_serialize _ fields m m0 [] (length (serialize fields m)) Hrec) as (fuel & _ & E);
    [done..|by rewrite app_nil_r|]; rewrite app_nil_r in E; rewrite E; apply merge_loop_end.
Qed.

Lemma inside_rec_ok budget fields f : type_ok (TYPE_MESSAGE fields) = true ->
  (type_depth (TYPE_MESSAGE fields) <= S budget)%nat -> f ∈ fields -> rec_ok (inside_merge budget) f.2.
Proof using RL WL.
  intros Hok Hd Hf fs m1 m2 E Hm1 Hm2 Hlt1. pose proof (type_depth_field fields f _ Hd Hf) as Hdf.
  pose proof (co_type _ (type_ok_class _ Hok)) as Hty. rewrite Forall_forall in Hty. specialize (Hty f Hf).
  rewrite E in *. destruct budget; [cbn in Hdf; lia|]. by apply merge_serialize.
Qed.

(** The bytes of two messages, one behind the other. *)
Lemma merge_concat budget fields m1 m2 : type_ok (TYPE_MESSAGE fields) = true ->
  (type_depth (TYPE_MESSAGE fields) <= S budget)%nat ->
  message_typed fields m1 = true -> message_typed fields m2 = true ->
  ByteSize fields m1 < 2 ^ 31 -> ByteSize fields m2 < 2 ^ 31 ->
  merge budget fields (serialize fields m1 ++ serialize fields m2) (default_message fields) =
  Ret (Some (MergeFrom fields m2 m1, true, [])).
Proof using RL WL.
  intros Hok Hd Hm1 Hm2 Hlt1 Hlt2. rewrite merge_unfold.
  destruct (merge_loop_serialize budget fields m1 (default_message fields) (serialize fields m2)
    (length (serialize fields m1 ++ serialize fields m2))) as (fuel1 & Hf1 & ->); try done.
  { intros f Hf. by eapply inside_rec_ok. }
  { apply default_typed. }
  change (MergeFrom fields m1 (default_message fields)) with (CopyFrom fields m1). rewrite CopyFrom_same by done.
  destruct (merge_loop_serialize budget fields m2 m1 [] fuel1) as (fuel2 & _ & E); try done.
  { intros f Hf. by eapply inside_rec_ok. }
  { by rewrite app_nil_r. }
  rewrite app_nil_r in E. rewrite E. apply merge_loop_end.
Qed.

Lemma message_parse_serialize fields m : type_ok (TYPE_MESSAGE fields) = true ->
  (type_depth (TYPE_MESSAGE fields) <= S kDefaultRecursionLimit)%nat ->
  message_typed fields m = true -> ByteSize fields m < 2 ^ 31 ->
  parse fields (serialize fields m) = Ret (if IsInitialized fields m then Some m else None).
Proof using RL WL.
  intros Hok Hd Hm Hlt. unfold parse. rewrite merge_serialize by (done || apply default_typed).
  change (MergeFrom fields m (default_message fields)) with (CopyFrom fields m).
  by rewrite CopyFrom_same by done.
Qed.
End facts.
