(* ===== verification/GeneratedProgress.v ===== *)
(** * Parsing a generated message class ends

    On every input and for every class, with the limit on nested messages that
    [CodedInputStream] has: no turn of a loop leaves the input as it is. *)

From S2P Require Import Prelude Protobuf ProtobufFacts WireFormat GeneratedCode.
Import generated.

Section progress.
Context `{PR : !ProtobufRuntime, WR : !WireRuntime, RP : !RuntimeProgress, WP : !WireProgress}.

(** A read that takes at least one byte. *)
Definition takes {A} (read : list byte -> option (A * list byte)) : Prop :=
  forall l v l', read l = Some (v, l') -> (length l' < length l)%nat.

Lemma takes_fast {A} (fast : Z -> A) slow : takes slow ->
  takes (fun l => match l with
                  | b :: l' => if byte_val b <? 0x80 then Some (fast (byte_val b), l') else slow l
                  | [] => slow l
                  end).
Proof using Type.
  intros Hs l v l' E. destruct l as [|b l]; [by eapply Hs|].
  destruct (byte_val b <? 0x80); [simplify_eq; cbn; lia|by eapply Hs].
Qed.

Lemma takes_map {A B} (read : list byte -> option (A * list byte)) (f : A -> B) :
  takes read -> takes (fun l => '(v, l) ← read l; Some (f v, l)).
Proof using Type.
  intros Hr l v l' E. destruct (read l) as [[x l0]|] eqn:E0; [|done]. cbn in E. simplify_eq. by eapply Hr.
Qed.

Lemma ReadVarint32_takes : takes ReadVarint32.
Proof using WP. apply (takes_fast id). intros l v l'. apply varint32_takes. Qed.

Lemma ReadVarint64_takes : takes ReadVarint64.
Proof using WP. apply (takes_fast id). intros l v l'. apply varint64_takes. Qed.

Lemma ReadVarintSizeAsInt_takes : takes ReadVarintSizeAsInt.
Proof using WP. apply (takes_fast id). intros l v l'. apply size_takes. Qed.

Lemma ReadRaw_takes n : (0 < n)%nat -> takes (ReadRaw n).
Proof using Type.
  intros Hn l v l'. unfold ReadRaw. destruct (Nat.ltb_spec (length l) n); [done|]. intros [= _ <-].
  rewrite length_drop. lia.
Qed.

Lemma ReadPrimitive_takes t : takes (ReadPrimitive t).
Proof using WP.
  pose proof ReadVarint32_takes. pose proof ReadVarint64_takes.
  pose proof (ReadRaw_takes 4 ltac:(lia)). pose proof (ReadRaw_takes 8 ltac:(lia)).
  assert (takes ReadBytes) by (intros l v l'; apply bytes_takes).
  destruct t; cbn [ReadPrimitive];
    unfold as_int, ReadBool, ReadSFixed32, ReadSFixed64, ReadLittleEndian32, ReadLittleEndian64;
    repeat (done || apply takes_map).
Qed.

(** A parse of some bytes: it ends, and what it leaves is not longer. *)
Definition ends {A} (l : list byte) (o : outcome (option (A * list byte))) : Prop :=
  exists r, o = Ret r /\ forall x l', r = Some (x, l') -> (length l' <= length l)%nat.

Lemma packed_loop_ends t fuel l vs : (length l < fuel)%nat -> exists r, packed_loop fuel t l vs = Ret r.
Proof using WP.
  revert l vs. induction fuel as [|fuel IH]; intros l vs Hl; [lia|]. cbn [packed_loop].
  destruct (decide (l = [])); [by eexists|]. destruct (ReadPrimitive t l) as [[v l']|] eqn:E; [|by eexists].
  apply IH. apply ReadPrimitive_takes in E. lia.
Qed.

Lemma ReadPackedPrimitive_ends t l vs : ends l (ReadPackedPrimitive t l vs).
Proof using WP.
  unfold ReadPackedPrimitive. destruct (ReadVarintSizeAsInt l) as [[n l1]|] eqn:E; [|by exists None].
  apply ReadVarintSizeAsInt_takes in E.
  destruct (packed_loop_ends t (S (length (take (Z.to_nat n) l1))) (take (Z.to_nat n) l1) vs) as [r ->]; [lia|].
  eexists. split; [done|]. destruct r; [|done]. intros x l' [= _ <-]. rewrite length_drop. lia.
Qed.

Lemma ExpectTag_shorter tag l l' : ExpectTag tag l = Some l' -> (length l' < length l)%nat.
Proof using Type.
  unfold ExpectTag. destruct (tag <? 2 ^ 7); [|destruct (tag <? 2 ^ 14); [|done]].
  - destruct l as [|b l]; [done|]. destruct (_ =? _); [|done]. intros [= <-]. cbn. lia.
  - destruct l as [|b0 [|b1 l]]; try done. destruct (_ && _); [|done]. intros [= <-]. cbn. lia.
Qed.

Lemma ReadRepeatedPrimitive_shorter t tag l vs vs' l' :
  ReadRepeatedPrimitive t tag l vs = Some (vs', l') -> (length l' <= length l)%nat.
Proof using WP.
  unfold ReadRepeatedPrimitive. destruct (ReadPrimitive t l) as [[v l1]|] eqn:E; [|done].
  apply ReadPrimitive_takes in E. generalize (vs ++ [v]). intros ws.
  generalize (Z.to_nat (repeated_capacity (length ws) - Z.of_nat (length ws))). intros n. intros Hl.
  enough (length l' <= length l1)%nat by lia. clear E l v vs. revert ws l1 Hl.
  induction n as [|n IH]; cbn [repeated_loop]; intros ws l1 Hl; [by simplify_eq|].
  destruct (ExpectTag tag l1) as [l2|] eqn:Et; [|by simplify_eq].
  destruct (ReadPrimitive t l2) as [[v l3]|] eqn:Ep; [|done].
  apply ExpectTag_shorter in Et. apply ReadPrimitive_takes in Ep. apply IH in Hl. lia.
Qed.

(** The same for the parser of a field. *)
Definition field_ends (l : list byte) (o : outcome field_result) : Prop :=
  exists r, o = Ret r /\ forall vs u l', r = Done vs u l' -> (length l' <= length l)%nat.

Lemma of_option_ends l r :
  (forall vs l', r = Some (vs, l') -> (length l' <= length l)%nat) -> field_ends l (Ret (of_option r)).
Proof using Type.
  intros Hr. eexists. split; [done|]. destruct r as [[vs l']|]; [|done]. intros ? ? ? [= <- <- <-].
  by eapply Hr.
Qed.

Lemma Unusual_ends l : field_ends l (Ret Unusual).
Proof using Type. by eexists. Qed.

Lemma Failure_ends l : field_ends l (Ret Failure).
Proof using Type. by eexists. Qed.

Definition rec_ends (rec : list fdesc -> list byte -> message -> merge_result) : Prop :=
  forall fields l m, ends l (rec fields l m).

Lemma merge_inside_ends rec fields m inside after l : rec_ends rec ->
  (length inside + length after <= length l)%nat -> ends l (merge_inside rec fields m inside after).
Proof using Type.
  intros Hrec Hl. unfold merge_inside. destruct (Hrec fields inside m) as (r & -> & Hr).
  eexists. split; [done|]. destruct r as [[[m' []] rest]|]; try done.
  specialize (Hr _ _ eq_refl). intros x l' [= _ <-]. rewrite length_app. lia.
Qed.

Lemma read_message_field_ends rec lab fields l vs : rec_ends rec ->
  field_ends l (read_message_field rec lab fields l vs).
Proof using WP.
  intros Hrec. unfold read_message_field. destruct (is_repeated lab).
  - destruct (ReadLengthAndPushLimit l) as [inside after] eqn:E.
    assert (length inside + length after <= length l)%nat as Hl by (by apply length_takes).
    destruct (merge_inside_ends rec fields (default_message fields) inside after l Hrec Hl) as (r & -> & Hr).
    eexists. split; [done|]. destruct r as [[m rest]|]; [|done]. intros ? ? ? [= <- <- <-]. by eapply Hr.
  - destruct (ReadVarintSizeAsInt l) as [[n l1]|] eqn:E; [|apply Failure_ends].
    apply ReadVarintSizeAsInt_takes in E.
    edestruct (merge_inside_ends rec fields) as (r & -> & Hr); [exact Hrec| |].
    2: { eexists. split; [done|]. destruct r as [[m' rest]|]; [|done]. intros ? ? ? [= <- <- <-]. by eapply Hr. }
    rewrite length_take, length_drop. lia.
Qed.

Lemma read_field_ends rec n lab t tag l vs : rec_ends rec -> field_ends l (read_field rec n lab t tag l vs).
Proof using WP.
  intros Hrec.
  assert (field_ends l (Ret (of_option ('(v, l) ← ReadPrimitive t l; Some (put lab vs v, l))))) as Hsingle.
  { apply of_option_ends. intros vs' l' E. destruct (ReadPrimitive t l) as [[v l1]|] eqn:Ep; [|done].
    cbn in E. simplify_eq. apply ReadPrimitive_takes in Ep. lia. }
  assert (field_ends l (r ← ReadPackedPrimitive t l vs; Ret (of_option r))) as Hpacked.
  { destruct (ReadPackedPrimitive_ends t l vs) as (r & -> & Hr). by apply of_option_ends. }
  pose proof (Unusual_ends l) as HU.
  destruct t; cbn [read_field]; try (by destruct (_ =? _); [apply read_message_field_ends|]);
    try (by destruct (_ =? _));
    try (destruct lab; repeat (destruct (_ =? _); try done);
         apply of_option_ends; intros vs' l'; apply ReadRepeatedPrimitive_shorter).
  destruct (_ =? _).
  - destruct (ReadPrimitive (TYPE_ENUM valid) l) as [[[z| | |] l1]|] eqn:E; try apply Failure_ends.
    apply ReadPrimitive_takes in E.
    destruct (decide _); (eexists; split; [done|]); intros ? ? ? [= <- <- <-]; lia.
  - destruct (_ && _); [|done].
    destruct (ReadPackedEnumPreserveUnknowns n valid l) as [[[zs u] l1]|] eqn:E; [|apply Failure_ends].
    apply packed_enum_takes in E. eexists. split; [done|]. intros ? ? ? [= <- <- <-]. lia.
Qed.

(** A tag below the cutoff takes bytes, be it zero in two bytes. *)
Lemma tag_ok_shorter fields l t fin l' : ReadTagWithCutoff (cutoff fields) l = (t, true, fin, l') ->
  (length l' < length l)%nat.
Proof using RP.
  unfold ReadTagWithCutoff. destruct (ReadTagFallback l) as [[t0 fin0] l0] eqn:Ef.
  apply tag_progress in Ef as [_ Hp].
  assert ((t0, u32 (t0 - 1) <? cutoff fields, fin0, l0) = (t, true, fin, l') -> (length l' < length l)%nat) as Hslow.
  { intros [= <- E _ <-]. apply Hp. intros ->. revert E. unfold cutoff. by destruct (forallb _ _). }
  destruct l as [|b0 l1]; [done|]. destruct (0 <? char_val b0); [intros [= _ _ _ <-]; cbn; lia|].
  destruct l1 as [|b1 l2]; [done|]. destruct (_ && _); [|done]. intros [= _ _ _ <-]. cbn. lia.
Qed.

Lemma merge_loop_ends rec fuel fields l m : rec_ends rec -> (length l < fuel)%nat ->
  ends l (merge_loop rec fuel fields l m).
Proof using RP WP.
  intros Hrec. revert l m. induction fuel as [|fuel IH]; intros l m Hl; [lia|]. cbn [merge_loop].
  destruct (ReadTagWithCutoff (cutoff fields) l) as [[[tag ok] fin] l1] eqn:Et.
  assert (ok = true -> (length l1 < length l)%nat) as Hok.
  { intros ->. by eapply tag_ok_shorter. }
  apply tag_shorter in Et as [Hle Hlt].
  assert (forall l2 m2, (length l1 < length l)%nat -> (length l2 <= length l1)%nat ->
    ends l (merge_loop rec fuel fields l2 m2)) as Hgo.
  { intros l2 m2 H1 H2. destruct (IH l2 m2) as (r & -> & Hr); [lia|].
    exists r. split; [done|]. intros x l' E. specialize (Hr x l' E). lia. }
  assert (ends l (Ret (Some (m, fin, l1)))) as Hend.
  { eexists. split; [done|]. by intros ? ? [= _ <-]. }
  match goal with |- context [if negb ok then ?u else _] => assert (ends l u) as Hu end.
  { destruct (Z.eqb_spec tag 0); cbn [orb]; [exact Hend|].
    destruct (_ =? _); [exact Hend|].
    destruct (SkipField tag l1) as [[d l2]|] eqn:Es; [|by eexists].
    apply Hgo; [by apply Hlt|]. by eapply skip_progress. }
  destruct ok; [|exact Hu]. cbn [negb].
  destruct (find_field fields (Z.shiftr tag 3)) as [[i [[n lab] t]]|] eqn:Ef; [|exact Hu].
  destruct (read_field_ends rec n lab t tag l1 (default [] (m_fields m !! i)) Hrec) as (r & -> & Hr).
  rewrite bind_Ret. destruct r as [| |vs u l2]; [exact Hu|by eexists|].
  specialize (Hr _ _ _ eq_refl). destruct (decide _) as [[_ ->]|].
  { eexists. split; [done|]. intros ? ? [= _ <-]. cbn. lia. }
  by apply Hgo; [apply Hok|].
Qed.

Lemma merge_ends budget fields l m : ends l (merge budget fields l m).
Proof using RP WP.
  revert fields l m. induction budget as [|budget IH]; intros fields l m; cbn [merge];
    (apply merge_loop_ends; [|lia]); [|exact IH].
  intros ? ? ?. by exists None.
Qed.

Lemma parse_ends fields l : exists r, parse fields l = Ret r.
Proof using RP WP.
  unfold parse. destruct (merge_ends kDefaultRecursionLimit fields l (default_message fields)) as (r & -> & _).
  by eexists.
Qed.
End progress.
