(* ===== verification/GeneratedTyped.v ===== *)
(** * Types of what the generated classes parse

    Whatever the bytes are, a parse of any class leaves objects whose fields have
    values of their types. *)

From S2P Require Import Prelude Protobuf ProtobufFacts WireFormat WireFormatFacts GeneratedCode GeneratedFacts.
Import generated.

(** A value of a type, as [typed] but with any unknown fields: integers are in the
    range of their type, enums have declared values, a singular field has at most
    one value, and the same holds for the messages inside. *)
Fixpoint well_typed (t : ftype) (v : value) : bool :=
  match t, v with
  | TYPE_MESSAGE fields, VMessage vss _ =>
      (length vss =? length fields)%nat &&
      forallb (fun b => b) (zip_with (fun '(n, lab, t) vs =>
        (is_repeated lab || (length vs <=? 1)%nat) && forallb (well_typed t) vs) fields vss)
  | TYPE_MESSAGE _, _ => false
  | _, _ => scalar_typed t v
  end.

(** The values of a field. *)
Definition values_typed (lab : label) (t : ftype) (vs : list value) : Prop :=
  (is_repeated lab = false -> (length vs <= 1)%nat) /\ Forall (fun v => well_typed t v = true) vs.

Lemma well_typed_fields fields vss u : well_typed (TYPE_MESSAGE fields) (VMessage vss u) = true <->
  Forall2 (fun f vs => values_typed f.1.2 f.2 vs) fields vss.
Proof.
  cbn [well_typed]. rewrite andb_true_iff, Nat.eqb_eq. split.
  - intros [Hl Hf]. revert vss Hl Hf. induction fields as [|[[n lab] t] fields IH]; intros [|vs vss] Hl Hf; try done.
    cbn in Hf. rewrite !andb_true_iff in Hf. destruct Hf as [[Hs Ht] Hf]. constructor; [|apply IH; [cbn in Hl; lia|done]].
    split; cbn.
    + intros E. rewrite E in Hs. by apply Nat.leb_le.
    + apply Forall_forall. intros v Hv. rewrite forallb_forall in Ht. apply Ht. by apply list_elem_of_In.
  - intros Hf. split; [symmetry; by eapply Forall2_length|].
    induction Hf as [|[[n lab] t] vs fields vss [Hs Ht] Hf IH]; [done|].
    cbn. rewrite IH, andb_true_r. apply andb_true_iff. split.
    + destruct (is_repeated lab) eqn:E; [done|]. apply Nat.leb_le. by apply Hs.
    + apply forallb_forall. intros v Hv. eapply Forall_forall in Ht; [exact Ht|]. by apply list_elem_of_In.
Qed.

Lemma well_typed_scalar t v : is_message t = false -> well_typed t v = scalar_typed t v.
Proof. by destruct t. Qed.

Lemma default_well_typed fields : well_typed (TYPE_MESSAGE fields) (message_value (default_message fields)) = true.
Proof.
  apply well_typed_fields. cbn. induction fields as [|f fields IH]; constructor; [|done].
  split; [cbn; lia|constructor].
Qed.

Lemma put_typed lab t vs v : values_typed lab t vs -> well_typed t v = true -> values_typed lab t (put lab vs v).
Proof.
  intros [Hl Hv] Ht. destruct lab; cbn [put]; (split; [cbn in *; try lia; try discriminate|]);
    try (constructor; [done|constructor]); apply Forall_app; (split; [done|by constructor]).
Qed.

Lemma app_typed lab t vs ws : is_repeated lab = true -> values_typed lab t vs ->
  Forall (fun v => well_typed t v = true) ws -> values_typed lab t (vs ++ ws).
Proof. intros Hr [Hl Hv] Hw. split; [congruence|]. by apply Forall_app. Qed.

Section typed.
Context `{PR : !ProtobufRuntime, WR : !WireRuntime, WT : !WireTyped}.

(* ------------------------------------------------------------------ *)
(** ** Values *)

Lemma ReadVarint64_range l v l' : ReadVarint64 l = Some (v, l') -> 0 <= v < 2 ^ 64.
Proof using WT.
  unfold ReadVarint64. destruct l as [|b l]; [apply varint64_range|].
  destruct (Z.ltb_spec (byte_val b) 0x80); [|apply varint64_range]. intros [= <- _]. pose proof (byte_val_range b). lia.
Qed.

Lemma ReadVarint32_range l v l' : ReadVarint32 l = Some (v, l') -> 0 <= v < 2 ^ 32.
Proof using WT.
  unfold ReadVarint32. destruct l as [|b l]; [apply varint32_range|].
  destruct (Z.ltb_spec (byte_val b) 0x80); [|apply varint32_range]. intros [= <- _]. pose proof (byte_val_range b). lia.
Qed.

(** A read that converts what it read. *)
Lemma converted (read : list byte -> option (Z * list byte)) f l v l' :
  as_int ('(z, l) ← read l; Some (f z, l)) = Some (v, l') -> exists z, read l = Some (z, l') /\ v = VInt (f z).
Proof using Type. unfold as_int. destruct (read l) as [[z l1]|]; [|discriminate]. intros [= <- <-]. by exists z. Qed.

Lemma as_int_Some r v l' : as_int r = Some (v, l') -> exists z, r = Some (z, l') /\ v = VInt z.
Proof using Type. unfold as_int. destruct r as [[z l1]|]; [|discriminate]. intros [= <- <-]. by exists z. Qed.

(** [ReadPrimitive] gives a value of the type; for an enum an [int]. *)
Lemma ReadPrimitive_typed t l v l' : ReadPrimitive t l = Some (v, l') ->
  scalar_typed t v = true \/ exists valid, t = TYPE_ENUM valid.
Proof using WT.
  assert (forall z w, 0 < w -> - 2 ^ (w - 1) <= sint w z < 2 ^ (w - 1)) as Hs by (intros; by apply sint_range).
  destruct t; cbn [ReadPrimitive scalar_typed]; try discriminate; try (by right; eexists); intros E; left.
  - apply converted in E as (z & _ & ->). specialize (Hs z 32). lia.
  - apply converted in E as (z & _ & ->). specialize (Hs z 64). lia.
  - apply as_int_Some in E as (z & E & ->). apply ReadVarint32_range in E. lia.
  - apply as_int_Some in E as (z & E & ->). apply ReadVarint64_range in E. lia.
  - apply converted in E as (z & _ & ->). unfold ZigZagDecode32. specialize (Hs (Z.lxor (Z.shiftr z 1) (u32 (- Z.land z 1))) 32). lia.
  - apply converted in E as (z & _ & ->). unfold ZigZagDecode64. specialize (Hs (Z.lxor (Z.shiftr z 1) (u64 (- Z.land z 1))) 64). lia.
  - apply as_int_Some in E as (z & E & ->). apply SFixed32_typed in E as [_ E]. lia.
  - apply as_int_Some in E as (z & E & ->). apply SFixed64_typed in E as [_ E]. lia.
  - destruct (ReadBool l) as [[b l1]|]; [|discriminate]. by injection E as <- _.
  - destruct (ReadBytes l) as [[x l1]|] eqn:Eb; [|discriminate]. injection E as <- _. apply bytes_range in Eb. lia.
  - destruct (ReadBytes l) as [[x l1]|] eqn:Eb; [|discriminate]. injection E as <- _. apply bytes_range in Eb. lia.
Qed.

Lemma ReadPrimitive_number t l v l' : is_number t = true -> ReadPrimitive t l = Some (v, l') -> well_typed t v = true.
Proof using WT.
  intros Ht E. rewrite well_typed_scalar by by destruct t.
  destruct (ReadPrimitive_typed t l v l' E) as [H|[valid ->]]; [exact H|discriminate].
Qed.

Lemma packed_loop_typed t fuel l vs vs' : is_number t = true -> packed_loop fuel t l vs = Ret (Some vs') ->
  exists ws, vs' = vs ++ ws /\ Forall (fun v => well_typed t v = true) ws.
Proof using WT.
  intros Ht. revert l vs. induction fuel as [|fuel IH]; intros l vs; cbn [packed_loop]; [discriminate|].
  destruct (decide (l = [])); [intros [= <-]; exists []; by rewrite app_nil_r|].
  destruct (ReadPrimitive t l) as [[v l1]|] eqn:E; [|discriminate]. apply ReadPrimitive_number in E; [|done].
  intros (ws & -> & Hw)%IH. exists (v :: ws). rewrite <-app_assoc. split; [done|by constructor].
Qed.

Lemma repeated_loop_typed t tag k l vs vs' l' : is_number t = true -> repeated_loop k t tag l vs = Some (vs', l') ->
  exists ws, vs' = vs ++ ws /\ Forall (fun v => well_typed t v = true) ws.
Proof using WT.
  intros Ht. revert l vs. induction k as [|k IH]; intros l vs; cbn [repeated_loop].
  { intros [= <- _]. exists []. by rewrite app_nil_r. }
  destruct (ExpectTag tag l) as [l1|]; [|intros [= <- _]; exists []; by rewrite app_nil_r].
  destruct (ReadPrimitive t l1) as [[v l2]|] eqn:E; [|discriminate]. apply ReadPrimitive_number in E; [|done].
  intros (ws & -> & Hw)%IH. exists (v :: ws). rewrite <-app_assoc. split; [done|by constructor].
Qed.

(* ------------------------------------------------------------------ *)
(** ** Fields and messages *)

(** A parser that keeps objects typed. *)
Definition keeps_typed (rec : list fdesc -> list byte -> message -> merge_result) : Prop :=
  forall fields l m m' fin rest, well_typed (TYPE_MESSAGE fields) (message_value m) = true ->
    rec fields l m = Ret (Some (m', fin, rest)) -> well_typed (TYPE_MESSAGE fields) (message_value m') = true.

Lemma merge_inside_typed rec fields m inside after m' rest : keeps_typed rec ->
  well_typed (TYPE_MESSAGE fields) (message_value m) = true ->
  merge_inside rec fields m inside after = Ret (Some (m', rest)) ->
  well_typed (TYPE_MESSAGE fields) (message_value m') = true.
Proof using Type.
  intros Hrec Hm. unfold merge_inside.
  destruct (rec fields inside m) as [[[[m1 []] rest1]|]| | |] eqn:E; cbn [mbind outcome_bind]; try discriminate.
  intros [= <- _]. by eapply Hrec.
Qed.

Lemma read_message_field_typed rec lab fields l vs vs' u l' : keeps_typed rec ->
  values_typed lab (TYPE_MESSAGE fields) vs ->
  read_message_field rec lab fields l vs = Ret (Done vs' u l') -> values_typed lab (TYPE_MESSAGE fields) vs'.
Proof using Type.
  intros Hrec Hvs. unfold read_message_field. destruct (is_repeated lab) eqn:Er.
  - destruct (ReadLengthAndPushLimit l) as [inside after].
    destruct (merge_inside rec fields _ inside after) as [[[m rest]|]| | |] eqn:E; cbn [mbind outcome_bind]; try discriminate.
    intros [= <- _ _]. apply app_typed; [done|done|]. constructor; [|constructor].
    by eapply merge_inside_typed; [| |exact E]; [|apply default_well_typed].
  - destruct (ReadVarintSizeAsInt l) as [[n l1]|]; [|discriminate].
    set (m0 := match vs with [] => _ | _ => _ end).
    assert (well_typed (TYPE_MESSAGE fields) (message_value m0) = true) as Hm0.
    { subst m0. destruct vs as [|v vs]; [apply default_well_typed|]. destruct Hvs as [_ Hvs]. apply Forall_cons in Hvs as [Hv _].
      by destruct v. }
    destruct (merge_inside rec fields m0 _ _) as [[[m rest]|]| | |] eqn:E; cbn [mbind outcome_bind]; try discriminate.
    intros [= <- _ _]. split; [cbn; lia|]. constructor; [|constructor]. by eapply merge_inside_typed; [| |exact E].
Qed.

Lemma read_field_typed rec n lab t tag l vs vs' u l' : keeps_typed rec -> values_typed lab t vs ->
  read_field rec n lab t tag l vs = Ret (Done vs' u l') -> values_typed lab t vs'.
Proof using WT.
  intros Hrec Hvs.
  assert (forall vs'' l'', (forall valid, t <> TYPE_ENUM valid) ->
    of_option ('(v, l) ← ReadPrimitive t l; Some (put lab vs v, l)) = Done vs'' u l'' -> values_typed lab t vs'') as Hsingle.
  { intros vs'' l'' Hne. destruct (ReadPrimitive t l) as [[v l1]|] eqn:E; [|discriminate]. intros [= <- _ _].
    apply put_typed; [done|]. destruct (ReadPrimitive_typed t l v l1 E) as [H|[valid ->]]; [|by destruct (Hne valid)].
    rewrite well_typed_scalar; [done|]. by destruct t. }
  assert (forall r, is_number t = true -> is_repeated lab = true -> ReadPackedPrimitive t l vs = Ret r ->
    of_option r = Done vs' u l' -> values_typed lab t vs') as Hpacked.
  { intros r Ht Hr. unfold ReadPackedPrimitive. destruct (ReadVarintSizeAsInt l) as [[k l1]|]; [|by intros [= <-]].
    destruct (packed_loop _ t _ vs) as [[vs1|]| | |] eqn:E; cbn [mbind outcome_bind]; try discriminate; intros [= <-]; [|done].
    intros [= <- _ _]. apply packed_loop_typed in E as (ws & -> & Hw); [|done]. by apply app_typed. }
  assert (is_number t = true -> is_repeated lab = true -> forall tag,
    of_option (ReadRepeatedPrimitive t tag l vs) = Done vs' u l' -> values_typed lab t vs') as Hrep.
  { intros Ht Hr tag'. unfold ReadRepeatedPrimitive. destruct (ReadPrimitive t l) as [[v l1]|] eqn:E; [|discriminate].
    apply ReadPrimitive_number in E; [|done].
    destruct (repeated_loop _ t tag' l1 _) as [[vs1 l2]|] eqn:El; [|discriminate]. intros [= <- _ _].
    apply repeated_loop_typed in El as (ws & -> & Hw); [|done]. rewrite <-app_assoc. apply app_typed; [done|done|].
    by constructor. }
  destruct t; cbn [read_field];
    try (destruct (_ =? _); [intros [= E]; by eapply Hsingle|discriminate]);
    try (destruct lab; repeat (destruct (_ =? _); try discriminate); intros E;
      match type of E with
      | Ret _ = Ret _ => injection E as E; first [by eapply Hsingle|by eapply Hrep]
      | _ => destruct (ReadPackedPrimitive _ l vs) eqn:Ep; try discriminate; injection E as E; by eapply Hpacked
      end).
  - destruct (_ =? _).
    + intros [= E]. destruct (as_int _) as [[[z| | |] l1]|] eqn:Ep in E; try discriminate.
      case_decide as Hz; injection E as <- _ _; [|exact Hvs]. apply put_typed; [exact Hvs|].
      apply converted in Ep as (z' & _ & [= ->]). pose proof (sint_range 32 z' ltac:(lia)).
      cbn. rewrite bool_decide_eq_true_2 by exact Hz. lia.
    + destruct (is_repeated lab && (tag =? _)) eqn:Hr; [|discriminate]. apply andb_true_iff in Hr as [Hr _].
      destruct (ReadPackedEnumPreserveUnknowns n valid l) as [[[zs u'] l1]|] eqn:Ep; [|discriminate].
      intros [= <- _ _]. apply packed_enum_range in Ep. apply app_typed; [exact Hr|exact Hvs|]. apply Forall_fmap.
      eapply Forall_impl; [exact Ep|]. intros z [Hz Hzr]. cbn. rewrite bool_decide_eq_true_2 by exact Hz. lia.
  - destruct (_ =? _); [|discriminate]. by apply read_message_field_typed.
Qed.

Lemma find_field_fields fields n i f : find_field fields n = Some (i, f) -> fields !! i = Some f.
Proof using Type.
  revert i. induction fields as [|[[n0 lab] t] fields IH]; intros i; [discriminate|]. cbn [find_field].
  destruct (n0 =? n); [by intros [= <- <-]|].
  destruct (find_field fields n) as [[j g]|]; [|discriminate]. intros [= <- <-]. by apply IH.
Qed.

Lemma merge_loop_typed rec fuel fields l m m' fin rest : keeps_typed rec ->
  well_typed (TYPE_MESSAGE fields) (message_value m) = true ->
  merge_loop rec fuel fields l m = Ret (Some (m', fin, rest)) ->
  well_typed (TYPE_MESSAGE fields) (message_value m') = true.
Proof using WT.
  intros Hrec. revert l m. induction fuel as [|fuel IH]; intros l m Hm; [discriminate|]. cbn [merge_loop].
  destruct (ReadTagWithCutoff (cutoff fields) l) as [[[tag ok] fin1] l1].
  match goal with |- context [if negb ok then ?u else _] =>
    assert (u = Ret (Some (m', fin, rest)) -> well_typed (TYPE_MESSAGE fields) (message_value m') = true) as Hu end.
  { destruct (_ || _); [by intros [= <- _ _]|]. destruct (SkipField tag l1) as [[d l2]|]; [|discriminate].
    apply IH. exact Hm. }
  destruct ok; [|exact Hu]. cbn [negb].
  destruct (find_field fields (Z.shiftr tag 3)) as [[i [[n lab] t]]|] eqn:Ef; [|exact Hu].
  apply find_field_fields in Ef. destruct m as [vss un]. apply well_typed_fields in Hm. cbn [m_fields m_unknown].
  destruct (Forall2_lookup_l _ _ _ _ _ Hm Ef) as (vs & Evs & Hvs). cbn in Evs. rewrite Evs. change (default [] (Some vs)) with vs.
  destruct (read_field rec n lab t tag l1 vs) as [[| |vs' u l2]| | |] eqn:Er; cbn [mbind outcome_bind];
    try discriminate; [exact Hu|].
  apply read_field_typed in Er; [|exact Hrec|exact Hvs].
  assert (well_typed (TYPE_MESSAGE fields) (message_value (mkMessage (<[i := vs']> vss) (un ++ u))) = true) as Hm'.
  { apply well_typed_fields. rewrite <-(list_insert_id fields i _ Ef). by apply Forall2_insert. }
  destruct (decide _); [by intros [= <- _ _]|]. apply IH. exact Hm'.
Qed.

Lemma merge_typed budget : keeps_typed (merge budget).
Proof using WT.
  induction budget as [|budget IH]; intros fields l m m' fin rest Hm; cbn [merge]; apply merge_loop_typed; try assumption.
  by intros ???????.
Qed.

Lemma parse_typed fields l m : parse fields l = Ret (Some m) ->
  well_typed (TYPE_MESSAGE fields) (message_value m) = true /\ IsInitialized fields m = true.
Proof using WT.
  unfold parse. destruct (merge _ fields l _) as [[[[m1 []] rest]|]| | |] eqn:E; cbn [mbind outcome_bind]; try discriminate.
  destruct (IsInitialized fields m1) eqn:Hi; intros [= <-]. split; [|exact Hi].
  eapply merge_typed; [|exact E]. apply default_well_typed.
Qed.
End typed.
