(* ===== verification/Protos.v ===== *)
(** * The message classes of the .proto files

    Each enum of common.proto, datanode.proto and namenode.proto as the list of
    its values, and each message as the list of its fields, in the order of
    their numbers. *)

From S2P Require Import Prelude WireFormat.

Module proto.

(* ------------------------------------------------------------------ *)
(** ** common.proto *)

Definition RpcKindProto : list Z := [0; 1; 2].

Definition RPCTraceInfoProto : list fdesc := [
  (1, LABEL_OPTIONAL, TYPE_INT64); (* traceId *)
  (2, LABEL_OPTIONAL, TYPE_INT64) (* parentId *)
].

Definition RPCCallerContextProto : list fdesc := [
  (1, LABEL_REQUIRED, TYPE_STRING); (* context *)
  (2, LABEL_OPTIONAL, TYPE_BYTES) (* signature *)
].

Definition RpcRequestHeaderProto_OperationProto : list Z := [0; 1; 2].

Definition RpcRequestHeaderProto : list fdesc := [
  (1, LABEL_OPTIONAL, TYPE_ENUM RpcKindProto); (* rpcKind *)
  (2, LABEL_OPTIONAL, TYPE_ENUM RpcRequestHeaderProto_OperationProto); (* rpcOp *)
  (3, LABEL_REQUIRED, TYPE_SINT32); (* callId *)
  (4, LABEL_REQUIRED, TYPE_BYTES); (* clientId *)
  (5, LABEL_OPTIONAL, TYPE_SINT32); (* retryCount *)
  (6, LABEL_OPTIONAL, TYPE_MESSAGE RPCTraceInfoProto); (* traceInfo *)
  (7, LABEL_OPTIONAL, TYPE_MESSAGE RPCCallerContextProto) (* callerContext *)
].

Definition RpcResponseHeaderProto_RpcStatusProto : list Z := [0; 1; 2].

Definition RpcResponseHeaderProto_RpcErrorCodeProto : list Z := [1; 2; 3; 4; 5; 6; 10; 11; 12; 13; 14; 15].

Definition RpcResponseHeaderProto : list fdesc := [
  (1, LABEL_REQUIRED, TYPE_UINT32); (* callId *)
  (2, LABEL_REQUIRED, TYPE_ENUM RpcResponseHeaderProto_RpcStatusProto); (* status *)
  (3, LABEL_OPTIONAL, TYPE_UINT32); (* serverIpcVersionNum *)
  (4, LABEL_OPTIONAL, TYPE_STRING); (* exceptionClassName *)
  (5, LABEL_OPTIONAL, TYPE_STRING); (* errorMsg *)
  (6, LABEL_OPTIONAL, TYPE_ENUM RpcResponseHeaderProto_RpcErrorCodeProto); (* errorDetail *)
  (7, LABEL_OPTIONAL, TYPE_BYTES); (* clientId *)
  (8, LABEL_OPTIONAL, TYPE_SINT32) (* retryCount *)
].

Definition FsPermissionProto : list fdesc := [
  (1, LABEL_REQUIRED, TYPE_UINT32) (* perm *)
].

Definition ExtendedBlockProto : list fdesc := [
  (1, LABEL_REQUIRED, TYPE_STRING); (* poolId *)
  (2, LABEL_REQUIRED, TYPE_UINT64); (* blockId *)
  (3, LABEL_REQUIRED, TYPE_UINT64); (* generationStamp *)
  (4, LABEL_OPTIONAL, TYPE_UINT64) (* numBytes *)
].

Definition DatanodeIDProto : list fdesc := [
  (1, LABEL_REQUIRED, TYPE_STRING); (* ipAddr *)
  (2, LABEL_REQUIRED, TYPE_STRING); (* hostName *)
  (3, LABEL_REQUIRED, TYPE_STRING); (* datanodeUuid *)
  (4, LABEL_REQUIRED, TYPE_UINT32); (* xferPort *)
  (5, LABEL_REQUIRED, TYPE_UINT32); (* infoPort *)
  (6, LABEL_REQUIRED, TYPE_UINT32); (* ipcPort *)
  (7, LABEL_OPTIONAL, TYPE_UINT32) (* infoSecurePort *)
].

Definition DatanodeInfoProto_AdminState : list Z := [0; 1; 2].

Definition DatanodeInfoProto : list fdesc := [
  (1, LABEL_REQUIRED, TYPE_MESSAGE DatanodeIDProto); (* id *)
  (2, LABEL_OPTIONAL, TYPE_UINT64); (* capacity *)
  (3, LABEL_OPTIONAL, TYPE_UINT64); (* dfsUsed *)
  (4, LABEL_OPTIONAL, TYPE_UINT64); (* remaining *)
  (5, LABEL_OPTIONAL, TYPE_UINT64); (* blockPoolUsed *)
  (6, LABEL_OPTIONAL, TYPE_UINT64); (* lastUpdate *)
  (7, LABEL_OPTIONAL, TYPE_UINT32); (* xceiverCount *)
  (8, LABEL_OPTIONAL, TYPE_STRING); (* location *)
  (9, LABEL_OPTIONAL, TYPE_UINT64); (* nonDfsUsed *)
  (10, LABEL_OPTIONAL, TYPE_ENUM DatanodeInfoProto_AdminState); (* adminState *)
  (11, LABEL_OPTIONAL, TYPE_UINT64); (* cacheCapacity *)
  (12, LABEL_OPTIONAL, TYPE_UINT64); (* cacheUsed *)
  (13, LABEL_OPTIONAL, TYPE_UINT64); (* lastUpdateMonotonic *)
  (14, LABEL_OPTIONAL, TYPE_STRING) (* upgradeDomain *)
].

Definition TokenProto : list fdesc := [
  (1, LABEL_REQUIRED, TYPE_BYTES); (* identifier *)
  (2, LABEL_REQUIRED, TYPE_BYTES); (* password *)
  (3, LABEL_REQUIRED, TYPE_STRING); (* kind *)
  (4, LABEL_REQUIRED, TYPE_STRING) (* service *)
].

Definition StorageTypeProto : list Z := [1; 2; 3; 4].

Definition CipherSuiteProto : list Z := [1; 2].

Definition CryptoProtocolVersionProto : list Z := [1; 2].

Definition FileEncryptionInfoProto : list fdesc := [
  (1, LABEL_REQUIRED, TYPE_ENUM CipherSuiteProto); (* suite *)
  (2, LABEL_REQUIRED, TYPE_ENUM CryptoProtocolVersionProto); (* cryptoProtocolVersion *)
  (3, LABEL_REQUIRED, TYPE_BYTES); (* key *)
  (4, LABEL_REQUIRED, TYPE_BYTES); (* iv *)
  (5, LABEL_REQUIRED, TYPE_STRING); (* keyName *)
  (6, LABEL_REQUIRED, TYPE_STRING) (* ezKeyVersionName *)
].

Definition LocatedBlockProto : list fdesc := [
  (1, LABEL_REQUIRED, TYPE_MESSAGE ExtendedBlockProto); (* b *)
  (2, LABEL_REQUIRED, TYPE_UINT64); (* offset *)
  (3, LABEL_REPEATED, TYPE_MESSAGE DatanodeInfoProto); (* locs *)
  (4, LABEL_REQUIRED, TYPE_BOOL); (* corrupt *)
  (5, LABEL_REQUIRED, TYPE_MESSAGE TokenProto); (* blockToken *)
  (6, LABEL_PACKED, TYPE_BOOL); (* isCached *)
  (7, LABEL_REPEATED, TYPE_ENUM StorageTypeProto); (* storageTypes *)
  (8, LABEL_REPEATED, TYPE_STRING) (* storageIDs *)
].

Definition LocatedBlocksProto : list fdesc := [
  (1, LABEL_REQUIRED, TYPE_UINT64); (* fileLength *)
  (2, LABEL_REPEATED, TYPE_MESSAGE LocatedBlockProto); (* blocks *)
  (3, LABEL_REQUIRED, TYPE_BOOL); (* underConstruction *)
  (4, LABEL_OPTIONAL, TYPE_MESSAGE LocatedBlockProto); (* lastBlock *)
  (5, LABEL_REQUIRED, TYPE_BOOL); (* isLastBlockComplete *)
  (6, LABEL_OPTIONAL, TYPE_MESSAGE FileEncryptionInfoProto) (* fileEncryptionInfo *)
].

Definition RequestHeaderProto : list fdesc := [
  (1, LABEL_REQUIRED, TYPE_STRING); (* methodName *)
  (2, LABEL_REQUIRED, TYPE_STRING); (* declaringClassProtocolName *)
  (3, LABEL_REQUIRED, TYPE_UINT64) (* clientProtocolVersion *)
].

Definition StorageInfoProto : list fdesc := [
  (1, LABEL_REQUIRED, TYPE_UINT32); (* layoutVersion *)
  (2, LABEL_REQUIRED, TYPE_UINT32); (* namespceID *)
  (3, LABEL_REQUIRED, TYPE_STRING); (* clusterID *)
  (4, LABEL_REQUIRED, TYPE_UINT64) (* cTime *)
].

Definition BlockKeyProto : list fdesc := [
  (1, LABEL_REQUIRED, TYPE_UINT32); (* keyId *)
  (2, LABEL_REQUIRED, TYPE_UINT64); (* expiryDate *)
  (3, LABEL_OPTIONAL, TYPE_BYTES) (* keyBytes *)
].

Definition ExportedBlockKeysProto : list fdesc := [
  (1, LABEL_REQUIRED, TYPE_BOOL); (* isBlockTokenEnabled *)
  (2, LABEL_REQUIRED, TYPE_UINT64); (* keyUpdateInterval *)
  (3, LABEL_REQUIRED, TYPE_UINT64); (* tokenLifeTime *)
  (4, LABEL_REQUIRED, TYPE_MESSAGE BlockKeyProto); (* currentKey *)
  (5, LABEL_REPEATED, TYPE_MESSAGE BlockKeyProto) (* allKeys *)
].

Definition DatanodeRegistrationProto : list fdesc := [
  (1, LABEL_REQUIRED, TYPE_MESSAGE DatanodeIDProto); (* datanodeID *)
  (2, LABEL_OPTIONAL, TYPE_MESSAGE StorageInfoProto); (* storageInfo *)
  (3, LABEL_OPTIONAL, TYPE_MESSAGE ExportedBlockKeysProto); (* keys *)
  (4, LABEL_OPTIONAL, TYPE_STRING); (* softwareVersion *)
  (5, LABEL_OPTIONAL, TYPE_BOOL) (* master *)
].

Definition RegisterDatanodeRequestProto : list fdesc := [
  (1, LABEL_REQUIRED, TYPE_MESSAGE DatanodeRegistrationProto) (* registration *)
].

Definition RegisterDatanodeResponseProto : list fdesc := [
  (1, LABEL_REQUIRED, TYPE_MESSAGE DatanodeRegistrationProto) (* registration *)
].

Definition ChecksumTypeProto : list Z := [0; 1; 2].

Definition DatanodeHeartbeatRequestProto : list fdesc := [
  (1, LABEL_REQUIRED, TYPE_MESSAGE DatanodeIDProto) (* id *)
].

Definition DatanodeHeartbeatResponseProto : list fdesc := [].

Definition DataTransferTraceInfoProto : list fdesc := [
  (1, LABEL_REQUIRED, TYPE_UINT64); (* traceId *)
  (2, LABEL_REQUIRED, TYPE_UINT64) (* parentId *)
].

Definition BaseHeaderProto : list fdesc := [
  (1, LABEL_REQUIRED, TYPE_MESSAGE ExtendedBlockProto); (* block *)
  (2, LABEL_OPTIONAL, TYPE_MESSAGE TokenProto); (* token *)
  (3, LABEL_OPTIONAL, TYPE_MESSAGE DataTransferTraceInfoProto) (* traceInfo *)
].

Definition ClientOperationHeaderProto : list fdesc := [
  (1, LABEL_REQUIRED, TYPE_MESSAGE BaseHeaderProto); (* baseHeader *)
  (2, LABEL_REQUIRED, TYPE_STRING) (* clientName *)
].

Definition OpTransferBlockProto : list fdesc := [
  (1, LABEL_REQUIRED, TYPE_MESSAGE ClientOperationHeaderProto); (* header *)
  (2, LABEL_REPEATED, TYPE_MESSAGE DatanodeInfoProto); (* targets *)
  (3, LABEL_REPEATED, TYPE_ENUM StorageTypeProto) (* targetStorageTypes *)
].

Definition Status : list Z := [0; 1; 2; 3; 4; 5; 6; 7; 8; 9; 10; 11; 12].

Definition OpBlockChecksumResponseProto : list fdesc := [
  (1, LABEL_REQUIRED, TYPE_UINT32); (* bytesPerCrc *)
  (2, LABEL_REQUIRED, TYPE_UINT64); (* crcPerBlock *)
  (3, LABEL_REQUIRED, TYPE_BYTES); (* md5 *)
  (4, LABEL_OPTIONAL, TYPE_ENUM ChecksumTypeProto) (* crcType *)
].

Definition ChecksumProto : list fdesc := [
  (1, LABEL_REQUIRED, TYPE_ENUM ChecksumTypeProto); (* type *)
  (2, LABEL_REQUIRED, TYPE_UINT32) (* bytesPerChecksum *)
].

Definition ReadOpChecksumInfoProto : list fdesc := [
  (1, LABEL_REQUIRED, TYPE_MESSAGE ChecksumProto); (* checksum *)
  (2, LABEL_REQUIRED, TYPE_UINT64) (* chunkOffset *)
].

Definition BlockOpResponseProto : list fdesc := [
  (1, LABEL_REQUIRED, TYPE_ENUM Status); (* status *)
  (2, LABEL_OPTIONAL, TYPE_STRING); (* firstBadLink *)
  (3, LABEL_OPTIONAL, TYPE_MESSAGE OpBlockChecksumResponseProto); (* checksumResponse *)
  (4, LABEL_OPTIONAL, TYPE_MESSAGE ReadOpChecksumInfoProto); (* readOpChecksumInfo *)
  (5, LABEL_OPTIONAL, TYPE_STRING); (* message *)
  (6, LABEL_OPTIONAL, TYPE_UINT32) (* shortCircuitAccessVersion *)
].

(* ------------------------------------------------------------------ *)
(** ** datanode.proto *)

Definition CachingStrategyProto : list fdesc := [
  (1, LABEL_OPTIONAL, TYPE_BOOL); (* dropBehind *)
  (2, LABEL_OPTIONAL, TYPE_INT64) (* readahead *)
].

Definition OpReadBlockProto : list fdesc := [
  (1, LABEL_REQUIRED, TYPE_MESSAGE ClientOperationHeaderProto); (* header *)
  (2, LABEL_REQUIRED, TYPE_UINT64); (* offset *)
  (3, LABEL_REQUIRED, TYPE_UINT64); (* len *)
  (4, LABEL_OPTIONAL, TYPE_BOOL); (* sendChecksums *)
  (5, LABEL_OPTIONAL, TYPE_MESSAGE CachingStrategyProto) (* cachingStrategy *)
].

Definition PacketHeaderProto : list fdesc := [
  (1, LABEL_REQUIRED, TYPE_SFIXED64); (* offsetInBlock *)
  (2, LABEL_REQUIRED, TYPE_SFIXED64); (* seqno *)
  (3, LABEL_REQUIRED, TYPE_BOOL); (* lastPacketInBlock *)
  (4, LABEL_REQUIRED, TYPE_SFIXED32); (* dataLen *)
  (5, LABEL_OPTIONAL, TYPE_BOOL) (* syncBlock *)
].

Definition OpWriteBlockProto_BlockConstructionStage : list Z := [0; 1; 2; 3; 4; 5; 6; 7; 8].

Definition OpWriteBlockProto : list fdesc := [
  (1, LABEL_REQUIRED, TYPE_MESSAGE ClientOperationHeaderProto); (* header *)
  (2, LABEL_REPEATED, TYPE_MESSAGE DatanodeInfoProto); (* targets *)
  (3, LABEL_OPTIONAL, TYPE_MESSAGE DatanodeInfoProto); (* source *)
  (4, LABEL_REQUIRED, TYPE_ENUM OpWriteBlockProto_BlockConstructionStage); (* stage *)
  (5, LABEL_REQUIRED, TYPE_UINT32); (* pipelineSize *)
  (6, LABEL_REQUIRED, TYPE_UINT64); (* minBytesRcvd *)
  (7, LABEL_REQUIRED, TYPE_UINT64); (* maxBytesRcvd *)
  (8, LABEL_REQUIRED, TYPE_UINT64); (* latestGenerationStamp *)
  (9, LABEL_REQUIRED, TYPE_MESSAGE ChecksumProto); (* requestedChecksum *)
  (10, LABEL_OPTIONAL, TYPE_MESSAGE CachingStrategyProto); (* cachingStrategy *)
  (11, LABEL_OPTIONAL, TYPE_ENUM StorageTypeProto); (* storageType *)
  (12, LABEL_REPEATED, TYPE_ENUM StorageTypeProto); (* targetStorageTypes *)
  (13, LABEL_OPTIONAL, TYPE_BOOL); (* allowLazyPersist *)
  (14, LABEL_OPTIONAL, TYPE_BOOL); (* pinning *)
  (15, LABEL_REPEATED, TYPE_BOOL) (* targetPinnings *)
].

Definition PipelineAckProto : list fdesc := [
  (1, LABEL_REQUIRED, TYPE_SINT64); (* seqno *)
  (2, LABEL_REPEATED, TYPE_ENUM Status); (* reply *)
  (3, LABEL_OPTIONAL, TYPE_UINT64); (* downstreamAckTimeNanos *)
  (4, LABEL_PACKED, TYPE_UINT32) (* flag *)
].

(* ------------------------------------------------------------------ *)
(** ** namenode.proto *)

Definition HdfsFileStatusProto_FileType : list Z := [1; 2; 3].

Definition HdfsFileStatusProto : list fdesc := [
  (1, LABEL_REQUIRED, TYPE_ENUM HdfsFileStatusProto_FileType); (* fileType *)
  (2, LABEL_REQUIRED, TYPE_BYTES); (* path *)
  (3, LABEL_REQUIRED, TYPE_UINT64); (* length *)
  (4, LABEL_REQUIRED, TYPE_MESSAGE FsPermissionProto); (* permission *)
  (5, LABEL_REQUIRED, TYPE_STRING); (* owner *)
  (6, LABEL_REQUIRED, TYPE_STRING); (* group *)
  (7, LABEL_REQUIRED, TYPE_UINT64); (* modification_time *)
  (8, LABEL_REQUIRED, TYPE_UINT64); (* access_time *)
  (9, LABEL_OPTIONAL, TYPE_BYTES); (* symlink *)
  (10, LABEL_OPTIONAL, TYPE_UINT32); (* block_replication *)
  (11, LABEL_OPTIONAL, TYPE_UINT64); (* blocksize *)
  (12, LABEL_OPTIONAL, TYPE_MESSAGE LocatedBlocksProto); (* locations *)
  (13, LABEL_OPTIONAL, TYPE_UINT64); (* fileId *)
  (14, LABEL_OPTIONAL, TYPE_INT32); (* childrenNum *)
  (15, LABEL_OPTIONAL, TYPE_MESSAGE FileEncryptionInfoProto); (* fileEncryptionInfo *)
  (16, LABEL_OPTIONAL, TYPE_UINT32) (* storagePolicy *)
].

Definition DirectoryListingProto : list fdesc := [
  (1, LABEL_REPEATED, TYPE_MESSAGE HdfsFileStatusProto); (* partialListing *)
  (2, LABEL_REQUIRED, TYPE_UINT32) (* remainingEntries *)
].

Definition GetFileInfoRequestProto : list fdesc := [
  (1, LABEL_REQUIRED, TYPE_STRING) (* src *)
].

Definition GetFileInfoResponseProto : list fdesc := [
  (1, LABEL_OPTIONAL, TYPE_MESSAGE HdfsFileStatusProto) (* fs *)
].

Definition GetListingRequestProto : list fdesc := [
  (1, LABEL_REQUIRED, TYPE_STRING); (* src *)
  (2, LABEL_REQUIRED, TYPE_BYTES); (* startAfter *)
  (3, LABEL_REQUIRED, TYPE_BOOL) (* needLocation *)
].

Definition GetListingResponseProto : list fdesc := [
  (1, LABEL_OPTIONAL, TYPE_MESSAGE DirectoryListingProto) (* dirList *)
].

Definition GetBlockLocationsRequestProto : list fdesc := [
  (1, LABEL_REQUIRED, TYPE_STRING); (* src *)
  (2, LABEL_REQUIRED, TYPE_UINT64); (* offset *)
  (3, LABEL_REQUIRED, TYPE_UINT64) (* length *)
].

Definition GetBlockLocationsResponseProto : list fdesc := [
  (1, LABEL_OPTIONAL, TYPE_MESSAGE LocatedBlocksProto) (* locations *)
].

Definition FsServerDefaultsProto : list fdesc := [
  (1, LABEL_REQUIRED, TYPE_UINT64); (* blockSize *)
  (2, LABEL_REQUIRED, TYPE_UINT32); (* bytesPerChecksum *)
  (3, LABEL_REQUIRED, TYPE_UINT32); (* writePacketSize *)
  (4, LABEL_REQUIRED, TYPE_UINT32); (* replication *)
  (5, LABEL_REQUIRED, TYPE_UINT32); (* fileBufferSize *)
  (6, LABEL_OPTIONAL, TYPE_BOOL); (* encryptDataTransfer *)
  (7, LABEL_OPTIONAL, TYPE_UINT64); (* trashInterval *)
  (8, LABEL_OPTIONAL, TYPE_ENUM ChecksumTypeProto); (* checksumType *)
  (9, LABEL_OPTIONAL, TYPE_STRING); (* keyProviderUri *)
  (10, LABEL_OPTIONAL, TYPE_UINT32) (* policyId *)
].

Definition GetServerDefaultsRequestProto : list fdesc := [].

Definition GetServerDefaultsResponseProto : list fdesc := [
  (1, LABEL_REQUIRED, TYPE_MESSAGE FsServerDefaultsProto) (* serverDefaults *)
].

Definition CreateRequestProto : list fdesc := [
  (1, LABEL_REQUIRED, TYPE_STRING); (* src *)
  (2, LABEL_REQUIRED, TYPE_MESSAGE FsPermissionProto); (* masked *)
  (3, LABEL_REQUIRED, TYPE_STRING); (* clientName *)
  (4, LABEL_REQUIRED, TYPE_UINT32); (* createFlag *)
  (5, LABEL_REQUIRED, TYPE_BOOL); (* createParent *)
  (6, LABEL_REQUIRED, TYPE_UINT32); (* replication *)
  (7, LABEL_REQUIRED, TYPE_UINT64); (* blockSize *)
  (8, LABEL_REPEATED, TYPE_ENUM CryptoProtocolVersionProto) (* cryptoProtocolVersion *)
].

Definition CreateResponseProto : list fdesc := [
  (1, LABEL_OPTIONAL, TYPE_MESSAGE HdfsFileStatusProto) (* fs *)
].

Definition CompleteRequestProto : list fdesc := [
  (1, LABEL_REQUIRED, TYPE_STRING); (* src *)
  (2, LABEL_REQUIRED, TYPE_STRING); (* clientName *)
  (3, LABEL_OPTIONAL, TYPE_MESSAGE ExtendedBlockProto); (* last *)
  (4, LABEL_OPTIONAL, TYPE_UINT64) (* fileId *)
].

Definition CompleteResponseProto : list fdesc := [
  (1, LABEL_REQUIRED, TYPE_BOOL) (* result *)
].

Definition AddBlockFlagProto : list Z := [1].

Definition AddBlockRequestProto : list fdesc := [
  (1, LABEL_REQUIRED, TYPE_STRING); (* src *)
  (2, LABEL_REQUIRED, TYPE_STRING); (* clientName *)
  (3, LABEL_OPTIONAL, TYPE_MESSAGE ExtendedBlockProto); (* previous *)
  (4, LABEL_REPEATED, TYPE_MESSAGE DatanodeInfoProto); (* excludeNodes *)
  (5, LABEL_OPTIONAL, TYPE_UINT64); (* fileId *)
  (6, LABEL_REPEATED, TYPE_STRING); (* favoredNodes *)
  (7, LABEL_REPEATED, TYPE_ENUM AddBlockFlagProto) (* flags *)
].

Definition AddBlockResponseProto : list fdesc := [
  (1, LABEL_REQUIRED, TYPE_MESSAGE LocatedBlockProto) (* block *)
].

Definition RenewLeaseRequestProto : list fdesc := [
  (1, LABEL_REQUIRED, TYPE_STRING) (* clientName *)
].

Definition RenewLeaseResponseProto : list fdesc := [].

Definition RenameRequestProto : list fdesc := [
  (1, LABEL_REQUIRED, TYPE_STRING); (* src *)
  (2, LABEL_REQUIRED, TYPE_STRING) (* dst *)
].

Definition RenameResponseProto : list fdesc := [
  (1, LABEL_REQUIRED, TYPE_BOOL) (* result *)
].

Definition DeleteRequestProto : list fdesc := [
  (1, LABEL_REQUIRED, TYPE_STRING); (* src *)
  (2, LABEL_REQUIRED, TYPE_BOOL) (* recursive *)
].

Definition DeleteResponseProto : list fdesc := [
  (1, LABEL_REQUIRED, TYPE_BOOL) (* result *)
].

Definition MkdirsRequestProto : list fdesc := [
  (1, LABEL_REQUIRED, TYPE_STRING); (* src *)
  (2, LABEL_REQUIRED, TYPE_MESSAGE FsPermissionProto); (* masked *)
  (3, LABEL_REQUIRED, TYPE_BOOL) (* createParent *)
].

Definition MkdirsResponseProto : list fdesc := [
  (1, LABEL_REQUIRED, TYPE_BOOL) (* result *)
].

Definition GetFsStatsRequestProto : list fdesc := [].

Definition GetFsStatsResponseProto : list fdesc := [
  (1, LABEL_REQUIRED, TYPE_UINT64); (* capacity *)
  (2, LABEL_REQUIRED, TYPE_UINT64); (* used *)
  (3, LABEL_REQUIRED, TYPE_UINT64); (* remaining *)
  (4, LABEL_REQUIRED, TYPE_UINT64); (* under_replicated *)
  (5, LABEL_REQUIRED, TYPE_UINT64); (* corrupt_blocks *)
  (6, LABEL_REQUIRED, TYPE_UINT64); (* missing_blocks *)
  (7, LABEL_OPTIONAL, TYPE_UINT64); (* missing_repl_one_blocks *)
  (8, LABEL_OPTIONAL, TYPE_UINT64); (* blocks_in_future *)
  (9, LABEL_OPTIONAL, TYPE_UINT64) (* pending_deletion_blocks *)
].

Definition SafeModeActionProto : list Z := [1; 2; 3; 4].

Definition SetSafeModeRequestProto : list fdesc := [
  (1, LABEL_REQUIRED, TYPE_ENUM SafeModeActionProto); (* action *)
  (2, LABEL_OPTIONAL, TYPE_BOOL) (* checked *)
].

Definition SetSafeModeResponseProto : list fdesc := [
  (1, LABEL_REQUIRED, TYPE_BOOL) (* result *)
].

Definition DatanodeReportTypeProto : list Z := [1; 2; 3; 4].

Definition GetDatanodeReportRequestProto : list fdesc := [
  (1, LABEL_REQUIRED, TYPE_ENUM DatanodeReportTypeProto) (* type *)
].

Definition GetDatanodeReportResponseProto : list fdesc := [
  (1, LABEL_REPEATED, TYPE_MESSAGE DatanodeInfoProto) (* di *)
].

(** All of them. *)
Definition all_messages : list (list fdesc) := [
  RPCTraceInfoProto; RPCCallerContextProto; RpcRequestHeaderProto; RpcResponseHeaderProto;
  FsPermissionProto; ExtendedBlockProto; DatanodeIDProto; DatanodeInfoProto; TokenProto;
  FileEncryptionInfoProto; LocatedBlockProto; LocatedBlocksProto; RequestHeaderProto;
  StorageInfoProto; BlockKeyProto; ExportedBlockKeysProto; DatanodeRegistrationProto;
  RegisterDatanodeRequestProto; RegisterDatanodeResponseProto; DatanodeHeartbeatRequestProto;
  DatanodeHeartbeatResponseProto; DataTransferTraceInfoProto; BaseHeaderProto;
  ClientOperationHeaderProto; OpTransferBlockProto; OpBlockChecksumResponseProto; ChecksumProto;
  ReadOpChecksumInfoProto; BlockOpResponseProto; CachingStrategyProto; OpReadBlockProto;
  PacketHeaderProto; OpWriteBlockProto; PipelineAckProto; HdfsFileStatusProto;
  DirectoryListingProto; GetFileInfoRequestProto; GetFileInfoResponseProto;
  GetListingRequestProto; GetListingResponseProto; GetBlockLocationsRequestProto;
  GetBlockLocationsResponseProto; FsServerDefaultsProto; GetServerDefaultsRequestProto;
  GetServerDefaultsResponseProto; CreateRequestProto; CreateResponseProto; CompleteRequestProto;
  CompleteResponseProto; AddBlockRequestProto; AddBlockResponseProto; RenewLeaseRequestProto;
  RenewLeaseResponseProto; RenameRequestProto; RenameResponseProto; DeleteRequestProto;
  DeleteResponseProto; MkdirsRequestProto; MkdirsResponseProto; GetFsStatsRequestProto;
  GetFsStatsResponseProto; SetSafeModeRequestProto; SetSafeModeResponseProto;
  GetDatanodeReportRequestProto; GetDatanodeReportResponseProto
].
End proto.
