(* ===== verification/RepeatedTheorems.v ===== *)
(** * Theorems about repeated fields

    RepeatedField is a list with a bounded capacity; RepeatedPtrField is a list
    of objects that it owns, whatever its clients do. *)

From S2P Require Import Prelude Protobuf WireFormat RepeatedField RepeatedFieldFacts GeneratedCode GeneratedFacts.
From S2P Require Import RepeatedPtrField RepeatedPtrFacts Protos.

(* ------------------------------------------------------------------ *)
(** ** Numbers *)

(** C12. Any sequence of operations on a RepeatedField that its callers may
    call, and that never asks for more than 2^30 elements, returns, with the
    elements that the same operations on a list leave; no access is outside the
    array and no [int] overflows. *)
Theorem repeated_field_refines {A} (zero : A) (sizeof : Z) (os : list (op (A := A))) (l : list A) :
  0 < sizeof <= 8 -> Forall op_free os -> spec_run os [] = Some l -> peak os [] <= limit ->
  exists r, run zero sizeof os repeated_field.empty_field = Ret r /\ contents r = l /\
    repeated_field.size r = Z.of_nat (length l) /\
    forall i x, l !! i = Some x -> repeated_field.Get (Z.of_nat i) r = Ret x.
Proof.
  intros Hs Ho Hspec Hp. destruct (run_done zero sizeof Hs os repeated_field.empty_field l) as (r & -> & [Hok Hc _]);
    try done.
  exists r. split; [done|]. split; [done|]. split; [rewrite <-Hc; by rewrite contents_length|].
  intros i x Hi. apply get_done; [done|lia|]. by rewrite Nat2Z.id, Hc.
Qed.

Lemma repeated_field_refines_witness :
  exists r, run 0 4 [OpAdd 5; OpAdd 6; OpResize 6 1; OpExtract 1 2; OpSwapElements 0 3; OpRemoveLast; OpErase 0 1]
    repeated_field.empty_field = Ret r /\ contents r = [1; 1].
Proof.
  destruct (repeated_field_refines 0 4
    [OpAdd 5; OpAdd 6; OpResize 6 1; OpExtract 1 2; OpSwapElements 0 3; OpRemoveLast; OpErase 0 1] [1; 1])
    as (r & H1 & H2 & _).
  - lia.
  - repeat constructor.
  - vm_compute. reflexivity.
  - vm_compute. discriminate.
  - exists r. split; [exact H1|exact H2].
Defined.

(** C26. The capacity of a RepeatedField that grows by one element at a time is
    the smallest of 4, 8, 16, ... with room for the elements, so [Add] never
    leaves more than half of an array of more than four elements unused. *)
Theorem repeated_field_capacity {A} (zero : A) (sizeof : Z) (l : list A) :
  0 < sizeof <= 8 -> Z.of_nat (length l) <= limit ->
  exists r, run zero sizeof (OpAdd <$> l) repeated_field.empty_field = Ret r /\ contents r = l /\
    repeated_field.Capacity r = repeated_capacity (length l) /\
    Z.of_nat (length l) <= repeated_field.Capacity r <= Z.max 4 (2 * Z.of_nat (length l)).
Proof.
  intros Hs Hl.
  assert (forall pre r, rf_ok r -> contents r = pre -> Z.of_nat (length (pre ++ l)) <= limit ->
    repeated_field.total_size r = repeated_capacity (length pre) ->
    exists r', run zero sizeof (OpAdd <$> l) r = Ret r' /\ contents r' = pre ++ l /\
      repeated_field.total_size r' = repeated_capacity (length (pre ++ l))) as H.
  { clear Hl. induction l as [|x l IH]; intros pre r Hr Hc Hn Ht.
    - rewrite app_nil_r in *. by exists r.
    - cbn [fmap list_fmap run step]. rewrite length_app in Hn. cbn in Hn.
      destruct (add_capacity zero sizeof Hs x r Hr) as (r1 & -> & Hr1 & Hc1 & Ht1); [rewrite Hc; lia|].
      rewrite bind_Ret, (cons_middle x pre l), app_assoc. apply IH; [done|by rewrite Hc1, Hc|rewrite !length_app; cbn; lia|].
      rewrite Ht1, length_app, Nat.add_1_r, repeated_capacity_S, Ht.
      by rewrite <-(contents_length r Hr), Hc. }
  destruct (H [] repeated_field.empty_field) as (r & E & Hc & Ht); [apply empty_ok|done|done|done|].
  exists r. split; [done|]. split; [done|]. unfold repeated_field.Capacity. rewrite Ht.
  split; [done|]. apply repeated_capacity_bounds.
Qed.

Lemma repeated_field_capacity_witness :
  exists r, run 0 4 (OpAdd <$> replicate 9 7) repeated_field.empty_field = Ret r /\
    repeated_field.Capacity r = 16.
Proof.
  destruct (repeated_field_capacity 0 4 (replicate 9 7)) as (r & H1 & _ & H3 & _).
  - lia.
  - vm_compute. discriminate.
  - exists r. split; [exact H1|]. rewrite H3. vm_compute. reflexivity.
Defined.

(* ------------------------------------------------------------------ *)
(** ** Objects *)

(** The handlers of strings and of message classes. *)
Definition StringLaws : @TypeHandlerLaws (list byte) StringTypeHandler :=
  @Build_TypeHandlerLaws (list byte) StringTypeHandler (fun _ => True) (fun _ => eq_refl) (fun _ _ => eq_refl).

Definition GenericLaws (fields : list fdesc) : @TypeHandlerLaws generated.message (GenericTypeHandler fields) :=
  @Build_TypeHandlerLaws generated.message (GenericTypeHandler fields) (fun m => message_typed fields m = true)
    (fun _ => eq_refl) (CopyFrom_same fields).

(** C11. RepeatedPtrField, with strings or messages: any sequence of operations
    that its callers may call returns, with the objects that the same operations
    on a list leave.  The field owns what it has allocated: the objects of another
    field from which it merges stay as they are, and the destructor leaves the
    heap as it was before the first operation, with no object lost or deleted
    twice. *)
Theorem repeated_ptr_field_owns {T} `{TH : !TypeHandler T, TL : !TypeHandlerLaws T, PA : !repeated_ptr.PtrArray,
    PL : !PtrArrayLaws} (other : repeated_ptr.RepeatedPtrField) (h0 : gmap positive T) (ys xs : list T)
    (ocur oclr : list positive) (os : list ptr_op) :
  owns h0 other ys ocur oclr -> Forall object_ok ys -> ptr_spec_run ys os [] = Some xs ->
  Z.of_nat (run_weight ys os) <= limit ->
  exists h r, ptr_run other os h0 repeated_ptr.empty_field = Ret (h, r) /\
    repeated_ptr.size r = Z.of_nat (length xs) /\
    (forall i x, xs !! i = Some x -> repeated_ptr.Get (Z.of_nat i) h r = Ret x) /\
    (forall i y, ys !! i = Some y -> repeated_ptr.Get (Z.of_nat i) h other = Ret y) /\
    exists r', repeated_ptr.Destroy h r = Ret (h0, r').
Proof.
  intros Hoo Hok Hs Hn.
  destruct (ptr_run_done other ys os h0 repeated_ptr.empty_field [] xs [] [] ocur oclr) as
    (h & r & cur & clr & -> & Ho & Hoo' & Hmv); try done.
  { apply empty_owns. }
  { by intros p _ Hp%elem_of_nil. }
  exists h, r. split; [done|]. split.
  { destruct Ho as [[Hc _] _ Hxs _]. unfold repeated_ptr.size. by rewrite Hc, (holds_length _ _ _ Hxs). }
  split; [intros i x; by eapply get_owned|]. split; [intros i y; by eapply get_owned|].
  destruct (destroy_spec h r xs cur clr Ho) as (h' & r' & E & Hmv'). exists r'. rewrite E. do 2 f_equal.
  apply map_eq. intros p. destruct (moves_trans _ _ _ _ _ _ Hmv Hmv') as [Hsame _ _].
  apply Hsame; by intros Hp%elem_of_nil.
Qed.

(** An array that doubles, as the documentation of [Reserve] says. *)
Definition demo_reserve (n : Z) (r : repeated_ptr.RepeatedPtrField) : outcome repeated_ptr.RepeatedPtrField :=
  let total := repeated_ptr.total_size r in
  if n <=? total then Ret r
  else
    let total' := Z.max 4 (Z.max (2 * total) n) in
    let els := match repeated_ptr.rep r with Some (_, els) => els | None => [] end in
    Ret (repeated_ptr.mkRPF (repeated_ptr.current_size r) total'
           (Some (repeated_ptr.allocated r, els ++ replicate (Z.to_nat (total' - total)) None))).

#[local] Instance demo_array : repeated_ptr.PtrArray := {|
  repeated_ptr.Reserve := demo_reserve;
  repeated_ptr.InternalExtend n r := demo_reserve (repeated_ptr.current_size r + n) r
|}.

Lemma demo_reserve_room n r cur clr : layout r cur clr -> 0 <= n <= limit ->
  exists r', demo_reserve n r = Ret r' /\ layout r' cur clr /\ n <= repeated_ptr.total_size r'.
Proof.
  intros Hl Hn. pose proof (layout_sizes _ _ _ Hl) as [Ha Ht]. unfold demo_reserve, limit in *.
  destruct (Z.leb_spec n (repeated_ptr.total_size r)); [by exists r|]. eexists. split; [done|]. split; [|cbn; lia].
  destruct Hl as [Hc Hp]. split; [done|]. rewrite (pointers_allocated _ _ Hp). destruct Hp as [_ Hp].
  destruct (repeated_ptr.rep r) as [[k els]|].
  - destruct Hp as (-> & Hl & junk & ->). rewrite <-app_assoc.
    rewrite length_app, length_fmap in Hl. apply pointers_mk; [rewrite !length_app, length_replicate; rewrite length_app in Hl; lia|lia].
  - destruct Hp as [-> E]. apply (pointers_mk _ _ []); [cbn; rewrite length_replicate; lia|lia].
Qed.

#[local] Instance demo_array_laws : PtrArrayLaws.
Proof.
  split.
  - apply demo_reserve_room.
  - intros n r cur clr Hl Hn Hlim. apply (demo_reserve_room _ r cur clr Hl). destruct Hl as [Hc _]. lia.
Qed.

(** A field with one token, from which a client merges and copies. *)
Definition demo_token (b : byte) : generated.message :=
  generated.mkMessage [[VBytes [b]]; [VBytes []]; [VBytes []]; [VBytes [b; b]]] [].
Definition demo_other : repeated_ptr.RepeatedPtrField :=
  repeated_ptr.mkRPF 1 2 (Some (1, [Some 1%positive; None])).
Definition demo_client : list (ptr_op (T := generated.message)) :=
  [PtrAdd (demo_token x61); PtrMergeFrom; PtrAddAllocated (demo_token x62); PtrRemoveLast; PtrAddCleared;
   PtrMergeFrom; PtrReleaseLast; PtrSwapElements 0 1; PtrClear; PtrReleaseCleared; PtrAdd (demo_token x63);
   PtrCopyFrom; PtrAddAllocated (demo_token x64)].

Lemma repeated_ptr_field_owns_witness :
  let h0 : gmap positive generated.message := {[1%positive := demo_token x65]} in
  exists h r, @ptr_run _ (GenericTypeHandler proto.TokenProto) _ demo_other demo_client h0 repeated_ptr.empty_field =
      Ret (h, r) /\
    repeated_ptr.size r = 2 /\ exists r', repeated_ptr.Destroy h r = Ret (h0, r').
Proof.
  intros h0.
  destruct (@repeated_ptr_field_owns _ (GenericTypeHandler proto.TokenProto) (GenericLaws proto.TokenProto) demo_array
    demo_array_laws demo_other h0 [demo_token x65] [demo_token x65; demo_token x64] [1%positive] [] demo_client)
    as (h & r & H1 & H2 & _ & _ & H3).
  - split.
    + split; [reflexivity|]. split; [reflexivity|]. split; [reflexivity|]. split; [reflexivity|].
      exists [None]. reflexivity.
    + apply NoDup_singleton.
    + constructor; [reflexivity|constructor].
    + constructor.
  - constructor; [vm_compute; reflexivity|constructor].
  - vm_compute. reflexivity.
  - vm_compute. discriminate.
  - exists h, r. split; [exact H1|]. split; [exact H2|exact H3].
Defined.
