(* ===== verification/GeneratedTheorems.v ===== *)
(** * Theorems about the generated message classes

    The classes of common.proto, datanode.proto and namenode.proto: sizes, the
    round trip, the end of every parse, and the code of PacketHeaderProto. *)

From S2P Require Import Prelude Protobuf ProtobufFacts WireFormat WireFormatFacts GeneratedCode GeneratedFacts.
From S2P Require Import GeneratedProgress GeneratedTyped Protos Runtime.
Import runtime.

(* ------------------------------------------------------------------ *)
(** ** The header of a packet *)

(** The object of class PacketHeaderProto as an object of the generated code. *)
Definition opt {A} (f : A -> value) (x : option A) : list value :=
  match x with Some a => [f a] | None => [] end.

Definition header_message (h : PacketHeaderProto) : generated.message :=
  generated.mkMessage
    [opt VInt (h_offsetinblock h); opt VInt (h_seqno h); opt VBool (h_lastpacketinblock h);
     opt VInt (h_datalen h); opt VBool (h_syncblock h)]
    (h_unknown_fields h).

Definition header_result (r : parse_result) : option (generated.message * bool * list byte) :=
  match r with
  | (h, Some (fin, rest)) => Some (header_message h, fin, rest)
  | (_, None) => None
  end.

(** The case of the field [n], up to the next turn of the loop. *)
Ltac header_field n r :=
  cbn [mbind option_bind generated.read_field];
  match goal with |- context [MakeTag n (wire_type ?t)] =>
    let x := eval vm_compute in (MakeTag n (wire_type t)) in change (MakeTag n (wire_type t)) with x;
    match goal with |- context [if ?tag =? x then _ else _] => destruct (tag =? x) end end;
  [|by rewrite bind_Ret];
  cbn [ReadPrimitive]; unfold as_int, read_field;
  destruct r as [[v l2]|]; [|done];
  cbn -[merge_loop generated.merge_loop proto.PacketHeaderProto decide]; rewrite ?app_nil_r;
  try (rewrite decide_False by (cbn; lia)).

Section header.
Context `{PR : !ProtobufRuntime, WR : !WireRuntime}.

Lemma header_serialize h :
  generated.serialize proto.PacketHeaderProto (header_message h) = InternalSerializeWithCachedSizesToArray h.
Proof using Type.
  unfold generated.serialize, InternalSerializeWithCachedSizesToArray, header_message.
  cbn [generated.m_fields generated.m_unknown].
  destruct h as [[o|] [s|] [b|] [d|] [y|] u]; cbn -[to_byte le_bytes]; rewrite ?app_nil_r, <-?app_assoc; done.
Qed.

Lemma header_size h : generated.ByteSize proto.PacketHeaderProto (header_message h) = ByteSize h.
Proof using Type. by destruct h as [[o|] [s|] [b|] [d|] [y|] u]. Qed.

Lemma header_initialized h :
  generated.IsInitialized proto.PacketHeaderProto (header_message h) = IsInitialized h.
Proof using Type. by destruct h as [[o|] [s|] [b|] [d|] [y|] u]. Qed.

Lemma header_merge_loop rec fuel l h :
  generated.merge_loop rec fuel proto.PacketHeaderProto l (header_message h) =
  r ← merge_loop fuel l h; Ret (header_result r).
Proof using Type.
  revert l h. induction fuel as [|fuel IH]; intros l h; [done|].
  cbn [generated.merge_loop merge_loop].
  change (generated.cutoff proto.PacketHeaderProto) with 127.
  destruct (ReadTagWithCutoff 127 l) as [[[tag ok] fin] l1].
  match goal with |- (if negb ok then ?u else _) = _ =>
    assert (u = r ← handle_unusual (merge_loop fuel) tag fin l1 h; Ret (header_result r)) as Hu end.
  { unfold handle_unusual. destruct ((tag =? 0) || _); [done|].
    destruct (SkipField tag l1) as [[d l2]|]; [|done]. by rewrite <-IH. }
  destruct ok; [|exact Hu]. cbn [negb].
  unfold generated.find_field, proto.PacketHeaderProto at 1.
  rewrite (Z.eqb_sym 1), (Z.eqb_sym 2), (Z.eqb_sym 3), (Z.eqb_sym 4), (Z.eqb_sym 5).
  destruct (Z.shiftr tag 3 =? 1); [header_field 1 (ReadSFixed64 l1); exact (IH l2 (set_offset v h))|].
  destruct (Z.shiftr tag 3 =? 2); [header_field 2 (ReadSFixed64 l1); exact (IH l2 (set_seqno v h))|].
  destruct (Z.shiftr tag 3 =? 3); [header_field 3 (ReadBool l1); exact (IH l2 (set_last v h))|].
  destruct (Z.shiftr tag 3 =? 4); [header_field 4 (ReadSFixed32 l1); exact (IH l2 (set_datalen v h))|].
  destruct (Z.shiftr tag 3 =? 5); [|exact Hu]. header_field 5 (ReadBool l1).
  destruct (decide (l2 = [])) as [->|Hl].
  - by rewrite decide_True.
  - rewrite decide_False by tauto. exact (IH l2 (set_sync v h)).
Qed.

Lemma header_merge budget l h :
  generated.merge budget proto.PacketHeaderProto l (header_message h) =
  r ← MergePartialFromCodedStream l h; Ret (header_result r).
Proof using Type. destruct budget; apply header_merge_loop. Qed.
End header.

(** C27. The code generated for PacketHeaderProto, which the packets of the data
    node use, is an instance of the code generated for any class: its
    serialiser, its size, its check of the required fields and its parser are
    the generic ones on the fields that datanode.proto declares. *)
Theorem header_generated `{!ProtobufRuntime, !WireRuntime} (h : PacketHeaderProto) (budget : nat) (l : list byte) :
  generated.serialize proto.PacketHeaderProto (header_message h) = InternalSerializeWithCachedSizesToArray h /\
  generated.ByteSize proto.PacketHeaderProto (header_message h) = ByteSize h /\
  generated.IsInitialized proto.PacketHeaderProto (header_message h) = IsInitialized h /\
  generated.merge budget proto.PacketHeaderProto l (header_message h) =
    r ← MergePartialFromCodedStream l h; Ret (header_result r).
Proof.
  split; [apply header_serialize|]. split; [apply header_size|]. split; [apply header_initialized|].
  apply header_merge.
Qed.

(* ------------------------------------------------------------------ *)
(** ** All classes *)

Lemma all_messages_fit fields : fields ∈ proto.all_messages ->
  type_ok (TYPE_MESSAGE fields) = true /\
  (type_depth (TYPE_MESSAGE fields) <= S generated.kDefaultRecursionLimit)%nat.
Proof.
  intros Hin. assert (forallb class_fits proto.all_messages = true) as H by (vm_compute; reflexivity).
  rewrite forallb_forall in H. apply class_fits_spec, H. by apply list_elem_of_In.
Qed.

(** C8. Every message class of the protocol, nested messages and packed fields
    included: an object whose fields have values of their types, whose required
    fields are set and whose size fits into an [int] is written in [ByteSize]
    bytes, and [ParseFromArray] makes the same object of these bytes. *)
Theorem message_roundtrip `{PR : !ProtobufRuntime, WR : !WireRuntime, RL : !RuntimeLaws, WL : !WireLaws}
    (fields : list fdesc) (m : generated.message) :
  fields ∈ proto.all_messages -> message_typed fields m = true -> generated.IsInitialized fields m = true ->
  generated.ByteSize fields m < 2 ^ 31 ->
  Z.of_nat (length (generated.serialize fields m)) = generated.ByteSize fields m /\
  generated.parse fields (generated.serialize fields m) = Ret (Some m).
Proof.
  intros Hin Hm Hi Hlt. destruct (all_messages_fit _ Hin) as [Hok Hd]. split.
  - symmetry. by apply ByteSize_length.
  - by rewrite message_parse_serialize, Hi.
Qed.

(** An object of class LocatedBlockProto, as the name node sends it. *)
Definition demo_located : generated.message :=
  generated.mkMessage
    [[VMessage [[VBytes (replicate 130 x61)]; [VInt 1073741825]; [VInt 1]; [VInt (2 ^ 64 - 1)]] []];
     [VInt 300];
     [VMessage [[VMessage [[VBytes [x31]]; [VBytes []]; [VBytes []]; [VInt 50010]; [VInt 0]; [VInt 0]; []] []];
                []; []; []; []; []; []; []; []; [VInt 2]; []; []; []; []] []];
     [VBool false];
     [VMessage [[VBytes []]; [VBytes []]; [VBytes []]; [VBytes [x62]]] []];
     [VBool true; VBool false; VBool true];
     [VInt 1; VInt 4];
     [VBytes [x63; x64]; VBytes []]]
    [].

Lemma message_roundtrip_witness :
  generated.ByteSize proto.LocatedBlockProto demo_located = 207 /\
  generated.parse proto.LocatedBlockProto (generated.serialize proto.LocatedBlockProto demo_located) =
    Ret (Some demo_located).
Proof.
  split; [vm_compute; reflexivity|].
  apply (message_roundtrip proto.LocatedBlockProto demo_located).
  - apply list_elem_of_In. vm_compute. tauto.
  - vm_compute. reflexivity.
  - vm_compute. reflexivity.
  - vm_compute. reflexivity.
Defined.

(** C24. [ParseFromArray] of every class ends on every input, whatever the bytes
    are: the loop over the fields, the loop over a packed field and the
    recursion into messages take bytes from the input, or the limit on nested
    messages ends them. *)
Theorem message_parse_total `{PR : !ProtobufRuntime, WR : !WireRuntime, RP : !RuntimeProgress, WP : !WireProgress}
    (fields : list fdesc) (l : list byte) : exists r, generated.parse fields l = Ret r.
Proof. apply parse_ends. Qed.

Lemma message_parse_total_witness :
  exists r, generated.parse proto.LocatedBlockProto [xff; x01; x0a] = Ret r.
Proof. exact (message_parse_total proto.LocatedBlockProto [xff; x01; x0a]). Defined.

(** C36. What [ParseFromArray] accepts is an object of the class, whatever the
    bytes were: integers are in the range of their types, enums have declared
    values (others are kept as unknown fields), a singular field has at most one
    value, every required field is set, and the same holds for the messages inside
    it, at every depth. *)
Theorem message_parse_typed `{PR : !ProtobufRuntime, WR : !WireRuntime, WT : !WireTyped}
    (fields : list fdesc) (l : list byte) (m : generated.message) : generated.parse fields l = Ret (Some m) ->
  well_typed (TYPE_MESSAGE fields) (generated.message_value m) = true /\ generated.IsInitialized fields m = true.
Proof. apply parse_typed. Qed.

(** An acknowledgement with a status that the enum does not declare, twice the
    number, and a field that the class does not have. *)
Lemma message_parse_typed_witness :
  let l := [x08; x03; x10; x63; x10; x01; x08; x05; x78; x07] in
  exists m, generated.parse proto.PipelineAckProto l = Ret (Some m) /\
    generated.m_fields m = [[VInt (-3)]; [VInt 1]; []; []] /\ generated.m_unknown m = [x10; x63; x78; x07] /\
    well_typed (TYPE_MESSAGE proto.PipelineAckProto) (generated.message_value m) = true.
Proof.
  intros l. set (m := generated.mkMessage [[VInt (-3)]; [VInt 1]; []; []] [x10; x63; x78; x07]).
  assert (generated.parse proto.PipelineAckProto l = Ret (Some m)) as E by (vm_compute; reflexivity).
  exists m. split; [exact E|]. split; [reflexivity|]. split; [reflexivity|].
  exact (proj1 (message_parse_typed proto.PipelineAckProto l m E)).
Defined.

(** A packed field may be sent in pieces, some of them as single values.  A
    piece of single values is read up to the end of the piece, but with the tag
    of the packed form: a packed piece behind it is taken for one more value. *)
Example packed_after_single :
  let ack flags := generated.mkMessage [[VInt 0]; []; []; flags] [] in
  generated.parse proto.PipelineAckProto [x08; x00; x20; x01] = Ret (Some (ack [VInt 1])) /\
  generated.parse proto.PipelineAckProto [x08; x00; x22; x02; x05; x06] = Ret (Some (ack [VInt 5; VInt 6])) /\
  generated.parse proto.PipelineAckProto [x08; x00; x20; x01; x22; x02; x05; x06] = Ret None.
Proof. vm_compute. done. Qed.

(** C25. [MergeFrom] and the parser agree: parsing the bytes of two objects of a
    class, one behind the other, gives the first object with the second one
    merged into it; and [CopyFrom] makes an equal object. *)
Theorem message_merge `{PR : !ProtobufRuntime, WR : !WireRuntime, RL : !RuntimeLaws, WL : !WireLaws}
    (fields : list fdesc) (m1 m2 : generated.message) :
  fields ∈ proto.all_messages -> message_typed fields m1 = true -> message_typed fields m2 = true ->
  generated.ByteSize fields m1 < 2 ^ 31 -> generated.ByteSize fields m2 < 2 ^ 31 ->
  generated.merge generated.kDefaultRecursionLimit fields
      (generated.serialize fields m1 ++ generated.serialize fields m2) (generated.default_message fields) =
    Ret (Some (generated.MergeFrom fields m2 m1, true, [])) /\
  generated.CopyFrom fields m2 = m2.
Proof.
  intros Hin H1 H2 L1 L2. destruct (all_messages_fit _ Hin) as [Hok Hd]. split.
  - by apply merge_concat.
  - by apply CopyFrom_same.
Qed.

(** An object with some fields set, to be merged into [demo_located]. *)
Definition demo_update : generated.message :=
  generated.mkMessage
    [[VMessage [[]; [VInt 7]; []; []] []]; []; []; [VBool true]; []; [VBool false]; []; [VBytes [x65]]] [].

Lemma message_merge_witness :
  generated.m_fields (generated.MergeFrom proto.LocatedBlockProto demo_update demo_located) !! 3%nat =
    Some [VBool true] /\
  generated.merge generated.kDefaultRecursionLimit proto.LocatedBlockProto
      (generated.serialize proto.LocatedBlockProto demo_located ++
       generated.serialize proto.LocatedBlockProto demo_update)
      (generated.default_message proto.LocatedBlockProto) =
    Ret (Some (generated.MergeFrom proto.LocatedBlockProto demo_update demo_located, true, [])).
Proof.
  split; [vm_compute; reflexivity|].
  apply (message_merge proto.LocatedBlockProto demo_located demo_update).
  - apply list_elem_of_In. vm_compute. tauto.
  - vm_compute. reflexivity.
  - vm_compute. reflexivity.
  - vm_compute. reflexivity.
  - vm_compute. reflexivity.
Defined.
