(* ===== verification/Hrpc.v ===== *)
(** * HDFS framing

    hrpc.h: messages of variable length in frames on a socket.  A frame has
    its length in four big endian bytes and then up to three messages, each
    behind its size as a varint.  A socket is the list of the pieces in which
    the peer's bytes arrive: a [read] returns bytes of one piece only. *)

From S2P Require Import Prelude Protobuf.

(** A message class: [ByteSize], [SerializeWithCachedSizes], [IsInitialized] and
    [ParseFromArray]. *)
Class Message (T : Type) : Type := {
  message_size : T -> Z;
  Serialize : T -> list byte;
  initialized : T -> bool;
  ParseFromArray : list byte -> outcome (option T)
}.

(** What the framing relies on: an object whose fields have values of their
    types is written in as many bytes as [ByteSize] says, and read back if its
    required fields are set. *)
Class MessageLaws (T : Type) `{!Message T} : Type := {
  message_wf : T -> Prop;
  size_message (t : T) : message_wf t -> message_size t < 2 ^ 31 ->
    message_size t = Z.of_nat (length (Serialize t));
  parse_message (t : T) : message_wf t -> message_size t < 2 ^ 31 ->
    ParseFromArray (Serialize t) = Ret (if initialized t then Some t else None)
}.

(** Parsing ends. *)
Class MessageEnds (T : Type) `{!Message T} : Prop :=
  parse_returns l : exists r : option T, ParseFromArray l = Ret r.

(** Objects of less than [bound] bytes, and those that are complete. *)
Definition fits {T} `{!Message T, !MessageLaws T} (bound : Z) (t : T) : Prop :=
  message_wf t /\ message_size t < bound.
Definition sendable {T} `{!Message T, !MessageLaws T} (bound : Z) (t : T) : Prop :=
  fits bound t /\ initialized t = true.

(* ------------------------------------------------------------------ *)
(** ** Writing *)

Section write.
Context `{!ProtobufRuntime}.

Definition GetDelimitedLength {T} `{!Message T} (message : T) : Z :=
  u64 (message_size message + VarintSize64 (message_size message)).

(** [WriteVarint32(a.ByteSize())] and [SerializeWithCachedSizes]. *)
Definition write_delimited {T} `{!Message T} (a : T) : list byte :=
  WriteVarint32ToArray (u32 (message_size a)) ++ Serialize a.

Definition HrpcWrite1 {T1} `{!Message T1} (a1 : T1) : list byte :=
  let len := u32 (GetDelimitedLength a1) in
  be_bytes 4 len ++ write_delimited a1.

Definition HrpcWrite2 {T1 T2} `{!Message T1, !Message T2} (a1 : T1) (a2 : T2) : list byte :=
  let len := u32 (GetDelimitedLength a1) in
  let len := u32 (len + GetDelimitedLength a2) in
  be_bytes 4 len ++ write_delimited a1 ++ write_delimited a2.

Definition HrpcWrite3 {T1 T2 T3} `{!Message T1, !Message T2, !Message T3}
    (a1 : T1) (a2 : T2) (a3 : T3) : list byte :=
  let len := u32 (GetDelimitedLength a1) in
  let len := u32 (len + GetDelimitedLength a2) in
  let len := u32 (len + GetDelimitedLength a3) in
  be_bytes 4 len ++ write_delimited a1 ++ write_delimited a2 ++ write_delimited a3.
End write.

(* ------------------------------------------------------------------ *)
(** ** Reading *)

(** The seven low bits of a byte, shifted: an expression of type [int] that is then
    converted to [uint64_t]. *)
Definition shift_group (b : byte) (shift : Z) : outcome Z :=
  let x := Z.land (byte_val b) 0x7f in
  if (32 <=? shift) || (2 ^ 32 <=? x * 2 ^ shift) then Undef
  else Ret (u64 (sint 32 (x * 2 ^ shift))).

(** [ReadVariant]: the value and the rest, or [None] for -1. *)
Fixpoint read_variant (l : list byte) (shift res : Z) : outcome (option (Z * list byte)) :=
  match l with
  | [] => Ret None
  | b :: l =>
      g ← shift_group b shift;
      let res := Z.lor res g in
      if 0x80 <=? byte_val b then read_variant l (shift + 7) res
      else Ret (Some (res, l))
  end.

Definition ReadVariant (l : list byte) : outcome (option (Z * list byte)) := read_variant l 0 0.

(** [ReadDelimited(buf, t)]: the message and what is left of [buf].  The sum
    of a pointer and a number of 2^63 or more is undefined. *)
Definition ReadDelimited {T} `{!Message T} (buf : list byte) : outcome (option (T * list byte)) :=
  r ← ReadVariant buf;
  match r with
  | None => Ret None
  | Some (len, p) =>
      if 2 ^ 63 <=? len then Undef
      else if Z.of_nat (length p) <? len then Ret None
      else
        t ← ParseFromArray (take (Z.to_nat len) p);
        Ret (match t with None => None | Some t => Some (t, drop (Z.to_nat len) p) end)
  end.

(** The pieces that have arrived on a socket; none of them is empty. *)
Definition socket : Type := list (list byte).

(** [read(fd, buf, n)]: at most [n] bytes of the first piece. *)
Definition read (n : nat) (fd : socket) : list byte * socket :=
  match fd with
  | [] => ([], [])
  | c :: fd => if (length c <=? n)%nat then (c, fd) else (take n c, drop n c :: fd)
  end.

(** [HrpcRead(fd, a1)]: the bytes of a frame, or [None] for false. *)
Definition HrpcRead (fd : socket) : option (list byte) * socket :=
  let '(len, fd) := read 4 fd in
  if negb (length len =? 4)%nat then (None, fd)
  else
    let n := Z.to_nat (be_val len) in
    let '(a1, fd) := read n fd in
    if negb (length a1 =? n)%nat then (None, fd) else (Some a1, fd).

(** [HrpcRead(fd, a1, buf)] *)
Definition HrpcRead1 {T1} `{!Message T1} (fd : socket) : outcome (option (T1 * list byte) * socket) :=
  let '(r, fd) := HrpcRead fd in
  match r with
  | None => Ret (None, fd)
  | Some a2 => t ← ReadDelimited a2; Ret (t, fd)
  end.

(** [HrpcRead(fd, a1, a2, buf)] *)
Definition HrpcRead2 {T1 T2} `{!Message T1, !Message T2} (fd : socket)
    : outcome (option (T1 * T2 * list byte) * socket) :=
  '(r, fd) ← HrpcRead1 fd;
  match r with
  | None => Ret (None, fd)
  | Some (a1, a3) =>
      t ← ReadDelimited a3;
      Ret (match t with None => None | Some (a2, buf) => Some (a1, a2, buf) end, fd)
  end.
