(* ===== verification/HrpcFacts.v ===== *)
(** * Round trips of HDFS frames

    Varints, delimited messages and frames survive writing and reading; what
    happens to sizes of 2^31 and more, and to frames that arrive in pieces. *)

From S2P Require Import Prelude Protobuf ProtobufFacts Hrpc.

(* ------------------------------------------------------------------ *)
(** ** Varints *)

Lemma land_shifted a b s : 0 <= s -> 0 <= a < 2 ^ s -> Z.land a (Z.shiftl b s) = 0.
Proof.
  intros Hs Ha. apply Z.bits_inj'. intros n Hn. rewrite Z.land_spec, Z.bits_0, Z.shiftl_spec by done.
  destruct (Z.lt_ge_cases n s); [by rewrite (Z.testbit_neg_r b), andb_false_r by lia|].
  assert (Z.testbit a n = false) as ->; [|done]. apply Z.testbit_false; [lia|].
  rewrite Z.div_small; [done|]. split; [lia|]. apply Z.lt_le_trans with (2 ^ s); [lia|].
  apply Z.pow_le_mono_r; lia.
Qed.

Lemma lor_add a b s : 0 <= s -> 0 <= a < 2 ^ s -> Z.lor a (b * 2 ^ s) = a + b * 2 ^ s.
Proof.
  intros Hs Ha. rewrite <-Z.shiftl_mul_pow2 by done.
  rewrite <-Z.add_lor_land, land_shifted by done. lia.
Qed.

Lemma byte_group v : 0 <= v ->
  byte_val (to_byte (Z.lor v 0x80)) = 128 + v mod 128 /\
  Z.land (byte_val (to_byte (Z.lor v 0x80))) 0x7f = v mod 128.
Proof.
  intros Hv. assert (byte_val (to_byte (Z.lor v 0x80)) = 128 + v mod 128) as E.
  { rewrite val_to_byte. change 256 with (2 ^ 8). change (v mod 128) with (v mod 2 ^ 7).
    rewrite <-!Z.land_ones by lia. rewrite Z.land_lor_distr_l.
    change (Z.land 0x80 (Z.ones 8)) with (1 * 2 ^ 7).
    assert (Z.lor (Z.land v (Z.ones 8)) (1 * 2 ^ 7) = Z.lor (Z.land v (Z.ones 7)) (1 * 2 ^ 7)) as ->.
    { apply Z.bits_inj'. intros n Hn. rewrite !Z.lor_spec, !Z.land_spec.
      destruct (Z.eq_dec n 7) as [->|]; [by rewrite !orb_true_r|].
      f_equal. f_equal.
      destruct (Z.lt_ge_cases n 7); [by rewrite !Z.ones_spec_low by lia|by rewrite !Z.ones_spec_high by lia]. }
    rewrite lor_add; [lia|lia|]. rewrite Z.land_ones by lia. apply Z.mod_pos_bound. lia. }
  split; [done|]. rewrite E. change 0x7f with (Z.ones 7). rewrite Z.land_ones by lia.
  change (2 ^ 7) with 128. rewrite <-Z.add_mod_idemp_l by lia. change (128 mod 128) with 0.
  rewrite Z.add_0_l. apply Z.mod_mod. lia.
Qed.

Lemma byte_last v : 0 <= v < 128 ->
  byte_val (to_byte v) = v /\ Z.land (byte_val (to_byte v)) 0x7f = v.
Proof.
  intros Hv. rewrite val_to_byte, Z.mod_small by lia. split; [done|].
  change 0x7f with (Z.ones 7). rewrite Z.land_ones by lia. apply Z.mod_small. done.
Qed.

(** The value that [ReadVariant] gives for the varint of [v]: the last group
    of a value of 2^31 or more sets the sign of an [int]. *)
Definition sign_extend (v : Z) : Z := if v <? 2 ^ 31 then v else v + (2 ^ 64 - 2 ^ 32).

Lemma lor_sign res v s : 0 <= s <= 28 -> 0 <= res < 2 ^ s ->
  Z.lor res (sign_extend (v * 2 ^ s)) = res + sign_extend (v * 2 ^ s).
Proof.
  intros Hs Hres. unfold sign_extend. destruct (v * 2 ^ s <? 2 ^ 31); [apply lor_add; [lia|done]|].
  replace (v * 2 ^ s + (2 ^ 64 - 2 ^ 32)) with ((v + (2 ^ (64 - s) - 2 ^ (32 - s))) * 2 ^ s);
    [apply lor_add; [lia|done]|].
  rewrite Z.mul_add_distr_r, Z.mul_sub_distr_r, <-!Z.pow_add_r by lia.
  by replace (64 - s + s) with 64 by lia; replace (32 - s + s) with 32 by lia.
Qed.

Lemma shift_group_spec b s v : Z.land (byte_val b) 0x7f = v -> 0 <= s < 32 -> 0 <= v ->
  v * 2 ^ s < 2 ^ 32 -> shift_group b s = Ret (sign_extend (v * 2 ^ s)).
Proof.
  intros Eb Hs Hv Hb. unfold shift_group, sign_extend. rewrite Eb.
  assert (0 <= v * 2 ^ s) by (apply Z.mul_nonneg_nonneg; [done|lia]).
  destruct (Z.leb_spec 32 s); [lia|]. destruct (Z.leb_spec (2 ^ 32) (v * 2 ^ s)); [lia|]. cbn [orb].
  f_equal. unfold sint. rewrite Z.mod_small by lia. change (32 - 1) with 31. unfold u64.
  destruct (Z.ltb_spec (v * 2 ^ s) (2 ^ 31)); [rewrite Z.mod_small; lia|].
  rewrite <-(Z.mod_add _ 1), Z.mod_small by lia. lia.
Qed.

Lemma read_varint_loop fuel k v res rest : (k + fuel = 4)%nat ->
  let s := 7 * Z.of_nat k in
  0 <= v -> v * 2 ^ s < 2 ^ 32 -> 0 <= res < 2 ^ s ->
  read_variant (varint_loop fuel v ++ rest) s res = Ret (Some (res + sign_extend (v * 2 ^ s), rest)).
Proof.
  revert k v res. induction fuel as [|fuel IH]; intros k v res Hk s Hv Hb Hres;
    assert (0 < 2 ^ s) as Hpos by (apply Z.pow_pos_nonneg; lia);
    cbn [varint_loop]; destruct (Z.geb_spec v 0x80) as [Hge|Hlt].
  - subst s. replace k with 4%nat in * by lia. change (2 ^ (7 * Z.of_nat 4)) with (2 ^ 28) in *. lia.
  - destruct (byte_last v ltac:(lia)) as [Eb El]. cbn [app read_variant].
    rewrite (shift_group_spec _ s v El) by lia. rewrite bind_Ret, Eb.
    destruct (Z.leb_spec 0x80 v); [lia|]. do 3 f_equal. apply lor_sign; [lia|done].
  - destruct (byte_group v Hv) as [Eb El]. cbn [app read_variant].
    pose proof (Z.mod_pos_bound v 128 ltac:(lia)) as Hm.
    assert (2 ^ s <= 2 ^ 21) as H21 by (apply Z.pow_le_mono_r; lia).
    rewrite (shift_group_spec _ s _ El) by nia. rewrite bind_Ret, Eb.
    destruct (Z.leb_spec 0x80 (128 + v mod 128)); [|lia].
    unfold sign_extend at 1. destruct (Z.ltb_spec (v mod 128 * 2 ^ s) (2 ^ 31)); [|nia].
    rewrite lor_add by lia. rewrite Z.shiftr_div_pow2 by lia. change (2 ^ 7) with 128.
    replace (s + 7) with (7 * Z.of_nat (S k)) by lia.
    assert (2 ^ (7 * Z.of_nat (S k)) = 128 * 2 ^ s) as Es.
    { unfold s. replace (7 * Z.of_nat (S k)) with (7 + 7 * Z.of_nat k) by lia. by rewrite Z.pow_add_r by lia. }
    pose proof (Z.div_mod v 128 ltac:(lia)) as Hdm. pose proof (Z.div_pos v 128 Hv ltac:(lia)).
    rewrite (IH (S k)); [|lia|done|rewrite Es; nia|rewrite Es; nia]. rewrite Es.
    do 3 f_equal. unfold sign_extend.
    replace (v * 2 ^ s) with (v / 128 * (128 * 2 ^ s) + v mod 128 * 2 ^ s) by nia.
    destruct (Z.ltb_spec (v / 128 * (128 * 2 ^ s)) (2 ^ 31)),
      (Z.ltb_spec (v / 128 * (128 * 2 ^ s) + v mod 128 * 2 ^ s) (2 ^ 31)); try lia.
    exfalso. assert (2 ^ 31 = 2 ^ (24 - s) * (128 * 2 ^ s)) as E31.
    { change 128 with (2 ^ 7). rewrite <-!Z.pow_add_r by lia. f_equal. lia. }
    set (P := 2 ^ (24 - s)) in *. assert (v / 128 < P) by nia. nia.
  - destruct (byte_last v ltac:(lia)) as [Eb El]. cbn [app read_variant].
    rewrite (shift_group_spec _ s v El) by lia. rewrite bind_Ret, Eb.
    destruct (Z.leb_spec 0x80 v); [lia|]. do 3 f_equal. apply lor_sign; [lia|done].
Qed.

(** All sizes of 32 bits. *)
Lemma ReadVariant_write v rest : 0 <= v < 2 ^ 32 ->
  ReadVariant (WriteVarint32ToArray v ++ rest) = Ret (Some (sign_extend v, rest)).
Proof.
  intros Hv. unfold ReadVariant, WriteVarint32ToArray.
  pose proof (read_varint_loop 4 0 v 0 rest eq_refl) as H. cbv zeta in H.
  change (7 * Z.of_nat 0) with 0 in H. rewrite Z.pow_0_r, Z.mul_1_r, Z.add_0_l in H. apply H; lia.
Qed.

Lemma length_varint v : 0 <= v < 2 ^ 32 -> (1 <= length (WriteVarint32ToArray v) <= 5)%nat.
Proof.
  assert (forall fuel v, 0 <= v < 2 ^ (7 * Z.of_nat (S fuel)) ->
    (1 <= length (varint_loop fuel v) <= S fuel)%nat) as H.
  { intros fuel. induction fuel as [|fuel IH]; intros w Hw; cbn [varint_loop];
      destruct (Z.geb_spec w 0x80); cbn [length]; try lia.
    specialize (IH (Z.shiftr w 7)). rewrite Z.shiftr_div_pow2 in IH by lia.
      rewrite Z.shiftr_div_pow2 by lia.
      assert (0 <= w / 2 ^ 7 < 2 ^ (7 * Z.of_nat (S fuel))); [|lia].
      split; [apply Z.div_pos; lia|]. apply Z.div_lt_upper_bound; [lia|].
      rewrite <-Z.pow_add_r by lia. replace (7 + 7 * Z.of_nat (S fuel)) with (7 * Z.of_nat (S (S fuel))) by lia. lia. }
  intros Hv. apply (H 4%nat). change (2 ^ (7 * Z.of_nat 5)) with (2 ^ 35). lia.
Qed.

(* ------------------------------------------------------------------ *)
(** ** Messages and frames *)

Section frames.
Context `{!ProtobufRuntime, !RuntimeLaws}.

Lemma fits_le {T} `{!Message T, !MessageLaws T} (t : T) b b' : b <= b' -> fits b t -> fits b' t.
Proof. intros Hb [Hw Hs]. split; [done|lia]. Qed.

Lemma sendable_le {T} `{!Message T, !MessageLaws T} (t : T) b b' : b <= b' -> sendable b t -> sendable b' t.
Proof. intros Hb [Hf Hi]. split; [by eapply fits_le|done]. Qed.

Lemma fits_length {T} `{!Message T, !MessageLaws T} (t : T) : fits (2 ^ 31) t ->
  message_size t = Z.of_nat (length (Serialize t)).
Proof. intros [Hw Hs]. by apply size_message. Qed.

Lemma ReadDelimited_fits {T} `{!Message T, !MessageLaws T} (t : T) rest : fits (2 ^ 31) t ->
  ReadDelimited (write_delimited t ++ rest) = Ret (if initialized t then Some (t, rest) else None).
Proof.
  intros Hf. pose proof (fits_length t Hf) as El. destruct Hf as [Hw Hs]. rewrite El in Hs.
  unfold ReadDelimited, write_delimited. rewrite El.
  rewrite <-app_assoc, u32_id by lia. rewrite ReadVariant_write, bind_Ret by lia.
  unfold sign_extend. destruct (Z.ltb_spec (Z.of_nat (length (Serialize t))) (2 ^ 31)); [|lia].
  destruct (Z.leb_spec (2 ^ 63) (Z.of_nat (length (Serialize t)))); [lia|].
  destruct (Z.ltb_spec (Z.of_nat (length (Serialize t ++ rest))) (Z.of_nat (length (Serialize t))));
    [rewrite length_app in *; lia|].
  rewrite Nat2Z.id, take_app_length, drop_app_length, parse_message by (done || lia).
  rewrite bind_Ret. by destruct (initialized t).
Qed.

Lemma ReadDelimited_write {T} `{!Message T, !MessageLaws T} (t : T) rest : sendable (2 ^ 31) t ->
  ReadDelimited (write_delimited t ++ rest) = Ret (Some (t, rest)).
Proof. intros [Hf Hi]. by rewrite ReadDelimited_fits, Hi by done. Qed.

Lemma length_delimited {T} `{!Message T, !MessageLaws T} (t : T) : fits (2 ^ 31) t ->
  GetDelimitedLength t = Z.of_nat (length (write_delimited t)).
Proof.
  intros Hf. pose proof (fits_length t Hf) as El. destruct Hf as [Hw Ht]. rewrite El in Ht.
  unfold GetDelimitedLength, write_delimited. rewrite El.
  rewrite u32_id, length_app by lia. rewrite varint_size by lia.
  pose proof (length_varint (Z.of_nat (length (Serialize t)))) as Hvar. specialize (Hvar ltac:(lia)).
  unfold u64. rewrite Z.mod_small by lia. lia.
Qed.

(** A frame that arrives in one piece, with the bytes behind it. *)
Definition next_pieces (rest : list byte) (fd : socket) : socket :=
  if decide (rest = []) then fd else rest :: fd.

Lemma HrpcRead_frame body rest fd : Z.of_nat (length body) < 2 ^ 32 -> body <> [] ->
  HrpcRead ((be_bytes 4 (Z.of_nat (length body)) ++ body ++ rest) :: fd) = (Some body, next_pieces rest fd).
Proof.
  intros Hb Hne. unfold HrpcRead, read at 1. rewrite length_app, length_be_bytes.
  assert (0 < length body)%nat by (destruct body; [done|cbn; lia]).
  destruct (Nat.leb_spec (4 + length (body ++ rest)) 4); [rewrite length_app in *; lia|].
  rewrite take_app_length', drop_app_length' by (by rewrite length_be_bytes).
  rewrite length_be_bytes. cbn [Nat.eqb negb]. rewrite be_val_bytes.
  change (256 ^ Z.of_nat 4) with (2 ^ 32). rewrite Z.mod_small by lia. rewrite Nat2Z.id. unfold read.
  rewrite length_app. unfold next_pieces. destruct (decide (rest = [])) as [->|Hr].
  - rewrite app_nil_r, Nat.add_0_r, Nat.leb_refl, Nat.eqb_refl. done.
  - assert (0 < length rest)%nat by (destruct rest; [done|cbn; lia]).
    destruct (Nat.leb_spec (length body + length rest) (length body)); [lia|].
    by rewrite take_app_length, drop_app_length, Nat.eqb_refl.
Qed.

(** A frame that arrives in two pieces, split inside its body, is refused. *)
Lemma HrpcRead_split body1 body2 fd : Z.of_nat (length (body1 ++ body2)) < 2 ^ 32 ->
  body1 <> [] -> body2 <> [] ->
  HrpcRead ((be_bytes 4 (Z.of_nat (length (body1 ++ body2))) ++ body1) :: body2 :: fd) =
  (None, body2 :: fd).
Proof.
  intros Hb H1 H2. unfold HrpcRead, read at 1. rewrite length_app, length_be_bytes.
  assert (0 < length body1)%nat by (destruct body1; [done|cbn; lia]).
  assert (0 < length body2)%nat by (destruct body2; [done|cbn; lia]).
  destruct (Nat.leb_spec (4 + length body1) 4); [lia|].
  rewrite take_app_length', drop_app_length' by (by rewrite length_be_bytes).
  rewrite length_be_bytes. cbn [Nat.eqb negb]. rewrite be_val_bytes.
  change (256 ^ Z.of_nat 4) with (2 ^ 32). rewrite Z.mod_small by lia. rewrite Nat2Z.id. unfold read.
  rewrite length_app in *. destruct (Nat.leb_spec (length body1) (length body1 + length body2)); [|lia].
  destruct (Nat.eqb_spec (length body1) (length body1 + length body2)); [lia|]. done.
Qed.

Lemma delimited_bounds {T} `{!Message T, !MessageLaws T} (t : T) : fits (2 ^ 29) t ->
  fits (2 ^ 31) t /\ 1 <= Z.of_nat (length (write_delimited t)) < 2 ^ 30.
Proof.
  intros Hf. assert (fits (2 ^ 31) t) as Hf' by (eapply fits_le; [|done]; lia).
  pose proof (fits_length t Hf') as El. destruct Hf as [Hw Ht]. split; [done|].
  unfold write_delimited. rewrite El in *. rewrite length_app, u32_id by lia.
  pose proof (length_varint (Z.of_nat (length (Serialize t)))) as Hvar. specialize (Hvar ltac:(lia)). lia.
Qed.

(** The first message of a frame, and the bytes of the others. *)
Lemma HrpcRead1_frame {T} `{!Message T, !MessageLaws T} (t : T) more rest fd :
  sendable (2 ^ 29) t -> Z.of_nat (length more) < 2 ^ 31 ->
  HrpcRead1 ((be_bytes 4 (Z.of_nat (length (write_delimited t ++ more))) ++
    (write_delimited t ++ more) ++ rest) :: fd) = Ret (Some (t, more), next_pieces rest fd).
Proof.
  intros Ht Hm. pose proof (delimited_bounds t (proj1 Ht)). unfold HrpcRead1. rewrite HrpcRead_frame.
  - rewrite ReadDelimited_write, bind_Ret; [done|]. eapply sendable_le; [|done]. lia.
  - rewrite length_app. lia.
  - destruct (write_delimited t); [cbn in *; lia|done].
Qed.

Lemma HrpcRead1_write1 {T} `{!Message T, !MessageLaws T} (t : T) rest fd : sendable (2 ^ 29) t ->
  HrpcRead1 ((HrpcWrite1 t ++ rest) :: fd) = Ret (Some (t, []), next_pieces rest fd).
Proof.
  intros Ht. unfold HrpcWrite1. destruct (delimited_bounds t (proj1 Ht)).
  rewrite length_delimited, u32_id by (done || lia). rewrite <-app_assoc.
  pose proof (HrpcRead1_frame t [] rest fd Ht) as E. rewrite app_nil_r in E. by apply E.
Qed.

Lemma HrpcRead1_write2 {T1 T2} `{!Message T1, !Message T2, !MessageLaws T1, !MessageLaws T2}
    (a1 : T1) (a2 : T2) rest fd : sendable (2 ^ 29) a1 -> fits (2 ^ 29) a2 ->
  HrpcRead1 ((HrpcWrite2 a1 a2 ++ rest) :: fd) = Ret (Some (a1, write_delimited a2), next_pieces rest fd).
Proof.
  intros H1 H2. destruct (delimited_bounds a1 (proj1 H1)), (delimited_bounds a2 H2).
  unfold HrpcWrite2. rewrite !length_delimited, !u32_id by (done || (rewrite ?u32_id; lia)).
  rewrite <-Nat2Z.inj_add, <-length_app, <-app_assoc. apply HrpcRead1_frame; [done|lia].
Qed.

(** Both messages of a frame. *)
Lemma HrpcRead2_write2 {T1 T2} `{!Message T1, !Message T2, !MessageLaws T1, !MessageLaws T2}
    (a1 : T1) (a2 : T2) rest fd : sendable (2 ^ 29) a1 -> fits (2 ^ 29) a2 ->
  HrpcRead2 ((HrpcWrite2 a1 a2 ++ rest) :: fd) =
    Ret (if initialized a2 then Some (a1, a2, []) else None, next_pieces rest fd).
Proof.
  intros H1 H2. unfold HrpcRead2. rewrite HrpcRead1_write2, bind_Ret by done.
  rewrite <-(app_nil_r (write_delimited a2)), ReadDelimited_fits by (eapply fits_le; [|done]; lia).
  rewrite bind_Ret. by destruct (initialized a2).
Qed.

Lemma HrpcRead1_write3 {T1 T2 T3} `{!Message T1, !Message T2, !Message T3}
    `{!MessageLaws T1, !MessageLaws T2, !MessageLaws T3} (a1 : T1) (a2 : T2) (a3 : T3) rest fd :
  sendable (2 ^ 29) a1 -> fits (2 ^ 29) a2 -> fits (2 ^ 29) a3 ->
  HrpcRead1 ((HrpcWrite3 a1 a2 a3 ++ rest) :: fd) =
  Ret (Some (a1, write_delimited a2 ++ write_delimited a3), next_pieces rest fd).
Proof.
  intros H1 H2 H3. destruct (delimited_bounds a1 (proj1 H1)), (delimited_bounds a2 H2), (delimited_bounds a3 H3).
  unfold HrpcWrite3. rewrite !length_delimited, !u32_id by (done || (rewrite ?u32_id; rewrite ?u32_id; lia)).
  pose proof (HrpcRead1_frame a1 (write_delimited a2 ++ write_delimited a3) rest fd H1) as E.
  rewrite !length_app, !Nat2Z.inj_add, Z.add_assoc in E. rewrite <-!app_assoc in *. apply E. lia.
Qed.

(** Reading takes what it returns from the socket. *)
Lemma read_takes n fd l fd' : read n fd = (l, fd') ->
  length (concat fd) = (length l + length (concat fd'))%nat.
Proof using Type.
  destruct fd as [|c fd]; cbn; [by intros [= <- <-]|]. destruct (Nat.leb_spec (length c) n).
  - intros [= <- <-]. by rewrite length_app.
  - intros [= <- <-]. cbn. rewrite !length_app, length_take, length_drop. lia.
Qed.

Lemma HrpcRead_length fd body fd' : HrpcRead fd = (Some body, fd') ->
  (length (concat fd') + 4 <= length (concat fd))%nat.
Proof using Type.
  unfold HrpcRead. destruct (read 4 fd) as [len fd1] eqn:E1. apply read_takes in E1.
  destruct (Nat.eqb_spec (length len) 4) as [E|]; cbn [negb]; [|done].
  destruct (read _ fd1) as [a fd2] eqn:E2. apply read_takes in E2.
  destruct (negb _); [done|]. intros [= <- <-]. lia.
Qed.
End frames.
