(* ===== verification/Messages.v ===== *)
(** * Message objects

    Objects of the generated classes with the accessors that common.pb.h,
    datanode.pb.h and namenode.pb.h give them.  Every class is an instance of the
    interface that hrpc.h uses, and can be read from a stream behind its length. *)

From S2P Require Import Prelude Protobuf WireFormat GeneratedCode Hrpc.

(** An object of the class with the given fields. *)
Record msg (fields : list fdesc) : Type := mkMsg { body : generated.message }.
Arguments mkMsg {fields} body.
Arguments body {fields} m.

Definition new_message (fields : list fdesc) : msg fields := mkMsg (generated.default_message fields).

(* ------------------------------------------------------------------ *)
(** ** Accessors *)

(** Calls on an object, one after the other. *)
Declare Scope msg_scope.
Notation "m |> f" := (f m) (at level 61, left associativity, only parsing) : msg_scope.
#[global] Open Scope msg_scope.

Section accessors.
Context {fields : list fdesc}.

(** The values of the field with number [n]: at most one if it is not
    repeated, none if it is not set. *)
Definition values (n : Z) (m : msg fields) : list value :=
  match generated.find_field fields n with
  | Some (i, _) => default [] (generated.m_fields (body m) !! i)
  | None => []
  end.
Definition set_values (n : Z) (vs : list value) (m : msg fields) : msg fields :=
  match generated.find_field fields n with
  | Some (i, _) =>
      mkMsg (generated.mkMessage (<[i := vs]> (generated.m_fields (body m))) (generated.m_unknown (body m)))
  | None => m
  end.

(** [has_x()], and [x()] with the default value [d]. *)
Definition has (n : Z) (m : msg fields) : bool := match values n m with [] => false | _ :: _ => true end.
Definition as_Z (d : Z) (v : value) : Z := match v with VInt z => z | _ => d end.
Definition as_bool (d : bool) (v : value) : bool := match v with VBool b => b | _ => d end.
Definition as_bytes (v : value) : list byte := match v with VBytes s => s | _ => [] end.
Definition as_msg (sub : list fdesc) (v : value) : msg sub := mkMsg (generated.value_message v).

Definition get_int (n d : Z) (m : msg fields) : Z :=
  match values n m with [] => d | v :: _ => as_Z d v end.
Definition get_bool (n : Z) (d : bool) (m : msg fields) : bool :=
  match values n m with [] => d | v :: _ => as_bool d v end.
Definition get_bytes (n : Z) (m : msg fields) : list byte :=
  match values n m with [] => [] | v :: _ => as_bytes v end.
(** A message that is not set is the default instance. *)
Definition get_message (sub : list fdesc) (n : Z) (m : msg fields) : msg sub :=
  match values n m with [] => new_message sub | v :: _ => as_msg sub v end.

(** [set_x(v)], and [add_x(v)] of a repeated field; [mutable_x()->...] is a
    [set_message] of the changed message. *)
Definition set_int (n z : Z) : msg fields -> msg fields := set_values n [VInt z].
Definition set_bool (n : Z) (b : bool) : msg fields -> msg fields := set_values n [VBool b].
Definition set_bytes (n : Z) (s : list byte) : msg fields -> msg fields := set_values n [VBytes s].
Definition set_message {sub} (n : Z) (x : msg sub) : msg fields -> msg fields :=
  set_values n [generated.message_value (body x)].
Definition add_value (n : Z) (v : value) (m : msg fields) : msg fields := set_values n (values n m ++ [v]) m.
Definition add_message {sub} (n : Z) (x : msg sub) : msg fields -> msg fields :=
  add_value n (generated.message_value (body x)).
(** [erase(begin())] of a repeated field that is not empty. *)
Definition erase_first (n : Z) (m : msg fields) : msg fields := set_values n (tail (values n m)) m.
Definition get_messages (sub : list fdesc) (n : Z) (m : msg fields) : list (msg sub) :=
  as_msg sub <$> values n m.
End accessors.

(* ------------------------------------------------------------------ *)
(** ** The interface of hrpc.h *)

(** What [ParseFromCodedStream] leaves of a stream when it fails. *)
Class FailedParse : Type := failed_parse : list fdesc -> list byte -> list byte.

Section classes.
Context `{PR : !ProtobufRuntime, WR : !WireRuntime}.

#[export] Instance msg_message (fields : list fdesc) : Message (msg fields) := {|
  message_size m := generated.ByteSize fields (body m);
  Serialize m := generated.serialize fields (body m);
  initialized m := generated.IsInitialized fields (body m);
  ParseFromArray l :=
    r ← generated.parse fields l;
    Ret (match r with None => None | Some m => Some (mkMsg m) end)
|}.

(** [ReadLengthAndPushLimit], [ParseFromCodedStream] and
    [CheckEntireMessageConsumedAndPopLimit]: the object, or [None] for false, and
    what the stream still delivers. *)
Definition ParseDelimited `{!FailedParse} {fields : list fdesc} (l : list byte)
    : outcome (option (msg fields) * list byte) :=
  let '(inside, after) := ReadLengthAndPushLimit l in
  r ← generated.merge generated.kDefaultRecursionLimit fields inside (generated.default_message fields);
  Ret (match r with
       | Some (m, fin, rest) =>
           if generated.IsInitialized fields m then (if (fin : bool) then Some (mkMsg m) else None, rest ++ after)
           else (None, failed_parse fields l)
       | None => (None, failed_parse fields l)
       end).
End classes.
