(* ===== verification/MessageFacts.v ===== *)
(** * Facts about message objects

    Accessors see what was set and keep the types of the fields; the generated
    classes have the laws that the framing relies on. *)

From S2P Require Import Prelude Protobuf ProtobufFacts WireFormat WireFormatFacts GeneratedCode GeneratedFacts.
From S2P Require Import GeneratedProgress Hrpc HrpcFacts Messages.

(* ------------------------------------------------------------------ *)
(** ** Accessors *)

Definition msg_typed {fields} (m : msg fields) : Prop := message_typed fields (body m) = true.

Lemma find_field_spec fields n i f : generated.find_field fields n = Some (i, f) ->
  fields !! i = Some f /\ f.1.1 = n.
Proof.
  revert i. induction fields as [|[[n0 lab] t] fields IH]; intros i; [done|]. cbn [generated.find_field].
  destruct (Z.eqb_spec n0 n) as [->|]; [by intros [= <- <-]|].
  destruct (generated.find_field fields n) as [[j g]|]; [|done]. intros [= <- <-]. by apply IH.
Qed.

Section accessors.
Context {fields : list fdesc}.

Lemma msg_shape (m : msg fields) : msg_typed m -> length (generated.m_fields (body m)) = length fields.
Proof. intros [_ H]%message_typed_fields. by apply Forall2_length in H. Qed.

Lemma values_set_eq n vs (m : msg fields) : msg_typed m -> is_Some (generated.find_field fields n) ->
  values n (set_values n vs m) = vs.
Proof.
  intros Hm [[i f] E]. unfold values, set_values. rewrite E. cbn.
  rewrite list_lookup_insert_eq; [done|]. rewrite (msg_shape m Hm).
  apply find_field_spec in E as [E _]. by eapply lookup_lt_Some.
Qed.

Lemma values_set_ne n n' vs (m : msg fields) : n <> n' -> values n' (set_values n vs m) = values n' m.
Proof.
  intros Hn. unfold values, set_values. destruct (generated.find_field fields n) as [[i f]|] eqn:E; [|done].
  destruct (generated.find_field fields n') as [[j g]|] eqn:E'; [|done]. cbn.
  apply find_field_spec in E as [E ?], E' as [E' ?]. rewrite list_lookup_insert_ne; [done|]. congruence.
Qed.

(** A field gets values of its type. *)
Definition accepts (n : Z) (vs : list value) : Prop :=
  exists i f, generated.find_field fields n = Some (i, f) /\ field_typed f vs.

Lemma set_typed n vs (m : msg fields) : msg_typed m -> accepts n vs -> msg_typed (set_values n vs m).
Proof.
  unfold msg_typed, set_values. intros [Hu Hm]%message_typed_fields (i & f & E & Hf). rewrite E.
  apply message_typed_fields. cbn [body generated.m_unknown generated.m_fields]. split; [done|].
  apply find_field_spec in E as [E _]. revert Hm. generalize (generated.m_fields (body m)). intros F HF.
  rewrite <-(list_insert_id fields i f E). by apply Forall2_insert.
Qed.

Lemma values_typed n (m : msg fields) i f : msg_typed m -> generated.find_field fields n = Some (i, f) ->
  field_typed f (values n m).
Proof.
  intros [_ Hm]%message_typed_fields E. unfold values. rewrite E.
  apply find_field_spec in E as [E _]. destruct (Forall2_lookup_l _ _ _ _ _ Hm E) as (vs & -> & Hvs). done.
Qed.

Lemma new_typed : msg_typed (new_message fields).
Proof. apply default_typed. Qed.

Lemma values_new n : values n (new_message fields) = [].
Proof.
  unfold values. destruct (generated.find_field fields n) as [[i f]|]; [|done]. cbn.
  destruct (replicate (length fields) [] !! i) eqn:E; [|done]. apply lookup_replicate in E as [-> _]. done.
Qed.
End accessors.

(** The required fields are set, and the messages in the fields are
    initialised. *)
Definition field_init (f : fdesc) (vs : list value) : Prop :=
  (f.1.2 = LABEL_REQUIRED -> vs <> []) /\ Forall (fun v => generated.value_initialized f.2 v = true) vs.

Lemma initialized_fields fields m : length (generated.m_fields m) = length fields ->
  (generated.IsInitialized fields m = true <-> Forall2 field_init fields (generated.m_fields m)).
Proof.
  unfold generated.IsInitialized, generated.message_value. cbn [generated.value_initialized].
  destruct m as [vss u]. cbn [generated.m_fields]. revert vss.
  induction fields as [|[[n lab] t] fields IH]; intros [|vs vss] Hl; try done.
  cbn [zip_with forallb]. rewrite Forall2_cons, <-IH by (cbn in Hl; lia). rewrite andb_true_iff.
  unfold field_init. cbn [fst snd]. rewrite andb_true_iff, forallb_forall, Forall_forall.
  setoid_rewrite list_elem_of_In.
  assert (match lab with LABEL_REQUIRED => negb (bool_decide (vs = [])) | _ => true end = true <->
    (lab = LABEL_REQUIRED -> vs <> [])) as ->; [|done].
  destruct lab; try (by split). rewrite negb_true_iff, bool_decide_eq_false. tauto.
Qed.

Lemma values_init {fields} n (m : msg fields) i f : msg_typed m ->
  generated.IsInitialized fields (body m) = true -> generated.find_field fields n = Some (i, f) ->
  field_init f (values n m).
Proof.
  intros Hm Hi E. apply (initialized_fields _ _ (msg_shape m Hm)) in Hi. unfold values. rewrite E.
  apply find_field_spec in E as [E _]. by destruct (Forall2_lookup_l _ _ _ _ _ Hi E) as (vs & -> & Hvs).
Qed.

(** A message in a field. *)
Lemma get_message_typed {fields} sub n (m : msg fields) i lab :
  generated.find_field fields n = Some (i, (n, lab, TYPE_MESSAGE sub)) -> msg_typed m ->
  msg_typed (get_message sub n m).
Proof.
  intros E Hm. pose proof (values_typed n m _ _ Hm E) as [_ Hv]. unfold get_message.
  destruct (values n m) as [|v vs]; [apply new_typed|]. apply Forall_cons in Hv as [Hv _].
  apply typed_message in Hv as (b & -> & Hb). unfold msg_typed, as_msg. cbn [body]. by rewrite message_value_inv.
Qed.

Lemma get_message_init {fields} sub n (m : msg fields) i :
  generated.find_field fields n = Some (i, (n, LABEL_REQUIRED, TYPE_MESSAGE sub)) -> msg_typed m ->
  generated.IsInitialized fields (body m) = true ->
  generated.IsInitialized sub (body (get_message sub n m)) = true.
Proof.
  intros E Hm Hi. pose proof (values_init n m _ _ Hm Hi E) as [Hr Hv].
  pose proof (values_typed n m _ _ Hm E) as [_ Ht]. unfold get_message.
  destruct (values n m) as [|v vs]; [by destruct (Hr eq_refl)|]. apply Forall_cons in Hv as [Hv _], Ht as [Ht _].
  apply typed_message in Ht as (b & -> & Hb). unfold as_msg. cbn [body]. by rewrite message_value_inv.
Qed.

(** Numbers and strings. *)
Lemma get_int_typed {fields} n d (m : msg fields) i lab t :
  generated.find_field fields n = Some (i, (n, lab, t)) -> typed t (VInt d) = true -> msg_typed m ->
  typed t (VInt (get_int n d m)) = true.
Proof.
  intros E Hd Hm. pose proof (values_typed n m _ _ Hm E) as [_ Hv]. unfold get_int.
  destruct (values n m) as [|v vs]; [done|]. apply Forall_cons in Hv as [Hv _]. cbn [snd] in Hv.
  destruct v; try done; by destruct t.
Qed.

Lemma get_bytes_typed {fields} n (m : msg fields) i lab t :
  generated.find_field fields n = Some (i, (n, lab, t)) -> msg_typed m ->
  t = TYPE_STRING \/ t = TYPE_BYTES -> Z.of_nat (length (get_bytes n m)) < 2 ^ 31.
Proof.
  intros E Hm Ht. pose proof (values_typed n m _ _ Hm E) as [_ Hv]. unfold get_bytes.
  destruct (values n m) as [|v vs]; [done|]. apply Forall_cons in Hv as [Hv _]. cbn [snd] in Hv.
  destruct Ht as [-> | ->]; destruct v; try done; by apply Z.ltb_lt.
Qed.

Lemma typed_bytes t s : t = TYPE_STRING \/ t = TYPE_BYTES -> Z.of_nat (length s) < 2 ^ 31 ->
  typed t (VBytes s) = true.
Proof. intros [-> | ->] Hs; by apply Z.ltb_lt. Qed.

Lemma typed_u32 z : typed TYPE_UINT32 (VInt (u32 z)) = true.
Proof.
  pose proof (Z.mod_pos_bound z (2 ^ 32) ltac:(lia)). cbn. unfold u32.
  apply andb_true_iff. rewrite Z.leb_le, Z.ltb_lt. lia.
Qed.

(** Objects that are parts of other objects. *)
Lemma typed_part {sub} (m : msg sub) : msg_typed m ->
  typed (TYPE_MESSAGE sub) (generated.message_value (body m)) = true.
Proof. done. Qed.

Lemma init_part {sub} (m : msg sub) : generated.IsInitialized sub (body m) = true ->
  generated.value_initialized (TYPE_MESSAGE sub) (generated.message_value (body m)) = true.
Proof. done. Qed.

(** Objects that are built by setting their fields. *)
Ltac field_values :=
  lazymatch goal with
  | |- Forall _ [] => constructor
  | |- Forall _ (_ :: _) => constructor; [|field_values]
  | _ => idtac
  end.
Ltac typed_fields :=
  apply message_typed_fields; split; [reflexivity|];
  repeat (apply Forall2_cons; split;
    [split; [intros Hrepeated; cbn in Hrepeated |- *; (discriminate || lia)|field_values]|]);
  try apply Forall2_nil_2; cbn [fst snd]; try reflexivity.
Ltac init_fields :=
  apply initialized_fields; [reflexivity|];
  repeat (apply Forall2_cons; split;
    [split; [intros Hrequired; cbn in Hrequired |- *; discriminate|field_values]|]);
  try apply Forall2_nil_2; cbn [fst snd]; try reflexivity.

(** Removing the first element of a repeated field. *)
Lemma tail_typed f vs : field_typed f vs -> field_typed f (tail vs).
Proof.
  intros [Hs Ht]. split; [intros E; specialize (Hs E); destruct vs; cbn in *; lia|].
  destruct vs; [done|]. by inversion Ht.
Qed.

Lemma tail_init f vs : f.1.2 <> LABEL_REQUIRED -> field_init f vs -> field_init f (tail vs).
Proof. intros Hl [_ Hi]. split; [done|]. destruct vs; [done|]. by inversion Hi. Qed.

(* ------------------------------------------------------------------ *)
(** ** The laws *)

#[global] Arguments generated.parse : simpl never.
#[global] Arguments generated.merge : simpl never.
#[global] Arguments generated.serialize : simpl never.
#[global] Arguments generated.ByteSize : simpl never.
#[global] Arguments generated.IsInitialized : simpl never.

Section laws.
Context `{PR : !ProtobufRuntime, WR : !WireRuntime, RL : !RuntimeLaws, WL : !WireLaws}.

#[export] Instance msg_laws (fields : list fdesc) : MessageLaws (msg fields).
Proof using RL WL.
  refine {| message_wf m := class_fits fields = true /\ msg_typed m |}.
  - intros m [[Hok _]%class_fits_spec Hm] Hs. exact (proj2 (ByteSize_length fields (body m) Hok Hm) Hs).
  - intros m [[Hok Hd]%class_fits_spec Hm] Hs. cbn. rewrite message_parse_serialize by done. cbn.
    destruct m as [b]. cbn. by destruct (generated.IsInitialized fields b).
Defined.

Lemma ParseDelimited_write `{!FailedParse} {fields} (m : msg fields) rest : sendable (2 ^ 31) m ->
  ParseDelimited (write_delimited m ++ rest) = Ret (Some m, rest).
Proof.
  intros [Hf Hi]. pose proof (fits_length m Hf) as El. destruct Hf as [[[Hok Hd]%class_fits_spec Hm] Hs].
  cbn [message_size Serialize initialized msg_message] in *.
  unfold ParseDelimited, write_delimited. cbn [message_size Serialize msg_message].
  rewrite <-app_assoc. rewrite El in *. rewrite WriteVarint32_varint, u32_id by (rewrite ?u32_id; lia).
  rewrite read_length by lia. rewrite Nat2Z.id, take_app_length, drop_app_length.
  rewrite merge_serialize by (done || lia || apply default_typed). rewrite bind_Ret.
  change (generated.MergeFrom fields (body m) (generated.default_message fields)) with
    (generated.CopyFrom fields (body m)).
  rewrite CopyFrom_same, Hi by done. by destruct m.
Qed.

Lemma fields_size_insert fields F i f vs vs' : fields !! i = Some f -> F !! i = Some vs ->
  generated.field_size f.1.1 f.1.2 f.2 (generated.value_size f.2) vs' <=
    generated.field_size f.1.1 f.1.2 f.2 (generated.value_size f.2) vs ->
  fields_size fields (<[i := vs']> F) <= fields_size fields F.
Proof using Type.
  revert F i. induction fields as [|[[n lab] t] fields IH]; intros [|ws F] [|i] Hf Hw Hs; try done.
  - cbn in Hf, Hw. injection Hf as <-. injection Hw as <-. cbn [fst snd] in Hs.
    change (?a <= ?b) with (generated.field_size n lab t (generated.value_size t) vs' + fields_size fields F <=
      generated.field_size n lab t (generated.value_size t) ws + fields_size fields F). lia.
  - specialize (IH F i Hf Hw Hs).
    change (?a <= ?b) with (generated.field_size n lab t (generated.value_size t) ws + fields_size fields (<[i:=vs']> F)
      <= generated.field_size n lab t (generated.value_size t) ws + fields_size fields F). lia.
Qed.

Lemma field_size_tail f vs : f.1.2 = LABEL_REPEATED -> sized f vs ->
  generated.field_size f.1.1 f.1.2 f.2 (generated.value_size f.2) (tail vs) <=
    generated.field_size f.1.1 f.1.2 f.2 (generated.value_size f.2) vs.
Proof using WL.
  destruct f as [[n lab] t]. cbn [fst snd]. intros -> (Hn & _ & Hv). cbn [fst snd] in *.
  destruct vs as [|v vs]; [done|]. apply Forall_cons in Hv as [[Hv _] _].
  destruct (tag_size_length n (wire_type t) Hn (wire_type_range t)) as [_ Ht].
  unfold generated.field_size. cbn [tail foldr]. lia.
Qed.

Lemma erase_first_sendable {fields} b n i t (m : msg fields) :
  generated.find_field fields n = Some (i, (n, LABEL_REPEATED, t)) ->
  sendable b m -> sendable b (erase_first n m).
Proof using RL WL.
  intros E [[[Hc Hm] Hs] Hi]. pose proof (values_typed n m _ _ Hm E) as Hv.
  assert (msg_typed (erase_first n m)) as Ht.
  { apply set_typed; [done|]. exists i, (n, LABEL_REPEATED, t). split; [done|]. by apply tail_typed. }
  destruct (class_fits_spec _ Hc) as [Hok _]. pose proof (typed_sized _ _ Hok Hm) as Hsz.
  pose proof (find_field_spec _ _ _ _ E) as [Ef _].
  destruct (Forall2_lookup_l _ _ _ _ _ Hsz Ef) as (vs & Ev & Hvs).
  assert (values n m = vs) as Evs by (unfold values; by rewrite E, Ev).
  split; [split; [by split|]|].
  - eapply Z.le_lt_trans; [|exact Hs]. unfold erase_first, set_values. rewrite E, Evs. cbn.
    unfold generated.ByteSize. cbn [generated.m_fields generated.m_unknown].
    apply Z.add_le_mono_r. eapply fields_size_insert; [exact Ef|exact Ev|]. by apply field_size_tail.
  - pose proof (msg_shape m Hm) as Hl. cbn in Hi. apply (initialized_fields _ _ Hl) in Hi. cbn.
    apply initialized_fields; [by apply msg_shape|]. unfold erase_first, set_values. rewrite E, Evs. cbn.
    revert Hi Ev. generalize (generated.m_fields (body m)). intros F HF Ev.
    rewrite <-(list_insert_id fields i _ Ef). apply Forall2_insert; [done|].
    apply tail_init; [done|]. destruct (Forall2_lookup_l _ _ _ _ _ HF Ef) as (ws & Ew & Hw). congruence.
Qed.
End laws.

Section progress.
Context `{PR : !ProtobufRuntime, WR : !WireRuntime, RP : !RuntimeProgress, WP : !WireProgress}.

#[export] Instance msg_ends fields : MessageEnds (msg fields).
Proof. intros l. cbn. destruct (parse_ends fields l) as [r ->]. by eexists. Qed.

(** A parse that fails takes bytes, or leaves all of them. *)
Class FailedParseLaws `{!FailedParse} : Prop :=
  failed_shorter fields l : (length (failed_parse fields l) <= length l)%nat.

Lemma ParseDelimited_ends `{!FailedParse, !FailedParseLaws} {fields} l :
  exists (r : option (msg fields)) rest, ParseDelimited l = Ret (r, rest) /\ (length rest <= length l)%nat.
Proof.
  unfold ParseDelimited. destruct (ReadLengthAndPushLimit l) as [inside after] eqn:E. apply length_takes in E.
  destruct (merge_ends generated.kDefaultRecursionLimit fields inside (generated.default_message fields))
    as (r & -> & Hr). rewrite bind_Ret. pose proof (failed_shorter fields l).
  destruct r as [[[m fin] rest]|]; [|by do 2 eexists]. specialize (Hr _ _ eq_refl).
  destruct (generated.IsInitialized fields m); [|by do 2 eexists]. do 2 eexists. split; [done|].
  rewrite length_app. lia.
Qed.
End progress.
