(* ===== verification/MessageSize.v ===== *)
(** * The sizes of messages

    A bound on [ByteSize] that is computed from the values alone, so that a
    message which is built from parts of known sizes is seen to fit into a
    frame. *)

From S2P Require Import Prelude Protobuf ProtobufFacts WireFormat WireFormatFacts GeneratedCode GeneratedFacts.
From S2P Require Import Hrpc HrpcFacts Messages MessageFacts.
Import generated.

(** Ten bytes for a number, five for a length, two for a tag; the tag and the
    length of a packed group take at most twelve. *)
Definition field_cost (cost : value -> Z) (vs : list value) : Z :=
  12 + foldr (fun v s => 2 + cost v + s) 0 vs.
Fixpoint cost (v : value) : Z :=
  match v with
  | VInt _ => 10
  | VBool _ => 1
  | VBytes s => 5 + Z.of_nat (length s)
  | VMessage vss u => 5 + foldr (fun vs s => field_cost cost vs + s) 0 vss + Z.of_nat (length u)
  end.
Definition values_cost (vs : list value) : Z := foldr (fun v s => 2 + cost v + s) 0 vs.

Lemma values_cost_app vs ws : values_cost (vs ++ ws) = values_cost vs + values_cost ws.
Proof. induction vs as [|v vs IH]; [done|]. unfold values_cost in *. cbn. lia. Qed.

Lemma cost_fields_nonneg F : Forall (Forall (fun v => 0 <= cost v)) F ->
  0 <= foldr (fun vs s => field_cost cost vs + s) 0 F.
Proof.
  induction 1 as [|vs F Hvs _ IH]; [done|]. cbn [foldr].
  change (field_cost cost vs) with (12 + values_cost vs). enough (0 <= values_cost vs) by lia.
  clear -Hvs. unfold values_cost. induction Hvs; cbn [foldr]; lia.
Qed.

Lemma cost_nonneg v : 0 <= cost v.
Proof.
  revert v. fix IH 1. intros [z|b|s|F u]; cbn [cost]; try lia.
  assert (Forall (Forall (fun v => 0 <= cost v)) F) as HF.
  { induction F as [|vs F IHF]; constructor; [|exact IHF]. induction vs as [|v vs IHvs]; constructor; [apply IH|exact IHvs]. }
  pose proof (cost_fields_nonneg F HF). lia.
Qed.

Lemma values_cost_nonneg vs : 0 <= values_cost vs.
Proof. induction vs as [|v vs IH]; [done|]. unfold values_cost in *. cbn. pose proof (cost_nonneg v). lia. Qed.

Lemma varint_loop_le n v : (length (varint_loop n v) <= S n)%nat.
Proof.
  revert v. induction n as [|n IH]; intros v; cbn [varint_loop]; [by destruct (v >=? 0x80); cbn; lia|].
  destruct (v >=? 0x80); cbn [length]; [|lia]. specialize (IH (Z.shiftr v 7)). lia.
Qed.

Section bounds.
Context `{PR : !ProtobufRuntime, WR : !WireRuntime, RL : !RuntimeLaws, WL : !WireLaws}.

Lemma VarintSize32_le v : VarintSize32 (u32 v) <= 5.
Proof using WL.
  pose proof (Z.mod_pos_bound v (2 ^ 32) ltac:(lia)).
  rewrite VarintSize32_varint, <-WriteVarint32_varint by (unfold u32; lia).
  pose proof (varint_loop_le 4 (u32 v)). unfold WriteVarint32ToArray. lia.
Qed.

Lemma PrimitiveSize_le t v : scalar_typed t v = true -> PrimitiveSize t v <= cost v.
Proof using WL.
  assert (forall z, VarintSize32SignExtended z <= 10) as Hs.
  { intros z. unfold VarintSize32SignExtended. pose proof (VarintSize32_le z). destruct (_ <? _); lia. }
  assert (forall z, 0 <= z < 2 ^ 64 -> VarintSize64 z <= 10) as H64.
  { intros z Hz. rewrite size_varint64 by done. pose proof (varint_loop_le 9 z). unfold varint. lia. }
  destruct t, v; try done; cbn [scalar_typed PrimitiveSize cost]; rewrite ?andb_true_iff, ?Z.leb_le, ?Z.ltb_lt; intros Hv;
    try apply Hs; try lia.
  - apply H64, Z.mod_pos_bound. lia.
  - pose proof (VarintSize32_le z). lia.
  - apply H64, Z.mod_pos_bound. lia.
  - destruct (ZigZag32 z) as [_ Hr]; [lia|]. pose proof (VarintSize32_le (ZigZagEncode32 z)) as H.
    rewrite u32_id in H by done. lia.
  - destruct (ZigZag64 z) as [_ Hr]; [lia|]. by apply H64.
  - pose proof (VarintSize32_le (Z.of_nat (length s))). lia.
  - pose proof (VarintSize32_le (Z.of_nat (length s))). lia.
Qed.

Lemma tag_size_le n w : 0 < n < 2048 -> 0 <= w < 8 -> VarintSize32 (MakeTag n w) <= 2.
Proof using WL.
  intros Hn Hw. rewrite MakeTag_value by lia. rewrite VarintSize32_varint by lia.
  rewrite (varint_loop_fuel 9 1) by (cbn; lia). pose proof (varint_loop_le 1 (8 * n + w)). lia.
Qed.

Lemma field_size_le n lab t vs : 0 < n < 2048 -> Forall (fun v => value_size t v <= cost v) vs ->
  field_size n lab t (value_size t) vs <= field_cost cost vs.
Proof using WL.
  intros Hn Hv. pose proof (tag_size_le n (wire_type t) Hn (wire_type_range t)) as Ht.
  pose proof (tag_size_le n WIRETYPE_LENGTH_DELIMITED Hn ltac:(done)) as Hd. unfold field_cost.
  assert (forall a, a <= 2 -> foldr (fun v s => a + value_size t v + s) 0 vs <= values_cost vs) as Ha.
  { intros a Ha. induction Hv as [|v vs Hv _ IH]; [done|]. unfold values_cost in *. cbn. lia. }
  change (foldr (fun v s => 2 + cost v + s) 0 vs) with (values_cost vs).
  destruct lab; cbn [field_size]; try (specialize (Ha _ Ht); lia).
  assert (foldr (fun v s => value_size t v + s) 0 vs <= values_cost vs) as H0.
  { clear Ha. induction Hv as [|v vs Hv _ IH]; [done|]. unfold values_cost in *. cbn. lia. }
  set (data := foldr (fun v s => value_size t v + s) 0 vs) in *.
  assert (VarintSize32SignExtended data <= 10).
  { unfold VarintSize32SignExtended. pose proof (VarintSize32_le data). destruct (_ <? _); lia. }
  unfold field_size. fold data. destruct (0 <? data); lia.
Qed.

Lemma value_size_le t v : type_ok t = true -> typed t v = true -> value_size t v <= cost v.
Proof using WL.
  revert v. induction t as [t Hs|fields IH] using ftype_ind; intros v Hok Ht.
  - rewrite value_size_scalar by done. rewrite typed_scalar in Ht by done. by apply PrimitiveSize_le.
  - destruct (typed_message _ _ Ht) as (m & -> & Hm). rewrite value_size_message. unfold LengthDelimitedSize.
    pose proof (VarintSize32_le (ByteSize fields m)). apply message_typed_fields in Hm as [_ Hm].
    destruct (type_ok_class _ Hok) as [_ Hr _ Hty]. cbn [cost message_value].
    change (ByteSize fields m) with (fields_size fields (m_fields m) + Z.of_nat (length (m_unknown m))) in *.
    enough (fields_size fields (m_fields m) <= foldr (fun vs s => field_cost cost vs + s) 0 (m_fields m)) by lia.
    pose proof (Forall2_with _ _ _ _ (Forall2_with _ _ _ _ (Forall2_with _ _ _ _ Hm Hr) Hty) IH) as H2.
    clear -WL H2. induction H2 as [|[[n lab] t] vs fields F [[[[_ Hvs] Hn] Hf] Hi] _ IH]; [done|].
    assert (field_size n lab t (value_size t) vs <= field_cost cost vs).
    { apply field_size_le; [done|]. eapply Forall_impl; [exact Hvs|]. intros v Hv. by apply Hi. }
    unfold fields_size in *. cbn [foldr zip_with]. lia.
Qed.

(** The cost of a message. *)
Definition msg_cost {fields} (m : msg fields) : Z := cost (message_value (body m)).

Lemma size_le {fields} (m : msg fields) : class_fits fields = true -> msg_typed m -> message_size m <= msg_cost m.
Proof using WL.
  intros [Hok _]%class_fits_spec Hm. pose proof (value_size_le (TYPE_MESSAGE fields) _ Hok Hm) as Hs.
  rewrite value_size_message in Hs. unfold LengthDelimitedSize in Hs. cbn [message_size msg_message].
  pose proof (VarintSize32_pos (ByteSize fields (body m))). unfold msg_cost. lia.
Qed.

Lemma cost_fits {fields} b (m : msg fields) : class_fits fields = true -> msg_typed m -> msg_cost m < b -> fits b m.
Proof using WL. intros Hc Ht Hb. pose proof (size_le m Hc Ht). split; [by split|]. lia. Qed.

(** Complete messages of a bounded cost. *)
Definition small {fields} (b : Z) (m : msg fields) : Prop :=
  msg_typed m /\ IsInitialized fields (body m) = true /\ msg_cost m < b.

Lemma small_le {fields} b b' (m : msg fields) : b <= b' -> small b m -> small b' m.
Proof using Type. intros Hb (Ht & Hi & Hm). split; [done|]. split; [done|]. lia. Qed.

Lemma small_sendable {fields} b (m : msg fields) : class_fits fields = true -> small b m -> sendable b m.
Proof using WL. intros Hc (Ht & Hi & Hb). split; [by apply cost_fits|done]. Qed.
End bounds.

(** The values of a field are a part of the message. *)
Lemma values_cost_le {fields} n (m : msg fields) : values_cost (values n m) <= msg_cost m.
Proof.
  unfold values, msg_cost. destruct m as [[F u]]. cbn [message_value cost body m_fields m_unknown].
  assert (forall i, values_cost (default [] (F !! i)) <= foldr (fun vs s => field_cost cost vs + s) 0 F) as H.
  { induction F as [|vs F IH]; intros [|i]; try done; cbn [lookup list_lookup default foldr].
    - pose proof (cost_fields_nonneg F ltac:(repeat (apply Forall_forall; intros ??); apply cost_nonneg)).
      change (field_cost cost vs) with (12 + values_cost vs). unfold id. lia.
    - specialize (IH i). pose proof (values_cost_nonneg vs).
      change (field_cost cost vs) with (12 + values_cost vs). etransitivity; [exact IH|]. lia. }
  pose proof (cost_fields_nonneg F ltac:(repeat (apply Forall_forall; intros ??); apply cost_nonneg)).
  destruct (find_field fields n) as [[i f]|]; [specialize (H i)|unfold values_cost; cbn]; lia.
Qed.

Lemma get_bytes_cost {fields} n (m : msg fields) : 0 <= msg_cost m -> Z.of_nat (length (get_bytes n m)) <= msg_cost m.
Proof.
  intros Hm. pose proof (values_cost_le n m) as H. unfold get_bytes. destruct (values n m) as [|v vs]; [done|].
  pose proof (values_cost_nonneg vs). unfold values_cost in *. cbn [foldr] in H.
  destruct v; cbn [cost as_bytes length] in *; lia.
Qed.

#[global] Arguments msg_cost : simpl never.

(** The cost of a message that is built by setting its fields; the cost of the
    part [x] stays. *)
Ltac compute_cost :=
  unfold msg_cost; cbn - [Z.of_nat field_cost Z.add];
  repeat (progress unfold field_cost; cbn - [Z.of_nat field_cost Z.add]).
Ltac compute_cost_with x :=
  unfold msg_cost, set_message in *;
  let v := fresh "v" in set (v := generated.message_value (body x)) in *; clearbody v;
  compute_cost.
