(* ===== verification/NameServer.v ===== *)
(** * The name node's connections

    The server side of namenode_base.cc: the header of a connection, the
    dispatch of requests by the name of their method, and the loop of a
    connection's thread; and the requests that a data node sends
    (datanode_base.cc).  The handlers are a parameter; [NameService] has them. *)

From S2P Require Import Prelude DirFormat Protobuf WireFormat GeneratedCode Protos Hrpc HrpcFacts Messages.
From Stdlib Require String.

Module name_server.

(** The methods, in the order in which [HandleRpc] tries them. *)
Inductive method : Type :=
| GetFileInfo | GetListing | GetBlockLocations | RegisterDatanode | GetServerDefaults | Create
| Complete | AddBlock | RenewLease | Rename | Delete | Mkdirs | GetFsStats | SetSafeMode
| GetDatanodeReport | DatanodeHeartbeat.

Definition methods : list method :=
  [GetFileInfo; GetListing; GetBlockLocations; RegisterDatanode; GetServerDefaults; Create;
   Complete; AddBlock; RenewLease; Rename; Delete; Mkdirs; GetFsStats; SetSafeMode;
   GetDatanodeReport; DatanodeHeartbeat].

Definition method_name (m : method) : list byte :=
  String.list_byte_of_string
    match m with
    | GetFileInfo => "GetFileInfo" | GetListing => "GetListing"
    | GetBlockLocations => "GetBlockLocations" | RegisterDatanode => "RegisterDatanode"
    | GetServerDefaults => "GetServerDefaults" | Create => "Create" | Complete => "Complete"
    | AddBlock => "AddBlock" | RenewLease => "RenewLease" | Rename => "Rename"
    | Delete => "Delete" | Mkdirs => "Mkdirs" | GetFsStats => "GetFsStats"
    | SetSafeMode => "SetSafeMode" | GetDatanodeReport => "GetDatanodeReport"
    | DatanodeHeartbeat => "DatanodeHeartbeat"
    end%string.

(** [strcasecmp(a, b) == 0] *)
Definition lower (b : byte) : Z :=
  if (65 <=? byte_val b) && (byte_val b <=? 90) then byte_val b + 32 else byte_val b.
Definition same_name (a b : list byte) : bool := bool_decide (lower <$> a = lower <$> b).

Definition find_method (name : list byte) : option method :=
  List.find (fun m => same_name (cstr name) (method_name m)) methods.

(** [name##RequestProto] and [name##ResponseProto] *)
Definition request_class (m : method) : list fdesc :=
  match m with
  | GetFileInfo => proto.GetFileInfoRequestProto
  | GetListing => proto.GetListingRequestProto
  | GetBlockLocations => proto.GetBlockLocationsRequestProto
  | RegisterDatanode => proto.RegisterDatanodeRequestProto
  | GetServerDefaults => proto.GetServerDefaultsRequestProto
  | Create => proto.CreateRequestProto
  | Complete => proto.CompleteRequestProto
  | AddBlock => proto.AddBlockRequestProto
  | RenewLease => proto.RenewLeaseRequestProto
  | Rename => proto.RenameRequestProto
  | Delete => proto.DeleteRequestProto
  | Mkdirs => proto.MkdirsRequestProto
  | GetFsStats => proto.GetFsStatsRequestProto
  | SetSafeMode => proto.SetSafeModeRequestProto
  | GetDatanodeReport => proto.GetDatanodeReportRequestProto
  | DatanodeHeartbeat => proto.DatanodeHeartbeatRequestProto
  end.
Definition response_class (m : method) : list fdesc :=
  match m with
  | GetFileInfo => proto.GetFileInfoResponseProto
  | GetListing => proto.GetListingResponseProto
  | GetBlockLocations => proto.GetBlockLocationsResponseProto
  | RegisterDatanode => proto.RegisterDatanodeResponseProto
  | GetServerDefaults => proto.GetServerDefaultsResponseProto
  | Create => proto.CreateResponseProto
  | Complete => proto.CompleteResponseProto
  | AddBlock => proto.AddBlockResponseProto
  | RenewLease => proto.RenewLeaseResponseProto
  | Rename => proto.RenameResponseProto
  | Delete => proto.DeleteResponseProto
  | Mkdirs => proto.MkdirsResponseProto
  | GetFsStats => proto.GetFsStatsResponseProto
  | SetSafeMode => proto.SetSafeModeResponseProto
  | GetDatanodeReport => proto.GetDatanodeReportResponseProto
  | DatanodeHeartbeat => proto.DatanodeHeartbeatResponseProto
  end.
Abbreviation Req m := (msg (request_class m)).
Abbreviation Resp m := (msg (response_class m)).

(** The fields of the headers of requests and replies. *)
Definition callid (h : msg proto.RpcRequestHeaderProto) : Z := get_int 3 0 h.
Definition clientid (h : msg proto.RpcRequestHeaderProto) : list byte := get_bytes 4 h.
Definition retrycount (h : msg proto.RpcRequestHeaderProto) : Z := get_int 5 (-1) h.
Definition methodname (h : msg proto.RequestHeaderProto) : list byte := get_bytes 1 h.
Definition status (h : msg proto.RpcResponseHeaderProto) : Z := get_int 2 0 h.

(** [RpcStatusProto] and [RpcErrorCodeProto] *)
Definition SUCCESS : Z := 0.
Definition ERROR : Z := 1.
Definition ERROR_NO_SUCH_METHOD : Z := 2.

Section server.
Context `{PR : !ProtobufRuntime, WR : !WireRuntime}.
(** [PB##name(req, resp)]: the response, or the message of the exception. *)
Context {S : Type} (PB : forall m, Req m -> S -> outcome (S * (Resp m + list byte))).

(** [ReadHeader]: whether the header of a connection is right. *)
Definition ReadHeader (fd : socket) : bool * socket :=
  let '(buf, fd) := read 7 fd in
  match byte_val <$> buf with
  | [h; r; p; c; version; class; auth] =>
      (bool_decide ([h; r; p; c] = byte_val <$> String.list_byte_of_string "hrpc"%string) &&
       (version =? 9) && (class =? 0) && (auth =? 0), fd)
  | _ => (false, fd)
  end.

(** The header of a reply. *)
Definition response (rpc : msg proto.RpcRequestHeaderProto) (st : Z) : msg proto.RpcResponseHeaderProto :=
  new_message proto.RpcResponseHeaderProto
    |> set_int 1 (u32 (callid rpc)) |> set_int 2 st |> set_int 3 9
    |> set_bytes 7 (clientid rpc) |> set_int 8 (retrycount rpc).
(** With [set_errormsg]. *)
Definition error_response (rpc : msg proto.RpcRequestHeaderProto) (what : list byte)
    : msg proto.RpcResponseHeaderProto := response rpc ERROR |> set_bytes 5 what.

(** The result, the socket, the state and the bytes that are sent. *)
Definition result : Type := Z * socket * S * list byte.

(** [TRY(name)] for the method whose name matches. *)
Definition TRY (m : method) (rpc_header : msg proto.RpcRequestHeaderProto) (buf : list byte) (fd : socket) (s : S)
    : outcome result :=
  t ← ReadDelimited (T := Req m) buf;
  match t with
  | None => Ret (-1, fd, s, [])
  | Some (req, _) =>
      '(s, r) ← PB m req s;
      Ret (0, fd, s,
        match r with
        | inl resp => HrpcWrite2 (response rpc_header SUCCESS) resp
        | inr what => HrpcWrite1 (error_response rpc_header what)
        end)
  end.

Definition HandleRpc (fd : socket) (s : S) : outcome result :=
  '(r, fd) ← HrpcRead1 (T1 := msg proto.RpcRequestHeaderProto) fd;
  match r with
  | None => Ret (-1, fd, s, [])
  | Some (rpc_header, buf) =>
      if callid rpc_header <? 0 then Ret (0, fd, s, [])
      else
        t ← ReadDelimited (T := msg proto.RequestHeaderProto) buf;
        match t with
        | None => Ret (-1, fd, s, [])
        | Some (header, buf) =>
            match find_method (methodname header) with
            | Some m => TRY m rpc_header buf fd s
            | None =>
                Ret (-1, fd, s, HrpcWrite1
                  (error_response rpc_header (String.list_byte_of_string "Method not supported"%string)
                     |> set_int 6 ERROR_NO_SUCH_METHOD))
            end
        end
  end.

(** The loop of [worker]; a request takes at least four bytes. *)
Fixpoint serve (fuel : nat) (fd : socket) (s : S) (out : list byte) : outcome (S * list byte) :=
  match fuel with
  | O => Stuck
  | Datatypes.S fuel =>
      '(r, fd, s, o) ← HandleRpc fd s;
      if negb (r =? 0) then Ret (s, out ++ o) else serve fuel fd s (out ++ o)
  end.

(** [worker] on the bytes that a client sends until it closes the connection:
    the state and the bytes that are sent back. *)
Definition worker (fd : socket) (s : S) : outcome (S * list byte) :=
  let '(ok, fd) := ReadHeader fd in
  if negb ok then Ret (s, []) else serve (Datatypes.S (length (concat fd))) fd s [].

(* ------------------------------------------------------------------ *)
(** ** Clients *)

(** The header that [ConnectToNN] writes. *)
Definition hello : list byte := String.list_byte_of_string "hrpc"%string ++ [x09; x00; x00].

(** The headers of a request to register ([RegisterOnNamenode]) and of a
    heartbeat ([SendHeartbeat]); [uuid] is what [GenerateUUID] gives. *)
Definition dn_rpc_header (uuid : list byte) : msg proto.RpcRequestHeaderProto :=
  new_message proto.RpcRequestHeaderProto |> set_int 3 0 |> set_bytes 4 uuid.
Definition request_header (name protocol : list byte) : msg proto.RequestHeaderProto :=
  new_message proto.RequestHeaderProto |> set_bytes 1 name |> set_bytes 2 protocol |> set_int 3 1.
Definition register_header : msg proto.RequestHeaderProto :=
  request_header (String.list_byte_of_string "registerDatanode"%string)
    (String.list_byte_of_string "org.apache.hadoop.hdfs.server.protocol.DatanodeProtocol"%string).
Definition heartbeat_header : msg proto.RequestHeaderProto :=
  request_header (String.list_byte_of_string "datanodeHeartbeat"%string)
    (String.list_byte_of_string "yfs"%string).

(** The requests of the data node [id]. *)
Definition register_request (master : bool) (id : msg proto.DatanodeIDProto) : Req RegisterDatanode :=
  new_message proto.RegisterDatanodeRequestProto
    |> set_message 1 (new_message proto.DatanodeRegistrationProto |> set_bool 5 master |> set_message 1 id).
Definition heartbeat_request (id : msg proto.DatanodeIDProto) : Req DatanodeHeartbeat :=
  new_message proto.DatanodeHeartbeatRequestProto |> set_message 1 id.

(** How both read the reply. *)
Definition read_response (fd : socket) : outcome (bool * socket) :=
  '(r, fd) ← HrpcRead1 (T1 := msg proto.RpcResponseHeaderProto) fd;
  Ret (match r with Some (resp, _) => status resp =? SUCCESS | None => false end, fd).

(** A request on the connection to the name node: [conn] sends the bytes and
    gives what arrives after them. *)
Definition exchange {X} (conn : list byte -> outcome (X * socket)) (bytes : list byte) : outcome (X * bool) :=
  '(x, fd) ← conn bytes;
  '(r, _) ← read_response fd;
  Ret (x, r).

Definition RegisterOnNamenode {X} (conn : list byte -> outcome (X * socket)) (uuid hostname : list byte)
    (id : msg proto.DatanodeIDProto) : outcome (X * bool) :=
  let master := bool_decide (hostname = String.list_byte_of_string "name"%string) in
  exchange conn (HrpcWrite3 (dn_rpc_header uuid) register_header (register_request master id)).

Definition SendHeartbeat {X} (conn : list byte -> outcome (X * socket)) (uuid : list byte)
    (id : msg proto.DatanodeIDProto) : outcome (X * bool) :=
  exchange conn (HrpcWrite3 (dn_rpc_header uuid) heartbeat_header (heartbeat_request id)).
End server.
End name_server.
