(* ===== verification/NameServerFacts.v ===== *)
(** * Facts about the name node's connections

    A connection that carries requests runs their handlers in order; a
    connection ends on every input; a data node's requests are answered. *)

From S2P Require Import Prelude DirFormat Protobuf ProtobufFacts WireFormat WireFormatFacts GeneratedCode GeneratedFacts.
From S2P Require Import Protos Hrpc HrpcFacts Messages MessageFacts MessageSize NameServer.
From Stdlib Require String.
Import name_server.

(** A request to the server. *)
Record request : Type := mkRequest {
  q_rpc : msg proto.RpcRequestHeaderProto; q_header : msg proto.RequestHeaderProto;
  q_method : method; q_req : Req q_method
}.

Section requests.
Context `{PR : !ProtobufRuntime, WR : !WireRuntime}.
Context {S : Type} (PB : forall m, Req m -> S -> outcome (S * (Resp m + list byte))).

Definition request_bytes (q : request) : list byte := HrpcWrite3 (q_rpc q) (q_header q) (q_req q).

Definition reply_bytes (rpc : msg proto.RpcRequestHeaderProto) {m} (r : Resp m + list byte) : list byte :=
  match r with
  | inl resp => HrpcWrite2 (response rpc SUCCESS) resp
  | inr what => HrpcWrite1 (error_response rpc what)
  end.

(** The handlers of a list of requests, one after the other.  A request with a
    negative call number (the context of the connection, a ping) has no handler
    and no reply. *)
Fixpoint handle_all (qs : list request) (s : S) : outcome (S * list byte) :=
  match qs with
  | [] => Ret (s, [])
  | q :: qs =>
      if callid (q_rpc q) <? 0 then handle_all qs s
      else
      '(s, r) ← PB (q_method q) (q_req q) s;
      '(s, out) ← handle_all qs s;
      Ret (s, reply_bytes (q_rpc q) r ++ out)
  end.

(** A new connection to a name node in state [s]. *)
Definition connect (s : S) (bytes : list byte) : outcome (S * socket) :=
  '(s, out) ← worker PB [hello; bytes] s; Ret (s, [out]).

Definition succeeded {A B} (r : A + B) : bool := match r with inl _ => true | inr _ => false end.

Context {RL : RuntimeLaws} {WL : WireLaws}.

Definition request_ok (q : request) : Prop :=
  (0 <= callid (q_rpc q) -> find_method (methodname (q_header q)) = Some (q_method q)) /\
  sendable (2 ^ 29) (q_rpc q) /\ sendable (2 ^ 29) (q_header q) /\ sendable (2 ^ 29) (q_req q).

Lemma HandleRpc_control q fd s : request_ok q -> callid (q_rpc q) < 0 ->
  HandleRpc PB (request_bytes q :: fd) s = Ret (0, fd, s, []).
Proof using Type.
  intros (_ & H1 & H2 & H3) Hc. unfold HandleRpc, request_bytes.
  rewrite <-(app_nil_r (HrpcWrite3 _ _ _)), HrpcRead1_write3, bind_Ret by (done || apply H2 || apply H3).
  by rewrite (proj2 (Z.ltb_lt _ _)).
Qed.

Lemma HandleRpc_request q fd s : request_ok q -> 0 <= callid (q_rpc q) ->
  HandleRpc PB (request_bytes q :: fd) s =
    ('(s, r) ← PB (q_method q) (q_req q) s; Ret (0, fd, s, reply_bytes (q_rpc q) r)).
Proof using Type.
  intros (Hm & H1 & H2 & H3) Hc. unfold HandleRpc, request_bytes.
  rewrite <-(app_nil_r (HrpcWrite3 _ _ _)), HrpcRead1_write3, bind_Ret by (done || apply H2 || apply H3).
  rewrite (proj2 (Z.ltb_ge _ _)) by done.
  rewrite ReadDelimited_write, bind_Ret by (eapply sendable_le; [|done]; lia).
  rewrite (Hm Hc). unfold TRY. rewrite <-(app_nil_r (write_delimited (q_req q))).
  by rewrite ReadDelimited_write, bind_Ret by (eapply sendable_le; [|done]; lia).
Qed.

Lemma request_nonempty q : (4 <= length (request_bytes q))%nat.
Proof using Type. unfold request_bytes, HrpcWrite3. rewrite length_app, length_be_bytes. lia. Qed.

Lemma serve_requests qs s s' out acc fuel : Forall request_ok qs -> handle_all qs s = Ret (s', out) ->
  (length (concat (request_bytes <$> qs)) < fuel)%nat ->
  serve PB fuel (request_bytes <$> qs) s acc = Ret (s', acc ++ out).
Proof using Type.
  intros Hqs. revert s acc out fuel. induction Hqs as [|q qs Hq Hqs IH]; intros s acc out fuel E Hf;
    (destruct fuel as [|fuel]; [lia|]).
  - injection E as <- <-. done.
  - cbn [fmap list_fmap concat] in *. rewrite length_app in Hf. pose proof (request_nonempty q).
    cbn [handle_all serve] in *. destruct (Z.ltb_spec (callid (q_rpc q)) 0).
    { rewrite HandleRpc_control, bind_Ret, app_nil_r by done. cbn [negb Z.eqb]. apply IH; [done|lia]. }
    destruct (PB (q_method q) (q_req q) s) as [[s1 r]| | |] eqn:Ep; [|done..].
    rewrite bind_Ret in E. destruct (handle_all qs s1) as [[s2 o]| | |] eqn:Eh; [|done..].
    injection E as <- <-. rewrite HandleRpc_request, Ep, !bind_Ret by done.
    cbn [negb Z.eqb]. rewrite (IH s1 _ o); [by rewrite <-app_assoc|done|lia].
Qed.

Lemma worker_requests qs s s' out : Forall request_ok qs -> handle_all qs s = Ret (s', out) ->
  worker PB (hello :: (request_bytes <$> qs)) s = Ret (s', out).
Proof using Type.
  intros Hqs E. unfold worker. change (ReadHeader (hello :: ?fd)) with (true, fd). cbn [negb].
  rewrite (serve_requests qs s s' out []); [done|done|done|lia].
Qed.

(* ------------------------------------------------------------------ *)
(** ** The header of a reply *)

Lemma response_typed rpc st : msg_typed rpc -> st ∈ proto.RpcResponseHeaderProto_RpcStatusProto ->
  msg_typed (response rpc st).
Proof using Type.
  intros Hr Hst. typed_fields.
  - apply typed_u32.
  - cbn. rewrite bool_decide_eq_true_2 by done. by repeat (apply elem_of_cons in Hst as [-> | Hst]); [..|apply elem_of_nil in Hst].
  - apply typed_bytes; [auto|]. by eapply (get_bytes_typed 4 rpc); [reflexivity|done|auto].
  - by eapply (get_int_typed 5 (-1) rpc).
Qed.

Lemma response_init rpc st : generated.IsInitialized proto.RpcResponseHeaderProto (body (response rpc st)) = true.
Proof using Type. init_fields. Qed.

Lemma response_sendable rpc st : msg_typed rpc -> st ∈ proto.RpcResponseHeaderProto_RpcStatusProto ->
  Z.of_nat (length (clientid rpc)) < 2 ^ 27 -> sendable (2 ^ 29) (response rpc st).
Proof using RL WL.
  intros Hr Hst Hs. apply small_sendable; [vm_compute; reflexivity|]. split; [by apply response_typed|].
  split; [apply response_init|]. compute_cost. lia.
Qed.

Lemma error_response_sendable rpc what : msg_typed rpc -> Z.of_nat (length (clientid rpc)) < 2 ^ 27 ->
  Z.of_nat (length what) < 2 ^ 27 -> sendable (2 ^ 29) (error_response rpc what).
Proof using RL WL.
  intros Hr Hc Hw. apply small_sendable; [vm_compute; reflexivity|]. split; [|split].
  - apply set_typed; [apply response_typed; [done|by apply list_elem_of_In; cbn; auto]|].
    eexists _, _. split; [reflexivity|]. split; [intros _; cbn; lia|]. constructor; [|constructor].
    apply typed_bytes; [auto|lia].
  - by init_fields.
  - compute_cost. lia.
Qed.

(** A reply whose size fits into a frame. *)
Definition reply_ok (rpc : msg proto.RpcRequestHeaderProto) {m} (r : Resp m + list byte) : Prop :=
  Z.of_nat (length (clientid rpc)) < 2 ^ 27 /\
  match r with inl resp => fits (2 ^ 29) resp | inr what => Z.of_nat (length what) < 2 ^ 27 end.

Lemma success_sendable rpc : msg_typed rpc -> Z.of_nat (length (clientid rpc)) < 2 ^ 27 ->
  sendable (2 ^ 29) (response rpc SUCCESS).
Proof using RL WL. intros Hr Hc. apply response_sendable; [done| |done]. apply list_elem_of_In. cbn. auto. Qed.

Lemma read_reply rpc m (r : Resp m + list byte) : msg_typed rpc -> reply_ok rpc r ->
  read_response [reply_bytes rpc r] = Ret (succeeded r, []).
Proof using RL WL.
  intros Hrpc Hr. unfold read_response. rewrite <-(app_nil_r (reply_bytes rpc r)).
  destruct r as [resp|what]; cbn [reply_bytes reply_ok] in *; destruct Hr as [H1 H2].
  - by rewrite HrpcRead1_write2, bind_Ret by (done || by apply success_sendable).
  - by rewrite HrpcRead1_write1, bind_Ret by by apply error_response_sendable.
Qed.

(** A connection with one request. *)
Lemma worker_request q s s' r : request_ok q -> 0 <= callid (q_rpc q) -> PB (q_method q) (q_req q) s = Ret (s', r) ->
  worker PB [hello; request_bytes q] s = Ret (s', reply_bytes (q_rpc q) r).
Proof using Type.
  intros Hq Hc E. change [hello; request_bytes q] with (hello :: (request_bytes <$> [q])).
  apply worker_requests; [by constructor|].
  cbn [handle_all]. rewrite (proj2 (Z.ltb_ge _ _)), E, !bind_Ret by done. by rewrite app_nil_r.
Qed.

(** A handler that waits keeps the thread of its connection. *)
Lemma worker_waits q s : request_ok q -> 0 <= callid (q_rpc q) -> PB (q_method q) (q_req q) s = Stuck ->
  worker PB [hello; request_bytes q] s = Stuck.
Proof using Type.
  intros Hq Hc E. unfold worker. change (ReadHeader (hello :: ?fd)) with (true, fd). cbn [negb serve].
  by rewrite HandleRpc_request, E by done.
Qed.

Lemma connect_request q s s' r : request_ok q -> 0 <= callid (q_rpc q) -> PB (q_method q) (q_req q) s = Ret (s', r) ->
  connect s (request_bytes q) = Ret (s', [reply_bytes (q_rpc q) r]).
Proof using Type. intros Hq Hc E. unfold connect. by rewrite (worker_request q s s' r), bind_Ret. Qed.

Lemma exchange_request q s s' r : request_ok q -> 0 <= callid (q_rpc q) -> PB (q_method q) (q_req q) s = Ret (s', r) ->
  reply_ok (q_rpc q) r -> exchange (connect s) (request_bytes q) = Ret (s', succeeded r).
Proof using Type.
  intros Hq Hc E Hr. pose proof Hq as (_ & [[[_ Ht] _] _] & _).
  unfold exchange. rewrite (connect_request q s s' r), bind_Ret by done. by rewrite read_reply.
Qed.

(* ------------------------------------------------------------------ *)
(** ** The requests of a data node *)

Lemma dn_rpc_header_sendable uuid : Z.of_nat (length uuid) < 2 ^ 27 -> sendable (2 ^ 29) (dn_rpc_header uuid).
Proof using RL WL.
  intros Hu. apply small_sendable; [vm_compute; reflexivity|]. split; [|split].
  - typed_fields. apply typed_bytes; [auto|lia].
  - init_fields.
  - compute_cost. lia.
Qed.

Lemma request_header_sendable name protocol : Z.of_nat (length name) < 2 ^ 27 ->
  Z.of_nat (length protocol) < 2 ^ 27 -> sendable (2 ^ 29) (request_header name protocol).
Proof using RL WL.
  intros Hn Hp. apply small_sendable; [vm_compute; reflexivity|]. split; [|split].
  - typed_fields; apply typed_bytes; auto; lia.
  - init_fields.
  - compute_cost. lia.
Qed.

Lemma register_request_sendable master id : small (2 ^ 27) id -> sendable (2 ^ 29) (register_request master id).
Proof using RL WL.
  intros (Ht & Hi & Hc). apply small_sendable; [vm_compute; reflexivity|]. unfold register_request. split; [|split].
  - typed_fields. apply typed_part. by typed_fields.
  - init_fields. apply init_part. by init_fields.
  - compute_cost_with id. lia.
Qed.

Lemma heartbeat_request_sendable id : small (2 ^ 27) id -> sendable (2 ^ 29) (heartbeat_request id).
Proof using RL WL.
  intros (Ht & Hi & Hc). apply small_sendable; [vm_compute; reflexivity|]. unfold heartbeat_request. split; [|split].
  - by typed_fields.
  - by init_fields.
  - compute_cost_with id. lia.
Qed.
End requests.

(* ------------------------------------------------------------------ *)
(** ** Any input *)

Section progress.
Context `{PR : !ProtobufRuntime, WR : !WireRuntime, RP : !RuntimeProgress, WP : !WireProgress}.
Context {S : Type} (PB : forall m, Req m -> S -> outcome (S * (Resp m + list byte))).

Lemma ReadDelimited_total {T} `{!Message T, !MessageEnds T} buf : ReadDelimited (T := T) buf <> Stuck.
Proof using Type.
  assert (forall l shift res, read_variant l shift res <> Stuck) as Hv.
  { intros l. induction l as [|b l IH]; intros shift res; cbn; [done|]. unfold shift_group.
    destruct (_ || _); [done|]. cbn. destruct (0x80 <=? byte_val b); [apply IH|done]. }
  unfold ReadDelimited, ReadVariant. specialize (Hv buf 0 0).
  destruct (read_variant buf 0 0) as [[[len p]|]| | |]; cbn; try done.
  destruct (2 ^ 63 <=? len); [done|]. destruct (_ <? len); [done|].
  by destruct (parse_returns (take (Z.to_nat len) p)) as [r ->].
Qed.

(** Handlers run one after the other lead from one state to another. *)
Inductive handled : S -> S -> Prop :=
| handled_nil s : handled s s
| handled_cons m req s s1 s2 r : PB m req s = Ret (s1, r) -> handled s1 s2 -> handled s s2.

(** A handler that waits is the only wait of a request, and a request that is
    answered took bytes from the socket. *)
Lemma HandleRpc_progress fd s :
  (HandleRpc PB fd s = Stuck -> exists m req, PB m req s = Stuck) /\
  forall fd' s' o, HandleRpc PB fd s = Ret (0, fd', s', o) ->
    (length (concat fd') < length (concat fd))%nat /\ handled s s'.
Proof using RP WP.
  unfold HandleRpc, HrpcRead1.
  destruct (HrpcRead fd) as [[body|] fd1] eqn:Er; [|rewrite bind_Ret; split; [discriminate|intros ???; discriminate]].
  apply HrpcRead_length in Er.
  pose proof (ReadDelimited_total (T := msg proto.RpcRequestHeaderProto) body) as H1.
  destruct (ReadDelimited body) as [[[rpc buf]|]| | |];
    cbn - [find_method ReadDelimited HrpcWrite1 HrpcWrite2]; try (split; [discriminate|intros ???; discriminate]); try done.
  destruct (callid rpc <? 0); [split; [done|]; intros ??? [= <- <- _]; split; [lia|constructor]|].
  pose proof (ReadDelimited_total (T := msg proto.RequestHeaderProto) buf) as H2.
  destruct (ReadDelimited buf) as [[[hd buf']|]| | |];
    cbn - [find_method ReadDelimited HrpcWrite1 HrpcWrite2]; try (split; [discriminate|intros ???; discriminate]); try done.
  destruct (find_method (methodname hd)) as [m|]; [|split; [discriminate|intros ???; discriminate]]. unfold TRY.
  pose proof (ReadDelimited_total (T := Req m) buf') as H3.
  destruct (ReadDelimited buf') as [[[req buf2]|]| | |];
    cbn - [find_method ReadDelimited HrpcWrite1 HrpcWrite2]; try (split; [discriminate|intros ???; discriminate]); try done.
  destruct (PB m req s) as [[s' r]| | |] eqn:Ep;
    cbn - [find_method ReadDelimited HrpcWrite1 HrpcWrite2]; try (split; [discriminate|intros ???; discriminate]); try done.
  - split; [done|]. intros ??? [= <- <- _]. split; [lia|]. by eapply handled_cons; [exact Ep|constructor].
  - split; [|done]. intros _. by exists m, req.
Qed.

Lemma handled_trans s1 s2 s3 : handled s1 s2 -> handled s2 s3 -> handled s1 s3.
Proof using Type. induction 1; [done|]. intros H3. eapply handled_cons; [done|auto]. Qed.

Lemma serve_total fuel fd s out : (length (concat fd) < fuel)%nat -> serve PB fuel fd s out = Stuck ->
  exists m req s', handled s s' /\ PB m req s' = Stuck.
Proof using RP WP.
  revert fd s out. induction fuel as [|fuel IH]; intros fd s out Hf; [lia|]. cbn [serve].
  destruct (HandleRpc_progress fd s) as [Hs Hp].
  destruct (HandleRpc PB fd s) as [[[[r fd'] s'] o]| | |]; cbn; try discriminate.
  - destruct (Z.eqb_spec r 0) as [->|]; cbn [negb]; [|discriminate]. destruct (Hp _ _ _ eq_refl) as [Hl Hh].
    intros E. apply IH in E as (m & req & s2 & Hh2 & E); [|lia]. exists m, req, s2. split; [|done].
    by eapply handled_trans.
  - intros _. destruct (Hs eq_refl) as (m & req & E). exists m, req, s. split; [constructor|done].
Qed.
End progress.
