(* ===== verification/Datanode.v ===== *)
(** * The data node

    [DataNode] of datanode.cc and datanode_base.cc: reading and writing parts
    of a block through the extent client, the packets in which blocks travel
    between clients and data nodes, and the pipeline to the next data node.
    Streams and sockets are the lists of packets that pass through them. *)

From S2P Require Import Prelude Disk Protocol Protobuf DirFormat Extent Yfs.

(** [Status] of datanode.proto *)
Definition SUCCESS : Z := 0.
Definition ERROR : Z := 1.

Definition PACKET_SIZE : Z := 16384.

(** [PacketHeaderProto] and the data behind it. *)
Record packet : Type := mkPacket {
  offsetinblock : Z; seqno : Z; lastpacketinblock : bool; pdata : list byte
}.

(** [PipelineAckProto] *)
Record ack : Type := mkAck { ack_seqno : Z; reply : list Z }.

(* ------------------------------------------------------------------ *)
(** ** Packets on the wire *)

(** The version and the operation of a request. *)
Definition ReadOp (ins : list byte) : option (Z * list byte) :=
  '(buf, ins) ← ReadRaw 3 ins;
  match buf with
  | [b0; b1; b2] =>
      if negb (byte_val b0 =? 0) || negb (byte_val b1 =? 28) then None else Some (byte_val b2, ins)
  | _ => None
  end.

(** [WritePacket(header, buf)]: the bytes it sends; [buf] must have
    [header.datalen()] bytes. *)
Definition WritePacket (h : PacketHeaderProto) (buf : list byte) : outcome (list byte) :=
  let len := Z.to_nat (datalen h) in
  if (length buf <? len)%nat then Undef
  else Ret (be_bytes 4 (u32 (4 + datalen h)) ++ be_bytes 2 25 ++
            InternalSerializeWithCachedSizesToArray h ++ take len buf).

(** The overload that builds the header from its fields. *)
Definition packet_header (p : packet) : PacketHeaderProto :=
  mkPacketHeader (Some (sint 64 (offsetinblock p))) (Some (sint 64 (seqno p)))
    (Some (lastpacketinblock p)) (Some (sint 32 (Z.of_nat (length (pdata p))))) None [].

Section wire.
Context `{!ProtobufRuntime}.

(** [ReadPacket(is, header, data)]: the header, and the data and the rest of
    the stream, or [None] for false.  [PushLimit] bounds the header's bytes; a
    header with its required fields has all 25 of them. *)
Definition ReadPacket (ins : list byte) : outcome (PacketHeaderProto * option (list byte * list byte)) :=
  match ReadRaw 4 ins with
  | None => Ret (header_default, None)
  | Some (plen, ins) =>
      match ReadRaw 2 ins with
      | None => Ret (header_default, None)
      | Some (hlen, ins) =>
          if negb (be_val hlen =? 25) then Ret (header_default, None)
          else
            '(header, ok) ← parse_header (take 25 ins);
            if negb ok then Ret (header, None)
            else
              let count := sint 32 (be_val plen - 4 - datalen header) in
              let ins := drop (Z.to_nat count) (drop 25 ins) in
              if datalen header <? 0 then Abort
              else Ret (header, ReadRaw (Z.to_nat (datalen header)) ins)
      end
  end.

(** The packets of a block, read one after the other. *)
Fixpoint read_stream (fuel : nat) (ins : list byte) : outcome (option (list packet * list byte)) :=
  match fuel with
  | O => Stuck
  | S fuel =>
      '(h, r) ← ReadPacket ins;
      match r with
      | None => Ret None
      | Some (data, ins) =>
          let p := mkPacket (default 0 (h_offsetinblock h)) (header_seqno h)
                     (default false (h_lastpacketinblock h)) data in
          if lastpacketinblock p then Ret (Some ([p], ins))
          else
            r ← read_stream fuel ins;
            Ret (match r with None => None | Some (ps, ins) => Some (p :: ps, ins) end)
      end
  end.
End wire.

(** The bytes of a list of packets. *)
Fixpoint write_stream (ps : list packet) : outcome (list byte) :=
  match ps with
  | [] => Ret []
  | p :: ps =>
      b ← WritePacket (packet_header p) (pdata p);
      bs ← write_stream ps;
      Ret (b ++ bs)
  end.

Section datanode.
Context {S : Type} `{!ExtentClient S}.

(* ------------------------------------------------------------------ *)
(** ** Blocks *)

(** What [init] does to the file system: the root directory is emptied. *)
Definition init_root : M S unit :=
  _ ← ec (ec_put 1 []); ret tt.

(** [ReadBlock(bid, offset, len, buf)]; the status of the call is ignored. *)
Definition ReadBlock (bid offset len : Z) : M S (list byte) :=
  '(_, block_buf) ← ec (ec_read_block bid []);
  if Z.of_nat (length block_buf) <? offset then ret []
  else ret (take (Z.to_nat len) (drop (Z.to_nat offset) block_buf)).

(** [WriteBlock(bid, offset, len, buf)]: [substr] throws past the end of the
    block, and a block of the wrong size is refused by the server without the
    data node noticing. *)
Definition WriteBlock (bid offset len : Z) (buf : list byte) : M S bool :=
  _ ← ec (ec_read_block bid []);
  '(_, read_content) ← ec (ec_read_block bid []);
  if Z.of_nat (length read_content) <? u64 (offset + len) then fail Abort
  else
    _ ← ec (ec_write_block bid (take (Z.to_nat offset) read_content ++ buf ++
                                drop (Z.to_nat (u64 (offset + len))) read_content));
    ret true.

(* ------------------------------------------------------------------ *)
(** ** Requests *)

(** The packets in which [_ReadBlock] sends the bytes [block], the part of the
    request from [offset] on; [i] is the next sequence number. *)
Fixpoint read_packets (fuel : nat) (offset : Z) (block : list byte) (pos i : Z) : list packet :=
  let n := Z.of_nat (length block) in
  match fuel with
  | O => []
  | Datatypes.S fuel =>
      if pos =? n then []
      else if PACKET_SIZE <? n - pos then
        mkPacket (u64 (offset + pos)) i false
          (take (Z.to_nat PACKET_SIZE) (drop (Z.to_nat pos) block)) ::
        read_packets fuel offset block (pos + PACKET_SIZE) (i + 1)
      else
        [mkPacket (u64 (offset + pos)) i false (drop (Z.to_nat pos) block);
         mkPacket (u64 (offset + n)) (i + 1) true []]
  end.

(** [_ReadBlock]: the packets of the answer to a request for [len] bytes from
    [offset] on. *)
Definition _ReadBlock (blockid offset len : Z) : M S (list packet) :=
  block ← ReadBlock (u32 blockid) offset len;
  ret (read_packets (length block) offset block 0 0).

(** The replies to one packet: the data node's own one, and those of the
    mirror, or an error for each target when the mirror fails. *)
Definition packet_replies (targets : nat) (mirror : packet -> option (list Z)) (p : packet) : list Z :=
  SUCCESS ::
  (if decide (targets = 0%nat) then []
   else match mirror p with
        | None => replicate targets ERROR
        | Some r => r
        end).

(** The loop of [_WriteBlock] over the packets of the stream: the
    acknowledgements and the result. *)
Fixpoint write_packets (blockid : Z) (targets : nat) (mirror : packet -> option (list Z))
    (ps : list packet) (acks : list ack) : M S (list ack * bool) :=
  match ps with
  | [] => ret (acks ++ [mkAck 0 [ERROR]], false)
  | p :: ps =>
      ok ← WriteBlock (u32 blockid) (u64 (offsetinblock p)) (Z.of_nat (length (pdata p))) (pdata p);
      if negb ok then ret (acks ++ [mkAck (seqno p) [ERROR]], false)
      else
        let acks := acks ++ [mkAck (seqno p) (packet_replies targets mirror p)] in
        if lastpacketinblock p then ret (acks, true)
        else write_packets blockid targets mirror ps acks
  end.

(** [_WriteBlock]: the status that answers the request, the acknowledgements
    and the result; [connected] tells whether the mirror answered. *)
Definition _WriteBlock (blockid : Z) (targets : nat) (connected : bool)
    (mirror : packet -> option (list Z)) (ps : list packet) : M S (Z * list ack * bool) :=
  if decide ((0 < targets)%nat /\ connected = false) then ret (ERROR, [], false)
  else
    '(acks, ok) ← write_packets blockid targets mirror ps [];
    ret (SUCCESS, acks, ok).
End datanode.
