(* ===== verification/DatanodeFacts.v ===== *)
(** * Facts about the data node

    Reading and writing part of a block of a file, and the packets a block
    travels in. *)

From S2P Require Import Prelude Disk Protocol Inode InodeFacts FileRead FileWrite.
From S2P Require Import DirFormat Extent BlockFacts Yfs YfsFacts Protobuf ProtobufFacts Datanode.

(** The block [d] with [buf] written at [off]. *)
Definition overlay (d : list byte) (off : Z) (buf : list byte) : list byte :=
  take (Z.to_nat off) d ++ buf ++ drop (Z.to_nat off + length buf) d.

Lemma length_overlay d off buf : 0 <= off -> off + Z.of_nat (length buf) <= Z.of_nat (length d) ->
  length (overlay d off buf) = length d.
Proof. intros H1 H2. unfold overlay. rewrite !length_app, length_take, length_drop. lia. Qed.

Lemma overlay_nil d off : overlay d off [] = d.
Proof. unfold overlay. cbn. by rewrite Nat.add_0_r, take_drop. Qed.

Section facts.
Context {S : Type} `{!ExtentClient S, !ExtentLaws S, !BlockLaws S}.

(** The same files, blocks and free blocks. *)
Definition unchanged (s s' : S) : Prop :=
  ec_wf s' /\ (forall j, ec_file s' j = ec_file s j /\ ec_blocks s' j = ec_blocks s j) /\
  ec_room s' = ec_room s.

(** The block at position [k] of file [i] is replaced by [d']. *)
Definition block_set (s s' : S) (i : Z) (k : nat) (id : Z) (d' : list byte) : Prop :=
  ec_wf s' /\ ec_blocks s' i = <[k := (id, d')]> (ec_blocks s i) /\
  (forall t c, ec_file s i = Some (t, c) ->
     ec_file s' i = Some (t, take (length c) (blocks_data (<[k := (id, d')]> (ec_blocks s i))))) /\
  (forall j, j <> i -> ec_file s' j = ec_file s j /\ ec_blocks s' j = ec_blocks s j) /\
  ec_room s' = ec_room s.

(** The data block [id] is replaced by [d'], and with it that of the file which
    has it. *)
Record block_put (s s' : S) (id : Z) (d' : list byte) : Prop := {
  put_wf : ec_wf s';
  put_raw id' e : ec_raw s' id' e <-> if decide (id' = id) then e = d' else ec_raw s id' e;
  put_file i t c k d0 : ec_file s i = Some (t, c) -> ec_blocks s i !! k = Some (id, d0) ->
    ec_blocks s' i = <[k := (id, d')]> (ec_blocks s i) /\
    ec_file s' i = Some (t, take (length c) (blocks_data (<[k := (id, d')]> (ec_blocks s i))));
  put_apart j : id ∉ (ec_blocks s j).*1 -> ec_file s' j = ec_file s j /\ ec_blocks s' j = ec_blocks s j;
  put_room : ec_room s' = ec_room s
}.

(** For the block of a file, it is [block_set]. *)
Lemma block_put_set s s' i k id d d' t c : ec_wf s -> ec_file s i = Some (t, c) ->
  ec_blocks s i !! k = Some (id, d) -> block_put s s' id d' -> block_set s s' i k id d'.
Proof using Type.
  intros Hwf Hf Hk [Hwf' _ Hset Ho Hr]. destruct (Hset i t c k d Hf Hk) as [Hb Hf'].
  split; [done|]. split; [done|]. split; [intros t' c'; rewrite Hf; by intros [= <- <-]|].
  split; [|done]. intros j Hj. apply Ho. intros (k' & Hk')%list_elem_of_lookup.
  rewrite list_lookup_fmap in Hk'. destruct (ec_blocks s j !! k') as [[id' d0]|] eqn:Ej; [|done].
  cbn in Hk'. injection Hk' as ->. by destruct (law_block_unique s i j k k' id d d0).
Qed.

Lemma read_run s h id d : ec_wf s -> ec_raw s id d ->
  exists s', ec (ec_read_block id []) (mkYfs s h) = Ret (mkYfs s' h, (extent_protocol.OK, d)) /\
    unchanged s s' /\ forall id' e, ec_raw s' id' e <-> ec_raw s id' e.
Proof using Type.
  intros Hwf Hd. destruct (law_read_block s id d [] Hwf Hd) as (s' & E & Hs & Hu & Hraw & Hr).
  exists s'. unfold ec. cbn [ys held]. by rewrite E.
Qed.

Lemma ReadBlock_spec s h id d off len : ec_wf s -> ec_raw s id d ->
  0 <= off -> exists s', ReadBlock id off len (mkYfs s h) =
    Ret (mkYfs s' h, take (Z.to_nat len) (drop (Z.to_nat off) d)) /\
    unchanged s s' /\ forall id' e, ec_raw s' id' e <-> ec_raw s id' e.
Proof using Type.
  intros Hwf Hk Hoff. destruct (read_run s h id d Hwf Hk) as (s' & E & Hs).
  exists s'. split; [|done]. unfold ReadBlock. rewrite (M_bind_Ret _ _ _ _ _ E).
  destruct (Z.ltb_spec (Z.of_nat (length d)) off); [|done]. by rewrite drop_ge, take_nil by lia.
Qed.

Lemma WriteBlock_spec s h id d off buf : ec_wf s -> ec_raw s id d ->
  0 <= off -> off + Z.of_nat (length buf) <= BLOCK_SIZE ->
  exists s', WriteBlock id off (Z.of_nat (length buf)) buf (mkYfs s h) = Ret (mkYfs s' h, true) /\
    block_put s s' id (overlay d off buf).
Proof using Type.
  intros Hwf Hk Hoff Hlen. pose proof BS_BLOCK_SIZE as HBS. pose proof BLOCK_SIZE_val.
  destruct (law_raw_range s id d Hwf Hk) as [_ Hd].
  destruct (read_run s h id d Hwf Hk) as (s1 & E1 & (Hwf1 & Hs1 & Er1) & Hraw1).
  destruct (read_run s1 h id d Hwf1 (proj2 (Hraw1 id d) Hk)) as (s2 & E2 & (Hwf2 & Hs2 & Er2) & Hraw2).
  assert (forall j, ec_file s2 j = ec_file s j /\ ec_blocks s2 j = ec_blocks s j) as Hs.
  { intros j. destruct (Hs1 j), (Hs2 j). split; congruence. }
  assert (forall id' e, ec_raw s2 id' e <-> ec_raw s id' e) as Hraw.
  { intros id' e. by rewrite Hraw2, Hraw1. }
  destruct (law_write_block s2 id d (overlay d off buf))
    as (s3 & E3 & Hwf3 & Hraw3 & Hf3 & Ho3 & Er3); [done|by apply Hraw|rewrite length_overlay; lia|].
  exists s3. split.
  - unfold WriteBlock. rewrite (M_bind_Ret _ _ _ _ _ E1), (M_bind_Ret _ _ _ _ _ E2).
    unfold u64. rewrite Z.mod_small by lia.
    destruct (Z.ltb_spec (Z.of_nat (length d)) (off + Z.of_nat (length buf))); [lia|].
    rewrite Z2Nat.inj_add, Nat2Z.id by lia. fold (overlay d off buf).
    unfold mbind, M_bind, ec. cbn [ys held]. by rewrite E3.
  - split; [done| | | |congruence].
    + intros id' e. rewrite Hraw3. by destruct (decide (id' = id)).
    + intros i t c k d0. destruct (Hs i) as [<- <-]. apply Hf3.
    + intros j. destruct (Hs j) as [<- <-]. apply Ho3.
Qed.

Lemma length_blocks_data (l : list (Z * list byte)) : Forall (fun x => length x.2 = BS) l ->
  length (blocks_data l) = (length l * BS)%nat.
Proof using Type.
  unfold blocks_data. induction 1 as [|x l Hx HF IH]; [done|]. cbn. rewrite length_app, IH, Hx. lia.
Qed.

(** A file is not longer than its blocks. *)
Lemma file_fits s i t c : ec_wf s -> ec_file s i = Some (t, c) ->
  (length c <= length (ec_blocks s i) * BS)%nat.
Proof using Type.
  intros Hwf Hf. destruct (law_blocks s i t c Hwf Hf) as (_ & Hc & HF).
  rewrite <-(length_blocks_data _ HF). rewrite <-Hc at 1. rewrite length_take. lia.
Qed.

(** Setting a block twice. *)
Lemma block_put_trans s1 s2 s3 id d1 d2 : ec_wf s1 -> block_put s1 s2 id d1 -> block_put s2 s3 id d2 ->
  block_put s1 s3 id d2.
Proof using Type.
  intros Hwf1 [Hwf2 Hraw2 Hf2 Ho2 Er2] [Hwf3 Hraw3 Hf3 Ho3 Er3].
  split; [done| | | |congruence].
  - intros id' e. rewrite Hraw3. destruct (decide (id' = id)); [done|]. rewrite Hraw2. by rewrite decide_False.
  - intros i t c k d0 Hf Hk. destruct (Hf2 i t c k d0 Hf Hk) as [Hb Hf'].
    assert (ec_blocks s2 i !! k = Some (id, d1)) as Hk2.
    { rewrite Hb. apply list_lookup_insert_eq. by eapply lookup_lt_Some. }
    destruct (Hf3 i _ _ k d1 Hf' Hk2) as [Hb3 Hf3']. rewrite Hb, list_insert_insert_eq in Hb3, Hf3'.
    split; [done|]. rewrite Hf3'. destruct (law_blocks s2 i _ _ Hwf2 Hf') as (_ & _ & HF2).
    rewrite length_take, <-Hb, (length_blocks_data _ HF2), Hb, length_insert.
    pose proof (file_fits s1 i t c Hwf1 Hf). do 3 f_equal. lia.
  - intros j Hj. destruct (Ho2 j Hj) as [Ef Eb]. rewrite <-Ef, <-Eb. apply Ho3. by rewrite Eb.
Qed.

(** One packet with data and the empty last packet, as [_ReadBlock] and the
    clients send them. *)
Definition block_packets (off : Z) (data : list byte) : list packet :=
  [mkPacket off 0 false data; mkPacket (off + Z.of_nat (length data)) 1 true []].

Lemma read_packets_spec off block : 0 <= off -> off + Z.of_nat (length block) <= BLOCK_SIZE ->
  read_packets (length block) off block 0 0 =
  if decide (block = []) then [] else block_packets off block.
Proof using Type.
  intros Hoff Hlen. pose proof BLOCK_SIZE_val. destruct block as [|x block]; [done|].
  rewrite decide_False by done. cbn [length] in *. cbn [read_packets length].
  destruct (Z.eqb_spec 0 (Z.of_nat (Datatypes.S (length block)))); [lia|]. unfold PACKET_SIZE.
  destruct (Z.ltb_spec 16384 (Z.of_nat (Datatypes.S (length block)) - 0)); [lia|].
  unfold u64. rewrite !Z.mod_small by lia. cbn [Z.to_nat drop]. by rewrite Z.add_0_r.
Qed.

(** The packets written to block [id]; one data node acknowledges each of them. *)
Lemma write_packets_spec s h id d off data mirror : ec_wf s -> ec_raw s id d -> 0 <= off ->
  off + Z.of_nat (length data) <= BLOCK_SIZE ->
  exists s', write_packets id 0 mirror (block_packets off data) [] (mkYfs s h) =
      Ret (mkYfs s' h, ([mkAck 0 [SUCCESS]; mkAck 1 [SUCCESS]], true)) /\
    block_put s s' id (overlay d off data).
Proof using Type.
  intros Hwf Hk Hoff Hlen. pose proof (law_raw_range s id d Hwf Hk) as [Hid Hd].
  pose proof BLOCK_NUM_val. pose proof BLOCK_SIZE_val.
  destruct (WriteBlock_spec s h id d off data) as (s1 & E1 & Hs1); [done..|].
  pose proof Hs1 as [Hwf1 Hraw1 _ _ _].
  assert (ec_raw s1 id (overlay d off data)) as Hk1 by (apply Hraw1; by rewrite decide_True).
  destruct (WriteBlock_spec s1 h id _ (off + Z.of_nat (length data)) [] Hwf1 Hk1)
    as (s2 & E2 & Hs2); [lia|cbn; lia|]. rewrite overlay_nil in Hs2.
  exists s2. split; [|by eapply block_put_trans].
  unfold block_packets, write_packets, u32, u64. rewrite Z.mod_small by lia.
  cbn [offsetinblock pdata seqno lastpacketinblock]. rewrite !Z.mod_small by lia.
  rewrite (M_bind_Ret _ _ _ _ _ E1). cbn [negb]. rewrite (M_bind_Ret _ _ _ _ _ E2). reflexivity.
Qed.

(** For a block of a file. *)
Lemma write_file_packets s h i t c k id d off data mirror : ec_wf s -> ec_file s i = Some (t, c) ->
  ec_blocks s i !! k = Some (id, d) -> 0 <= off ->
  off + Z.of_nat (length data) <= BLOCK_SIZE ->
  exists s', write_packets id 0 mirror (block_packets off data) [] (mkYfs s h) =
    Ret (mkYfs s' h, ([mkAck 0 [SUCCESS]; mkAck 1 [SUCCESS]], true)) /\
    block_set s s' i k id (overlay d off data).
Proof using Type.
  intros Hwf Hf Hk Hoff Hlen.
  destruct (write_packets_spec s h id d off data mirror) as (s' & E & Hs); try done; [by eapply law_raw_block|].
  exists s'. split; [done|]. by eapply block_put_set.
Qed.

Lemma WriteBlock_packets id mirror ps (y y' : yfs S) acks : write_packets id 0 mirror ps [] y = Ret (y', (acks, true)) ->
  _WriteBlock id 0 true mirror ps y = Ret (y', (SUCCESS, acks, true)).
Proof using Type.
  intros E. unfold _WriteBlock. rewrite decide_False by lia. by rewrite (M_bind_Ret _ _ _ _ _ E).
Qed.
End facts.

(* ------------------------------------------------------------------ *)
(** ** Packets on the wire *)

Section wire.
Context `{!ProtobufRuntime, !RuntimeLaws}.

(** The packets whose header has the 25 bytes that a reader expects. *)
Lemma ReadPacket_write h data : header_ok h -> h_syncblock h = None ->
  datalen h = Z.of_nat (length data) ->
  exists w, WritePacket h data = Ret w /\
    forall rest, ReadPacket (w ++ rest) = Ret (h, Some (data, rest)).
Proof.
  intros Hh Hsync Hlen. unfold WritePacket. rewrite Hlen, Nat2Z.id.
  destruct (Nat.ltb_spec (length data) (length data)); [lia|]. rewrite (take_ge data) by lia.
  eexists. split; [done|]. intros rest. rewrite <-!app_assoc. unfold ReadPacket.
  rewrite (ReadRaw_app 4) by apply length_be_bytes. rewrite (ReadRaw_app 2) by apply length_be_bytes.
  rewrite be_val_bytes. change (25 mod 256 ^ Z.of_nat 2 =? 25) with true. cbn [negb].
  assert (length (InternalSerializeWithCachedSizesToArray h) = 25%nat) as E.
  { pose proof (length_header h) as HL. destruct Hh as (off & seq & last & len & sync & -> & _).
    cbn in Hsync. subst sync. change (ByteSize _) with 25 in HL. lia. }
  rewrite take_app_length', drop_app_length' by (by rewrite E).
  rewrite parse_serialize by done. cbn - [be_bytes]. rewrite Hlen.
  assert (Z.of_nat (length data) < 2 ^ 31) as Hb.
  { destruct Hh as (off & seq & last & len & sync & -> & _ & _ & Hl). cbn in Hlen. lia. }
  rewrite be_val_bytes. unfold u32. change (256 ^ Z.of_nat 4) with (2 ^ 32).
  rewrite Z.mod_mod by lia. rewrite Z.mod_small by lia.
  replace (4 + Z.of_nat (length data) - 4 - Z.of_nat (length data)) with 0 by lia.
  change (Z.to_nat (sint 32 0)) with 0%nat. rewrite drop_0.
  destruct (Z.ltb_spec (Z.of_nat (length data)) 0); [lia|]. rewrite Nat2Z.id.
  by rewrite ReadRaw_app.
Qed.

(** Packets with values in the range of their fields. *)
Definition packet_ok (p : packet) : Prop :=
  0 <= offsetinblock p < 2 ^ 63 /\ 0 <= seqno p < 2 ^ 63 /\ Z.of_nat (length (pdata p)) < 2 ^ 31.

Lemma packet_header_ok p : packet_ok p -> header_ok (packet_header p) /\
  packet_header p = mkPacketHeader (Some (offsetinblock p)) (Some (seqno p)) (Some (lastpacketinblock p))
    (Some (Z.of_nat (length (pdata p)))) None [].
Proof.
  intros (Hoff & Hseq & Hlen).
  assert (packet_header p = mkPacketHeader (Some (offsetinblock p)) (Some (seqno p))
    (Some (lastpacketinblock p)) (Some (Z.of_nat (length (pdata p)))) None []) as E.
  { unfold packet_header. rewrite !(sint_small 64), (sint_small 32) by lia; done. }
  split; [|done]. rewrite E. exists (offsetinblock p), (seqno p), (lastpacketinblock p),
    (Z.of_nat (length (pdata p))), None. repeat split; lia.
Qed.

(** The last packet of a list, and only this one, is marked. *)
Fixpoint ends_last (ps : list packet) : Prop :=
  match ps with
  | [] => False
  | [p] => lastpacketinblock p = true
  | p :: ps => lastpacketinblock p = false /\ ends_last ps
  end.

Lemma read_write_stream ps : Forall packet_ok ps -> ends_last ps ->
  exists w, write_stream ps = Ret w /\
    forall fuel rest, (length ps <= fuel)%nat -> read_stream fuel (w ++ rest) = Ret (Some (ps, rest)).
Proof.
  induction ps as [|p ps IH]; intros Hok He; [done|]. apply Forall_cons in Hok as [Hp Hok].
  destruct (packet_header_ok p Hp) as [Hh Eh].
  destruct (ReadPacket_write (packet_header p) (pdata p)) as (w & Ew & Hr); [done|done|by rewrite Eh|].
  cbn [write_stream]. rewrite Ew, bind_Ret.
  assert (forall rest, ReadPacket (w ++ rest) = Ret (packet_header p, Some (pdata p, rest))) as Hr' by done.
  rewrite Eh in Hr'. clear Hr.
  destruct ps as [|p' ps].
  - exists (w ++ []). split; [done|]. intros [|fuel] rest Hf; cbn [length] in Hf; [lia|].
    cbn [read_stream]. rewrite app_nil_r, Hr', bind_Ret. cbn. cbn in He. rewrite He. by destruct p; cbn in *; subst.
  - destruct He as [Hl He]. destruct (IH Hok He) as (w' & Ew' & Hs). rewrite Ew', bind_Ret.
    exists (w ++ w'). split; [done|]. intros [|fuel] rest Hf; cbn [length] in Hf; [lia|].
    cbn [read_stream]. rewrite <-app_assoc, Hr', bind_Ret.
    cbn [default h_offsetinblock header_seqno h_seqno h_lastpacketinblock lastpacketinblock].
    unfold header_seqno. cbn. rewrite Hl. rewrite Hs by (cbn [length]; lia). rewrite bind_Ret. by destruct p; cbn in *; subst.
Qed.
End wire.
