(* ===== verification/DataServer.v ===== *)
(** * The data node's connections

    The thread that serves a connection of datanode_base.cc, on the bytes that
    a client sends: the operation, its parameters, the packets of a write, and
    the bytes that are sent back.  The connection to the next data node is a
    stream of the bytes that it answers, and a record of the bytes it is sent.
    Writing to a socket does not fail. *)

From S2P Require Import Prelude Disk Protocol Extent Yfs Protobuf WireFormat GeneratedCode Protos Hrpc Messages Datanode.

Module data_server.

(* ------------------------------------------------------------------ *)
(** ** The messages *)

(** The address and the port of a data node. *)
Definition target : Type := list byte * Z.

(** [id().ipaddr()] and [id().xferport()] *)
Definition target_of (info : msg proto.DatanodeInfoProto) : target :=
  let id := get_message proto.DatanodeIDProto 1 info in (get_bytes 1 id, get_int 4 0 id).

(** [baseheader().block().blockid()] *)
Definition header_blockid (h : msg proto.ClientOperationHeaderProto) : Z :=
  get_int 2 0 (get_message proto.ExtendedBlockProto 1 (get_message proto.BaseHeaderProto 1 h)).

Definition or_blockid (p : msg proto.OpReadBlockProto) : Z :=
  header_blockid (get_message proto.ClientOperationHeaderProto 1 p).
Definition or_offset (p : msg proto.OpReadBlockProto) : Z := get_int 2 0 p.
Definition or_len (p : msg proto.OpReadBlockProto) : Z := get_int 3 0 p.

Definition ow_blockid (p : msg proto.OpWriteBlockProto) : Z :=
  header_blockid (get_message proto.ClientOperationHeaderProto 1 p).
Definition ow_targets (p : msg proto.OpWriteBlockProto) : list target :=
  target_of <$> get_messages proto.DatanodeInfoProto 2 p.

Definition ot_blockid (p : msg proto.OpTransferBlockProto) : Z :=
  header_blockid (get_message proto.ClientOperationHeaderProto 1 p).

Definition bo_status (r : msg proto.BlockOpResponseProto) : Z := get_int 1 SUCCESS r.

(** A [PipelineAckProto] with [seqno] and [reply], and its replies. *)
Definition ack_msg (a : ack) : msg proto.PipelineAckProto :=
  new_message proto.PipelineAckProto |> set_int 1 (ack_seqno a) |> set_values 2 (VInt <$> reply a).
Definition replies_of (m : msg proto.PipelineAckProto) : list Z := as_Z SUCCESS <$> values 2 m.

Definition CHECKSUM_NULL : Z := 0.
Definition PIPELINE_SETUP_CREATE : Z := 6.

(** The responses to an operation: a status; the response to a write; the one
    to a read. *)
Definition status_response (status : Z) : msg proto.BlockOpResponseProto :=
  new_message proto.BlockOpResponseProto |> set_int 1 status.
Definition write_response : msg proto.BlockOpResponseProto := status_response SUCCESS |> set_bytes 2 [].
Definition checksum (bytesperchecksum : Z) : msg proto.ChecksumProto :=
  new_message proto.ChecksumProto |> set_int 1 CHECKSUM_NULL |> set_int 2 bytesperchecksum.
Definition read_response (offset : Z) : msg proto.BlockOpResponseProto :=
  status_response SUCCESS
    |> set_message 4 (new_message proto.ReadOpChecksumInfoProto |> set_message 1 (checksum 1) |> set_int 2 offset).

(** The request without its first target. *)
Definition pass_on (param : msg proto.OpWriteBlockProto) : msg proto.OpWriteBlockProto :=
  param |> erase_first 2 |> erase_first 12 |> erase_first 15.

(** The overload of [ConnectToMirror] for a transfer makes a write request. *)
Definition mirror_request (param : msg proto.OpTransferBlockProto) : msg proto.OpWriteBlockProto :=
  new_message proto.OpWriteBlockProto
    |> set_message 1 (get_message proto.ClientOperationHeaderProto 1 param)
    |> set_values 2 (values 2 param)
    |> set_values 12 (values 3 param)
    |> set_int 4 PIPELINE_SETUP_CREATE
    |> set_int 5 (u32 (Z.of_nat (length (values 2 param))))
    |> set_int 6 0 |> set_int 7 0 |> set_int 8 0
    |> set_message 9 (checksum 0).

(* ------------------------------------------------------------------ *)
(** ** Connections *)

(** The connection to the next data node: what it still delivers, and what it
    was sent. *)
Record mirror : Type := mkMirror { m_target : target; m_ins : list byte; m_out : list byte }.

(** The bytes sent to the client, and those sent to other data nodes. *)
Definition sent : Type := list byte * list (target * list byte).

Definition sent_app (a b : sent) : sent := (a.1 ++ b.1, a.2 ++ b.2).

Definition forwarded (m : option mirror) : list (target * list byte) :=
  match m with None => [] | Some m => [(m_target m, m_out m)] end.

(** The result of an operation: its value, the rest of the input, and what was
    sent. *)
Definition io (A : Type) : Type := A * list byte * sent.

(** The version and the operation in front of a request. *)
Definition op_bytes (op : Z) : list byte := [x00; x1c; to_byte op].

Section server.
Context {S : Type} `{!ExtentClient S, PR : !ProtobufRuntime, WR : !WireRuntime, FP : !FailedParse}.
(** [Connect]: what another data node sends over a new connection, or [None]
    when it cannot be reached. *)
Context (dial : target -> option (list byte)).

Definition response (status : Z) : list byte := write_delimited (status_response status).

(** The packet that a header and its data are. *)
Definition packet_of (h : PacketHeaderProto) (data : list byte) : packet :=
  mkPacket (default 0 (h_offsetinblock h)) (header_seqno h) (default false (h_lastpacketinblock h)) data.

(* ------------------------------------------------------------------ *)
(** ** The next data node *)

(** [ConnectToMirror]: the result, and the connection if there is one.  The
    first target is erased from a list that must not be empty. *)
Definition ConnectToMirror (param : msg proto.OpWriteBlockProto) : outcome (bool * option mirror) :=
  match ow_targets param with
  | [] => Undef
  | t :: _ =>
      let req := pass_on param in
      match dial t with
      | None => Ret (false, None)
      | Some ins =>
          '(resp, ins) ← ParseDelimited ins;
          Ret (match resp with Some resp => bo_status resp =? SUCCESS | None => false end,
               Some (mkMirror t ins (op_bytes 80 ++ write_delimited req)))
      end
  end.

(** A packet is sent to the mirror, and its acknowledgement read. *)
Definition mirror_packet (header : PacketHeaderProto) (data : list byte) (m : mirror)
    : outcome (option (list Z) * mirror) :=
  b ← WritePacket header data;
  '(r, ins) ← ParseDelimited (m_ins m);
  Ret (match r with None => None | Some a => Some (replies_of a) end, mkMirror (m_target m) ins (m_out m ++ b)).

(** The replies of the mirror to a packet of [_WriteBlock], which has one when
    there are targets. *)
Definition mirror_replies (targets : nat) (header : PacketHeaderProto) (data : list byte)
    (m : option mirror) : outcome (list Z * option mirror) :=
  match m with
  | None => Ret ([], None)
  | Some m =>
      '(r, m) ← mirror_packet header data m;
      Ret (match r with None => replicate targets ERROR | Some l => l end, Some m)
  end.

(** A packet of [_TransferBlock]; [reply(0)] of an acknowledgement without
    replies fails a check. *)
Definition transfer_packet (p : packet) (m : mirror) : outcome (bool * mirror) :=
  '(r, m) ← mirror_packet (packet_header p) (pdata p) m;
  match r with
  | None => Ret (false, m)
  | Some [] => Abort
  | Some (r :: _) => Ret (r =? SUCCESS, m)
  end.

(* ------------------------------------------------------------------ *)
(** ** The operations *)

(** [_ReadBlock] *)
Definition serve_read (ins : list byte) : M S (io bool) :=
  '(r, ins) ← fail (ParseDelimited ins);
  match r with
  | None => ret (false, ins, (response ERROR, []))
  | Some param =>
      packets ← _ReadBlock (or_blockid param) (or_offset param) (or_len param);
      bytes ← fail (write_stream packets);
      ret (true, ins,
        (write_delimited (read_response (or_offset param)) ++ bytes, []))
  end.

(** The loop of [_WriteBlock] over the packets of the stream. *)
Fixpoint write_loop (fuel : nat) (blockid : Z) (targets : nat) (ins out : list byte)
    (m : option mirror) : M S (io bool) :=
  match fuel with
  | O => fail Stuck
  | Datatypes.S fuel =>
      '(header, r) ← fail (ReadPacket ins);
      match r with
      | None => ret (false, [], (out ++ write_delimited (ack_msg (mkAck (header_seqno header) [ERROR])), forwarded m))
      | Some (data, ins) =>
          let p := packet_of header data in
          ok ← WriteBlock (u32 blockid) (u64 (offsetinblock p)) (Z.of_nat (length data)) data;
          if negb ok then
            ret (false, ins, (out ++ write_delimited (ack_msg (mkAck (seqno p) [ERROR])), forwarded m))
          else
            '(replies, m) ← fail (mirror_replies targets header data m);
            let out := out ++ write_delimited (ack_msg (mkAck (seqno p) (SUCCESS :: replies))) in
            if lastpacketinblock p then ret (true, ins, (out, forwarded m))
            else write_loop fuel blockid targets ins out m
      end
  end.

(** [_WriteBlock] *)
Definition serve_write (ins : list byte) : M S (io bool) :=
  '(r, ins) ← fail (ParseDelimited ins);
  match r with
  | None => ret (false, ins, (response ERROR, []))
  | Some param =>
      '(ok, m) ← fail (if decide (ow_targets param = []) then Ret (true, None) else ConnectToMirror param);
      if negb ok then ret (false, ins, (response ERROR, forwarded m))
      else
        write_loop (Datatypes.S (length ins)) (ow_blockid param) (length (ow_targets param)) ins
          (write_delimited write_response) m
  end.

(** [_TransferBlock], with the response that [worker] sends when it fails;
    [block.data()] must have [BLOCK_SIZE] bytes. *)
Definition serve_transfer (ins : list byte) : M S (io bool) :=
  '(r, ins) ← fail (ParseDelimited ins);
  match r with
  | None => ret (false, ins, (response ERROR, []))
  | Some param =>
      block ← ReadBlock (u32 (ot_blockid param)) 0 BLOCK_SIZE;
      '(ok, m) ← fail (ConnectToMirror (mirror_request param));
      match m with
      | Some m =>
          if negb ok then ret (false, ins, (response ERROR, forwarded (Some m)))
          else if Z.of_nat (length block) <? BLOCK_SIZE then fail Undef
          else
            '(ok, m) ← fail (transfer_packet (mkPacket 0 0 false (take BS block)) m);
            if negb ok then ret (false, ins, (response ERROR, forwarded (Some m)))
            else
              '(ok, m) ← fail (transfer_packet (mkPacket BLOCK_SIZE 1 true []) m);
              ret (ok, ins, (response (if (ok : bool) then SUCCESS else ERROR), forwarded (Some m)))
      | None => ret (false, ins, (response ERROR, []))
      end
  end.

(** [worker]: what is sent until the connection ends. *)
Fixpoint worker (fuel : nat) (ins : list byte) (out : sent) : M S sent :=
  match fuel with
  | O => fail Stuck
  | Datatypes.S fuel =>
      match ReadOp ins with
      | None => ret out
      | Some (op, ins) =>
          let next (r : M S (io bool)) : M S sent :=
            '(ok, ins, o) ← r;
            if negb ok then ret (sent_app out o) else worker fuel ins (sent_app out o) in
          if op =? 81 then next (serve_read ins)
          else if op =? 80 then next (serve_write ins)
          else if op =? 86 then next (serve_transfer ins)
          else ret out
      end
  end.

Definition serve_connection (ins : list byte) : M S sent :=
  worker (Datatypes.S (length ins)) ins ([], []).
End server.
End data_server.
