(* ===== verification/DataServerFacts.v ===== *)
(** * Facts about the data node's connections

    The byte level of [DataServer] does what the packet level of [Datanode]
    does, and ends on every input. *)

From S2P Require Import Prelude Disk Protocol Inode InodeFacts FileRead FileWrite DirFormat Extent BlockFacts.
From S2P Require Import Yfs YfsFacts Protobuf ProtobufFacts WireFormat WireFormatFacts GeneratedCode GeneratedFacts.
From S2P Require Import Protos Hrpc HrpcFacts Messages MessageFacts Datanode DatanodeFacts DataServer.
Import data_server.

(** A computation that is not stuck. *)
Lemma M_bind_safe {S A B} (m : M S A) (k : A -> M S B) y : m y <> Stuck ->
  (forall y' a, m y = Ret (y', a) -> k a y' <> Stuck) -> (m ≫= k) y <> Stuck.
Proof.
  intros Hm Hk. unfold mbind, M_bind. destruct (m y) as [[y' a]| | |]; try done. by apply Hk.
Qed.

(* ------------------------------------------------------------------ *)
(** ** The messages of a data node *)

Section messages.
Context `{PR : !ProtobufRuntime, WR : !WireRuntime, RL : !RuntimeLaws, WL : !WireLaws}.

Lemma replies_of_ack a : replies_of (ack_msg a) = reply a.
Proof using Type.
  unfold replies_of.
  change (values 2 (ack_msg a)) with (VInt <$> reply a). rewrite <-list_fmap_compose. apply list_fmap_id.
Qed.

Lemma ack_sendable n k : n = 0 \/ n = 1 -> Z.of_nat k < 2 ^ 28 ->
  sendable (2 ^ 31) (ack_msg (mkAck n (replicate k SUCCESS))).
Proof using Type.
  intros Hn Hk. split; [split; [split; [vm_compute; reflexivity|]|]|].
  - typed_fields; [by destruct Hn as [-> | ->]|].
    apply Forall_fmap, Forall_forall. intros x Hx. cbn in Hx. by apply elem_of_replicate_inv in Hx as ->.
  - cbn [message_size msg_message]. unfold generated.ByteSize. cbn - [generated.field_size generated.value_size].
    unfold generated.field_size. cbn - [VarintSize32 VarintSize64 VarintSize32SignExtended MakeTag].
    assert (VarintSize64 (ZigZagEncode64 n) = 1) as ->.
    { rewrite size_varint64; destruct Hn as [-> | ->]; done. }
    change (VarintSize32 (MakeTag 1 WIRETYPE_VARINT)) with 1.
    assert (foldr (fun v s => VarintSize32 (MakeTag 2 WIRETYPE_VARINT) +
      PrimitiveSize (TYPE_ENUM proto.Status) v + s) 0 (VInt <$> replicate k SUCCESS) = 2 * Z.of_nat k) as ->; [|lia].
    clear. induction k as [|k IH]; [done|]. cbn [replicate fmap list_fmap foldr]. rewrite IH.
    change (PrimitiveSize (TYPE_ENUM proto.Status) (VInt SUCCESS)) with 1.
    change (VarintSize32 (MakeTag 2 WIRETYPE_VARINT)) with 1. lia.
  - init_fields. by apply Forall_fmap, Forall_true.
Qed.

Lemma write_response_sendable : sendable (2 ^ 31) write_response.
Proof using Type.
  split; [split; [split; [vm_compute; reflexivity|]|]|].
  - by typed_fields.
  - cbn [message_size msg_message]. unfold generated.ByteSize. cbn - [generated.field_size generated.value_size].
   done.
  - by init_fields.
Qed.

Lemma pass_on_spec b p : sendable b p ->
  sendable b (pass_on p) /\ ow_blockid (pass_on p) = ow_blockid p /\ ow_targets (pass_on p) = tail (ow_targets p).
Proof using Type.
  intros Hp. assert (forall n vs (m : msg proto.OpWriteBlockProto), n <> 1 -> ow_blockid (set_values n vs m) = ow_blockid m) as Hid.
  { intros n vs m Hn. unfold ow_blockid, get_message. by rewrite values_set_ne. }
  split; [|split].
  - unfold pass_on. do 3 (eapply erase_first_sendable; [reflexivity|]). done.
  - unfold pass_on, erase_first. by rewrite !Hid.
  - destruct Hp as [[[_ Ht] _] _]. unfold pass_on, ow_targets, get_messages.
    unfold erase_first at 1. rewrite values_set_ne by done. unfold erase_first at 1. rewrite values_set_ne by done.
    unfold erase_first. rewrite values_set_eq by done. by destruct (values 2 p).
Qed.

Definition ot_targets (p : msg proto.OpTransferBlockProto) : list target :=
  target_of <$> get_messages proto.DatanodeInfoProto 2 p.

Lemma mirror_request_typed p : msg_typed p -> msg_typed (mirror_request p).
Proof using Type.
  intros Ht. typed_fields.
  - by eapply get_message_typed.
  - by apply (values_typed 2 p _ _ Ht eq_refl).
  - apply typed_u32.
  - by apply (values_typed 3 p _ _ Ht eq_refl).
Qed.

Lemma mirror_request_spec p : sendable (2 ^ 31) p -> message_size (mirror_request p) < 2 ^ 31 ->
  sendable (2 ^ 31) (mirror_request p) /\ ow_blockid (mirror_request p) = ot_blockid p /\
  ow_targets (mirror_request p) = ot_targets p.
Proof using Type.
  intros [[[_ Ht] _] Hi] Hs. split; [|done]. split; [split; [split; [vm_compute; reflexivity|]|done]|].
  - by apply mirror_request_typed.
  - init_fields. all: cbn in Hi.
    + by eapply (get_message_init proto.ClientOperationHeaderProto 1 p).
    + by apply (values_init 2 p _ _ Ht Hi eq_refl).
    + by apply (values_init 3 p _ _ Ht Hi eq_refl).
Qed.
End messages.

Section facts.
Context {S : Type} `{!ExtentClient S, PR : !ProtobufRuntime, WR : !WireRuntime, FP : !FailedParse}.
Context (dial : target -> option (list byte)).

(** The bytes of a packet. *)
Lemma packet_wire {RL : RuntimeLaws} p : packet_ok p ->
  exists w, WritePacket (packet_header p) (pdata p) = Ret w /\
    packet_of (packet_header p) (pdata p) = p /\
    forall rest, ReadPacket (w ++ rest) = Ret (packet_header p, Some (pdata p, rest)).
Proof using Type.
  intros Hp. destruct (packet_header_ok p Hp) as [Hh Eh].
  destruct (ReadPacket_write (packet_header p) (pdata p)) as (w & Ew & Hr); [done|done|by rewrite Eh|].
  exists w. split; [done|]. split; [|done]. rewrite Eh. by destruct p.
Qed.

Definition ack_bytes (acks : list ack) : list byte := concat ((fun a => write_delimited (ack_msg a)) <$> acks).

Lemma ack_bytes_snoc acks a : ack_bytes (acks ++ [a]) = ack_bytes acks ++ write_delimited (ack_msg a).
Proof using Type. unfold ack_bytes. rewrite fmap_app, concat_app. cbn. by rewrite app_nil_r. Qed.

(** One turn of the loop over a packet that is written. *)
Lemma write_loop_turn {RL : RuntimeLaws} p w rest fuel id targets out m replies m' y y' :
  packet_ok p -> WritePacket (packet_header p) (pdata p) = Ret w ->
  WriteBlock (u32 id) (u64 (offsetinblock p)) (Z.of_nat (length (pdata p))) (pdata p) y = Ret (y', true) ->
  mirror_replies targets (packet_header p) (pdata p) m = Ret (replies, m') ->
  let out' := out ++ write_delimited (ack_msg (mkAck (seqno p) (SUCCESS :: replies))) in
  write_loop (Datatypes.S fuel) id targets (w ++ rest) out m y =
    if lastpacketinblock p then Ret (y', (true, rest, (out', forwarded m')))
    else write_loop fuel id targets rest out' m' y'.
Proof using Type.
  intros Hp Ew Eb Em out'. destruct (packet_wire p Hp) as (wp & Ep & Epk & Hr).
  assert (wp = w) as -> by congruence. cbn [write_loop]. rewrite Hr.
  erewrite M_bind_Ret by (unfold fail; by rewrite bind_Ret). cbn beta iota zeta. rewrite Epk.
  rewrite (M_bind_Ret _ _ _ _ _ Eb). cbn [negb]. rewrite Em.
  erewrite M_bind_Ret by (unfold fail; by rewrite bind_Ret). fold out'. by destruct (lastpacketinblock p).
Qed.

(** The writes of the packet level, one by one. *)
Lemma write_packets_cons id mirror p ps acks acks' y y' :
  ends_last (p :: ps) -> write_packets id 0 mirror (p :: ps) acks y = Ret (y', (acks', true)) ->
  exists y1, WriteBlock (u32 id) (u64 (offsetinblock p)) (Z.of_nat (length (pdata p))) (pdata p) y =
      Ret (y1, true) /\
    if lastpacketinblock p then ps = [] /\ y1 = y' /\ acks' = acks ++ [mkAck (seqno p) [SUCCESS]]
    else ends_last ps /\ write_packets id 0 mirror ps (acks ++ [mkAck (seqno p) [SUCCESS]]) y1 = Ret (y', (acks', true)).
Proof using Type.
  intros He. cbn [write_packets].
  destruct (WriteBlock (u32 id) (u64 (offsetinblock p)) (Z.of_nat (length (pdata p))) (pdata p) y)
    as [[y1 ok]| | |] eqn:Ewb; unfold mbind, M_bind; rewrite Ewb; [|done..].
  destruct ok; cbn [negb]; [|done]. intros E. exists y1. split; [done|].
  destruct ps as [|p' ps]; cbn in He.
  - rewrite He in *. injection E as <- <-. done.
  - destruct He as [Hl He]. by rewrite Hl in *.
Qed.

(** The packets that arrive as bytes are written and acknowledged like those
    of the packet level. *)
Lemma write_loop_stream {RL : RuntimeLaws} ps w rest fuel id targets mirror acks acks' out y y' :
  Forall packet_ok ps -> ends_last ps -> write_stream ps = Ret w -> (length ps <= fuel)%nat ->
  write_packets id 0 mirror ps acks y = Ret (y', (acks', true)) ->
  write_loop fuel id targets (w ++ rest) (out ++ ack_bytes acks) None y =
    Ret (y', (true, rest, (out ++ ack_bytes acks', []))).
Proof using Type.
  revert w fuel acks y. induction ps as [|p ps IH]; intros w fuel acks y Hok He Hw Hf E; [done|].
  apply Forall_cons in Hok as [Hp Hok]. destruct fuel as [|fuel]; [cbn in Hf; lia|].
  cbn [write_stream] in Hw. destruct (packet_wire p Hp) as (wp & Ep & _).
  rewrite Ep, bind_Ret in Hw. destruct (write_stream ps) as [ws| | |] eqn:Ews; [|done..].
  injection Hw as <-. destruct (write_packets_cons _ _ _ _ _ _ _ _ He E) as (y1 & Eb & Hn).
  rewrite <-app_assoc, (write_loop_turn p wp _ fuel id targets _ None [] None y y1) by done.
  rewrite <-app_assoc, <-ack_bytes_snoc. destruct (lastpacketinblock p).
  - destruct Hn as (-> & <- & ->). injection Ews as <-. done.
  - destruct Hn as [He' E']. apply IH; try done. cbn [length] in *. lia.
Qed.

(** With a mirror that acknowledges every packet, the packets are passed on
    as they came, and its replies are added to the acknowledgements. *)
Lemma write_loop_mirrored {RL : RuntimeLaws} {WL : WireLaws}
    ps macks w rest mrest fuel id targets mirror acks acks' out t mout y y' :
  Forall packet_ok ps -> ends_last ps -> write_stream ps = Ret w -> (length ps <= fuel)%nat ->
  length macks = length ps -> Forall (fun a => sendable (2 ^ 31) (ack_msg a)) macks ->
  write_packets id 0 mirror ps acks y = Ret (y', (acks', true)) ->
  write_loop fuel id targets (w ++ rest) out (Some (mkMirror t (ack_bytes macks ++ mrest) mout)) y =
    Ret (y', (true, rest,
      (out ++ ack_bytes (zip_with (fun p a => mkAck (seqno p) (SUCCESS :: reply a)) ps macks), [(t, mout ++ w)]))).
Proof using Type.
  revert w macks fuel acks out mout y.
  induction ps as [|p ps IH]; intros w macks fuel acks out mout y Hok He Hw Hf Hl Hm E; [done|].
  destruct macks as [|a macks]; [done|]. apply Forall_cons in Hm as [Ha Hm].
  apply Forall_cons in Hok as [Hp Hok]. destruct fuel as [|fuel]; [cbn in Hf; lia|].
  cbn [write_stream] in Hw. destruct (packet_wire p Hp) as (wp & Ep & _).
  rewrite Ep, bind_Ret in Hw. destruct (write_stream ps) as [ws| | |] eqn:Ews; [|done..].
  injection Hw as <-. destruct (write_packets_cons _ _ _ _ _ _ _ _ He E) as (y1 & Eb & Hn).
  rewrite <-app_assoc, (write_loop_turn p wp _ fuel id targets _ _ (reply a)
    (Some (mkMirror t (ack_bytes macks ++ mrest) (mout ++ wp))) y y1); try done.
  2: { unfold mirror_replies, mirror_packet. rewrite Ep, bind_Ret. cbn [m_ins m_target m_out].
       change (ack_bytes (a :: macks)) with (write_delimited (ack_msg a) ++ ack_bytes macks).
       rewrite <-app_assoc, ParseDelimited_write, !bind_Ret by done. by rewrite replies_of_ack. }
  cbn [zip_with]. change (ack_bytes (?x :: ?l)) with (write_delimited (ack_msg x) ++ ack_bytes l).
  rewrite (app_assoc out), (app_assoc mout). destruct (lastpacketinblock p).
  - destruct Hn as (-> & <- & ->). injection Ews as <-. cbn [zip_with ack_bytes fmap list_fmap concat].
    by rewrite !app_nil_r.
  - destruct Hn as [He' E']. eapply IH; try done; cbn [length] in *; lia.
Qed.

(* ------------------------------------------------------------------ *)
(** ** One connection: a write, then a read *)

Lemma ReadOp_write op rest : 0 <= op < 256 -> ReadOp (op_bytes op ++ rest) = Some (op, rest).
Proof using Type.
  intros Hop. unfold op_bytes, ReadOp. rewrite (ReadRaw_app 3) by done. cbn.
  by rewrite val_to_byte, Z.mod_small by lia.
Qed.

Lemma stream_fits ps w : write_stream ps = Ret w -> (length ps <= length w)%nat.
Proof using Type.
  revert w. induction ps as [|p ps IH]; intros w; cbn [write_stream length]; [lia|].
  destruct (WritePacket (packet_header p) (pdata p)) as [b| | |] eqn:Ep; [|done..].
  rewrite bind_Ret. destruct (write_stream ps) as [bs| | |]; [|done..]. intros [= <-].
  specialize (IH bs eq_refl). unfold WritePacket in Ep. destruct (_ <? _)%nat; [done|].
  assert (be_bytes 4 (u32 (4 + datalen (packet_header p))) ++ be_bytes 2 25 ++
    InternalSerializeWithCachedSizesToArray (packet_header p) ++
    take (Z.to_nat (datalen (packet_header p))) (pdata p) = b) as <- by congruence.
  rewrite !length_app, !length_be_bytes. lia.
Qed.

Context {RL : RuntimeLaws} {WL : WireLaws}.
Context `{!ExtentLaws S, !BlockLaws S}.

Lemma block_packets_ok off data : 0 <= off -> off + Z.of_nat (length data) <= BLOCK_SIZE ->
  Forall packet_ok (block_packets off data) /\ ends_last (block_packets off data).
Proof using Type.
  intros Hoff Hlen. pose proof BLOCK_SIZE_val. split; [|done].
  repeat constructor; cbn [offsetinblock seqno pdata length]; lia.
Qed.

Lemma block_stream off data : 0 <= off -> off + Z.of_nat (length data) <= BLOCK_SIZE ->
  exists w, write_stream (block_packets off data) = Ret w.
Proof using RL.
  intros Hoff Hlen. destruct (block_packets_ok off data Hoff Hlen) as [Hok He].
  destruct (read_write_stream _ Hok He) as (w & Ew & _). by exists w.
Qed.

(** What a data node answers to a write, with [replies] of other data nodes. *)
Definition write_answer (replies : list Z) : list byte :=
  write_delimited write_response ++ ack_bytes [mkAck 0 (SUCCESS :: replies); mkAck 1 (SUCCESS :: replies)].

Lemma fail_Ret {A} (a : A) (y : yfs S) : fail (Ret a) y = Ret (y, a).
Proof using Type. done. Qed.

(** A write whose packets the store takes, as the packet level has it. *)
Section write.
Context (y y' : yfs S) (id off : Z) (data w rest : list byte) (req : msg proto.OpWriteBlockProto).
Context (Hrun : write_packets id 0 (fun _ => None) (block_packets off data) [] y =
  Ret (y', ([mkAck 0 [SUCCESS]; mkAck 1 [SUCCESS]], true))).
Context (Hoff : 0 <= off) (Hlen : off + Z.of_nat (length data) <= BLOCK_SIZE).
Context (Hw : write_stream (block_packets off data) = Ret w).
Context (Hreq : sendable (2 ^ 31) req) (Hid : ow_blockid req = id).

Lemma serve_write_spec : ow_targets req = [] ->
  serve_write dial (write_delimited req ++ w ++ rest) y = Ret (y', (true, rest, (write_answer [], []))).
Proof using RL WL Hrun Hoff Hlen Hw Hreq Hid.
  intros Ht. destruct (block_packets_ok off data Hoff Hlen) as [Hok He].
  unfold serve_write. rewrite ParseDelimited_write by done.
  rewrite (M_bind_Ret _ _ _ _ _ (fail_Ret _ _)). rewrite Ht, Hid, decide_True by done.
  rewrite (M_bind_Ret _ _ _ _ _ (fail_Ret _ _)). cbn [negb].
  pose proof (stream_fits _ _ Hw) as Hfit. rewrite <-(app_nil_r (write_delimited write_response)).
  apply (write_loop_stream (block_packets off data) w rest (Datatypes.S (length (w ++ rest))) id 0
    (fun _ => None) []); try done. rewrite length_app. lia.
Qed.

(** With targets: the request without the first target and the packets go to
    that target, whose answer is the one above, with a reply for each of the
    others. *)
Lemma serve_write_mirrored (x : target) xs mrest : ow_targets req = x :: xs ->
  Z.of_nat (length xs) + 1 < 2 ^ 28 ->
  dial x = Some (write_answer (replicate (length xs) SUCCESS) ++ mrest) ->
  serve_write dial (write_delimited req ++ w ++ rest) y =
    Ret (y', (true, rest, (write_answer (replicate (Datatypes.S (length xs)) SUCCESS),
      [(x, op_bytes 80 ++ write_delimited (pass_on req) ++ w)]))).
Proof using RL WL Hrun Hoff Hlen Hw Hreq Hid.
  intros Ht Hn Hx. destruct (block_packets_ok off data Hoff Hlen) as [Hok He].
  unfold serve_write. rewrite ParseDelimited_write by done.
  rewrite (M_bind_Ret _ _ _ _ _ (fail_Ret _ _)). rewrite Ht, decide_False by done.
  unfold ConnectToMirror. rewrite Ht, Hx. unfold write_answer at 1.
  rewrite <-app_assoc, ParseDelimited_write, bind_Ret by apply write_response_sendable.
  change (bo_status write_response =? SUCCESS) with true.
  rewrite (M_bind_Ret _ _ _ _ _ (fail_Ret _ _)). cbn [negb].
  pose proof (stream_fits _ _ Hw) as Hfit. rewrite !(app_assoc (op_bytes 80)).
  set (macks := [mkAck 0 (SUCCESS :: replicate (length xs) SUCCESS); mkAck 1 (SUCCESS :: replicate (length xs) SUCCESS)]).
  rewrite (write_loop_mirrored (block_packets off data) macks w rest mrest
    (Datatypes.S (length (w ++ rest))) (ow_blockid req) _ (fun _ => None) [] [mkAck 0 [SUCCESS]; mkAck 1 [SUCCESS]] _ x _
    y y'); rewrite ?Hid; try assumption; try reflexivity.
  - rewrite length_app. lia.
  - constructor; [|constructor; [|constructor]]; (apply (ack_sendable _ (Datatypes.S (length xs))); [auto|lia]).
Qed.
End write.

Lemma transfer_packet_acked p n w x mins mout : n = 0 \/ n = 1 ->
  WritePacket (packet_header p) (pdata p) = Ret w ->
  transfer_packet p (mkMirror x (write_delimited (ack_msg (mkAck n [SUCCESS])) ++ mins) mout) =
    Ret (true, mkMirror x mins (mout ++ w)).
Proof using RL WL.
  intros Hn Ew. unfold transfer_packet, mirror_packet. rewrite Ew, bind_Ret. cbn [m_ins m_target m_out].
  rewrite ParseDelimited_write, !bind_Ret by (apply (ack_sendable n 1); [done|lia]). by rewrite replies_of_ack.
Qed.

(** A block that is transferred to another data node goes there as a write of
    the whole block. *)
Lemma serve_transfer_spec y y' id d (req : msg proto.OpTransferBlockProto) (x : target) rest mrest w :
  ReadBlock (u32 id) 0 BLOCK_SIZE y = Ret (y', d) -> length d = BS -> write_stream (block_packets 0 d) = Ret w ->
  sendable (2 ^ 31) req -> ot_blockid req = id -> ot_targets req = [x] -> message_size (mirror_request req) < 2 ^ 31 ->
  dial x = Some (write_answer [] ++ mrest) ->
  serve_transfer dial (write_delimited req ++ rest) y =
    Ret (y', (true, rest, (response SUCCESS,
      [(x, op_bytes 80 ++ write_delimited (pass_on (mirror_request req)) ++ w)]))).
Proof using RL WL.
  intros E Hd Hw Hreq Eid Hx Hm Hdial. pose proof BS_BLOCK_SIZE.
  destruct (mirror_request_spec req Hreq Hm) as (_ & _ & Hxs). rewrite Hx in Hxs.
  unfold serve_transfer. rewrite ParseDelimited_write by done.
  rewrite (M_bind_Ret _ _ _ _ _ (fail_Ret _ _)). rewrite Eid, (M_bind_Ret _ _ _ _ _ E).
  unfold ConnectToMirror. rewrite Hxs, Hdial. unfold write_answer.
  rewrite <-app_assoc, ParseDelimited_write, bind_Ret by apply write_response_sendable.
  change (bo_status write_response =? SUCCESS) with true.
  rewrite (M_bind_Ret _ _ _ _ _ (fail_Ret _ _)). cbn [negb].
  destruct (Z.ltb_spec (Z.of_nat (length d)) BLOCK_SIZE); [lia|]. rewrite take_ge by lia.
  unfold block_packets in Hw. cbn [write_stream pdata] in Hw. rewrite Z.add_0_l, Hd, BS_BLOCK_SIZE in Hw.
  destruct (WritePacket (packet_header (mkPacket 0 0 false d)) d) as [w0| | |] eqn:E0; [|discriminate Hw..].
  rewrite bind_Ret in Hw.
  destruct (WritePacket (packet_header (mkPacket BLOCK_SIZE 1 true [])) []) as [w1| | |] eqn:E1; [|discriminate Hw..].
  rewrite !bind_Ret, app_nil_r in Hw. injection Hw as <-.
  change (ack_bytes [?a; ?b]) with (write_delimited (ack_msg a) ++ write_delimited (ack_msg b) ++ []).
  rewrite app_nil_r, <-app_assoc, (transfer_packet_acked (mkPacket 0 0 false d) 0 w0) by auto.
  rewrite (M_bind_Ret _ _ _ _ _ (fail_Ret _ _)). cbn [negb].
  rewrite (transfer_packet_acked (mkPacket BLOCK_SIZE 1 true []) 1 w1) by auto.
  rewrite (M_bind_Ret _ _ _ _ _ (fail_Ret _ _)). cbn [forwarded m_target m_out].
  by rewrite <-!app_assoc.
Qed.

(** A connection with one operation. *)
Lemma serve_one op serve l y y' o :
  (op, serve) = (80, serve_write dial) \/ (op, serve) = (86, serve_transfer dial) \/ (op, serve) = (81, serve_read) ->
  serve l y = Ret (y', (true, [], o)) -> serve_connection dial (op_bytes op ++ l) y = Ret (y', o).
Proof using Type.
  intros Ho E. unfold serve_connection. rewrite length_app. cbn [op_bytes length Nat.add worker].
  destruct o as [o f], Ho as [[= -> ->]|[[= -> ->]|[= -> ->]]]; rewrite ReadOp_write by lia;
    cbn [Z.eqb Pos.eqb]; by rewrite (M_bind_Ret _ _ _ _ _ E).
Qed.

(** A read of [block], which the store has at that place. *)
Lemma serve_read_spec y y' (req : msg proto.OpReadBlockProto) (off := or_offset req) block rest w :
  ReadBlock (u32 (or_blockid req)) off (or_len req) y = Ret (y', block) -> 0 <= off -> block <> [] ->
  off + Z.of_nat (length block) <= BLOCK_SIZE -> sendable (2 ^ 31) req ->
  write_stream (block_packets off block) = Ret w ->
  serve_read (write_delimited req ++ rest) y =
    Ret (y', (true, rest, (write_delimited (read_response off) ++ w, []))).
Proof using RL WL.
  intros E Hoff Hne Hlen Hreq Hw. unfold serve_read. rewrite ParseDelimited_write by done.
  rewrite (M_bind_Ret _ _ _ _ _ (fail_Ret _ _)). fold off.
  assert (_ReadBlock (or_blockid req) off (or_len req) y = Ret (y', block_packets off block)) as Er.
  { unfold _ReadBlock. rewrite (M_bind_Ret _ _ _ _ _ E). rewrite read_packets_spec by done. by rewrite decide_False. }
  rewrite (M_bind_Ret _ _ _ _ _ Er), Hw. by rewrite (M_bind_Ret _ _ _ _ _ (fail_Ret _ _)).
Qed.

Lemma block_put_unchanged s s1 s2 id d : block_put s s1 id d -> unchanged s1 s2 ->
  (forall id' e, ec_raw s2 id' e <-> ec_raw s1 id' e) -> block_put s s2 id d.
Proof using Type.
  intros [Hwf1 Hraw Hf Ho Er] (Hwf2 & Hu & Er2) Hraw2. split; [done| | | |congruence].
  - intros id' e. by rewrite Hraw2.
  - intros i t c k d0 Hi Hk. destruct (Hu i) as [-> ->]. by eapply Hf.
  - intros j Hj. destruct (Hu j) as [-> ->]. by apply Ho.
Qed.

Lemma read_overlay d off data : 0 <= off -> off + Z.of_nat (length data) <= Z.of_nat (length d) ->
  take (length data) (drop (Z.to_nat off) (overlay d off data)) = data.
Proof using Type.
  intros Hoff Hlen. unfold overlay. rewrite drop_app_length' by (rewrite length_take; lia).
  by rewrite take_app_length.
Qed.

Lemma overlay_all d data : length data = length d -> overlay d 0 data = data.
Proof using Type.
  intros Hl. unfold overlay. rewrite take_0. cbn [app]. rewrite drop_ge by lia. apply app_nil_r.
Qed.

(** The whole connection. *)
Lemma connection_write_read s h id d off data w (n := Z.of_nat (length data))
    (wr : msg proto.OpWriteBlockProto) (rd : msg proto.OpReadBlockProto) :
  ec_wf s -> ec_raw s id d -> 0 <= off -> off + n <= BLOCK_SIZE -> data <> [] ->
  sendable (2 ^ 31) wr -> ow_blockid wr = id -> ow_targets wr = [] ->
  sendable (2 ^ 31) rd -> or_blockid rd = id -> or_offset rd = off -> or_len rd = n ->
  write_stream (block_packets off data) = Ret w ->
  exists s', serve_connection dial
      (op_bytes 80 ++ write_delimited wr ++ w ++ op_bytes 81 ++ write_delimited rd) (mkYfs s h) =
    Ret (mkYfs s' h, (write_answer [] ++ write_delimited (read_response off) ++ w, [])) /\
    block_put s s' id (overlay d off data).
Proof using RL WL.
  intros Hwf Hk Hoff Hlen Hne Hwr Hwid Hwt Hrd Hrid Hro Hrl Hw. pose proof BS_BLOCK_SIZE.
  pose proof BLOCK_NUM_val. destruct (law_raw_range s id d Hwf Hk) as [Hid Hd].
  destruct (write_packets_spec s h id d off data (fun _ => None)) as (s1 & E & Hs1); try assumption.
  assert (ec_raw s1 id (overlay d off data)) as Hk1 by (apply Hs1; by rewrite decide_True).
  destruct (ReadBlock_spec s1 h id _ off n (put_wf _ _ _ _ Hs1) Hk1 Hoff) as (s2 & Er & Hu & Hraw).
  assert (take (Z.to_nat n) (drop (Z.to_nat off) (overlay d off data)) = data) as Ed.
  { unfold n. rewrite Nat2Z.id. apply read_overlay; lia. }
  rewrite Ed in Er. exists s2. split; [|by eapply block_put_unchanged].
  pose proof (serve_write_spec (mkYfs s h) (mkYfs s1 h) id off data w (op_bytes 81 ++ write_delimited rd) wr
    E Hoff Hlen Hw Hwr Hwid Hwt) as E1.
  pose proof (serve_read_spec (mkYfs s1 h) (mkYfs s2 h) rd data [] w) as E2.
  rewrite Hro, Hrl, Hrid, u32_id, app_nil_r in E2 by lia. specialize (E2 Er Hoff Hne Hlen Hrd Hw).
  unfold serve_connection.
  set (l := op_bytes 80 ++ _). assert (exists fuel, length l = Datatypes.S (Datatypes.S fuel)) as [fuel ->].
  { unfold l, op_bytes. cbn. eauto. }
  unfold l. cbn [worker]. rewrite ReadOp_write by lia. cbn [Z.eqb Pos.eqb].
  rewrite (M_bind_Ret _ _ _ _ _ E1). cbn [negb]. rewrite ReadOp_write by lia. cbn [Z.eqb Pos.eqb].
  rewrite (M_bind_Ret _ _ _ _ _ E2). cbn [negb ReadOp ReadRaw length Nat.ltb Nat.leb]. done.
Qed.

(* ------------------------------------------------------------------ *)
(** ** Any input *)

Context {RP : RuntimeProgress} {WP : WireProgress} {FL : FailedParseLaws}.
Context (Hread : forall id l s, ec_read_block id l s <> Stuck).
Context (Hwrite : forall id l s, ec_write_block id l s <> Stuck).

Lemma raw_length n l v l' : ReadRaw n l = Some (v, l') -> length l = (n + length l')%nat.
Proof using Type.
  unfold ReadRaw. destruct (Nat.ltb_spec (length l) n); [done|]. intros [= _ <-]. rewrite length_drop. lia.
Qed.

Lemma parse_header_total l : exists h ok, parse_header l = Ret (h, ok).
Proof using RP.
  unfold parse_header, MergePartialFromCodedStream.
  destruct (merge_parses (Datatypes.S (length l)) l header_default) as (h & r & -> & _); [lia|done|].
  rewrite bind_Ret. eauto.
Qed.

Lemma ReadPacket_progress ins : ReadPacket ins <> Stuck /\
  forall h d rest, ReadPacket ins = Ret (h, Some (d, rest)) -> (length rest < length ins)%nat.
Proof using RP.
  unfold ReadPacket. destruct (ReadRaw 4 ins) as [[plen l1]|] eqn:E1; [|done]. apply raw_length in E1.
  destruct (ReadRaw 2 l1) as [[hlen l2]|] eqn:E2; [|done]. apply raw_length in E2.
  destruct (negb (be_val hlen =? 25)); [done|].
  destruct (parse_header_total (take 25 l2)) as (h & ok & ->). rewrite bind_Ret.
  destruct ok; cbn [negb]; [|done]. destruct (datalen h <? 0); [done|]. split; [done|].
  intros h' d rest [= <- E3]. apply raw_length in E3. rewrite !length_drop in E3. lia.
Qed.

Lemma ReadBlock_safe id off len y : ReadBlock id off len y <> Stuck.
Proof using Hread.
  unfold ReadBlock. apply M_bind_safe.
  - unfold ec. specialize (Hread id [] (ys y)). by destruct (ec_read_block id [] (ys y)) as [[? ?]| | |].
  - intros y' [st b] _. by destruct (_ <? off).
Qed.

Lemma ec_safe {A} (op : S -> outcome (S * A)) y : op (ys y) <> Stuck -> ec op y <> Stuck.
Proof using Type. unfold ec. by destruct (op (ys y)) as [[? ?]| | |]. Qed.

Lemma WriteBlock_safe id off len buf y : WriteBlock id off len buf y <> Stuck.
Proof using Hread Hwrite.
  unfold WriteBlock. apply M_bind_safe; [by apply ec_safe|]. intros y1 r1 _.
  apply M_bind_safe; [by apply ec_safe|]. intros y2 [st b] _. destruct (_ <? _); [done|].
  apply M_bind_safe; [by apply ec_safe|]. done.
Qed.

(** An operation that is not stuck and gives nothing back to the input. *)
Definition progresses (m : M S (io bool)) (ins : list byte) : Prop :=
  forall y, m y <> Stuck /\
    forall y' ok rest o, m y = Ret (y', (ok, rest, o)) -> (length rest <= length ins)%nat.

Lemma ret_progresses ok rest o ins : (length rest <= length ins)%nat ->
  progresses (ret (ok, rest, o)) ins.
Proof using Type. intros Hl y. split; [done|]. by intros ???? [= _ _ <- _]. Qed.

Lemma bind_progresses {A} (m : M S A) k ins : (forall y, m y <> Stuck) ->
  (forall a, progresses (k a) ins) -> progresses (m ≫= k) ins.
Proof using Type.
  intros Hm Hk y. specialize (Hm y). destruct (m y) as [[y1 a]| | |] eqn:E; try done;
    [rewrite (M_bind_Ret _ _ _ _ _ E); apply Hk|unfold mbind, M_bind; by rewrite E..].
Qed.

Lemma progresses_le m ins ins' : progresses m ins -> (length ins <= length ins')%nat -> progresses m ins'.
Proof using Type.
  intros Hm Hl y. destruct (Hm y) as [H1 H2]. split; [done|]. intros y' ok rest o E. apply H2 in E. lia.
Qed.

Lemma fail_safe {A} (o : outcome A) (y : yfs S) : o <> Stuck -> fail o y <> Stuck.
Proof using Type. by destruct o. Qed.

Lemma WritePacket_safe hd data : WritePacket hd data <> Stuck.
Proof using Type. unfold WritePacket. by destruct (_ <? _)%nat. Qed.

Lemma mirror_packet_safe hd data m : mirror_packet hd data m <> Stuck.
Proof using RP WP FL.
  unfold mirror_packet. pose proof (WritePacket_safe hd data) as Hw.
  destruct (WritePacket hd data); try done. rewrite bind_Ret.
  by destruct (ParseDelimited_ends (fields := proto.PipelineAckProto) (m_ins m)) as (r & rest & -> & _).
Qed.

Lemma mirror_replies_safe targets hd data m : mirror_replies targets hd data m <> Stuck.
Proof using RP WP FL.
  unfold mirror_replies. destruct m as [m|]; [|done]. pose proof (mirror_packet_safe hd data m) as Hm.
  by destruct (mirror_packet hd data m) as [[r m']| | |].
Qed.

Lemma transfer_packet_safe p m : transfer_packet p m <> Stuck.
Proof using RP WP FL.
  unfold transfer_packet. pose proof (mirror_packet_safe (packet_header p) (pdata p) m) as Hm.
  destruct (mirror_packet (packet_header p) (pdata p) m) as [[[a|] m']| | |]; try done. rewrite bind_Ret.
  by destruct a.
Qed.

Lemma ConnectToMirror_safe param : ConnectToMirror dial param <> Stuck.
Proof using RP WP FL.
  unfold ConnectToMirror. destruct (ow_targets param) as [|t ts]; [done|]. destruct (dial t) as [l|]; [|done].
  by destruct (ParseDelimited_ends (fields := proto.BlockOpResponseProto) l) as (r & rest & -> & _).
Qed.

(** An operation starts with a message. *)
Lemma parse_progresses {fields} (k : option (msg fields) * list byte -> M S (io bool)) ins :
  (forall r rest, (length rest <= length ins)%nat -> progresses (k (r, rest)) ins) ->
  progresses (fail (ParseDelimited ins) ≫= k) ins.
Proof using RP WP FL.
  intros Hk y. destruct (ParseDelimited_ends (fields := fields) ins) as (r & rest & -> & Hl).
  rewrite (M_bind_Ret _ _ _ _ _ (fail_Ret _ _)). by apply Hk.
Qed.

Lemma write_loop_progresses fuel id targets ins out m : (length ins < fuel)%nat ->
  progresses (write_loop fuel id targets ins out m) ins.
Proof using RP WP FL Hread Hwrite.
  revert ins out m. induction fuel as [|fuel IH]; intros ins out m Hf; [lia|]. cbn [write_loop].
  destruct (ReadPacket_progress ins) as [Hs Hp]. intros y.
  destruct (ReadPacket ins) as [[h r]| | |]; try done.
  rewrite (M_bind_Ret _ _ _ y (h, r)) by done. revert y.
  destruct r as [[d l]|]; [|apply ret_progresses; cbn; lia]. specialize (Hp h d l eq_refl).
  apply bind_progresses; [intros y; apply WriteBlock_safe|]. intros ok.
  destruct ok; cbn [negb]; [|apply ret_progresses; lia].
  apply bind_progresses; [intros y; apply fail_safe, mirror_replies_safe|]. intros [replies m'].
  destruct (lastpacketinblock (packet_of h d)); [apply ret_progresses; lia|].
  eapply progresses_le; [apply IH|]; lia.
Qed.

Lemma serve_read_progresses ins : progresses (serve_read ins) ins.
Proof using RP WP FL Hread.
  unfold serve_read. apply parse_progresses. intros [param|] l E; [|by apply ret_progresses]. apply bind_progresses.
  - intros y. unfold _ReadBlock. apply M_bind_safe; [apply ReadBlock_safe|done].
  - intros ps. apply bind_progresses; [|intros b; by apply ret_progresses].
    intros y. apply fail_safe. induction ps as [|p ps IH]; cbn [write_stream]; [done|].
    pose proof (WritePacket_safe (packet_header p) (pdata p)).
    destruct (WritePacket (packet_header p) (pdata p)); try done. rewrite bind_Ret.
    by destruct (write_stream ps).
Qed.

Lemma serve_write_progresses ins : progresses (serve_write dial ins) ins.
Proof using RP WP FL Hread Hwrite.
  unfold serve_write. apply parse_progresses. intros [param|] l E; [|by apply ret_progresses]. apply bind_progresses.
  - intros y. apply fail_safe. destruct (decide _); [done|]. apply ConnectToMirror_safe.
  - intros [[] m]; cbn [negb]; [|by apply ret_progresses].
    eapply progresses_le; [apply write_loop_progresses; lia|done].
Qed.

Lemma serve_transfer_progresses ins : progresses (serve_transfer dial ins) ins.
Proof using RP WP FL Hread.
  unfold serve_transfer. apply parse_progresses. intros [param|] l E; [|by apply ret_progresses].
  apply bind_progresses; [intros y; apply ReadBlock_safe|]. intros block.
  apply bind_progresses; [intros y; apply fail_safe, ConnectToMirror_safe|]. intros [ok [m|]];
    [|by apply ret_progresses]. destruct ok; cbn [negb]; [|by apply ret_progresses].
  destruct (_ <? _); [done|].
  apply bind_progresses; [intros y; apply fail_safe, transfer_packet_safe|]. intros [[] m1]; cbn [negb];
    [|by apply ret_progresses].
  apply bind_progresses; [intros y; apply fail_safe, transfer_packet_safe|]. intros [ok m2].
  by apply ret_progresses.
Qed.

Lemma worker_safe fuel ins out y : (length ins < fuel)%nat ->
  worker dial fuel ins out y <> Stuck.
Proof using RP WP FL Hread Hwrite.
  revert ins out y. induction fuel as [|fuel IH]; intros ins out y Hf; [lia|]. cbn [worker].
  destruct (ReadOp ins) as [[op l]|] eqn:E; [|done].
  assert (length l < length ins)%nat as Hl.
  { unfold ReadOp in E. destruct (ReadRaw 3 ins) as [[b l0]|] eqn:Er; [|done]. apply raw_length in Er.
    cbn in E. destruct b as [|b0 [|b1 [|b2 [|]]]]; try done. destruct (_ || _); [done|].
    injection E as _ <-. lia. }
  assert (forall m, progresses m l ->
    ('(ok, ins, o) ← m; if negb ok then ret (sent_app out o) else worker dial fuel ins (sent_app out o)) y
    <> Stuck) as Hnext.
  { intros m Hm. destruct (Hm y) as [H1 H2]. apply M_bind_safe; [exact H1|].
    intros y' [[ok rest] o] Em. apply H2 in Em. destruct ok; cbn [negb]; [apply IH; lia|done]. }
  destruct (op =? 81); [apply Hnext, serve_read_progresses|].
  destruct (op =? 80); [apply Hnext, serve_write_progresses|].
  destruct (op =? 86); [apply Hnext, serve_transfer_progresses|done].
Qed.
End facts.

(* ------------------------------------------------------------------ *)
(** ** Pipelines *)

Section pipelines.
Context {S : Type} `{!ExtentClient S, PR : !ProtobufRuntime, WR : !WireRuntime, FP : !FailedParse}.

(** Only the data node [x] can be reached, and sends [bytes]. *)
Definition reaches (x : target) (bytes : list byte) (t : target) : option (list byte) :=
  if decide (t = x) then Some bytes else None.

(** Data nodes in a row, the first of which gets [ins] and answers [out]: what a
    node passes on is what the next one gets, and what that one answers is what
    the node reads. *)
Inductive pipeline : list byte -> list (yfs S) -> list (yfs S) -> list byte -> Prop :=
| pipeline_end ins y y' out :
    serve_connection (fun _ => None) ins y = Ret (y', (out, [])) -> pipeline ins [y] [y'] out
| pipeline_next ins y y' out x passed answer ys ys' :
    serve_connection (reaches x answer) ins y = Ret (y', (out, [(x, passed)])) ->
    pipeline passed ys ys' answer -> pipeline ins (y :: ys) (y' :: ys') out.

Context {RL : RuntimeLaws} {WL : WireLaws} `{!ExtentLaws S, !BlockLaws S}.

(** A store that has the data block [id]. *)
Definition has_block (id : Z) (y : yfs S) : Prop := ec_wf (ys y) /\ exists d, ec_raw (ys y) id d.

(** The store after [data] was written into block [id] at [off]. *)
Definition block_written (id off : Z) (data : list byte) (y y' : yfs S) : Prop :=
  held y' = held y /\ exists d, ec_raw (ys y) id d /\ block_put (ys y) (ys y') id (overlay d off data).

Lemma pipeline_write id off data w (req : msg proto.OpWriteBlockProto) stores :
  Forall (has_block id) stores -> 0 <= off -> off + Z.of_nat (length data) <= BLOCK_SIZE ->
  write_stream (block_packets off data) = Ret w -> sendable (2 ^ 31) req -> ow_blockid req = id ->
  length stores = Datatypes.S (length (ow_targets req)) -> Z.of_nat (length stores) < 2 ^ 28 ->
  exists stores',
    pipeline (op_bytes 80 ++ write_delimited req ++ w) stores stores'
      (write_answer (replicate (length (ow_targets req)) SUCCESS)) /\
    Forall2 (block_written id off data) stores stores'.
Proof using RL WL.
  intros Hs Hoff Hlen Hw. revert req. induction Hs as [|[s h] stores Hy Hs IH]; intros req Hreq Hid Hl Hb; [done|].
  cbn [length] in Hl, Hb. destruct Hy as (Hwf & d & Hk). cbn [ys] in *.
  destruct (write_packets_spec s h id d off data (fun _ => None)) as (s' & E & Hset); try done.
  assert (block_written id off data (mkYfs s h) (mkYfs s' h)) as Hwr by (split; [done|by exists d]).
  destruct (ow_targets req) as [|x xs] eqn:Hx.
  - exists [mkYfs s' h]. destruct stores; [|done]. split; [|constructor; [exact Hwr|constructor]].
    pose proof (serve_write_spec (fun _ => None) (mkYfs s h) (mkYfs s' h) id off data w [] req) as E1.
    rewrite app_nil_r in E1. apply pipeline_end. eapply serve_one; [by left|by apply E1].
  - destruct (pass_on_spec _ req Hreq) as (Hp & Hpid & Hpx). rewrite Hx in Hpx. cbn [tail] in Hpx.
    destruct (IH (pass_on req)) as (stores' & Hpl & Hsets); [done|congruence|rewrite Hpx; cbn in Hl; lia|lia|].
    rewrite Hpx in Hpl. exists (mkYfs s' h :: stores'). split; [|by constructor].
    pose proof (serve_write_mirrored (reaches x (write_answer (replicate (length xs) SUCCESS))) (mkYfs s h)
      (mkYfs s' h) id off data w [] req E Hoff Hlen Hw Hreq Hid x xs [] Hx) as E1. rewrite !app_nil_r in E1.
    eapply pipeline_next; [|exact Hpl]. eapply serve_one; [by left|]. apply E1; [cbn in Hl; lia|].
    unfold reaches. by rewrite decide_True.
Qed.

(** A transfer and the write that it makes. *)
Lemma transfer_block dial dial2 x (s1 s2 : S) h1 h2 d1 d2
    (req : msg proto.OpTransferBlockProto) (id := ot_blockid req) :
  ec_wf s1 -> ec_raw s1 id d1 -> ec_wf s2 -> ec_raw s2 id d2 ->
  sendable (2 ^ 31) req -> ot_targets req = [x] -> message_size (mirror_request req) < 2 ^ 31 ->
  dial x = Some (write_answer []) ->
  exists bytes s1' s2',
    serve_connection dial (op_bytes 86 ++ write_delimited req) (mkYfs s1 h1) =
      Ret (mkYfs s1' h1, (response SUCCESS, [(x, bytes)])) /\
    serve_connection dial2 bytes (mkYfs s2 h2) = Ret (mkYfs s2' h2, (write_answer [], [])) /\
    unchanged s1 s1' /\ (forall id' e, ec_raw s1' id' e <-> ec_raw s1 id' e) /\ block_put s2 s2' id d1.
Proof using RL WL.
  intros Hwf1 Hk1 Hwf2 Hk2 Hreq Hx Hm Hdial. pose proof BS_BLOCK_SIZE as HB. pose proof BLOCK_NUM_val.
  destruct (law_raw_range s1 id d1 Hwf1 Hk1) as [Hid Hd1], (law_raw_range s2 id d2 Hwf2 Hk2) as [_ Hd2].
  destruct (mirror_request_spec req Hreq Hm) as (Hmr & Hmid & Hmx).
  destruct (pass_on_spec _ _ Hmr) as (Hp & Hpid & Hpx). rewrite Hmx, Hx in Hpx.
  destruct (block_stream 0 d1) as (w & Hw); [lia|lia|].
  destruct (ReadBlock_spec s1 h1 id d1 0 BLOCK_SIZE Hwf1 Hk1) as (s1' & E1 & Hu & Hraw); [lia|].
  cbn [Z.to_nat] in E1. rewrite drop_0, take_ge in E1 by lia.
  destruct (write_packets_spec s2 h2 id d2 0 d1 (fun _ => None) Hwf2 Hk2) as (s2' & E2 & Hset); [lia|lia|].
  rewrite overlay_all in Hset by congruence.
  pose proof (serve_transfer_spec dial (mkYfs s1 h1) (mkYfs s1' h1) id d1 req x [] [] w) as T.
  rewrite u32_id, !app_nil_r in T by lia.
  pose proof (serve_write_spec dial2 (mkYfs s2 h2) (mkYfs s2' h2) id 0 d1 w [] (pass_on (mirror_request req))) as W.
  rewrite app_nil_r in W. eexists _, s1', s2'.
  split; [eapply serve_one; [by right; left|by apply T]|].
  split; [eapply serve_one; [by left|apply W; (assumption || lia || congruence)]|].
  split; [assumption|]. split; assumption.
Qed.
End pipelines.
