(* ===== verification/Namenode.v ===== *)
(** * The name node

    [NameNode] of namenode.h, namenode.cc and namenode_base.cc: path lookup,
    the block interface of HDFS clients, renaming, deleting, and the data
    nodes that are alive.  A request runs on the state of the name node and
    of its file system client, and ends with a value or an [HdfsException].
    The handlers here take the fields they read of a request, and give what
    they put into the response; [NameService] has the messages. *)

From S2P Require Import Prelude Disk Protocol DirFormat Extent Yfs WireFormat GeneratedCode Protos Messages.
From stdpp Require sorting.

(* ------------------------------------------------------------------ *)
(** ** Data nodes *)

(** [DatanodeIDProto], with the fields that the name node reads. *)
Definition DatanodeID : Type := msg proto.DatanodeIDProto.
Definition ipaddr (id : DatanodeID) : list byte := get_bytes 1 id.
Definition hostname (id : DatanodeID) : list byte := get_bytes 2 id.
Definition xferport (id : DatanodeID) : Z := get_int 4 0 id.

(** [operator<] of std::string *)
Fixpoint str_lt (a b : list byte) : bool :=
  match a, b with
  | _, [] => false
  | [], _ :: _ => true
  | x :: a, y :: b =>
      if byte_val x <? byte_val y then true
      else if byte_val y <? byte_val x then false
      else str_lt a b
  end.

(** [operator<] and [operator==] on data nodes *)
Definition dn_lt (a b : DatanodeID) : bool :=
  if str_lt (ipaddr a) (ipaddr b) then true
  else if str_lt (ipaddr b) (ipaddr a) then false
  else if str_lt (hostname a) (hostname b) then true
  else if str_lt (hostname b) (hostname a) then false
  else if xferport a <? xferport b then true
  else if xferport b <? xferport a then false
  else false.

Definition dn_eq (a b : DatanodeID) : bool :=
  if negb (bool_decide (ipaddr a = ipaddr b)) then false
  else if negb (bool_decide (hostname a = hostname b)) then false
  else if negb (xferport a =? xferport b) then false
  else true.

(** std::map from data nodes to [int]: the entries in the order of [dn_lt].
    [map_set] is [m[k] = v], [map_insert] is [m.insert(make_pair(k, v))]. *)
Fixpoint map_set (m : list (DatanodeID * Z)) (k : DatanodeID) (v : Z) : list (DatanodeID * Z) :=
  match m with
  | [] => [(k, v)]
  | (k', v') :: m' =>
      if dn_lt k k' then (k, v) :: m
      else if dn_lt k' k then (k', v') :: map_set m' k v
      else (k', v) :: m'
  end.

Fixpoint map_insert (m : list (DatanodeID * Z)) (k : DatanodeID) (v : Z)
    : list (DatanodeID * Z) :=
  match m with
  | [] => [(k, v)]
  | (k', v') :: m' =>
      if dn_lt k k' then (k, v) :: m
      else if dn_lt k' k then (k', v') :: map_insert m' k v
      else m
  end.

(* ------------------------------------------------------------------ *)
(** ** The state *)

(** The fields of class NameNode; [pendingWrite] maps inode numbers to
    [uint32_t], the values of [datanode] are [int]. *)
Record namenode : Type := mkNameNode {
  master_datanode : DatanodeID;
  pendingWrite : gmap Z Z;
  HDFS_block : gset Z;
  datanode : list (DatanodeID * Z);
  heartbeat_count : Z
}.

(** [struct LocatedBlock] *)
Record LocatedBlock : Type := mkLocatedBlock {
  block_id : Z; lb_offset : Z; lb_size : Z; locs : list DatanodeID
}.

(** [HdfsFileStatusProto] as [PBGetFileInfoFromInum] fills it: type IS_DIR or
    IS_FILE, length, permissions, times. *)
Record FileStatus : Type := mkFileStatus {
  is_directory : bool; fs_length : Z; fs_perm : Z; fs_mtime : Z; fs_atime : Z
}.

(** The messages of [HdfsException]. *)
Inductive hdfs_error : Type :=
| Not_absolute_path
| Traverse_failed
| Create_parent_failed
| Parent_not_exists
| Create_file_failed
| No_file_name
| No_pending_write
| Complete_failed
| File_not_locked
| Mkdirs_failed
| Read_directory_failed
| Get_dirent_failed.

(** A request: the state of the name node and of its file system client, the
    outcome, and a value or an exception. *)
Record nstate (S : Type) : Type := mkN { nn : namenode; fs : yfs S }.
Arguments mkN {S} nn fs.
Arguments nn {S} n.
Arguments fs {S} n.

Definition NM (S A : Type) : Type := nstate S -> outcome (nstate S * (hdfs_error + A)).

#[global] Instance NM_ret S : MRet (NM S) := fun A a n => Ret (n, inr a).
#[global] Instance NM_bind S : MBind (NM S) := fun A B k m n =>
  match m n with
  | Ret (n', inr a) => k a n'
  | Ret (n', inl e) => Ret (n', inl e)
  | Undef => Undef
  | Abort => Abort
  | Stuck => Stuck
  end.

Definition nret {S A} (a : A) : NM S A := mret a.
Definition throw {S A} (e : hdfs_error) : NM S A := fun n => Ret (n, inl e).
Definition lift {S A} (m : M S A) : NM S A := fun n =>
  '(y, a) ← m (fs n); Ret (mkN (nn n) y, inr a).
Definition get_nn {S} : NM S namenode := fun n => Ret (n, inr (nn n)).
Definition set_nn {S} (f : namenode -> namenode) : NM S unit := fun n =>
  Ret (mkN (f (nn n)) (fs n), inr tt).

Definition set_pending (f : gmap Z Z -> gmap Z Z) (v : namenode) : namenode :=
  mkNameNode (master_datanode v) (f (pendingWrite v)) (HDFS_block v) (datanode v)
    (heartbeat_count v).

(* ------------------------------------------------------------------ *)
(** ** Data nodes that are alive *)

(** One round of [SendHeartbeat]. *)
Definition SendHeartbeat (v : namenode) : namenode :=
  mkNameNode (master_datanode v) (pendingWrite v) (HDFS_block v) (datanode v)
    (u64 (heartbeat_count v + 1)).

Definition DatanodeHeartbeat (id : DatanodeID) (v : namenode) : namenode :=
  mkNameNode (master_datanode v) (pendingWrite v) (HDFS_block v)
    (map_set (datanode v) id (sint 32 (heartbeat_count v))) (heartbeat_count v).

(** The new state, and the blocks that are to be copied from the first data
    node to the second.  The thread of the registration walks through [HDFS_block]
    while it copies, without a lock: this is for a registration during which no
    request for a new block is handled, and the data node is added when it ends. *)
Definition RegisterDatanode (id : DatanodeID) (v : namenode)
    : namenode * list (Z * DatanodeID * DatanodeID) :=
  (mkNameNode (master_datanode v) (pendingWrite v) (HDFS_block v)
     (map_insert (datanode v) id (sint 32 (heartbeat_count v))) (heartbeat_count v),
   if 5 <? heartbeat_count v
   then (fun bid => (bid, master_datanode v, id)) <$> sorting.merge_sort Z.le (elements (HDFS_block v))
   else []).

(** [iter->second >= heartbeat_count-3] compares unsigned 64 bit numbers. *)
Definition GetDatanodes (v : namenode) : list DatanodeID :=
  fst <$> filter (fun e => u64 (heartbeat_count v - 3) <= u64 (snd e)) (datanode v).

(** [PBRegisterDatanode]; the registration itself runs in a thread. *)
Definition PBRegisterDatanode (master : bool) (id : DatanodeID) (v : namenode) : namenode :=
  if master
  then mkNameNode id (pendingWrite v) (HDFS_block v) (datanode v) (heartbeat_count v)
  else v.

Definition PBDatanodeHeartbeat (id : DatanodeID) (v : namenode) : namenode :=
  DatanodeHeartbeat id v.

(** The type of a data node report. *)
Inductive report_type : Type := ALL | LIVE | DEAD | DECOMMISSIONING.

Definition PBGetDatanodeReport (t : report_type) (v : namenode) : list DatanodeID :=
  match t with
  | ALL | LIVE => GetDatanodes v
  | DEAD | DECOMMISSIONING => []
  end.

(** The answers that do not depend on the state; the checksum type is NULL. *)
Record FsServerDefaults : Type := mkDefaults {
  blocksize : Z; bytesperchecksum : Z; writepacketsize : Z; replication : Z; filebuffersize : Z
}.

Definition PBGetServerDefaults : FsServerDefaults := mkDefaults BLOCK_SIZE 1 BLOCK_SIZE 1 4096.

Record FsStats : Type := mkFsStats {
  capacity : Z; used : Z; remaining : Z; under_replicated : Z; corrupt_blocks : Z; missing_blocks : Z
}.

Definition PBGetFsStats : FsStats := mkFsStats 0 0 0 0 0 0.
Definition PBSetSafeMode : bool := false.
Definition PBRenewLease : unit := tt.

(** The state that [init] leaves; [master] is an empty message. *)
Definition nn_init (master : DatanodeID) : namenode := mkNameNode master ∅ ∅ [] 0.

Section namenode.
Context {S : Type} `{!ExtentClient S}.
(** The values of an uninitialised [inum] and of an uninitialised [attr]. *)
Context (junk : Z) (junk_attr : extent_protocol.attr).

(* ------------------------------------------------------------------ *)
(** ** Blocks *)

Fixpoint located_blocks (ids : list Z) (n : Z) (block_index offset size : Z)
    (dns : list DatanodeID) : list LocatedBlock :=
  match ids with
  | [] => []
  | id :: ids =>
      mkLocatedBlock id offset
        (if block_index <? u64 (n - 1) then BLOCK_SIZE else u64 (size - offset)) dns ::
      located_blocks ids n (block_index + 1) (u64 (offset + BLOCK_SIZE)) size dns
  end.

Definition GetBlockLocations (ino : Z) : NM S (list LocatedBlock) :=
  '(_, bid_list) ← lift (ec (ec_get_block_ids ino []));
  '(_, ino_attr) ← lift (ec (ec_getattr ino junk_attr));
  v ← get_nn;
  nret (located_blocks bid_list (Z.of_nat (length bid_list)) 0 0
          (extent_protocol.a_size ino_attr) (GetDatanodes v)).

Definition Complete (ino new_size : Z) : NM S bool :=
  r_complete ← lift (ec (ec_complete ino new_size));
  if negb (r_complete =? extent_protocol.OK) then nret false
  else _ ← lift (release ino); nret true.

Definition AppendBlock (ino : Z) : NM S LocatedBlock :=
  '(_, attr) ← lift (ec (ec_getattr ino junk_attr));
  '(_, bid) ← lift (ec (ec_append_block ino 0));
  let asize := extent_protocol.a_size attr in
  let size := if asize mod BLOCK_SIZE =? 0 then BLOCK_SIZE else asize mod BLOCK_SIZE in
  _ ← set_nn (fun v => mkNameNode (master_datanode v) (pendingWrite v)
                         ({[bid]} ∪ HDFS_block v) (datanode v) (heartbeat_count v));
  v ← get_nn;
  nret (mkLocatedBlock bid asize size (GetDatanodes v)).

(* ------------------------------------------------------------------ *)
(** ** Wrappers of the file system client *)

Definition Mkdir (parent : Z) (name : list byte) (ino_out : Z) : NM S (bool * Z) :=
  '(res_mkdir, ino_out) ← lift (mkdir junk parent (cstr name) ino_out);
  nret (res_mkdir =? OK, ino_out).

(** The new file stays locked. *)
Definition Create (parent : Z) (name : list byte) (ino_out : Z) : NM S (bool * Z) :=
  '(res_create, ino_out) ← lift (create junk parent (cstr name) ino_out);
  if negb (res_create =? OK) then nret (false, ino_out)
  else _ ← lift (acquire ino_out); nret (true, ino_out).

Definition Isfile (ino : Z) : NM S bool := lift (nlock_isfile ino).
Definition Isdir (ino : Z) : NM S bool := lift (nlock_isdir ino).

Definition Getfile (ino : Z) : NM S (option fileinfo) :=
  '(st, a) ← lift (get_attr ino);
  nret (if negb (st =? extent_protocol.OK) then None
        else Some (mkFileinfo (extent_protocol.a_size a) (extent_protocol.a_atime a)
                     (extent_protocol.a_mtime a) (extent_protocol.a_ctime a))).

Definition Getdir (ino : Z) : NM S (option dirinfo) :=
  '(st, a) ← lift (get_attr ino);
  nret (if negb (st =? extent_protocol.OK) then None
        else Some (mkDirinfo (extent_protocol.a_atime a) (extent_protocol.a_mtime a)
                     (extent_protocol.a_ctime a))).

Definition Readdir (ino : Z) : NM S (bool * list (list byte * Z)) :=
  '(res_readdir, dir) ← lift (nlock_readdir junk ino []);
  nret (res_readdir =? OK, dir).

Definition Unlink (parent : Z) (name : list byte) : NM S bool :=
  res_unlink ← lift (nlock_unlink junk parent (cstr name));
  nret (res_unlink =? OK).

(* ------------------------------------------------------------------ *)
(** ** Renaming *)

(** [s.find(p, pos)] as a [size_t]. *)
Definition npos : Z := 2 ^ 64 - 1.

Definition find_z (p s : list byte) (pos : Z) : Z :=
  if Z.of_nat (length s) <? pos then npos
  else match str_find p s (Z.to_nat pos) with Some i => Z.of_nat i | None => npos end.

(** [s.erase(pos, n)] for [size_t] arguments: at most the rest is erased. *)
Definition erase_z (s : list byte) (pos n : Z) : outcome (list byte) :=
  let len := Z.of_nat (length s) in
  if len <? pos then Abort else str_erase s (Z.to_nat pos) (Z.to_nat (Z.min n len)).

(** How [Rename] cuts the entry out of the source directory.  The positions
    are [unsigned int], so that none of the comparisons with npos holds. *)
Definition rename_erase (src_entry src_name : list byte) : outcome (list byte) :=
  let src_begin := u32 (find_z src_name src_entry 0) in
  if negb (src_begin =? npos) then
    let first_dot := u32 (find_z [semi] src_entry src_begin) in
    if negb (first_dot =? npos) then
      let second_dot := u32 (find_z [semi] src_entry (u32 (first_dot + 1))) in
      if negb (second_dot =? npos) then
        if negb (src_begin =? 0)
        then erase_z src_entry (u32 (src_begin - 1)) (u32 (second_dot - src_begin))
        else erase_z src_entry src_begin (u32 (second_dot - src_begin))
      else
        if negb (src_begin =? 0)
        then erase_z src_entry (u32 (src_begin - 1))
               (u64 (Z.of_nat (length src_entry) - src_begin + 1))
        else erase_z src_entry src_begin (u64 (Z.of_nat (length src_entry) - src_begin))
    else Ret src_entry
  else Ret src_entry.

(** The first entry of the name in the list that [nlock_readdir] gives. *)
Fixpoint find_entry (l : list (list byte * Z)) (name : list byte) : option Z :=
  match l with
  | [] => None
  | e :: l => if decide (fst e = name) then Some (snd e) else find_entry l name
  end.

Definition inum2str (inum : Z) : list byte := filename inum.

Definition rename_insert (dst_entry dst_name : list byte) (inum : Z) : list byte :=
  if decide (length dst_entry = 0%nat) then dst_name ++ [semi] ++ inum2str inum
  else dst_entry ++ [semi] ++ dst_name ++ [semi] ++ inum2str inum.

Definition Rename (src_dir_ino : Z) (src_name : list byte) (dst_dir_ino : Z)
    (dst_name : list byte) : NM S bool :=
  '(_, src_found, _) ← lift (nlock_lookup junk src_dir_ino (cstr src_name) false 0);
  if negb src_found then nret false
  else
    '(_, src_entry_list) ← lift (nlock_readdir junk src_dir_ino []);
    '(_, src_entry) ← lift (ec (ec_get src_dir_ino []));
    match find_entry src_entry_list src_name with
    | None => nret false
    | Some inum =>
        src_entry ← lift (fail (rename_erase src_entry src_name));
        _ ← lift (ec (ec_put src_dir_ino src_entry));
        '(r, dst_entry) ←
          (if src_dir_ino =? dst_dir_ino then nret (true, src_entry)
           else '(st, d) ← lift (ec (ec_get dst_dir_ino []));
                nret (st =? extent_protocol.OK, d));
        _ ← lift (ec (ec_put dst_dir_ino (rename_insert dst_entry dst_name inum)));
        nret r
    end.

(* ------------------------------------------------------------------ *)
(** ** Paths *)

Definition slash : byte := "/"%byte.

(** The loop over the components of a path before its last slash: [body] runs
    on every component that is not empty, [None] is a return from within the
    loop.  It gives the state after the loop and [lastpos]. *)
Fixpoint path_loop {A} (fuel : nat) (path : list byte) (pos lastpos : nat) (a : A)
    (body : list byte -> A -> NM S (option A)) : NM S (option (A * nat)) :=
  match str_find [slash] path pos with
  | None => nret (Some (a, lastpos))
  | Some p =>
      match fuel with
      | O => fun _ => Stuck
      | Datatypes.S fuel =>
          if decide (p <> lastpos) then
            r ← body (take (p - lastpos) (drop lastpos path)) a;
            match r with
            | None => nret None
            | Some a => path_loop fuel path (p + 1) (p + 1) a body
            end
          else path_loop fuel path (p + 1) (p + 1) a body
      end
  end.

(** One component of [RecursiveLookup]: the directory and the inode before it. *)
Definition lookup_step (component : list byte) (st : Z * Z) : NM S (option (Z * Z)) :=
  let '(ino, _) := st in
  '(r, found, ino') ← lift (lookup junk ino (cstr component) false ino);
  nret (if negb (r =? OK) || negb found then None else Some (ino', ino)).

(** [RecursiveLookup(path, ino, last)]: [ino] and [last], or [None] for false. *)
Definition RecursiveLookup (path : list byte) : NM S (option (Z * Z)) :=
  if negb (bool_decide (char_at path 0 = slash)) then nret None
  else
    r ← path_loop (length path) path 1 1 (1, 1) lookup_step;
    match r with
    | None => nret None
    | Some (st, lastpos) =>
        if decide (lastpos <> length path) then lookup_step (drop lastpos path) st
        else nret (Some st)
    end.

(** [path.rfind('/')] *)
Fixpoint rfind_slash (path : list byte) : option nat :=
  match path with
  | [] => None
  | c :: path =>
      match rfind_slash path with
      | Some i => Some (Datatypes.S i)
      | None => if decide (c = slash) then Some 0%nat else None
      end
  end.

Fixpoint strip_slashes (fuel : nat) (path : list byte) : list byte :=
  match fuel with
  | O => path
  | Datatypes.S fuel =>
      if decide (length path <> 0%nat /\ char_at path (length path - 1) = slash)
      then strip_slashes fuel (take (length path - 1) path)
      else path
  end.

Definition RecursiveLookupParent (path : list byte) : NM S (option Z) :=
  let _path := strip_slashes (length path) path in
  let _path := match rfind_slash _path with Some i => take (i + 1) _path | None => _path end in
  r ← RecursiveLookup _path;
  nret (fst <$> r).

(** [path.substr(path.rfind('/') + 1)]; npos + 1 is 0. *)
Definition base_name (path : list byte) : list byte :=
  match rfind_slash path with Some i => drop (i + 1) path | None => path end.

(* ------------------------------------------------------------------ *)
(** ** Requests *)

(** [PBGetFileInfoFromInum]: the status, or [None] for false. *)
Definition PBGetFileInfoFromInum (ino : Z) : NM S (option FileStatus) :=
  f ← Isfile ino;
  if (f : bool) then
    i ← Getfile ino;
    nret (match i with
          | None => None
          | Some yfs_info =>
              Some (mkFileStatus false (f_size yfs_info) 0x1b6 (u64 (f_mtime yfs_info * 1000))
                      (u64 (f_atime yfs_info * 1000)))
          end)
  else
    d ← Isdir ino;
    if (d : bool) then
      i ← Getdir ino;
      nret (match i with
            | None => None
            | Some yfs_info =>
                Some (mkFileStatus true 0 0x1ff (u64 (d_mtime yfs_info * 1000))
                        (u64 (d_atime yfs_info * 1000)))
            end)
    else nret None.

Definition PBGetFileInfo (src : list byte) : NM S (option FileStatus) :=
  r ← RecursiveLookup src;
  match r with
  | None => nret None
  | Some (ino, _) => PBGetFileInfoFromInum ino
  end.

(** The blocks of a file and its length, as [PBGetBlockLocations] and
    [PBGetListing] send them. *)
Record Locations : Type := mkLocations { filelength : Z; lblocks : list LocatedBlock }.

Definition PBGetBlockLocations (src : list byte) : NM S (option Locations) :=
  r ← RecursiveLookup src;
  match r with
  | None => nret None
  | Some (ino, _) =>
      f ← lift (isfile ino);
      if negb f then nret None
      else
        '(st, info) ← lift (getfile ino (mkFileinfo 0 0 0 0));
        if negb (st =? OK) then nret None
        else blocks ← GetBlockLocations ino; nret (Some (mkLocations (f_size info) blocks))
  end.

(** An entry of a listing: its name, its status and the locations. *)
Definition list_entry : Type := list byte * FileStatus * option Locations.

(** The loop of [PBGetListing]; the boolean is [false] when it returns early,
    before [set_remainingentries]. *)
Fixpoint listing_loop (needlocation : bool) (dir : list (list byte * Z)) (acc : list list_entry)
    : NM S (list list_entry * bool) :=
  match dir with
  | [] => nret (acc, true)
  | (name, inum) :: dir =>
      i ← PBGetFileInfoFromInum inum;
      match i with
      | None => throw Get_dirent_failed
      | Some info =>
          f ← (if needlocation then lift (isfile inum) else nret false);
          if (f : bool) then
            '(st, fi) ← lift (getfile inum (mkFileinfo 0 0 0 0));
            if negb (st =? OK) then nret (acc ++ [(name, info, None)], false)
            else
              blocks ← GetBlockLocations inum;
              listing_loop needlocation dir
                (acc ++ [(name, info, Some (mkLocations (f_size fi) blocks))])
          else listing_loop needlocation dir (acc ++ [(name, info, None)])
      end
  end.

(** The entries from [start_after] on. *)
Fixpoint skip_to (start_after : list byte) (dir : list (list byte * Z)) : list (list byte * Z) :=
  match dir with
  | [] => []
  | e :: dir' => if decide (fst e = start_after) then dir else skip_to start_after dir'
  end.

Definition PBGetListing (src startafter : list byte) (needlocation : bool)
    : NM S (option (list list_entry * bool)) :=
  r ← RecursiveLookup src;
  match r with
  | None => nret None
  | Some (ino, _) =>
      '(st, dir) ← lift (readdir junk ino []);
      if negb (st =? OK) then throw Read_directory_failed
      else
        let dir := if decide (length startafter = 0%nat) then dir else skip_to startafter dir in
        l ← listing_loop needlocation dir [];
        nret (Some l)
  end.

(** One component of the loops of [PBCreate] and [PBMkdirs]. *)
Definition create_step (createparent : bool) (component : list byte) (ino : Z)
    : NM S (option Z) :=
  '(r, found, ino) ← lift (lookup junk ino (cstr component) false ino);
  if negb (r =? OK) then throw Traverse_failed
  else if (found : bool) then nret (Some ino)
  else if createparent then
    '(ok, ino) ← Mkdir ino (cstr component) ino;
    if negb ok then throw Create_parent_failed else nret (Some ino)
  else throw Parent_not_exists.

Definition PBCreate (src : list byte) (createparent : bool) : NM S (option FileStatus) :=
  if negb (bool_decide (char_at src 0 = slash)) then throw Not_absolute_path
  else
    r ← path_loop (length src) src 1 1 1 (create_step createparent);
    match r with
    | None => nret None
    | Some (ino, lastpos) =>
        if decide (lastpos <> length src) then
          '(ok, ino) ← Create ino (cstr (drop lastpos src)) ino;
          if negb ok then throw Create_file_failed
          else
            _ ← set_nn (set_pending (fun m => if decide (m !! ino = None) then <[ino := 0]> m else m));
            PBGetFileInfoFromInum ino
        else throw No_file_name
    end.

Definition PBMkdirs (src : list byte) (createparent : bool) : NM S bool :=
  if negb (bool_decide (char_at src 0 = slash)) then throw Not_absolute_path
  else
    r ← path_loop (length src) src 1 1 1 (create_step createparent);
    match r with
    | None => nret false
    | Some (ino, lastpos) =>
        if decide (lastpos <> length src) then
          '(ok, ino) ← Mkdir ino (cstr (drop lastpos src)) ino;
          if negb ok then throw Mkdirs_failed else nret true
        else throw No_file_name
    end.

(** [PBComplete(src, last)]: [last] is the number of bytes of the last block
    when the request has one. *)
Definition PBComplete (src : list byte) (last : option Z) : NM S bool :=
  r ← RecursiveLookup src;
  match r with
  | None => nret false
  | Some (ino, _) =>
      v ← get_nn;
      match pendingWrite v !! ino with
      | None => throw No_pending_write
      | Some size =>
          let new_size :=
            match last with
            | Some numbytes => u32 (u32 (size - BLOCK_SIZE) + numbytes)
            | None => size
            end in
          _ ← set_nn (set_pending (delete ino));
          r ← Complete ino new_size;
          if negb r then
            _ ← set_nn (set_pending (<[ino := new_size]>));
            throw Complete_failed
          else nret r
      end
  end.

Definition PBAddBlock (src : list byte) : NM S (option LocatedBlock) :=
  r ← RecursiveLookup src;
  match r with
  | None => nret None
  | Some (ino, _) =>
      v ← get_nn;
      match pendingWrite v !! ino with
      | None => throw File_not_locked
      | Some _ =>
          new_block ← AppendBlock ino;
          _ ← set_nn (set_pending (alter (fun n => u32 (n + BLOCK_SIZE)) ino));
          nret (Some new_block)
      end
  end.

Definition PBRename (src dst : list byte) : NM S bool :=
  s ← RecursiveLookupParent src;
  match s with
  | None => nret false
  | Some src_dir_ino =>
      d ← RecursiveLookupParent dst;
      match d with
      | None => nret false
      | Some dst_dir_ino => Rename src_dir_ino (base_name src) dst_dir_ino (base_name dst)
      end
  end.

(* ------------------------------------------------------------------ *)
(** ** Deleting *)

Definition DualLock (a b : Z) : NM S unit :=
  if a <? b then _ ← lift (acquire a); lift (acquire b)
  else if b <? a then _ ← lift (acquire b); lift (acquire a)
  else lift (acquire a).

Definition DualUnlock (a b : Z) : NM S unit :=
  if a =? b then lift (release a)
  else _ ← lift (release a); lift (release b).

(** The loop of [RecursiveDelete(ino)] over the entries of directory [ino]. *)
Fixpoint delete_entries (RecursiveDelete : Z -> NM S bool) (ino : Z) (dir : list (list byte * Z))
    : NM S bool :=
  match dir with
  | [] => nret true
  | (name, inum) :: dir =>
      _ ← lift (acquire inum);
      r ← RecursiveDelete inum;
      if negb r then _ ← lift (release inum); nret false
      else
        u ← Unlink ino name;
        if negb u then _ ← lift (release inum); nret false
        else _ ← lift (release inum); delete_entries RecursiveDelete ino dir
  end.

(** [RecursiveDelete(ino)].  A chain of directories that comes back to a
    directory waits for a lock it holds, so [fuel] need not exceed the number
    of inodes. *)
Fixpoint RecursiveDelete (fuel : nat) (ino : Z) : NM S bool :=
  d ← Isdir ino;
  if negb d then nret true
  else
    '(ok, dir) ← Readdir ino;
    if negb ok then nret false
    else
      match fuel with
      | O => fun _ => Stuck
      | Datatypes.S fuel => delete_entries (RecursiveDelete fuel) ino dir
      end.

Definition PBDelete (src : list byte) (recursive : bool) : NM S bool :=
  r ← RecursiveLookup src;
  match r with
  | None => nret false
  | Some (ino, parent) =>
      _ ← DualLock ino parent;
      ok ← (if recursive then RecursiveDelete (Z.to_nat INODE_NUM) ino else nret true);
      if negb ok then _ ← DualUnlock ino parent; nret false
      else
        d ← Isdir ino;
        '(ok, dir) ← (if (d : bool) then Readdir ino else nret (true, []));
        if negb ok || bool_decide (length dir <> 0%nat)
        then _ ← DualUnlock ino parent; nret false
        else
          u ← Unlink parent (base_name src);
          _ ← DualUnlock ino parent;
          nret u
  end.

End namenode.
