(* ===== verification/NameService.v ===== *)
(** * The name node's requests

    The translators of namenode_base.cc between messages and the handlers of
    [Namenode], and what the name node sends to a data node to copy a block. *)

From S2P Require Import Prelude Disk Protocol DirFormat Extent Yfs Protobuf WireFormat GeneratedCode Protos Hrpc.
From S2P Require Import Messages Namenode NameServer Datanode DataServer.
From Stdlib Require String.
Import name_server (method, GetFileInfo, GetListing, GetBlockLocations, GetServerDefaults, AddBlock, RenewLease,
  Delete, Mkdirs, GetFsStats, SetSafeMode, GetDatanodeReport, request_class, response_class).

Module name_service.

Definition text (s : String.string) : list byte := String.list_byte_of_string s.

Abbreviation Req m := (msg (request_class m)).
Abbreviation Resp m := (msg (response_class m)).

(* ------------------------------------------------------------------ *)
(** ** The messages *)

Definition RAM_DISK : Z := 4.
Definition IS_DIR : Z := 1.
Definition IS_FILE : Z := 2.

(** [what()] of an exception. *)
Definition what (e : hdfs_error) : list byte :=
  text
    match e with
    | Not_absolute_path => "Not absolute path"
    | Traverse_failed => "Traverse failed"
    | Create_parent_failed => "Create parent failed"
    | Parent_not_exists => "Parent not exists"
    | Create_file_failed => "Create file failed"
    | No_file_name => "No file name given"
    | No_pending_write => "No such pending write"
    | Complete_failed => "Complete pending write failed"
    | File_not_locked => "File not locked"
    | Mkdirs_failed => "Mkdirs failed"
    | Read_directory_failed => "read directory failed"
    | Get_dirent_failed => "get dirent info failed"
    end%string.

(** The status of a file, as [PBGetFileInfoFromInum] fills it, with its path. *)
Definition file_status (info : FileStatus) (path : list byte) : msg proto.HdfsFileStatusProto :=
  new_message proto.HdfsFileStatusProto
    |> set_int 1 (if is_directory info then IS_DIR else IS_FILE)
    |> set_bytes 2 path
    |> set_int 3 (fs_length info)
    |> set_bytes 5 (text "cse")
    |> set_bytes 6 (text "supergroup")
    |> set_int 11 BLOCK_SIZE
    |> set_message 4 (new_message proto.FsPermissionProto |> set_int 1 (fs_perm info))
    |> set_int 7 (fs_mtime info)
    |> set_int 8 (fs_atime info).

Definition add_location (dst : msg proto.LocatedBlockProto) (loc : DatanodeID) : msg proto.LocatedBlockProto :=
  dst
    |> add_message 3 (new_message proto.DatanodeInfoProto |> set_message 1 loc |> set_bytes 8 (text "/default-rack"))
    |> add_value 6 (VBool false)
    |> add_value 7 (VInt RAM_DISK)
    |> add_value 8 (VBytes (hostname loc)).

Definition yfs_block (id numbytes : Z) : msg proto.ExtendedBlockProto :=
  new_message proto.ExtendedBlockProto
    |> set_bytes 1 (text "yfs") |> set_int 2 id |> set_int 3 0 |> set_int 4 numbytes.

Definition ConvertLocatedBlock (src : LocatedBlock) : msg proto.LocatedBlockProto :=
  let dst :=
    new_message proto.LocatedBlockProto
      |> set_message 1 (yfs_block (block_id src) (lb_size src))
      |> set_message 5 (new_message proto.TokenProto
           |> set_bytes 1 [] |> set_bytes 2 [] |> set_bytes 3 [] |> set_bytes 4 [])
      |> set_int 2 (lb_offset src) in
  foldl add_location dst (locs src) |> set_bool 4 false.

(** The loop over the blocks of a file; the last one is also [lastblock]. *)
Definition located (l : Locations) : msg proto.LocatedBlocksProto :=
  let blocks := ConvertLocatedBlock <$> lblocks l in
  let m :=
    new_message proto.LocatedBlocksProto
      |> set_int 1 (filelength l)
      |> set_bool 3 false
      |> set_bool 5 true
      |> set_values 2 ((fun b => generated.message_value (body b)) <$> blocks) in
  match last blocks with None => m | Some b => set_message 4 b m end.

(** An entry of a listing. *)
Definition listed (e : list_entry) : msg proto.HdfsFileStatusProto :=
  let '(name, info, loc) := e in
  let m := file_status info name in
  match loc with None => m | Some l => set_message 12 (located l) m end.

Definition listing (l : list list_entry) (finished : bool) : msg proto.DirectoryListingProto :=
  let m := foldl (fun m e => add_message 1 (listed e) m) (new_message proto.DirectoryListingProto) l in
  if finished then set_int 2 0 m else m.

Definition server_defaults : msg proto.FsServerDefaultsProto :=
  let d := PBGetServerDefaults in
  new_message proto.FsServerDefaultsProto
    |> set_int 1 (blocksize d) |> set_int 2 (bytesperchecksum d) |> set_int 3 (writepacketsize d)
    |> set_int 4 (replication d) |> set_int 5 (filebuffersize d) |> set_int 8 data_server.CHECKSUM_NULL.

Definition fs_stats : msg proto.GetFsStatsResponseProto :=
  let s := PBGetFsStats in
  new_message proto.GetFsStatsResponseProto
    |> set_int 1 (capacity s) |> set_int 2 (used s) |> set_int 3 (remaining s)
    |> set_int 4 (under_replicated s) |> set_int 5 (corrupt_blocks s) |> set_int 6 (missing_blocks s).

(** [switch (req.type())] *)
Definition report_of (z : Z) : report_type :=
  if z =? 1 then ALL else if z =? 2 then LIVE else if z =? 3 then DEAD else DECOMMISSIONING.

Definition result {m} (r : bool) : Resp m := new_message _ |> set_bool 1 r.

(** The request of [ReplicateBlock]. *)
Definition transfer_request (bid : Z) (to : DatanodeID) : msg proto.OpTransferBlockProto :=
  new_message proto.OpTransferBlockProto
    |> set_message 1 (new_message proto.ClientOperationHeaderProto
         |> set_message 1 (new_message proto.BaseHeaderProto |> set_message 1 (yfs_block bid BLOCK_SIZE))
         |> set_bytes 2 [])
    |> add_message 2 (new_message proto.DatanodeInfoProto |> set_message 1 to)
    |> add_value 3 (VInt RAM_DISK).

(* ------------------------------------------------------------------ *)
(** ** Copying blocks to a new data node *)

Section recovery.
Context `{PR : !ProtobufRuntime, WR : !WireRuntime, FP : !FailedParse}.
Import data_server.
(** [Connect], as for the data nodes. *)
Context (dial : target -> option (list byte)).

(** The result, and the bytes that are sent. *)
Definition ReplicateBlock (bid : Z) (from to : DatanodeID) : outcome (bool * list (target * list byte)) :=
  let t := (ipaddr from, xferport from) in
  match dial t with
  | None => Ret (false, [])
  | Some ins =>
      '(resp, _) ← ParseDelimited ins;
      Ret (match resp with Some resp => bo_status resp =? Datanode.SUCCESS | None => false end,
           [(t, op_bytes 86 ++ write_delimited (transfer_request bid to))])
  end.

(** The loop over the blocks ignores the results. *)
Fixpoint replicate_blocks (copies : list (Z * DatanodeID * DatanodeID)) : outcome (list (target * list byte)) :=
  match copies with
  | [] => Ret []
  | (bid, from, to) :: copies =>
      '(_, sent) ← ReplicateBlock bid from to;
      more ← replicate_blocks copies;
      Ret (sent ++ more)
  end.

(** [_RegisterDatanode]: the thread of a registration. *)
Definition _RegisterDatanode (id : DatanodeID) (v : namenode) : outcome (namenode * list (target * list byte)) :=
  let '(v, copies) := RegisterDatanode id v in
  sent ← replicate_blocks copies;
  Ret (v, sent).
End recovery.

(* ------------------------------------------------------------------ *)
(** ** The translators *)

Section service.
Context {S : Type} `{!ExtentClient S} (junk : Z) (junk_attr : extent_protocol.attr).

(** A response whose message is set when there is one. *)
Definition optional {fields sub} (r : option (msg sub)) : msg fields :=
  match r with None => new_message fields | Some x => new_message fields |> set_message 1 x end.

(** [req.registration()] *)
Definition registration (req : Req name_server.RegisterDatanode) : msg proto.DatanodeRegistrationProto :=
  get_message proto.DatanodeRegistrationProto 1 req.

(** [PB##name(req, resp)] *)
Definition PB (m : method) : Req m -> NM S (Resp m) :=
  match m return Req m -> NM S (Resp m) with
  | GetFileInfo => fun req =>
      r ← PBGetFileInfo junk (get_bytes 1 req);
      nret (optional ((fun i => file_status i []) <$> r))
  | GetListing => fun req =>
      r ← PBGetListing junk junk_attr (get_bytes 1 req) (get_bytes 2 req) (get_bool 3 false req);
      nret (optional ((fun '(l, finished) => listing l finished) <$> r))
  | GetBlockLocations => fun req =>
      r ← PBGetBlockLocations junk junk_attr (get_bytes 1 req);
      nret (optional (located <$> r))
  | name_server.RegisterDatanode => fun req =>
      let reg := registration req in
      _ ← set_nn (PBRegisterDatanode (get_bool 5 false reg) (get_message proto.DatanodeIDProto 1 reg));
      nret (new_message _ |> set_message 1 reg)
  | GetServerDefaults => fun _ => nret (new_message _ |> set_message 1 server_defaults)
  | name_server.Create => fun req =>
      r ← PBCreate junk (get_bytes 1 req) (get_bool 5 false req);
      nret (optional ((fun i => file_status i []) <$> r))
  | name_server.Complete => fun req =>
      r ← PBComplete junk (get_bytes 1 req)
            (if has 3 req then Some (get_int 4 0 (get_message proto.ExtendedBlockProto 3 req)) else None);
      nret (result (m := name_server.Complete) r)
  | AddBlock => fun req =>
      r ← PBAddBlock junk junk_attr (get_bytes 1 req);
      nret (optional (ConvertLocatedBlock <$> r))
  | RenewLease => fun _ => nret (new_message _)
  | name_server.Rename => fun req =>
      r ← PBRename junk (get_bytes 1 req) (get_bytes 2 req);
      nret (result (m := name_server.Rename) r)
  | Delete => fun req =>
      r ← PBDelete junk (get_bytes 1 req) (get_bool 2 false req);
      nret (result (m := Delete) r)
  | Mkdirs => fun req =>
      r ← PBMkdirs junk (get_bytes 1 req) (get_bool 3 false req);
      nret (result (m := Mkdirs) r)
  | GetFsStats => fun _ => nret fs_stats
  | SetSafeMode => fun _ => nret (result (m := SetSafeMode) PBSetSafeMode)
  | GetDatanodeReport => fun req =>
      v ← get_nn;
      nret (foldl (fun m d => add_message 1 (new_message proto.DatanodeInfoProto |> set_message 1 d) m)
              (new_message _) (PBGetDatanodeReport (report_of (get_int 1 1 req)) v))
  | name_server.DatanodeHeartbeat => fun req =>
      _ ← set_nn (PBDatanodeHeartbeat (get_message proto.DatanodeIDProto 1 req));
      nret (new_message _)
  end.

(** The state of the process, with the registrations whose threads have been
    started and have not run yet. *)
Record process : Type := mkProcess { state : nstate S; started : list DatanodeID }.

Definition starts {m} : Req m -> list DatanodeID :=
  match m return Req m -> list DatanodeID with
  | name_server.RegisterDatanode => fun req => [get_message proto.DatanodeIDProto 1 (registration req)]
  | _ => fun _ => []
  end.

(** A handler as [TRY] calls it: a response, or the message of an exception. *)
Definition handler (m : method) (req : Req m) (p : process) : outcome (process * (Resp m + list byte)) :=
  '(n, r) ← PB m req (state p);
  Ret (mkProcess n (started p ++ starts req),
       match r with inl e => inr (what e) | inr resp => inl resp end).
End service.
End name_service.
