(* ===== verification/OpRequests.v ===== *)
(** * Requests to a data node

    The messages with which blocks are written and read, as the theorems' examples
    and the copies of the name node use them. *)

From S2P Require Import Prelude Disk Protobuf WireFormat GeneratedCode Protos Messages NameService Datanode DataServer.

Module op_requests.
Import data_server.

Definition op_header (id : Z) : msg proto.ClientOperationHeaderProto :=
  new_message proto.ClientOperationHeaderProto
    |> set_message 1 (new_message proto.BaseHeaderProto |> set_message 1 (name_service.yfs_block id BLOCK_SIZE))
    |> set_bytes 2 [].

Definition write_op (id : Z) (targets : list (msg proto.DatanodeInfoProto)) : msg proto.OpWriteBlockProto :=
  new_message proto.OpWriteBlockProto
    |> set_message 1 (op_header id)
    |> set_values 2 ((fun t => generated.message_value (body t)) <$> targets)
    |> set_int 4 PIPELINE_SETUP_CREATE |> set_int 5 (u32 (Z.of_nat (length targets)))
    |> set_int 6 0 |> set_int 7 0 |> set_int 8 0
    |> set_message 9 (checksum 0).

Definition read_op (id offset len : Z) : msg proto.OpReadBlockProto :=
  new_message proto.OpReadBlockProto
    |> set_message 1 (op_header id) |> set_int 2 offset |> set_int 3 len.
End op_requests.
