(* ===== verification/OpRequestFacts.v ===== *)
(** * Facts about requests to a data node

    The requests can be sent and say what they are meant to. *)

From S2P Require Import Prelude Disk Protocol DirFormat Extent Yfs Protobuf ProtobufFacts WireFormat WireFormatFacts.
From S2P Require Import GeneratedCode GeneratedFacts Protos Hrpc HrpcFacts Messages MessageFacts MessageSize Namenode.
From S2P Require Import NameServer NameServerFacts NameService Datanode DatanodeFacts DataServer DataServerFacts.
From S2P Require Import OpRequests.
Import data_server op_requests.

(** 64 bit numbers and short strings are values of their fields. *)
Lemma typed_u64 z : 0 <= z < 2 ^ 64 -> typed TYPE_UINT64 (VInt z) = true.
Proof. intros Hz. cbn. apply andb_true_iff. rewrite Z.leb_le, Z.ltb_lt. lia. Qed.

Lemma typed_parts {sub} (l : list (msg sub)) : Forall msg_typed l ->
  Forall (fun v => typed (TYPE_MESSAGE sub) v = true) ((fun t => generated.message_value (body t)) <$> l).
Proof. intros Hl. by apply Forall_fmap. Qed.

Section requests.
Context `{PR : !ProtobufRuntime, WR : !WireRuntime, RL : !RuntimeLaws, WL : !WireLaws}.

Lemma parts_cost {sub} b (l : list (msg sub)) : Forall (fun m => msg_cost m <= b) l ->
  values_cost ((fun t => generated.message_value (body t)) <$> l) <= Z.of_nat (length l) * (2 + b).
Proof using Type.
  induction 1 as [|m l Hm Hl IH]; [done|]. unfold values_cost, msg_cost in *. cbn [fmap list_fmap foldr length]. lia.
Qed.

Lemma yfs_block_small id n : 0 <= id < 2 ^ 64 -> 0 <= n < 2 ^ 64 -> small 128 (name_service.yfs_block id n).
Proof using Type.
  intros Hid Hn. split; [|split].
  - typed_fields; by apply typed_u64.
  - init_fields.
  - compute_cost. change (Z.of_nat 3) with 3. lia.
Qed.
Lemma op_header_small id : 0 <= id < 2 ^ 64 -> small 512 (op_header id).
Proof using Type.
  intros Hid. pose proof BLOCK_SIZE_val. destruct (yfs_block_small id BLOCK_SIZE Hid) as (Ht & Hi & Hc); [lia|].
  unfold op_header. split; [|split].
  - typed_fields. apply typed_part. by typed_fields.
  - init_fields.
  - compute_cost_with (name_service.yfs_block id BLOCK_SIZE). change (Z.of_nat 0) with 0. lia.
Qed.

(** A request to write to [targets]. *)
Lemma write_op_small id targets b : 0 <= id < 2 ^ 64 -> Forall (small b) targets ->
  small (2048 + Z.of_nat (length targets) * (2 + b)) (write_op id targets).
Proof using Type.
  intros Hid Hx. destruct (op_header_small id Hid) as (Ht & Hi & Hc).
  assert (Forall (fun m => msg_cost m <= b) targets) as Hb.
  { eapply Forall_impl; [exact Hx|]. intros m (_ & _ & Hm). lia. }
  apply parts_cost in Hb. unfold write_op. split; [|split].
  - typed_fields; [exact Ht| |apply typed_u32].
    apply typed_parts. eapply Forall_impl; [exact Hx|]. by intros m (Hm & _).
  - init_fields. apply Forall_fmap. eapply Forall_impl; [exact Hx|]. by intros m (_ & Hm & _).
  - unfold values_cost in Hb. revert Hb.
    generalize ((fun t : msg proto.DatanodeInfoProto => generated.message_value (body t)) <$> targets). intros vs Hb.
    compute_cost_with (op_header id). change (Z.of_nat 0) with 0. lia.
Qed.

Lemma write_op_spec id targets : ow_blockid (write_op id targets) = id /\
  ow_targets (write_op id targets) = target_of <$> targets.
Proof using Type.
  split; [done|]. unfold ow_targets, get_messages.
  change (values 2 (write_op id targets)) with ((fun t => generated.message_value (body t)) <$> targets).
  rewrite <-!list_fmap_compose. apply list_fmap_ext. intros i [[vs u]] _. done.
Qed.

Lemma read_op_small id off len : 0 <= id < 2 ^ 64 -> 0 <= off < 2 ^ 64 -> 0 <= len < 2 ^ 64 ->
  small 1024 (read_op id off len).
Proof using Type.
  intros Hid Hoff Hlen. destruct (op_header_small id Hid) as (Ht & Hi & Hc). unfold read_op. split; [|split].
  - typed_fields; [exact Ht|by apply typed_u64|by apply typed_u64].
  - by init_fields.
  - compute_cost_with (op_header id). change (Z.of_nat 0) with 0. lia.
Qed.

Lemma read_op_spec id off len : or_blockid (read_op id off len) = id /\ or_offset (read_op id off len) = off /\
  or_len (read_op id off len) = len.
Proof using Type. done. Qed.

(** The request with which the name node copies a block. *)
Lemma transfer_request_fields bid to : name_service.transfer_request bid to =
  new_message proto.OpTransferBlockProto
    |> set_message 1 (op_header bid)
    |> set_message 2 (new_message proto.DatanodeInfoProto |> set_message 1 to)
    |> set_int 3 name_service.RAM_DISK.
Proof using Type. done. Qed.

Lemma transfer_request_small bid (to : DatanodeID) b : 0 <= bid < 2 ^ 64 -> small b to ->
  small (2048 + b) (name_service.transfer_request bid to).
Proof using Type.
  intros Hid (Htt & Hti & Htc). destruct (op_header_small bid Hid) as (Ht & Hi & Hc).
  rewrite transfer_request_fields. split; [|split].
  - typed_fields; [exact Ht|]. apply typed_part. by typed_fields.
  - init_fields. apply init_part. by init_fields.
  - unfold set_message, msg_cost in *.
    set (v := generated.message_value (body to)) in *. set (w := generated.message_value (body (op_header bid))) in *.
    clearbody v w. compute_cost. change (Z.of_nat 0) with 0. lia.
Qed.

Lemma transfer_request_spec bid to : ot_blockid (name_service.transfer_request bid to) = bid /\
  ot_targets (name_service.transfer_request bid to) = [(ipaddr to, xferport to)].
Proof using Type. destruct to as [[vs u]]. done. Qed.

Lemma mirror_request_size bid (to : DatanodeID) b : 0 <= bid < 2 ^ 64 -> small b to -> b <= 2 ^ 27 ->
  message_size (mirror_request (name_service.transfer_request bid to)) < 2 ^ 31.
Proof using RL WL.
  intros Hid Hto Hb. pose proof (transfer_request_small bid to b Hid Hto) as (Ht & Hi & _).
  destruct Hto as (_ & _ & Htc). destruct (op_header_small bid Hid) as (_ & _ & Hc).
  eapply Z.le_lt_trans; [apply size_le; [vm_compute; reflexivity|by apply mirror_request_typed]|].
  unfold mirror_request.
  change (get_message proto.ClientOperationHeaderProto 1 (name_service.transfer_request bid to)) with (op_header bid).
  change (values 2 (name_service.transfer_request bid to)) with
    [generated.message_value (body (new_message proto.DatanodeInfoProto |> set_message 1 to))].
  change (values 3 (name_service.transfer_request bid to)) with [VInt name_service.RAM_DISK].
  unfold set_message, msg_cost in *.
  set (v := generated.message_value (body to)) in *. set (w := generated.message_value (body (op_header bid))) in *.
  clearbody v w. compute_cost. change (Z.of_nat 0) with 0. lia.
Qed.
End requests.
