(* ===== verification/RecoveryFacts.v ===== *)
(** * Copying blocks to a new data node

    What the thread of a registration sends to the first data node, what that
    one sends to the new data node, and what the new one stores. *)

From S2P Require Import Prelude Disk Protocol Inode InodeFacts DirFormat Extent BlockFacts Yfs YfsFacts Protobuf.
From S2P Require Import ProtobufFacts WireFormat WireFormatFacts GeneratedCode GeneratedFacts Protos Hrpc HrpcFacts.
From S2P Require Import Messages MessageFacts MessageSize Namenode NameServer NameServerFacts NameService Datanode.
From S2P Require Import DatanodeFacts DataServer DataServerFacts OpRequests OpRequestFacts.
From stdpp Require sorting.
Import data_server name_service.

Section recovery.
Context {S : Type} `{!ExtentClient S, PR : !ProtobufRuntime, WR : !WireRuntime, FP : !FailedParse}.

(** A data node that serves one connection after the other: its answers, and
    what it passes on. *)
Fixpoint serve_all (dial : target -> option (list byte)) (conns : list (list byte))
    : M S (list (list byte) * list (target * list byte)) :=
  match conns with
  | [] => ret ([], [])
  | c :: conns =>
      '(out, fwd) ← serve_connection dial c;
      '(outs, fwds) ← serve_all dial conns;
      ret (out :: outs, fwd ++ fwds)
  end.

Context {RL : RuntimeLaws} {WL : WireLaws} `{!ExtentLaws S, !BlockLaws S}.

(** A block has one content. *)
Lemma raw_unique (s : S) id d d' : ec_wf s -> ec_raw s id d -> ec_raw s id d' -> d = d'.
Proof using Type.
  intros Hwf H1 H2. destruct (law_read_block s id d [] Hwf H1) as (s1 & E1 & _).
  destruct (law_read_block s id d' [] Hwf H2) as (s2 & E2 & _). congruence.
Qed.

Lemma status_response_sendable : sendable (2 ^ 31) (status_response SUCCESS).
Proof using Type.
  split; [split; [split; [vm_compute; reflexivity|]|]|].
  - by typed_fields.
  - cbn [message_size msg_message]. unfold generated.ByteSize. cbn - [generated.field_size generated.value_size]. done.
  - by init_fields.
Qed.

(** The first data node answers every request with success. *)
Lemma replicate_blocks_spec dial (from to : DatanodeID) bids :
  dial (ipaddr from, xferport from) = Some (response SUCCESS) ->
  replicate_blocks dial ((fun bid => (bid, from, to)) <$> bids) =
    Ret ((fun bid => ((ipaddr from, xferport from), op_bytes 86 ++ write_delimited (transfer_request bid to))) <$> bids) /\
  forall bid, ReplicateBlock dial bid from to =
    Ret (true, [((ipaddr from, xferport from), op_bytes 86 ++ write_delimited (transfer_request bid to))]).
Proof using RL WL.
  intros Hd. assert (forall bid, ReplicateBlock dial bid from to =
    Ret (true, [((ipaddr from, xferport from), op_bytes 86 ++ write_delimited (transfer_request bid to))])) as Hr.
  { intros bid. unfold ReplicateBlock. rewrite Hd. unfold response.
    rewrite <-(app_nil_r (write_delimited (status_response SUCCESS))), ParseDelimited_write, bind_Ret by apply status_response_sendable. done. }
  split; [|done]. induction bids as [|bid bids IH]; [done|].
  cbn [fmap list_fmap replicate_blocks]. rewrite Hr, bind_Ret. cbn [fmap list_fmap] in IH. by rewrite IH.
Qed.

Section copies.
Context (to : DatanodeID) (Hto : small (2 ^ 27) to).
#[local] Abbreviation x := (ipaddr to, xferport to).

Lemma copies_spec bids s1 s2 h1 h2 : ec_wf s1 -> ec_wf s2 ->
  Forall (fun bid => (exists d, ec_raw s1 bid d) /\ (exists d, ec_raw s2 bid d)) bids ->
  exists fwd s1' s2',
    serve_all (reaches x (write_answer []))
      ((fun bid => op_bytes 86 ++ write_delimited (transfer_request bid to)) <$> bids) (mkYfs s1 h1) =
      Ret (mkYfs s1' h1, (replicate (length bids) (response SUCCESS), (fun b => (x, b)) <$> fwd)) /\
    serve_all (fun _ => None) fwd (mkYfs s2 h2) = Ret (mkYfs s2' h2, (replicate (length bids) (write_answer []), [])) /\
    ec_wf s1' /\ ec_wf s2' /\
    (forall id e, ec_raw s1' id e <-> ec_raw s1 id e) /\ (forall j, ec_file s1' j = ec_file s1 j) /\
    forall id e, ec_raw s2' id e <-> if decide (id ∈ bids) then ec_raw s1 id e else ec_raw s2 id e.
Proof using RL WL Hto.
  revert s1 s2. induction bids as [|bid bids IH]; intros s1 s2 Hwf1 Hwf2 Hall.
  { exists [], s1, s2. do 6 (split; [done|]). intros id e. by rewrite decide_False by apply not_elem_of_nil. }
  apply Forall_cons in Hall as [[[d1 Hd1] [d2 Hd2]] Hall].
  destruct (law_raw_range s1 bid d1 Hwf1 Hd1) as [Hid _]. pose proof BLOCK_NUM_val.
  pose proof (transfer_request_small bid to (2 ^ 27) ltac:(lia) Hto) as (Ht & Hi & Hc).
  destruct (transfer_request_spec bid to) as [Eid Ex].
  destruct (transfer_block (reaches x (write_answer [])) (fun _ => None) x s1 s2 h1 h2 d1 d2 (transfer_request bid to))
    as (bytes & s1a & s2a & E1 & E2 & (Hwf1a & Hu & _) & Hraw1 & Hput); rewrite ?Eid; try done.
  { apply small_sendable; [vm_compute; reflexivity|]. split; [done|]. split; [done|]. lia. }
  { apply (mirror_request_size bid to (2 ^ 27)); [lia|done|lia]. }
  { unfold reaches. by rewrite decide_True. }
  rewrite Eid in Hput. pose proof Hput as [Hwf2a Hraw2 _ _ _].
  destruct (IH s1a s2a Hwf1a Hwf2a) as (fwd & s1' & s2' & F1 & F2 & Hwf1' & Hwf2' & Hr1 & Hf1 & Hr2).
  { eapply Forall_impl; [exact Hall|]. intros id [[e He] [e' He']]. split; [exists e; by apply Hraw1|].
    destruct (decide (id = bid)) as [->|Hn]; [exists d1; apply Hraw2; by rewrite decide_True|].
    exists e'. apply Hraw2. by rewrite decide_False. }
  exists (bytes :: fwd), s1', s2'. cbn [fmap list_fmap serve_all length replicate].
  split; [by rewrite (M_bind_Ret _ _ _ _ _ E1), (M_bind_Ret _ _ _ _ _ F1)|].
  split; [by rewrite (M_bind_Ret _ _ _ _ _ E2), (M_bind_Ret _ _ _ _ _ F2)|].
  split; [done|]. split; [done|]. split; [intros id e; by rewrite Hr1, Hraw1|].
  split; [intros j; rewrite Hf1; apply Hu|]. intros id e. rewrite Hr2. destruct (decide (id ∈ bids)) as [Hin|Hin].
  - rewrite decide_True by (by right). apply Hraw1.
  - rewrite Hraw2. destruct (decide (id = bid)) as [->|Hn].
    + rewrite decide_True by left. split; [by intros ->|]. intros He.
      exact (raw_unique s1 bid e d1 Hwf1 He Hd1).
    + rewrite decide_False; [done|]. rewrite elem_of_cons. by intros [|].
Qed.
End copies.

(** The blocks that a registration copies. *)
Lemma copied_blocks id v : 5 < heartbeat_count v ->
  exists bids, (RegisterDatanode id v).2 = (fun bid => (bid, master_datanode v, id)) <$> bids /\
    forall bid, bid ∈ bids <-> bid ∈ HDFS_block v.
Proof using Type.
  intros Hc. exists (sorting.merge_sort Z.le (elements (HDFS_block v))). unfold RegisterDatanode. cbn [snd].
  rewrite (proj2 (Z.ltb_lt _ _) Hc). split; [done|]. intros bid.
  by rewrite sorting.merge_sort_Permutation, elem_of_elements.
Qed.
End recovery.
