(* ===== verification/MemberFacts.v ===== *)
(** * The data nodes that the name node knows

    The order on data nodes, the std::map that is kept in this order, and the
    history of heartbeats as the specification of [GetDatanodes]. *)

From Stdlib Require Import Sorted.
From S2P Require Import Prelude Namenode.

(* ------------------------------------------------------------------ *)
(** ** Strict orders as boolean functions *)

Class strict_order {T : Type} (ltb : T -> T -> bool) : Prop := {
  ltb_irrefl x : ltb x x = false;
  ltb_trans x y z : ltb x y = true -> ltb y z = true -> ltb x z = true;
  ltb_total x y : ltb x y = false -> ltb y x = false -> x = y
}.

Lemma ltb_asym {T} (ltb : T -> T -> bool) `{!strict_order ltb} x y : ltb x y = true -> ltb y x = false.
Proof.
  intros Hxy. destruct (ltb y x) eqn:Hyx; [|done].
  pose proof (ltb_trans x y x Hxy Hyx) as H. by rewrite ltb_irrefl in H.
Qed.

#[global] Instance Zltb_strict : strict_order Z.ltb.
Proof.
  split; intros *; [lia|lia|]. intros ?%Z.ltb_ge ?%Z.ltb_ge. lia.
Qed.

#[global] Instance str_lt_strict : strict_order str_lt.
Proof.
  split.
  - intros x. induction x as [|c x IH]; [done|]. cbn. by rewrite Z.ltb_irrefl.
  - intros x. induction x as [|a x IH]; intros [|b y] [|c z] Hxy Hyz; cbn in *; try done.
    destruct (Z.ltb_spec (byte_val a) (byte_val b)), (Z.ltb_spec (byte_val b) (byte_val a)),
      (Z.ltb_spec (byte_val b) (byte_val c)), (Z.ltb_spec (byte_val c) (byte_val b)),
      (Z.ltb_spec (byte_val a) (byte_val c)), (Z.ltb_spec (byte_val c) (byte_val a));
      try done; try lia. by apply (IH y z).
  - intros x. induction x as [|a x IH]; intros [|b y] Hxy Hyx; cbn in *; try done.
    destruct (Z.ltb_spec (byte_val a) (byte_val b)), (Z.ltb_spec (byte_val b) (byte_val a)); try done.
    f_equal; [apply byte_val_inj; lia|by apply IH].
Qed.

(** The lexicographic order. *)
Definition lex {A B} (lta : A -> A -> bool) (ltb : B -> B -> bool) (p q : A * B) : bool :=
  if lta p.1 q.1 then true else if lta q.1 p.1 then false else ltb p.2 q.2.

#[global] Instance lex_strict {A B} (lta : A -> A -> bool) (ltb : B -> B -> bool)
  `{!strict_order lta, !strict_order ltb} : strict_order (lex lta ltb).
Proof.
  split.
  - intros [a b]. unfold lex. cbn. by rewrite !ltb_irrefl.
  - intros [a1 b1] [a2 b2] [a3 b3]. unfold lex. cbn.
    destruct (lta a1 a2) eqn:E12.
    + intros _. destruct (lta a2 a3) eqn:E23; [by rewrite (ltb_trans (ltb := lta) a1 a2 a3)|].
      destruct (lta a3 a2) eqn:E32; [done|]. rewrite <-(ltb_total (ltb := lta) a2 a3) by done. by rewrite E12.
    + destruct (lta a2 a1) eqn:E21; [done|]. rewrite <-(ltb_total (ltb := lta) a1 a2) by done.
      destruct (lta a1 a3); [done|]. destruct (lta a3 a1); [done|]. apply ltb_trans.
  - intros [a1 b1] [a2 b2]. unfold lex. cbn.
    destruct (lta a1 a2) eqn:E12; [done|]. destruct (lta a2 a1) eqn:E21; [done|].
    intros H1 H2. f_equal; [by apply (ltb_total (ltb := lta))|by apply (ltb_total (ltb := ltb))].
Qed.

(** The fields that tell data nodes apart; the others do not count. *)
Definition dn_key (a : DatanodeID) : list byte * (list byte * Z) :=
  (ipaddr a, (hostname a, xferport a)).

Definition key_lt : list byte * (list byte * Z) -> list byte * (list byte * Z) -> bool :=
  lex str_lt (lex str_lt Z.ltb).

Lemma dn_lt_key a b : dn_lt a b = key_lt (dn_key a) (dn_key b).
Proof.
  unfold dn_lt, key_lt, lex, dn_key. cbn.
  destruct (str_lt (ipaddr a) (ipaddr b)), (str_lt (ipaddr b) (ipaddr a)),
    (str_lt (hostname a) (hostname b)), (str_lt (hostname b) (hostname a)),
    (xferport a <? xferport b), (xferport b <? xferport a); done.
Qed.

Lemma dn_eq_key a b : dn_eq a b = bool_decide (dn_key a = dn_key b).
Proof.
  unfold dn_eq, dn_key. case_bool_decide; cbn; [|by rewrite bool_decide_false by congruence].
  case_bool_decide; cbn; [|by rewrite bool_decide_false by congruence].
  destruct (Z.eqb_spec (xferport a) (xferport b)); cbn;
    [by rewrite bool_decide_true by congruence|by rewrite bool_decide_false by congruence].
Qed.

(* ------------------------------------------------------------------ *)
(** ** The map of data nodes *)

Definition entry_lt (x y : DatanodeID * Z) : Prop := dn_lt x.1 y.1 = true.
Definition map_ok (m : list (DatanodeID * Z)) : Prop := StronglySorted entry_lt m.

(** [m.find(k)] *)
Fixpoint map_get (m : list (DatanodeID * Z)) (k : DatanodeID) : option Z :=
  match m with
  | [] => None
  | (k', v) :: m => if dn_eq k' k then Some v else map_get m k
  end.

Ltac dn_keys := rewrite ?dn_lt_key, ?dn_eq_key in *.

(** The entry for [k] goes where the order puts it. *)
Lemma map_set_bound m k v k0 : Forall (fun x => dn_lt k0 x.1 = true) m -> dn_lt k0 k = true ->
  Forall (fun x => dn_lt k0 x.1 = true) (map_set m k v).
Proof.
  induction m as [|[k' v'] m IH]; intros HF Hk; cbn [map_set]; [by constructor|].
  apply Forall_cons in HF as [H0 HF].
  destruct (dn_lt k k'); [by repeat constructor|]. destruct (dn_lt k' k); constructor; auto.
Qed.

Lemma map_insert_bound m k v k0 : Forall (fun x => dn_lt k0 x.1 = true) m -> dn_lt k0 k = true ->
  Forall (fun x => dn_lt k0 x.1 = true) (map_insert m k v).
Proof.
  induction m as [|[k' v'] m IH]; intros HF Hk; cbn [map_insert]; [by constructor|].
  apply Forall_cons in HF as [H0 HF].
  destruct (dn_lt k k'); [by repeat constructor|]. destruct (dn_lt k' k); constructor; auto.
Qed.

Lemma dn_lt_Forall k k' (m : list (DatanodeID * Z)) : dn_lt k k' = true -> Forall (fun x => dn_lt k' x.1 = true) m ->
  Forall (fun x => dn_lt k x.1 = true) m.
Proof.
  intros Hk HF. eapply Forall_impl; [exact HF|]. cbn. intros x Hx. dn_keys. by eapply ltb_trans.
Qed.

Lemma map_set_ok m k v : map_ok m -> map_ok (map_set m k v).
Proof.
  unfold map_ok. induction m as [|[k' v'] m IH]; intros Hm; cbn [map_set]; [by repeat constructor|].
  apply StronglySorted_inv in Hm as [Hm HF].
  destruct (dn_lt k k') eqn:Hk; [|destruct (dn_lt k' k) eqn:Hk'].
  - constructor; [by constructor|]. constructor; [done|]. by eapply dn_lt_Forall.
  - constructor; [by apply IH|]. by apply map_set_bound.
  - by constructor.
Qed.

Lemma map_insert_ok m k v : map_ok m -> map_ok (map_insert m k v).
Proof.
  unfold map_ok. induction m as [|[k' v'] m IH]; intros Hm; cbn [map_insert]; [by repeat constructor|].
  pose proof Hm as [Hm' HF]%StronglySorted_inv.
  destruct (dn_lt k k') eqn:Hk; [|destruct (dn_lt k' k) eqn:Hk'].
  - constructor; [done|]. constructor; [done|]. by eapply dn_lt_Forall.
  - constructor; [by apply IH|]. by apply map_insert_bound.
  - done.
Qed.

(** No entry below the first one. *)
Lemma map_get_below m k : Forall (fun x => dn_lt k x.1 = true) m -> map_get m k = None.
Proof.
  induction m as [|[k' v'] m IH]; intros HF; cbn; [done|]. apply Forall_cons in HF as [Hk HF].
  cbn in Hk. dn_keys. case_bool_decide as E; [|by apply IH]. rewrite E, ltb_irrefl in Hk. done.
Qed.

Lemma map_get_key m k k' : dn_key k = dn_key k' -> map_get m k = map_get m k'.
Proof.
  intros E. induction m as [|[k0 v0] m IH]; cbn; [done|]. rewrite !dn_eq_key, E. by rewrite IH.
Qed.

(** [m[k] = v] and [m.insert(k, v)] are updates of a finite map. *)
Lemma map_get_set m k v k' : map_ok m ->
  map_get (map_set m k v) k' = if dn_eq k k' then Some v else map_get m k'.
Proof.
  unfold map_ok. induction m as [|[k0 v0] m IH]; intros Hm; cbn [map_set]; [done|].
  apply StronglySorted_inv in Hm as [Hm HF].
  destruct (dn_lt k k0) eqn:Hk; [done|]. destruct (dn_lt k0 k) eqn:Hk'; cbn [map_get].
  - rewrite IH by done. dn_keys. case_bool_decide as E0; [|done].
    case_bool_decide as E; [|done]. rewrite E, E0, ltb_irrefl in Hk'. done.
  - dn_keys. rewrite (ltb_total _ _ Hk Hk'). by repeat case_bool_decide.
Qed.

Lemma map_get_insert m k v k' : map_ok m ->
  map_get (map_insert m k v) k' =
  if dn_eq k k' then Some (default v (map_get m k)) else map_get m k'.
Proof.
  unfold map_ok. induction m as [|[k0 v0] m IH]; intros Hm; cbn [map_insert]; [done|].
  apply StronglySorted_inv in Hm as [Hm HF].
  destruct (dn_lt k k0) eqn:Hk; [|destruct (dn_lt k0 k) eqn:Hk'].
  - cbn [map_get]. rewrite (map_get_below m k) by (by eapply dn_lt_Forall).
    rewrite (dn_eq_key k0 k). case_bool_decide as E; [|done].
    dn_keys. rewrite E, ltb_irrefl in Hk. done.
  - cbn [map_get]. rewrite IH by done. dn_keys.
    rewrite (bool_decide_false (dn_key k0 = dn_key k)) by (intros E; by rewrite E, ltb_irrefl in Hk').
    case_bool_decide as E0; [|done]. case_bool_decide as E; [|done].
    rewrite E, E0, ltb_irrefl in Hk'. done.
  - cbn [map_get]. dn_keys. rewrite (ltb_total _ _ Hk Hk'). rewrite (bool_decide_true (dn_key k0 = dn_key k0)) by done.
    by repeat case_bool_decide.
Qed.

Lemma map_get_elem m k v : map_ok m -> (k, v) ∈ m -> map_get m k = Some v.
Proof.
  unfold map_ok. induction m as [|[k0 v0] m IH]; intros Hm Hin; [by apply elem_of_nil in Hin|].
  apply StronglySorted_inv in Hm as [Hm HF]. cbn [map_get]. dn_keys.
  apply elem_of_cons in Hin as [[= -> ->]|Hin]; [by rewrite bool_decide_true|].
  case_bool_decide as E; [|by apply IH]. exfalso.
  pose proof (proj1 (Forall_forall _ _) HF _ Hin) as Hlt. unfold entry_lt in Hlt. cbn in Hlt.
  rewrite dn_lt_key, E, ltb_irrefl in Hlt. done.
Qed.

Lemma map_get_Some m k v : map_get m k = Some v -> exists k', (k', v) ∈ m /\ dn_eq k' k = true.
Proof.
  induction m as [|[k0 v0] m IH]; cbn; [done|]. destruct (dn_eq k0 k) eqn:E.
  - intros [= ->]. exists k0. split; [left|done].
  - intros (k' & Hin & Hk)%IH. exists k'. split; [by right|done].
Qed.

(* ------------------------------------------------------------------ *)
(** ** The history of heartbeats *)

(** What happens at the name node: a round of its own clock, the heartbeat of
    a data node, and the registration of one. *)
Inductive nn_event : Type :=
| Tick
| Beat (id : DatanodeID)
| Register (master : bool) (id : DatanodeID).

Definition nn_exec (v : namenode) (e : nn_event) : namenode :=
  match e with
  | Tick => SendHeartbeat v
  | Beat id => PBDatanodeHeartbeat id v
  | Register master id => (RegisterDatanode id (PBRegisterDatanode master id v)).1
  end.

(** The specification: the time, and when each data node was heard last.  A
    data node that registers again is not heard. *)
Record history : Type := mkHistory { now : Z; last_heard : list byte * (list byte * Z) -> option Z }.

Definition spec_exec (m : history) (e : nn_event) : history :=
  match e with
  | Tick => mkHistory (now m + 1) (last_heard m)
  | Beat id =>
      mkHistory (now m) (fun k => if decide (dn_key id = k) then Some (now m) else last_heard m k)
  | Register _ id =>
      mkHistory (now m)
        (fun k => if decide (dn_key id = k) then Some (default (now m) (last_heard m k)) else last_heard m k)
  end.

Definition spec_init : history := mkHistory 0 (fun _ => None).

(** A data node is alive when it was heard in the last three rounds.  In the
    first three rounds the name node takes every data node for dead. *)
Definition alive (m : history) (id : DatanodeID) : Prop :=
  3 <= now m /\ exists t, last_heard m (dn_key id) = Some t /\ now m - 3 <= t.

Definition reported (v : namenode) (id : DatanodeID) : Prop :=
  exists d, d ∈ GetDatanodes v /\ dn_eq d id = true.

(** The simulation. *)
Record sim (v : namenode) (m : history) : Prop := mkSim {
  sim_now : heartbeat_count v = now m;
  sim_ok : map_ok (datanode v);
  sim_get id : map_get (datanode v) id = last_heard m (dn_key id);
  sim_range id t : last_heard m (dn_key id) = Some t -> 0 <= t <= now m
}.

Lemma sim_init master : sim (nn_init master) spec_init.
Proof. by split; try constructor. Qed.

Lemma sim_exec v m e : sim v m -> 0 <= now m -> now (spec_exec m e) < 2 ^ 31 ->
  sim (nn_exec v e) (spec_exec m e).
Proof.
  intros [Hn Hok Hget Hr] H0 Hb. destruct e as [|id|master id]; cbn in Hb |- *.
  - split; cbn; [|done|done|].
    + rewrite Hn. unfold u64. rewrite Z.mod_small; lia.
    + intros id t Ht. apply Hr in Ht. lia.
  - split; cbn; [done|by apply map_set_ok| |].
    + intros id'. rewrite map_get_set, Hget, dn_eq_key, Hn, (sint_small 32) by (done || lia).
      by destruct (decide (dn_key id = dn_key id')); case_bool_decide.
    + intros id' t. destruct (decide _); [|apply Hr]. intros [= <-]. lia.
  - unfold RegisterDatanode, PBRegisterDatanode. destruct master; cbn;
      (split; cbn; [done|by apply map_insert_ok| |]).
    all: try (intros id'; rewrite map_get_insert, !Hget, dn_eq_key, Hn, (sint_small 32) by (done || lia);
      destruct (decide (dn_key id = dn_key id')) as [E|E]; case_bool_decide; try done; by rewrite E).
    all: intros id' t; destruct (decide _); [|apply Hr]; intros [= <-];
      destruct (last_heard m (dn_key id')) eqn:E; cbn; [by apply Hr in E|lia].
Qed.

Lemma spec_now m tr : now m <= now (foldl spec_exec m tr).
Proof.
  revert m. induction tr as [|e tr IH]; intros m; [done|]. cbn. etrans; [|apply IH].
  destruct e; cbn; lia.
Qed.

Lemma sim_run v m tr : sim v m -> 0 <= now m -> now (foldl spec_exec m tr) < 2 ^ 31 ->
  sim (foldl nn_exec v tr) (foldl spec_exec m tr).
Proof.
  revert v m. induction tr as [|e tr IH]; intros v m Hs H0 Hb; [done|]. cbn in *.
  pose proof (spec_now (spec_exec m e) tr).
  assert (0 <= now (spec_exec m e)) by (destruct e; cbn; lia).
  apply IH; [|done|done]. apply sim_exec; [done|done|lia].
Qed.

(** In related states the name node reports the data nodes that are alive. *)
Lemma sim_reported v m id : sim v m -> 0 <= now m < 2 ^ 31 -> reported v id <-> alive m id.
Proof.
  intros [Hn Hok Hget Hr] Hb. unfold reported, alive, GetDatanodes. rewrite <-Hget, Hn.
  assert (forall k t, map_get (datanode v) k = Some t ->
    (u64 (now m - 3) <= u64 t <-> 3 <= now m /\ now m - 3 <= t)) as Hcmp.
  { intros k t Hk. rewrite Hget in Hk. apply Hr in Hk. unfold u64.
    rewrite (Z.mod_small t) by lia. destruct (Z.le_gt_cases 3 (now m)) as [H3|H3].
    - rewrite Z.mod_small by lia. lia.
    - replace (now m - 3) with (now m - 3 + 2 ^ 64 + (-1) * 2 ^ 64) by lia.
      rewrite Z.mod_add, Z.mod_small by lia. lia. }
  split.
  - intros (d & Hd & Hid). apply list_elem_of_fmap in Hd as ([k t] & -> & Hin). cbn in Hid.
    apply list_elem_of_filter in Hin as [Hle Hin]. cbn in Hle. apply (map_get_elem _ _ _ Hok) in Hin.
    rewrite dn_eq_key in Hid. apply bool_decide_eq_true in Hid.
    apply (Hcmp k t Hin) in Hle as [H3 Hle]. split; [done|]. exists t.
    by rewrite <-(map_get_key _ k id).
  - intros (H3 & t & Ht & Hle). pose proof Ht as (k' & Hin & Hk)%map_get_Some.
    exists k'. split; [|done]. apply list_elem_of_fmap. exists (k', t). split; [done|].
    apply list_elem_of_filter. split; [|done]. cbn. by apply (Hcmp id t Ht).
Qed.
