(* ===== verification/NamenodeFacts.v ===== *)
(** * Facts about the name node

    Path lookup as a walk over the components of a path, the blocks it
    reports and hands out, renaming, and the order of data nodes. *)

From S2P Require Import Prelude Disk Protocol Inode InodeFacts FileRead FileWrite DirFormat DirFacts.
From S2P Require Import Extent BlockFacts Yfs YfsFacts Namenode.

(* ------------------------------------------------------------------ *)
(** ** The monad of requests *)

Lemma NM_bind_Ret {S A B} (m : NM S A) (k : A -> NM S B) n n' a :
  m n = Ret (n', inr a) -> (m ≫= k) n = k a n'.
Proof. intros E. unfold mbind, NM_bind. by rewrite E. Qed.

Lemma NM_bind_Stuck {S A B} (m : NM S A) (k : A -> NM S B) n : m n = Stuck -> (m ≫= k) n = Stuck.
Proof. intros E. unfold mbind, NM_bind. by rewrite E. Qed.

Lemma NM_bind_throw {S A B} (m : NM S A) (k : A -> NM S B) n n' e :
  m n = Ret (n', inl e) -> (m ≫= k) n = Ret (n', inl e).
Proof. intros E. unfold mbind, NM_bind. by rewrite E. Qed.

Lemma lift_Ret {S A} (m : M S A) v y y' a : m y = Ret (y', a) ->
  lift m (mkN v y) = Ret (mkN v y', inr a).
Proof. intros E. unfold lift. cbn [fs nn]. rewrite E. done. Qed.

(** Two requests that agree on all states. *)
Definition nm_eq {S A} (m1 m2 : NM S A) : Prop := forall n, m1 n = m2 n.

#[global] Instance nm_eq_equiv S A : Equivalence (@nm_eq S A).
Proof.
  split; [by intros m n|by intros m1 m2 H n|]. intros m1 m2 m3 H1 H2 n. by rewrite H1.
Qed.

Lemma nm_bind_ext {S A B} (m : NM S A) (k1 k2 : A -> NM S B) :
  (forall a, nm_eq (k1 a) (k2 a)) -> nm_eq (m ≫= k1) (m ≫= k2).
Proof.
  intros H n. unfold mbind, NM_bind. destruct (m n) as [[n' [e|a]]| | |]; try done. apply H.
Qed.

#[global] Instance nm_bind_proper S A B :
  Proper (pointwise_relation A (@nm_eq S B) ==> @nm_eq S A ==> @nm_eq S B) mbind.
Proof.
  intros k1 k2 Hk m1 m2 Hm n. unfold mbind, NM_bind. rewrite Hm.
  destruct (m2 n) as [[n' [e|a]]| | |]; try done. apply Hk.
Qed.

Lemma nm_assoc {S A B C} (m : NM S A) (f : A -> NM S B) (g : B -> NM S C) :
  nm_eq ((m ≫= f) ≫= g) (m ≫= fun a => f a ≫= g).
Proof. intros n. unfold mbind, NM_bind. destruct (m n) as [[n' [e|a]]| | |]; done. Qed.

Lemma nm_ret_l {S A B} (a : A) (k : A -> NM S B) : nm_eq (nret a ≫= k) (k a).
Proof. done. Qed.

(* ------------------------------------------------------------------ *)
(** ** Paths *)

(** The segments between the slashes of a string, empty ones included. *)
Fixpoint segments (l : list byte) : list (list byte) :=
  match l with
  | [] => [[]]
  | c :: l =>
      if decide (c = slash) then [] :: segments l
      else match segments l with
           | seg :: segs => (c :: seg) :: segs
           | [] => []
           end
  end.

Lemma segments_not_nil l : segments l <> [].
Proof.
  induction l as [|c l IH]; cbn; [done|]. destruct (decide (c = slash)); [done|].
  by destruct (segments l).
Qed.

Lemma segments_one l : slash ∉ l -> segments l = [l].
Proof.
  induction l as [|c l IH]; [done|]. intros [Hc Hl]%not_elem_of_cons. cbn.
  rewrite decide_False by done. by rewrite IH.
Qed.

Lemma segments_cons l1 l2 : slash ∉ l1 -> segments (l1 ++ slash :: l2) = l1 :: segments l2.
Proof.
  induction l1 as [|c l1 IH]; intros Hl.
  - cbn. by rewrite decide_True.
  - apply not_elem_of_cons in Hl as [Hc Hl]. cbn. rewrite decide_False by done. by rewrite IH.
Qed.

(** [find] of one character. *)
Lemma is_prefix_one c l : is_prefix [c] l = bool_decide (head l = Some c).
Proof.
  destruct l as [|d l]; cbn; [by rewrite bool_decide_false|]. rewrite andb_true_r.
  apply bool_decide_ext. naive_solver.
Qed.

Lemma find_from_one c s fuel pos : (length s <= pos + fuel)%nat -> (pos <= length s)%nat ->
  match find_from fuel [c] s pos with
  | Some q => exists l, drop pos s = l ++ c :: drop (q + 1) s /\ (c ∉ l) /\ q = (pos + length l)%nat
  | None => c ∉ drop pos s
  end.
Proof.
  revert pos. induction fuel as [|fuel IH]; intros pos Hf Hp; cbn [find_from];
    destruct (Nat.ltb_spec (length s) pos); try lia; rewrite is_prefix_one.
  - rewrite drop_ge by lia. cbn. rewrite bool_decide_false by done. apply not_elem_of_nil.
  - case_bool_decide as Hh.
    + exists []. split; [|split; [apply not_elem_of_nil|cbn; lia]].
      destruct (drop pos s) as [|d l] eqn:E; [done|]. injection Hh as ->. cbn. f_equal.
      by rewrite <-(drop_drop s 1 pos), E.
    + destruct (decide (pos = length s)) as [->|Hne].
      { rewrite drop_ge by lia. destruct fuel; cbn [find_from];
          destruct (Nat.ltb_spec (length s) (Datatypes.S (length s))); try lia; apply not_elem_of_nil. }
      destruct (lookup_lt_is_Some_2 s pos) as [d Hd]; [lia|]. rewrite (drop_S s d pos) in Hh |- * by done.
      specialize (IH (Datatypes.S pos) ltac:(lia) ltac:(lia)).
      destruct (find_from fuel [c] s (Datatypes.S pos)) as [q|].
      * destruct IH as (l & -> & Hl & ->). exists (d :: l). split; [done|]. split; [|cbn; lia].
        apply not_elem_of_cons. split; [|done]. intros ->. by apply Hh.
      * apply not_elem_of_cons. split; [|done]. intros ->. by apply Hh.
Qed.

Lemma str_find_one c s pos : (pos <= length s)%nat ->
  match str_find [c] s pos with
  | Some q => exists l, drop pos s = l ++ c :: drop (q + 1) s /\ (c ∉ l) /\ q = (pos + length l)%nat
  | None => c ∉ drop pos s
  end.
Proof. apply find_from_one. lia. Qed.

(** The body of a path loop on every segment that is not empty. *)
Fixpoint each {S A} (segs : list (list byte)) (a : A) (body : list byte -> A -> NM S (option A))
    : NM S (option A) :=
  match segs with
  | [] => nret (Some a)
  | c :: segs =>
      if decide (c = []) then each segs a body
      else r ← body c a;
           match r with None => nret None | Some a => each segs a body end
  end.

Lemma each_app {S A} segs1 segs2 (a : A) (body : list byte -> A -> NM S (option A)) :
  nm_eq (each (segs1 ++ segs2) a body)
    (r ← each segs1 a body; match r with None => nret None | Some a => each segs2 a body end).
Proof.
  revert a. induction segs1 as [|c segs1 IH]; intros a; cbn [each app]; [done|].
  destruct (decide (c = [])); [apply IH|]. rewrite nm_assoc. apply nm_bind_ext.
  intros [a'|]; [apply IH|done].
Qed.

Lemma removelast_cons {A} (x : A) l : l <> [] -> removelast (x :: l) = x :: removelast l.
Proof. by destruct l. Qed.

Lemma last_cons_ne {A} (x d : A) l : l <> [] -> List.last (x :: l) d = List.last l d.
Proof. by destruct l. Qed.

Lemma length_last_segment l : (length (List.last (segments l) []) <= length l)%nat.
Proof.
  induction l as [|c l IH]; [done|]. cbn [segments]. pose proof (segments_not_nil l).
  destruct (decide (c = slash)); [rewrite last_cons_ne by done; cbn; lia|].
  destruct (segments l) as [|seg [|seg' segs]]; cbn in *; lia.
Qed.

(** A path loop runs its body on the segments before the last slash. *)
Lemma path_loop_spec {S A} path fuel p (a : A) (body : list byte -> A -> NM S (option A)) :
  (p <= length path)%nat -> (length path <= p + fuel)%nat ->
  nm_eq (path_loop fuel path p p a body)
    (r ← each (removelast (segments (drop p path))) a body;
     nret ((fun a => (a, length path - length (List.last (segments (drop p path)) []))%nat) <$> r)).
Proof.
  revert p a. induction fuel as [|fuel IH]; intros p a Hp Hf; cbn [path_loop];
    pose proof (str_find_one slash path p Hp) as Hfind;
    destruct (str_find [slash] path p) as [q|].
  - destruct Hfind as (l & E & _). rewrite drop_ge in E by lia. by destruct l.
  - rewrite segments_one by done. intros n. cbn. rewrite length_drop.
    by replace (length path - (length path - p))%nat with p by lia.
  - destruct Hfind as (l & E & Hl & ->). rewrite E, segments_cons by done.
    assert (length (drop p path) = (length l + 1 + length (drop (p + length l + 1) path))%nat) as EL
      by (rewrite E, length_app; cbn; lia).
    rewrite !length_drop in EL.
    rewrite removelast_cons, last_cons_ne by apply segments_not_nil. cbn [each].
    replace (p + length l - p)%nat with (length l) by lia. rewrite take_app_length.
    destruct l as [|c l].
    + rewrite (decide_False (P := (p + length [] <> p)%nat)), (decide_True (P := [] = [])) by (cbn; lia || done).
      replace (p + length [] + 1)%nat with (p + 1)%nat by (cbn; lia). apply IH; cbn in *; lia.
    + rewrite (decide_True (P := (p + _ <> p)%nat)), (decide_False (P := c :: l = [])) by (cbn; lia || done).
      rewrite nm_assoc. apply nm_bind_ext. intros [a'|]; [|done]. apply IH; cbn in *; lia.
  - rewrite segments_one by done. intros n. cbn. rewrite length_drop.
    by replace (length path - (length path - p))%nat with p by lia.
Qed.

Lemma segments_single l seg : segments l = [seg] -> l = seg.
Proof.
  revert seg. induction l as [|c l IH]; intros seg; cbn; [by intros [= <-]|].
  pose proof (segments_not_nil l). destruct (decide (c = slash)); [congruence|].
  destruct (segments l) as [|s1 [|s2 segs]]; [done| |done]. intros [= <-]. by rewrite (IH s1).
Qed.

Lemma segments_suffix l : exists pre, l = pre ++ List.last (segments l) [].
Proof.
  induction l as [|c l [pre IH]]; [by exists []|]. cbn [segments]. pose proof (segments_not_nil l) as Hn.
  destruct (decide (c = slash)).
  - exists (c :: pre). rewrite last_cons_ne by done. cbn. by rewrite <-IH.
  - destruct (segments l) as [|seg [|seg' segs]] eqn:E; [done| |].
    + exists []. cbn. by rewrite (segments_single l seg E).
    + exists (c :: pre). cbn in *. by rewrite <-IH.
Qed.

Lemma drop_last_segment path p : (p <= length path)%nat ->
  drop (length path - length (List.last (segments (drop p path)) [])) path =
  List.last (segments (drop p path)) [].
Proof.
  intros Hp. destruct (segments_suffix (drop p path)) as [pre E].
  set (seg := List.last (segments (drop p path)) []) in *.
  assert (path = (take p path ++ pre) ++ seg) as E2 by (by rewrite <-app_assoc, <-E, take_drop).
  rewrite E2 at 2. apply drop_app_length'. rewrite E2 at 1. rewrite !length_app. lia.
Qed.

Lemma segments_split l : segments l = removelast (segments l) ++ [List.last (segments l) []].
Proof. apply app_removelast_last, segments_not_nil. Qed.

Lemma each_split {S A} l (a : A) (body : list byte -> A -> NM S (option A)) :
  nm_eq (each (segments l) a body)
    (r ← each (removelast (segments l)) a body;
     match r with None => nret None | Some a => each [List.last (segments l) []] a body end).
Proof. intros n. rewrite (segments_split l) at 1. apply each_app. Qed.

Section lookup.
Context {S : Type} `{!ExtentClient S} (junk : Z).

(** [RecursiveLookup] of an absolute path looks up its components one after
    the other from the root on. *)
Lemma RecursiveLookup_each path : char_at path 0 = slash ->
  nm_eq (RecursiveLookup junk path)
    (each (segments (drop 1 path)) (1, 1) (lookup_step (S := S) junk)).
Proof using Type.
  intros Hc. unfold RecursiveLookup. rewrite bool_decide_true by done. cbn [negb].
  destruct path as [|c path]; [done|].
  rewrite (path_loop_spec (c :: path) (length (c :: path)) 1) by (cbn; lia).
  rewrite (each_split (drop 1 (c :: path))), nm_assoc.
  apply nm_bind_ext. intros [st|]; [|done]. rewrite nm_ret_l. cbn [fmap option_fmap option_map].
  rewrite drop_last_segment by (cbn; lia).
  set (seg := List.last _ _).
  assert (length seg <= length path)%nat as Hlen.
  { etrans; [apply (length_last_segment (drop 1 (c :: path)))|]. rewrite length_drop. cbn. lia. }
  cbn [each]. destruct (decide (seg = [])) as [->|Hne].
  - rewrite decide_False; [done|]. cbn [length]. lia.
  - rewrite decide_True; [|destruct seg; [done|cbn [length] in *; lia]].
    intros n. unfold mbind, NM_bind. by destruct (lookup_step junk seg st n) as [[n' [e|[a|]]]| | |].
Qed.
End lookup.

(* ------------------------------------------------------------------ *)
(** ** Lookup in a file system *)

Section facts.
Context {S : Type} `{!ExtentClient S, !ExtentLaws S, !BlockLaws S}.
Context (junk : Z) (junk_attr : extent_protocol.attr).

(** The same files, blocks and free blocks. *)
Definition keeps (s s' : S) : Prop := same s s' /\ forall j, ec_blocks s' j = ec_blocks s j.

Lemma keeps_refl s : ec_wf s -> keeps s s.
Proof using Type. by split. Qed.

Lemma keeps_trans s1 s2 s3 : keeps s1 s2 -> keeps s2 s3 -> keeps s1 s3.
Proof using Type.
  intros [H1 E1] [H2 E2]. split; [by eapply same_trans|]. intros j. by rewrite E2.
Qed.

Lemma keeps_file s s' i x : keeps s s' -> ec_file s i = x -> ec_file s' i = x.
Proof using Type. intros [(_ & H & _) _] <-. apply H. Qed.

Lemma keeps_wf s s' : keeps s s' -> ec_wf s'.
Proof using Type. by intros [[? _] _]. Qed.

Lemma keeps_dir s s' p es : keeps s s' -> is_dir s p es -> is_dir s' p es.
Proof using Type. intros [H _]. by apply is_dir_same. Qed.

Lemma get_keeps s h i t c : ec_wf s -> ec_file s i = Some (t, c) ->
  exists s', ec (ec_get i []) (mkYfs s h) = Ret (mkYfs s' h, (extent_protocol.OK, c)) /\ keeps s s'.
Proof using Type.
  intros Hwf Hf. pose proof (file_extent s i _ Hwf Hf) as Hi.
  destruct (law_get s i t c []) as (s' & E & Hs); [done..|].
  exists s'. unfold ec. cbn [ys held]. rewrite E. split; [done|]. split; [done|].
  by eapply law_get_blocks.
Qed.

Lemma getattr_keeps s h i t c a0 : ec_wf s -> ec_file s i = Some (t, c) -> 0 <= t ->
  exists s' a, ec (ec_getattr i a0) (mkYfs s h) = Ret (mkYfs s' h, (extent_protocol.OK, a)) /\
    extent_protocol.a_type a = t /\ extent_protocol.a_size a = Z.of_nat (length c) /\ keeps s s'.
Proof using Type.
  intros Hwf Hf Ht. pose proof (file_extent s i _ Hwf Hf) as Hi.
  destruct (law_getattr s i t c a0) as (s' & a & E & Et & Ea & Hs); [done..|].
  exists s', a. unfold ec. cbn [ys held]. rewrite E. split; [done|]. do 2 (split; [done|]).
  split; [done|]. by eapply law_getattr_blocks.
Qed.

Lemma is_keeps s h i t c type : ec_wf s -> ec_file s i = Some (t, c) -> 0 <= t ->
  exists s', nlock_is type i (mkYfs s h) = Ret (mkYfs s' h, t =? type) /\ keeps s s'.
Proof using Type.
  intros Hwf Hf Ht.
  destruct (getattr_keeps s h i t c extent_protocol.attr_zero Hwf Hf Ht) as (s' & a & E & <- & _ & Hk).
  exists s'. split; [|done]. unfold nlock_is, get_attr. by rewrite (M_bind_Ret _ _ _ _ _ E).
Qed.

Lemma lookup_keeps s h p es name f i0 : ec_wf s -> is_dir s p es ->
  exists s', nlock_lookup junk p name f i0 (mkYfs s h) =
    Ret (mkYfs s' h, lookup_result es (cstr name) i0) /\ keeps s s'.
Proof using Type.
  intros Hwf Hd. pose proof Hd as [Hf Hes].
  destruct (run_lookup junk s h p es name f i0 Hwf Hd) as (s' & E & Hs).
  exists s'. split; [done|]. split; [done|]. revert E. unfold nlock_lookup.
  destruct (is_keeps s h p _ _ extent_protocol.T_DIR Hwf Hf) as (s1 & E1 & Hk1); [done|].
  rewrite (M_bind_Ret _ _ _ _ _ E1). cbn [negb Z.eqb extent_protocol.T_DIR Pos.eqb].
  destruct (get_keeps s1 h p extent_protocol.T_DIR (dir_encode es)) as (s2 & E2 & Hk2);
    [by eapply keeps_wf|by eapply keeps_file|].
  rewrite (M_bind_Ret _ _ _ _ _ E2), Z.eqb_refl.
  destruct (dir_lookup _ _); intros [= <- _]; by destruct (keeps_trans _ _ _ Hk1 Hk2).
Qed.

(** The result of following the components [comps] from inode [fst st], where
    [snd st] is the directory before it. *)
Inductive resolve (s : S) : Z * Z -> list (list byte) -> option (Z * Z) -> Prop :=
| resolve_nil st : resolve s st [] (Some st)
| resolve_skip st comps r : resolve s st comps r -> resolve s st ([] :: comps) r
| resolve_step ino last c comps es i r : c <> [] -> is_dir s ino es -> assoc (cstr c) es = Some i ->
    resolve s (i, ino) comps r -> resolve s (ino, last) (c :: comps) r
| resolve_missing ino last c comps es : c <> [] -> is_dir s ino es -> assoc (cstr c) es = None ->
    resolve s (ino, last) (c :: comps) None
| resolve_file ino last c comps t x : c <> [] -> ec_file s ino = Some (t, x) -> 0 <= t ->
    t <> extent_protocol.T_DIR -> resolve s (ino, last) (c :: comps) None.

Lemma resolve_keeps s s' st comps r : keeps s s' -> resolve s st comps r -> resolve s' st comps r.
Proof using Type.
  intros Hk. induction 1.
  - constructor.
  - by constructor.
  - eapply resolve_step; [done|by eapply keeps_dir|done|done].
  - eapply resolve_missing; [done|by eapply keeps_dir|done].
  - eapply resolve_file; [done|by eapply keeps_file|done|done].
Qed.

Lemma cstr_cstr n : cstr (cstr n) = cstr n.
Proof using Type.
  induction n as [|c n IH]; [done|]. cbn [cstr]. destruct (decide (c = x00)) eqn:E; [done|].
  cbn [cstr]. by rewrite E, IH.
Qed.

(** One component. *)
Lemma lookup_step_dir v h s ino last c es : ec_wf s -> is_dir s ino es ->
  exists s', lookup_step junk c (ino, last) (mkN v (mkYfs s h)) =
    Ret (mkN v (mkYfs s' h), inr ((fun i => (i, ino)) <$> assoc (cstr c) es)) /\ keeps s s'.
Proof using Type.
  intros Hwf Hd. destruct (lookup_keeps s h ino es (cstr c) false ino Hwf Hd) as (s' & E & Hk).
  exists s'. split; [|done]. unfold lookup_step, lookup. rewrite (NM_bind_Ret _ _ _ _ _ (lift_Ret _ _ _ _ _ E)).
  rewrite cstr_cstr. unfold lookup_result. by destruct (assoc (cstr c) es).
Qed.

Lemma lookup_step_file v h s ino last c t x : ec_wf s -> ec_file s ino = Some (t, x) -> 0 <= t ->
  t <> extent_protocol.T_DIR ->
  exists s', lookup_step junk c (ino, last) (mkN v (mkYfs s h)) =
    Ret (mkN v (mkYfs s' h), inr None) /\ keeps s s'.
Proof using Type.
  intros Hwf Hf Ht Hne. destruct (is_keeps s h ino t x extent_protocol.T_DIR Hwf Hf Ht) as (s' & E & Hk).
  rewrite (proj2 (Z.eqb_neq _ _) Hne) in E. exists s'. split; [|done].
  assert (lookup junk ino (cstr c) false ino (mkYfs s h) = Ret (mkYfs s' h, (OK, false, ino))) as E2.
  { unfold lookup, nlock_lookup, nlock_isdir. by rewrite (M_bind_Ret _ _ _ _ _ E). }
  unfold lookup_step. by rewrite (NM_bind_Ret _ _ _ _ _ (lift_Ret _ _ _ _ _ E2)).
Qed.

Lemma each_resolve v h s st comps r : resolve s st comps r -> forall s1, keeps s s1 ->
  exists s', each comps st (lookup_step junk) (mkN v (mkYfs s1 h)) =
    Ret (mkN v (mkYfs s' h), inr r) /\ keeps s1 s'.
Proof using Type.
  induction 1 as [st|st comps r Hr IH|ino last c comps es i r Hc Hd Ha Hr IH
    |ino last c comps es Hc Hd Ha|ino last c comps t x Hc Hf Ht Hne]; intros s1 Hk1;
    pose proof (keeps_wf _ _ Hk1) as Hwf; cbn [each].
  - exists s1. split; [done|]. by apply keeps_refl.
  - by apply IH.
  - rewrite decide_False by done.
    destruct (lookup_step_dir v h s1 ino last c es) as (s2 & E2 & Hk2); [done|by eapply keeps_dir|].
    rewrite Ha in E2. rewrite (NM_bind_Ret _ _ _ _ _ E2). cbn [fmap option_fmap option_map].
    destruct (IH s2) as (s3 & E3 & Hk3); [by eapply keeps_trans|]. exists s3.
    split; [done|]. by eapply keeps_trans.
  - rewrite decide_False by done.
    destruct (lookup_step_dir v h s1 ino last c es) as (s2 & E2 & Hk2); [done|by eapply keeps_dir|].
    rewrite Ha in E2. rewrite (NM_bind_Ret _ _ _ _ _ E2). by exists s2.
  - rewrite decide_False by done.
    destruct (lookup_step_file v h s1 ino last c t x) as (s2 & E2 & Hk2);
      [done|by eapply keeps_file|done|done|].
    rewrite (NM_bind_Ret _ _ _ _ _ E2). by exists s2.
Qed.

(** The path [path] leads to [r]. *)
Definition resolves (s : S) (path : list byte) (r : option (Z * Z)) : Prop :=
  char_at path 0 = slash /\ resolve s (1, 1) (segments (drop 1 path)) r.

Lemma RecursiveLookup_spec v h s path r : ec_wf s -> resolves s path r ->
  exists s', RecursiveLookup junk path (mkN v (mkYfs s h)) = Ret (mkN v (mkYfs s' h), inr r) /\
    keeps s s'.
Proof using Type.
  intros Hwf [Hc Hr]. rewrite (RecursiveLookup_each junk path Hc).
  apply (each_resolve v h s); [done|]. by apply keeps_refl.
Qed.

(* ------------------------------------------------------------------ *)
(** ** Block locations *)

(** What the located blocks [lbs] say of the blocks [l] of a file. *)
Definition covers (lbs : list LocatedBlock) (l : list (Z * list byte)) : list byte :=
  concat (zip_with (fun lb x => take (Z.to_nat (lb_size lb)) x.2) lbs l).

Lemma located_blocks_spec l n k size dns :
  n = k + Z.of_nat (length l) -> 0 <= k -> n * BLOCK_SIZE < 2 ^ 63 ->
  (l <> [] -> (n - 1) * BLOCK_SIZE < size <= n * BLOCK_SIZE) ->
  Forall (fun x => length x.2 = BS) l ->
  let lbs := located_blocks l.*1 n k (k * BLOCK_SIZE) size dns in
  block_id <$> lbs = l.*1 /\
  (forall j lb, lbs !! j = Some lb ->
     lb_offset lb = (k + Z.of_nat j) * BLOCK_SIZE /\ 0 < lb_size lb <= BLOCK_SIZE /\ locs lb = dns) /\
  covers lbs l = take (Z.to_nat (size - k * BLOCK_SIZE)) (blocks_data l).
Proof using Type.
  revert k. induction l as [|[id d] l IH]; intros k Hn Hk Hbig Hsize HF; cbn [length] in Hn;
    cbn [fmap list_fmap located_blocks fst].
  { split; [done|]. split; [done|]. unfold covers, blocks_data. cbn. by rewrite take_nil. }
  apply Forall_cons in HF as [Hd HF]. cbn in Hd. specialize (Hsize ltac:(done)).
  pose proof BS_BLOCK_SIZE as HBS. pose proof BLOCK_SIZE_val as HB.
  destruct (IH (k + 1)) as (Hids & Hall & Hcov); [lia|lia|lia|done|done|].
  unfold u64 in *. rewrite (Z.mod_small (k * _ + _)) by nia.
  replace (k * BLOCK_SIZE + BLOCK_SIZE) with ((k + 1) * BLOCK_SIZE) by lia.
  rewrite (Z.mod_small (n - 1)) by nia.
  set (sz := if k <? n - 1 then _ else _).
  assert (sz = Z.min BLOCK_SIZE (size - k * BLOCK_SIZE)) as Esz.
  { subst sz. destruct (Z.ltb_spec k (n - 1)); [nia|].
    rewrite Z.mod_small by nia. nia. }
  split; [by f_equal|]. split.
  - intros [|j] lb; cbn; [intros [= <-]; cbn; split; [lia|split; [nia|done]]|].
    intros Hj. destruct (Hall j lb Hj) as (-> & Hs & Hd'). split; [lia|exact (conj Hs Hd')].
  - unfold covers, blocks_data in *. cbn. rewrite Hcov, Esz.
    rewrite take_app. f_equal.
    + destruct (decide (BLOCK_SIZE <= size - k * BLOCK_SIZE)).
      * rewrite !take_ge by lia. done.
      * f_equal. lia.
    + f_equal. lia.
Qed.

Lemma GetBlockLocations_spec v h s i t c : ec_wf s -> ec_file s i = Some (t, c) -> 0 <= t ->
  block_count (Z.of_nat (length c)) <= MAXFILE ->
  exists s' lbs, GetBlockLocations junk_attr i (mkN v (mkYfs s h)) = Ret (mkN v (mkYfs s' h), inr lbs) /\
    keeps s s' /\ block_id <$> lbs = (ec_blocks s i).*1 /\
    (forall j lb, lbs !! j = Some lb ->
       lb_offset lb = Z.of_nat j * BLOCK_SIZE /\ 0 < lb_size lb <= BLOCK_SIZE /\
       locs lb = GetDatanodes v) /\
    covers lbs (ec_blocks s i) = c.
Proof using Type.
  intros Hwf Hf Ht Hmax. pose proof (file_extent s i _ Hwf Hf) as Hi.
  destruct (law_block_ids s i t c []) as (s1 & E1 & Hwf1 & Hj1 & Er1); [done..|].
  assert (keeps s s1) as Hk1 by (split; [split; [done|split; [apply Hj1|done]]|apply Hj1]).
  destruct (getattr_keeps s1 h i t c junk_attr Hwf1) as (s2 & a & E2 & _ & Ea & Hk2);
    [by eapply keeps_file|done|].
  destruct (law_blocks s i t c Hwf Hf) as (Hlen & Hc & HF).
  pose proof (block_count_bounds (Z.of_nat (length c))) as Hb.
  pose proof BLOCK_SIZE_val. pose proof MAXFILE_val.
  destruct (located_blocks_spec (ec_blocks s i) (Z.of_nat (length (ec_blocks s i))) 0
    (Z.of_nat (length c)) (GetDatanodes v)) as (Hids & Hall & Hcov); [lia|lia|nia| |done|].
  { intros Hne. rewrite Hlen. destruct (ec_blocks s i); [done|]. cbn [length] in Hlen. lia. }
  eexists s2, _. split; [|split; [by eapply keeps_trans|split; [exact Hids|split; [exact Hall|]]]].
  - unfold GetBlockLocations.
    assert (ec (ec_get_block_ids i []) (mkYfs s h) =
      Ret (mkYfs s1 h, (extent_protocol.OK, (ec_blocks s i).*1))) as E.
    { unfold ec. cbn [ys held]. by rewrite E1. }
    rewrite (NM_bind_Ret _ _ _ _ _ (lift_Ret _ _ _ _ _ E)).
    rewrite (NM_bind_Ret _ _ _ _ _ (lift_Ret _ _ _ _ _ E2)).
    unfold mbind, NM_bind, get_nn, nret, mret, NM_ret. cbn [nn]. rewrite Ea, length_fmap. done.
  - rewrite Hcov. by rewrite Z.sub_0_r, Nat2Z.id.
Qed.
End facts.
