(* ===== verification/HdfsFacts.v ===== *)
(** * Writing a file through the name node and the data nodes

    The protocol of an HDFS client: create a file, ask the name node for one
    block after the other, send each block to a data node, and complete the
    file. *)

From S2P Require Import Prelude Disk Protocol Inode InodeFacts FileRead FileWrite FileAppend.
From S2P Require Import DirFormat DirFacts Extent BlockFacts Yfs YfsFacts.
From S2P Require Import Datanode DatanodeFacts Namenode NamenodeFacts.

(** The blocks of a file as a client sends them: all but the last are full. *)
Fixpoint chunks_ok (cs : list (list byte)) : Prop :=
  match cs with
  | [] => True
  | [c] => (0 < length c <= BS)%nat
  | c :: cs => length c = BS /\ chunks_ok cs
  end.

Lemma chunks_ok_cons c cs : chunks_ok (c :: cs) ->
  (0 < length c <= BS)%nat /\ (cs <> [] -> length c = BS) /\ chunks_ok cs.
Proof.
  destruct cs as [|c' cs]; [done|]. cbn [chunks_ok]. pose proof BS_BLOCK_SIZE. pose proof BLOCK_SIZE_val.
  intros [Hc Hcs]. split; [lia|]. split; [intros _; exact Hc|exact Hcs].
Qed.

Lemma chunks_last cs : chunks_ok cs -> (length (List.last cs []) <= BS)%nat.
Proof.
  induction cs as [|c cs IH]; [cbn; lia|]. intros (Hc & _ & Hcs)%chunks_ok_cons.
  destruct cs as [|c' cs]; [apply Hc|]. by apply IH.
Qed.

Section hdfs.
Context {S : Type} `{EC : !ExtentClient S, EL : !ExtentLaws S, BL : !BlockLaws S}.
Context (junk : Z) (junk_attr : extent_protocol.attr).

(* ------------------------------------------------------------------ *)
(** ** One block *)

(** The name node after it has handed out block [bid] of file [i]. *)
Definition block_added (v v' : namenode) (i bid : Z) : Prop :=
  pendingWrite v' = alter (fun n => u32 (n + BLOCK_SIZE)) i (pendingWrite v) /\
  HDFS_block v' = {[bid]} ∪ HDFS_block v /\ datanode v' = datanode v /\
  master_datanode v' = master_datanode v /\ heartbeat_count v' = heartbeat_count v.

Definition add_block (bid : Z) (v : namenode) : namenode :=
  mkNameNode (master_datanode v) (pendingWrite v) ({[bid]} ∪ HDFS_block v) (datanode v)
    (heartbeat_count v).

(** The size that the name node gives for a new block. *)
Definition last_size (n : Z) : Z := if n mod BLOCK_SIZE =? 0 then BLOCK_SIZE else n mod BLOCK_SIZE.

(** A block that the name node in state [v] describes to a client. *)
Record lb_ok (v : namenode) (lb : LocatedBlock) : Prop := {
  lb_id : 0 <= block_id lb < BLOCK_NUM;
  lb_off : 0 <= lb_offset lb < 2 ^ 64;
  lb_len : 0 < lb_size lb <= BLOCK_SIZE;
  lb_locs : locs lb = GetDatanodes v
}.

Lemma AppendBlock_run v y y1 y2 i st1 st2 a bid :
  ec (ec_getattr i junk_attr) y = Ret (y1, (st1, a)) ->
  ec (ec_append_block i 0) y1 = Ret (y2, (st2, bid)) ->
  AppendBlock junk_attr i (mkN v y) =
    Ret (mkN (add_block bid v) y2, inr (mkLocatedBlock bid (extent_protocol.a_size a)
      (last_size (extent_protocol.a_size a)) (GetDatanodes v))).
Proof using Type.
  intros E1 E2. unfold AppendBlock.
  rewrite (NM_bind_Ret _ _ _ _ _ (lift_Ret _ _ _ _ _ E1)).
  rewrite (NM_bind_Ret _ _ _ _ _ (lift_Ret _ _ _ _ _ E2)). reflexivity.
Qed.

Lemma PBAddBlock_spec v h s src i p t c n : ec_wf s -> resolves s src (Some (i, p)) ->
  pendingWrite v !! i = Some n -> ec_file s i = Some (t, c) -> 0 <= t ->
  block_count (Z.of_nat (length c)) < MAXFILE ->
  (if block_count (Z.of_nat (length c)) =? NDIRECT then 2 else 1) <= ec_room s ->
  exists v' s' lb d pad, PBAddBlock junk junk_attr src (mkN v (mkYfs s h)) =
      Ret (mkN v' (mkYfs s' h), inr (Some lb)) /\
    lb_ok v lb /\ block_added v v' i (block_id lb) /\ ec_wf s' /\ ec_file s' i = Some (t, c ++ pad) /\
    Z.of_nat (length pad) = BLOCK_SIZE /\ ec_blocks s' i = ec_blocks s i ++ [(block_id lb, d)] /\
    (forall j, j <> i -> ec_file s' j = ec_file s j /\ ec_blocks s' j = ec_blocks s j) /\
    ec_room s' + (if block_count (Z.of_nat (length c)) =? NDIRECT then 2 else 1) = ec_room s.
Proof using Type.
  intros Hwf Hr Hn Hf Ht Hmax Hroom.
  destruct (RecursiveLookup_spec junk v h s src _ Hwf Hr) as (s1 & E1 & Hk1).
  destruct (getattr_keeps s1 h i t c junk_attr) as (s2 & a & E2 & _ & Ea & Hk2);
    [by eapply keeps_wf|by eapply keeps_file|done|].
  pose proof (keeps_trans _ _ _ Hk1 Hk2) as Hk. pose proof Hk as [(Hwf2 & Hj2 & Er2) Hb2].
  pose proof (file_extent s i _ Hwf Hf) as Hi.
  destruct (law_append s2 i t c 0) as (s3 & bid & d & pad & E3 & Hwf3 & Hf3 & Hp3 & Hb3 & Ho3 & Er3);
    [done|done|by rewrite Hj2|done|by rewrite Er2|]. rewrite Hb2 in Hb3. rewrite Er2 in Er3.
  assert (ec (ec_append_block i 0) (mkYfs s2 h) = Ret (mkYfs s3 h, (extent_protocol.OK, bid))) as E4.
  { unfold ec. cbn [ys held]. by rewrite E3. }
  pose proof (AppendBlock_run v _ _ _ i _ _ a bid E2 E4) as E5. rewrite Ea in E5.
  set (lb := mkLocatedBlock _ _ _ _) in E5.
  exists (set_pending (alter (fun n => u32 (n + BLOCK_SIZE)) i) (add_block bid v)), s3, lb, d, pad.
  split; [|split].
  - unfold PBAddBlock. rewrite (NM_bind_Ret _ _ _ _ _ E1).
    rewrite (NM_bind_Ret get_nn _ _ _ _ eq_refl). cbn [nn]. rewrite Hn.
    rewrite (NM_bind_Ret _ _ _ _ _ E5). reflexivity.
  - split; [| | |done].
    + apply (law_block_range s3 i (length (ec_blocks s i)) bid d Hwf3). rewrite Hb3. by apply list_lookup_middle.
    + cbn. pose proof (block_count_bounds (Z.of_nat (length c)) ltac:(lia)). pose proof MAXFILE_val.
      pose proof BLOCK_SIZE_val. nia.
    + cbn. unfold last_size. pose proof BLOCK_SIZE_val.
      pose proof (Z.mod_pos_bound (Z.of_nat (length c)) BLOCK_SIZE ltac:(lia)).
      destruct (Z.eqb_spec (Z.of_nat (length c) mod BLOCK_SIZE) 0); lia.
  - split; [done|]. split; [done|]. split; [done|]. split; [done|]. split; [done|]. split; [|done].
    intros j Hj. destruct (Ho3 j Hj) as [-> ->]. by rewrite Hj2, Hb2.
Qed.

(** A file that fills its blocks is their bytes. *)
Lemma full_blocks s i t c n : ec_wf s -> ec_file s i = Some (t, c) -> 0 <= n ->
  Z.of_nat (length c) = n * BLOCK_SIZE ->
  block_count (Z.of_nat (length c)) = n /\ blocks_data (ec_blocks s i) = c /\
  Z.of_nat (length (ec_blocks s i)) = n.
Proof using Type.
  intros Hwf Hf Hn Hlen. destruct (law_blocks s i t c Hwf Hf) as (HL & Hc & HF).
  pose proof BS_BLOCK_SIZE. pose proof BLOCK_SIZE_val.
  pose proof (block_count_bounds (Z.of_nat (length c)) ltac:(lia)) as Hb.
  assert (block_count (Z.of_nat (length c)) = n) as En by nia.
  split; [done|]. split; [|lia]. rewrite take_ge in Hc; [done|].
  rewrite (length_blocks_data _ HF). nia.
Qed.

(** The same data nodes are alive. *)
Definition same_nodes (v v' : namenode) : Prop :=
  datanode v' = datanode v /\ heartbeat_count v' = heartbeat_count v.

(** One more block: the client gets it from the name node and fills it. *)
Lemma put_chunk_spec v h s src i p t c n chunk : ec_wf s -> resolves s src (Some (i, p)) ->
  pendingWrite v !! i = Some (n * BLOCK_SIZE) -> ec_file s i = Some (t, c) -> 0 <= t -> 0 <= n ->
  Z.of_nat (length c) = n * BLOCK_SIZE -> (length chunk <= BS)%nat -> n < MAXFILE ->
  (if n =? NDIRECT then 2 else 1) <= ec_room s ->
  exists v1 s1 lb s2 rest, PBAddBlock junk junk_attr src (mkN v (mkYfs s h)) =
      Ret (mkN v1 (mkYfs s1 h), inr (Some lb)) /\ lb_ok v lb /\ same_nodes v v1 /\
    write_packets (block_id lb) 0 (fun _ => None) (block_packets 0 chunk) [] (mkYfs s1 h) =
      Ret (mkYfs s2 h, ([mkAck 0 [SUCCESS]; mkAck 1 [SUCCESS]], true)) /\
    pendingWrite v1 = <[i := (n + 1) * BLOCK_SIZE]> (pendingWrite v) /\
    ec_wf s2 /\ ec_file s2 i = Some (t, c ++ chunk ++ rest) /\
    (length chunk + length rest = BS)%nat /\
    (forall j, j <> i -> ec_file s2 j = ec_file s j) /\
    ec_room s2 + (if n =? NDIRECT then 2 else 1) = ec_room s.
Proof using BL.
  intros Hwf Hr Hpend Hf Ht Hn Hlen Hchunk Hmax Hroom.
  destruct (full_blocks s i t c n Hwf Hf Hn Hlen) as (En & Hdata & HL).
  pose proof BS_BLOCK_SIZE as HBS. pose proof BLOCK_SIZE_val as HB. pose proof MAXFILE_val.
  destruct (PBAddBlock_spec v h s src i p t c (n * BLOCK_SIZE))
    as (v1 & s1 & lb & d & pad & E1 & Hlb & (Hp1 & _ & Hdn & _ & Hhc) & Hwf1 & Hf1 & Hpad & Hb1 & Ho1 & Er1);
    [done|done|done|done|done|by rewrite En|by rewrite En|].
  rewrite En in Er1. set (k := length (ec_blocks s i)).
  assert (ec_blocks s1 i !! k = Some (block_id lb, d)) as Hk1.
  { rewrite Hb1. by apply list_lookup_middle. }
  destruct (write_file_packets s1 h i t _ k (block_id lb) d 0 chunk (fun _ => None) Hwf1 Hf1 Hk1)
    as (s2 & E2 & Hwf2 & _ & Hf2 & Ho2 & Er2); [lia|lia|].
  destruct (law_blocks s1 i _ _ Hwf1 Hf1) as (_ & _ & HF1).
  pose proof (proj1 (Forall_lookup _ _) HF1 k _ Hk1) as Hd. cbn in Hd.
  exists v1, s1, lb, s2, (drop (length chunk) d). do 3 (split; [assumption || done|]). split; [exact E2|].
  split; [|split; [assumption|split; [|split; [|split]]]].
  - rewrite Hp1. apply map_eq. intros j. destruct (decide (j = i)) as [->|Hj].
    + rewrite lookup_alter_eq, lookup_insert_eq, Hpend. cbn. f_equal.
      rewrite u32_id by (rewrite HB; lia). lia.
    + by rewrite lookup_alter_ne, lookup_insert_ne.
  - rewrite (Hf2 _ _ Hf1). do 2 f_equal. rewrite Hb1. subst k.
    rewrite insert_app_r_alt, Nat.sub_diag by lia. cbn [list_insert insert].
    unfold blocks_data. rewrite fmap_app, concat_app. fold (blocks_data (ec_blocks s i)). rewrite Hdata.
    cbn. rewrite app_nil_r. unfold overlay.
    change (take (Z.to_nat 0) d) with (@nil byte). cbn [Nat.add app].
    rewrite take_ge; [done|]. rewrite !length_app, length_drop.
    change (Z.to_nat 0) with 0%nat. lia.
  - rewrite length_drop. lia.
  - intros j Hj. destruct (Ho2 j Hj) as [-> _]. by apply Ho1.
  - by rewrite Er2.
Qed.

(** Directories that only gain entries resolve the same paths. *)
Lemma resolve_mono s s' st comps r : resolve s st comps (Some r) ->
  (forall j es, is_dir s j es -> exists es', is_dir s' j es' /\
     forall name k, assoc name es = Some k -> assoc name es' = Some k) ->
  resolve s' st comps (Some r).
Proof using Type.
  intros Hr Hd. remember (Some r) as r0 eqn:Er. induction Hr; try done.
  - injection Er as ->. constructor.
  - constructor. auto.
  - destruct (Hd _ _ H0) as (es' & Hd' & Ha'). eapply resolve_step; eauto.
Qed.

Lemma resolves_write s s' src i p c c' : ec_file s i = Some (extent_protocol.T_FILE, c) ->
  ec_file s' i = Some (extent_protocol.T_FILE, c') ->
  (forall j, j <> i -> ec_file s' j = ec_file s j) ->
  resolves s src (Some (i, p)) -> resolves s' src (Some (i, p)).
Proof using Type.
  intros Hf Hf' Ho [Hc Hr]. split; [done|]. eapply resolve_mono; [done|]. intros j es Hd.
  exists es. split; [|done]. pose proof Hd as [Hj Hes]. split; [|done].
  rewrite Ho; [done|]. intros ->. rewrite Hf in Hj. discriminate.
Qed.

(** The runs of the servers, block by block. *)
Inductive put_run (src : list byte) : list (list byte) -> nstate S -> nstate S -> Prop :=
| put_run_nil n : put_run src [] n n
| put_run_cons chunk cs v v1 y y1 y2 lb n' :
    PBAddBlock junk junk_attr src (mkN v y) = Ret (mkN v1 y1, inr (Some lb)) -> lb_ok v lb -> same_nodes v v1 ->
    (length chunk <= BS)%nat ->
    write_packets (block_id lb) 0 (fun _ => None) (block_packets 0 chunk) [] y1 =
      Ret (y2, ([mkAck 0 [SUCCESS]; mkAck 1 [SUCCESS]], true)) ->
    put_run src cs (mkN v1 y2) n' -> put_run src (chunk :: cs) (mkN v y) n'.

Lemma same_nodes_trans v v1 v2 : same_nodes v v1 -> same_nodes v1 v2 -> same_nodes v v2.
Proof using Type. intros [] []. split; congruence. Qed.

(** All blocks of a file. *)
Lemma put_chunks_spec h src i p cs v s c n : ec_wf s -> resolves s src (Some (i, p)) ->
  pendingWrite v !! i = Some (n * BLOCK_SIZE) ->
  ec_file s i = Some (extent_protocol.T_FILE, c) -> 0 <= n ->
  Z.of_nat (length c) = n * BLOCK_SIZE -> chunks_ok cs -> n + Z.of_nat (length cs) <= MAXFILE ->
  Z.of_nat (length cs) + (if n <=? NDIRECT then 1 else 0) <= ec_room s ->
  exists v' s' rest, put_run src cs (mkN v (mkYfs s h)) (mkN v' (mkYfs s' h)) /\ same_nodes v v' /\
    pendingWrite v' = <[i := (n + Z.of_nat (length cs)) * BLOCK_SIZE]> (pendingWrite v) /\
    ec_wf s' /\ resolves s' src (Some (i, p)) /\
    ec_file s' i = Some (extent_protocol.T_FILE, c ++ concat cs ++ rest) /\
    Z.of_nat (length (c ++ concat cs ++ rest)) = (n + Z.of_nat (length cs)) * BLOCK_SIZE /\
    (cs <> [] -> (length (List.last cs []) + length rest = BS)%nat) /\
    (forall j, j <> i -> ec_file s' j = ec_file s j).
Proof using BL.
  revert v s c n. induction cs as [|chunk cs IH]; intros v s c n Hwf Hr Hpend Hf Hn Hlen Hcs Hmax Hroom.
  { exists v, s, []. cbn. rewrite app_nil_r, Z.add_0_r. rewrite insert_id by done. split; [constructor|done]. }
  apply chunks_ok_cons in Hcs as (Hchunk & Hfull & Hcs). cbn [length] in *.
  pose proof BS_BLOCK_SIZE as HBS. pose proof NDIRECT_val.
  destruct (put_chunk_spec v h s src i p extent_protocol.T_FILE c n chunk)
    as (v1 & s1 & lb & s2 & rest & E1 & Hlb & Hsn & E2 & Hp1 & Hwf2 & Hf2 & Hrest & Ho2 & Er2); try assumption; try lia; [discriminate| |].
  { destruct (Z.leb_spec n NDIRECT), (Z.eqb_spec n NDIRECT); lia. }
  assert (resolves s2 src (Some (i, p))) as Hr2
    by exact (resolves_write _ _ _ _ _ _ _ Hf Hf2 Ho2 Hr).
  destruct cs as [|chunk' cs].
  { exists v1, s2, rest. cbn [concat length]. split.
    - eapply put_run_cons; try eassumption; [lia|]. constructor.
    - rewrite app_nil_r. split; [done|]. split; [exact Hp1|]. do 3 (split; [assumption|]).
      split; [rewrite !length_app; lia|]. split; [intros _; exact Hrest|exact Ho2]. }
  specialize (Hfull ltac:(done)). destruct rest; [|cbn in Hrest; lia]. rewrite app_nil_r in Hf2.
  destruct (IH v1 s2 (c ++ chunk) (n + 1)) as (v' & s' & rest & E3 & Hsn3 & Hp3 & Hwf3 & Hr3 & Hf3 & Hlen3 & Hl3 & Ho3);
    try assumption; [|lia|rewrite length_app; lia|lia| |].
  { by rewrite Hp1, lookup_insert_eq. }
  { destruct (Z.leb_spec n NDIRECT), (Z.leb_spec (n + 1) NDIRECT), (Z.eqb_spec n NDIRECT); lia. }
  exists v', s', rest. split; [eapply put_run_cons; try eassumption; lia|]. split; [by eapply same_nodes_trans|].
  split; [|split; [done|split; [done|split; [|split; [|split]]]]].
  - rewrite Hp3, Hp1, insert_insert_eq. f_equal. cbn [length]. lia.
  - rewrite Hf3. cbn [concat]. by rewrite <-!app_assoc.
  - rewrite <-app_assoc in Hlen3. cbn [concat] in *. rewrite <-app_assoc, Hlen3. cbn [length]. lia.
  - intros _. rewrite last_cons_ne by done. by apply Hl3.
  - intros j Hj. by rewrite Ho3, Ho2.
Qed.

(* ------------------------------------------------------------------ *)
(** ** Create and complete *)

Lemma dir_encode_inj es es' : Forall entry_ok es -> Forall entry_ok es' ->
  dir_encode es = dir_encode es' -> es = es'.
Proof using Type.
  intros H1 H2 E. pose proof (dir_readdir_spec 0 es [] H1) as E1.
  rewrite E, (dir_readdir_spec 0 es' [] H2) in E1. by symmetry.
Qed.

Lemma resolve_app s st comps1 st1 comps2 r : resolve s st comps1 (Some st1) ->
  resolve s st1 comps2 r -> resolve s st (comps1 ++ comps2) r.
Proof using Type.
  intros Hr H2. remember (Some st1) as r0 eqn:Er. induction Hr; try done; cbn.
  - by injection Er as ->.
  - constructor. auto.
  - eapply resolve_step; eauto.
Qed.

(** The components before the last one, in [PBCreate] and [PBMkdirs]. *)
Lemma each_create v h s st comps r cp : resolve s st comps (Some r) -> forall s1, keeps s s1 ->
  exists s', each comps (fst st) (create_step junk cp) (mkN v (mkYfs s1 h)) =
    Ret (mkN v (mkYfs s' h), inr (Some (fst r))) /\ keeps s1 s'.
Proof using BL.
  intros Hr. remember (Some r) as r0 eqn:Er.
  induction Hr as [st|st comps r' Hr IH|ino last c comps es i r' Hc Hd Ha Hr IH| |]; try done;
    intros s1 Hk1; pose proof (keeps_wf _ _ Hk1) as Hwf; cbn [each].
  - injection Er as ->. exists s1. split; [done|]. by apply keeps_refl.
  - by apply IH.
  - rewrite decide_False by done. cbn [fst].
    destruct (lookup_keeps junk s1 h ino es (cstr c) false ino Hwf) as (s2 & E2 & Hk2);
      [by eapply keeps_dir|].
    rewrite cstr_cstr in E2. unfold lookup_result in E2. rewrite Ha in E2.
    assert (create_step junk cp c ino (mkN v (mkYfs s1 h)) = Ret (mkN v (mkYfs s2 h), inr (Some i))) as E3.
    { unfold create_step, lookup. by rewrite (NM_bind_Ret _ _ _ _ _ (lift_Ret _ _ _ _ _ E2)). }
    rewrite (NM_bind_Ret _ _ _ _ _ E3). destruct (IH Er s2) as (s3 & E4 & Hk4); [by eapply keeps_trans|].
    exists s3. split; [done|]. by eapply keeps_trans.
Qed.

(** The status of a regular file of [n] bytes. *)
Definition file_stat (n : Z) (st : FileStatus) : Prop :=
  exists mtime atime, st = mkFileStatus false n 0x1b6 (u64 mtime) (u64 atime).

Lemma file_info_spec v h s i c : ec_wf s -> ec_file s i = Some (extent_protocol.T_FILE, c) ->
  exists s' st, PBGetFileInfoFromInum i (mkN v (mkYfs s h)) = Ret (mkN v (mkYfs s' h), inr (Some st)) /\
    file_stat (Z.of_nat (length c)) st /\ keeps s s'.
Proof using BL.
  intros Hwf Hf. destruct (is_keeps s h i _ c extent_protocol.T_FILE Hwf Hf) as (s1 & E1 & Hk1); [done|].
  destruct (getattr_keeps s1 h i _ c extent_protocol.attr_zero (keeps_wf _ _ Hk1)
    (keeps_file _ _ _ _ Hk1 Hf)) as (s2 & a & E2 & _ & Ea & Hk2); [done|].
  exists s2. eexists. split; [|split; [|by eapply keeps_trans]].
  - unfold PBGetFileInfoFromInum, Isfile, nlock_isfile.
    rewrite (NM_bind_Ret _ _ _ _ _ (lift_Ret _ _ _ _ _ E1)). cbn.
    unfold Getfile, get_attr. rewrite nm_assoc.
    rewrite (NM_bind_Ret _ _ _ _ _ (lift_Ret _ _ _ _ _ E2)). reflexivity.
  - eexists _, _. f_equal. exact Ea.
Qed.

(** The path's directory and the name of its last component. *)
Definition dirname (path : list byte) : list (list byte) := removelast (segments (drop 1 path)).
Definition basename (path : list byte) : list byte := List.last (segments (drop 1 path)) [].

Lemma path_prefix {A} path (a : A) (body : list byte -> A -> NM S (option A)) :
  char_at path 0 = slash ->
  nm_eq (path_loop (length path) path 1 1 a body)
    (r ← each (dirname path) a body;
     nret ((fun a => (a, length path - length (basename path))%nat) <$> r)) /\
  drop (length path - length (basename path)) path = basename path /\
  (length (basename path) < length path)%nat.
Proof using Type.
  intros Hc. destruct path as [|x path]; [done|].
  split; [by apply path_loop_spec; cbn; lia|]. split; [apply drop_last_segment; cbn; lia|].
  pose proof (length_last_segment (drop 1 (x :: path))) as H. rewrite length_drop in H.
  unfold basename. cbn [length] in *. lia.
Qed.

(** A new entry extends the directories a path goes through. *)
Lemma created_mono s s' p es name i t c : is_dir s p es -> ec_file s i = None ->
  created s s' p es name i t c ->
  forall j ds, is_dir s j ds -> exists ds', is_dir s' j ds' /\
    forall n k, assoc n ds = Some k -> assoc n ds' = Some k.
Proof using Type.
  intros Hd Hi (_ & Hd' & _ & Ho & _) j ds Hj. destruct (decide (j = p)) as [->|Hjp].
  - assert (ds = es) as ->.
    { destruct Hd as [Hd Hes], Hj as [Hj Hds]. rewrite Hd in Hj. injection Hj as E.
      symmetry. by apply dir_encode_inj. }
    eexists. split; [exact Hd'|]. intros n k. apply assoc_snoc.
  - exists ds. split; [|done]. destruct Hj as [Hj Hds]. split; [|done].
    rewrite Ho; [done|done|congruence].
Qed.

Lemma created_resolves s s' src p q es i t c : char_at src 0 = slash ->
  resolve s (1, 1) (dirname src) (Some (p, q)) -> is_dir s p es -> ec_file s i = None ->
  basename src <> [] -> name_ok (basename src) -> assoc (basename src) es = None ->
  created s s' p es (basename src) i t c -> resolves s' src (Some (i, p)).
Proof using Type.
  intros Hc Hr Hd Hi Hne Hname Ha Hcr. split; [done|]. rewrite (segments_split (drop 1 src)).
  fold (dirname src) (basename src). eapply resolve_app.
  - eapply resolve_mono; [exact Hr|]. by eapply created_mono.
  - eapply resolve_step; [done| | |constructor].
    + apply Hcr.
    + rewrite cstr_id by apply Hname. by apply assoc_snoc_new.
Qed.

Lemma first_free_keeps s s' i : keeps s s' -> first_free s i -> first_free s' i.
Proof using Type. intros [Hs _]. by apply first_free_same. Qed.

Lemma created_keeps s0 s s' s1 p es name i t c : keeps s0 s -> created s s' p es name i t c -> keeps s' s1 ->
  created s0 s1 p es name i t c.
Proof using Type.
  intros [(_ & Hj0 & Er0) _] (_ & Hd & Hf & Ho & Er) Hk. pose proof Hk as [(Hwf & Hj & Er1) _].
  split; [done|]. split; [by eapply keeps_dir|]. split; [by rewrite Hj|].
  split; [|by rewrite Er1, Er, Er0]. intros j Hp Hi. by rewrite Hj, Ho, Hj0.
Qed.

Lemma PBCreate_spec v h s src cp p q es i : ec_wf s -> char_at src 0 = slash ->
  resolve s (1, 1) (dirname src) (Some (p, q)) -> is_dir s p es -> p ∉ h -> i ∉ h ->
  basename src <> [] -> name_ok (basename src) -> assoc (basename src) es = None -> first_free s i ->
  entry_fits s es (basename src) i -> pendingWrite v !! i = None ->
  exists s' st, PBCreate junk src cp (mkN v (mkYfs s h)) =
      Ret (mkN (set_pending (<[i := 0]>) v) (mkYfs s' ({[i]} ∪ h)), inr (Some st)) /\
    file_stat 0 st /\ created s s' p es (basename src) i extent_protocol.T_FILE [].
Proof using BL.
  intros Hwf Hc Hr Hd Hp Hi Hne Hname Ha Hfree Hfit Hpend.
  destruct (path_prefix src 1 (create_step junk cp) Hc) as (Eloop & Edrop & Hlen).
  destruct (each_create v h s (1, 1) (dirname src) (p, q) cp Hr s) as (s1 & E1 & Hk1);
    [by apply keeps_refl|]. cbn [fst] in E1.
  destruct (create_spec junk (mkYfs s1 h) p es (basename src) i p) as (s2 & E2 & Hcr);
    try done; [by eapply keeps_wf|by eapply keeps_dir|by eapply first_free_keeps| |].
  { unfold entry_fits in *. destruct Hk1 as [(_ & _ & Er) _]. cbn. by rewrite Er. }
  cbn [ys held] in E2, Hcr. pose proof Hcr as (Hwf2 & _ & Hf2 & _).
  destruct (file_info_spec (set_pending (<[i := 0]>) v) ({[i]} ∪ h) s2 i [] Hwf2 Hf2)
    as (s3 & st & E3 & Hst & Hk3).
  exists s3, st. split; [|split; [done|by eapply created_keeps]].
  unfold PBCreate. rewrite bool_decide_true by done. cbn [negb].
  rewrite (nm_bind_proper _ _ _ _ _ (fun _ => reflexivity _) _ _ Eloop), nm_assoc, (NM_bind_Ret _ _ _ _ _ E1).
  rewrite nm_ret_l. cbn [fmap option_fmap option_map].
  rewrite decide_True; [|destruct (basename src); [done|cbn [length] in *; lia]].
  rewrite Edrop. rewrite cstr_id by apply Hname.
  assert (Create junk p (basename src) p (mkN v (mkYfs s1 h)) =
    Ret (mkN v (mkYfs s2 ({[i]} ∪ h)), inr (true, i))) as E4.
  { unfold Create. rewrite cstr_id by apply Hname.
    rewrite (NM_bind_Ret _ _ _ _ _ (lift_Ret _ _ _ _ _ E2)). cbn.
    rewrite (NM_bind_Ret _ _ _ _ _ (lift_Ret _ _ _ _ _ (acquire_Ret i (mkYfs s2 h) Hi))). done. }
  rewrite (NM_bind_Ret _ _ _ _ _ E4). cbn [negb].
  rewrite (NM_bind_Ret (set_nn _) _ _ _ _ eq_refl). unfold set_pending at 1. cbn.
  rewrite decide_True by done. exact E3.
Qed.

(** The last block ends at the number of bytes the client reports. *)
Lemma PBComplete_spec v h s src i p t c n m : ec_wf s -> resolves s src (Some (i, p)) -> i ∈ h ->
  pendingWrite v !! i = Some (n * BLOCK_SIZE) -> ec_file s i = Some (t, c) ->
  1 <= n <= MAXFILE -> 0 <= m <= BLOCK_SIZE -> Z.of_nat (length c) = n * BLOCK_SIZE ->
  exists s', PBComplete junk src (Some m) (mkN v (mkYfs s h)) =
      Ret (mkN (set_pending (delete i) v) (mkYfs s' (h ∖ {[i]})), inr true) /\
    ec_wf s' /\ ec_file s' i = Some (t, take (Z.to_nat ((n - 1) * BLOCK_SIZE + m)) c) /\
    (forall j, j <> i -> ec_file s' j = ec_file s j).
Proof using BL.
  intros Hwf Hr Hi Hpend Hf Hn Hm Hlen. pose proof BLOCK_SIZE_val as HB. pose proof MAXFILE_val.
  destruct (RecursiveLookup_spec junk v h s src _ Hwf Hr) as (s1 & E1 & Hk1).
  pose proof Hk1 as [(Hwf1 & Hj1 & _) _].
  assert (u32 (u32 (n * BLOCK_SIZE - BLOCK_SIZE) + m) = (n - 1) * BLOCK_SIZE + m) as Esize.
  { rewrite HB in *. rewrite (u32_id (n * _ - _)) by lia. rewrite u32_id by lia. lia. }
  destruct (law_complete s1 i t c ((n - 1) * BLOCK_SIZE + m)) as (s2 & E2 & Hwf2 & Hf2 & _ & Ho2 & _);
    [done|exact (file_extent s i _ Hwf Hf)|by rewrite Hj1|rewrite HB in *; lia|].
  assert (ec (ec_complete i ((n - 1) * BLOCK_SIZE + m)) (mkYfs s1 h) =
    Ret (mkYfs s2 h, extent_protocol.OK)) as E3.
  { unfold ec. cbn [ys held]. by rewrite E2. }
  exists s2. split; [|split; [done|split; [done|]]].
  - unfold PBComplete. rewrite (NM_bind_Ret _ _ _ _ _ E1).
    rewrite (NM_bind_Ret get_nn _ _ _ _ eq_refl). cbn [nn]. rewrite Hpend, Esize.
    rewrite (NM_bind_Ret (set_nn _) _ _ _ _ eq_refl). cbn [nn fs]. unfold Complete.
    rewrite !nm_assoc, (NM_bind_Ret _ _ _ _ _ (lift_Ret _ _ _ _ _ E3)). cbn [negb Z.eqb].
    change (extent_protocol.OK =? extent_protocol.OK) with true. cbn [negb].
    rewrite nm_assoc.
    rewrite (NM_bind_Ret _ _ _ _ _ (lift_Ret _ _ _ _ _ (release_Ret i (mkYfs s2 h) Hi))). done.
  - intros j Hj. destruct (Ho2 j Hj) as [-> _]. apply Hj1.
Qed.

(** The runs of the whole protocol. *)
Definition file_run (src : list byte) (cs : list (list byte)) (v : namenode) (y : yfs S) (n' : nstate S) : Prop :=
  exists v1 y1 st v2 y2,
    PBCreate junk src false (mkN v y) = Ret (mkN v1 y1, inr (Some st)) /\ file_stat 0 st /\ same_nodes v v1 /\
    put_run src cs (mkN v1 y1) (mkN v2 y2) /\ same_nodes v1 v2 /\
    PBComplete junk src (Some (Z.of_nat (length (List.last cs [])))) (mkN v2 y2) = Ret (n', inr true) /\
    same_nodes v2 (nn n').

Lemma file_run_nodes src cs v y n' : file_run src cs v y n' -> same_nodes v (nn n').
Proof using Type.
  intros (v1 & y1 & st & v2 & y2 & _ & _ & H1 & _ & H2 & _ & H3).
  eapply same_nodes_trans; [exact H1|]. by eapply same_nodes_trans.
Qed.

Lemma hdfs_put_spec v h s src p q es i cs : ec_wf s -> char_at src 0 = slash ->
  resolve s (1, 1) (dirname src) (Some (p, q)) -> is_dir s p es -> p ∉ h -> i ∉ h ->
  basename src <> [] -> name_ok (basename src) -> assoc (basename src) es = None ->
  first_free s i -> entry_fits s es (basename src) i -> pendingWrite v !! i = None ->
  cs <> [] -> chunks_ok cs -> Z.of_nat (length cs) <= MAXFILE ->
  Z.of_nat (length cs) + 1 + block_count (Z.of_nat (length (dir_encode (es ++ [(basename src, i)])))) <=
    ec_room s + blocks_for (Z.of_nat (length (dir_encode es))) ->
  exists v' s', file_run src cs v (mkYfs s h) (mkN v' (mkYfs s' h)) /\
    pendingWrite v' = pendingWrite v /\ ec_wf s' /\
    is_dir s' p (es ++ [(basename src, i)]) /\
    ec_file s' i = Some (extent_protocol.T_FILE, concat cs) /\
    resolves s' src (Some (i, p)) /\
    (forall j, j <> p -> j <> i -> ec_file s' j = ec_file s j).
Proof using BL.
  intros Hwf Hc Hr Hd Hp Hi Hne Hname Ha Hfree Hfit Hpend Hcs Hok Hmax Hroom.
  pose proof BS_BLOCK_SIZE as HBS. pose proof Hfree as (_ & Hnone & _).
  destruct (PBCreate_spec v h s src false p q es i) as (s1 & st & E1 & Hst & Hcr); try assumption.
  assert (resolves s1 src (Some (i, p))) as Hr1 by (by eapply created_resolves).
  pose proof Hcr as (Hwf1 & Hd1 & Hf1 & Ho1 & Er1). cbn [length] in Er1.
  change (block_count (Z.of_nat 0)) with 0 in Er1.
  destruct (put_chunks_spec ({[i]} ∪ h) src i p cs (set_pending (<[i := 0]>) v) s1 [] 0)
    as (v2 & s2 & rest & E2 & Hsn & Hp2 & Hwf2 & Hr2 & Hf2 & Hlen2 & Hrest & Ho2); try assumption; try lia.
  { cbn. by rewrite lookup_insert_eq. }
  { reflexivity. }
  { change (0 <=? NDIRECT) with true. cbn. lia. }
  cbn [app] in Hf2, Hlen2. specialize (Hrest Hcs). rewrite Z.add_0_l in *.
  set (m := length (List.last cs [])) in *.
  destruct (PBComplete_spec v2 ({[i]} ∪ h) s2 src i p extent_protocol.T_FILE
    (concat cs ++ rest) (Z.of_nat (length cs)) (Z.of_nat m) Hwf2 Hr2)
    as (s3 & E3 & Hwf3 & Hf3 & Ho3); try assumption; [apply held_self| | |lia|].
  { by rewrite Hp2, lookup_insert_eq. }
  { destruct cs; [by destruct Hcs|]. cbn [length] in *. lia. }
  rewrite release_held in E3 by done.
  assert (ec_file s3 i = Some (extent_protocol.T_FILE, concat cs)) as Hf4.
  { rewrite Hf3. do 2 f_equal. apply take_app_length'. rewrite length_app in Hlen2. lia. }
  exists (set_pending (delete i) v2), s3. split; [|split; [|split; [done|split; [|split; [done|split]]]]].
  - eexists _, _, st, v2, _. split; [exact E1|]. split; [done|]. split; [done|]. split; [exact E2|].
    split; [assumption|]. split; [exact E3|split; reflexivity].
  - cbn. rewrite Hp2. cbn. rewrite insert_insert_eq. by apply delete_insert_id.
  - assert (p <> i) as Hpi by (intros ->; destruct Hd as [Hd _]; congruence).
    destruct Hd1 as [Hd1 Hes]. split; [|done]. by rewrite Ho3, Ho2.
  - eapply resolves_write; [exact Hf2|exact Hf4| |exact Hr2]. done.
  - intros j Hjp Hji. by rewrite Ho3, Ho2, Ho1.
Qed.

(* ------------------------------------------------------------------ *)
(** ** Reading a file back *)

Lemma unchanged_keeps s s' : unchanged s s' -> keeps s s'.
Proof using Type.
  intros (Hwf & Hj & Er). split; [|apply Hj]. split; [done|]. split; [apply Hj|done].
Qed.

(** The runs of the servers. *)
Inductive get_run : list LocatedBlock -> nstate S -> nstate S -> list byte -> Prop :=
| get_run_nil n : get_run [] n n []
| get_run_cons lb lbs v y y1 block n' data :
    ReadBlock (u32 (block_id lb)) 0 (lb_size lb) y = Ret (y1, block) -> block <> [] ->
    Z.of_nat (length block) <= BLOCK_SIZE ->
    get_run lbs (mkN v y1) n' data -> get_run (lb :: lbs) (mkN v y) n' (block ++ data).

Lemma read_chunk_spec h s i k id d len : ec_wf s -> ec_blocks s i !! k = Some (id, d) ->
  length d = BS -> 0 < len <= BLOCK_SIZE ->
  exists s' block, ReadBlock (u32 id) 0 len (mkYfs s h) = Ret (mkYfs s' h, block) /\
    block = take (Z.to_nat len) d /\ block <> [] /\ Z.of_nat (length block) <= BLOCK_SIZE /\ keeps s s'.
Proof using Type.
  intros Hwf Hk Hd Hlen. pose proof (law_block_range s i k id d Hwf Hk) as Hid.
  pose proof BLOCK_NUM_val. pose proof BS_BLOCK_SIZE.
  destruct (ReadBlock_spec s h id d 0 len) as (s' & E & Hs & _); [done|by eapply law_raw_block|done|].
  change (Z.to_nat 0) with 0%nat in E. rewrite drop_0 in E.
  exists s'. eexists. split; [rewrite u32_id by lia; exact E|]. split; [done|].
  assert (Z.of_nat (length (take (Z.to_nat len) d)) = len) as El by (rewrite length_take; lia).
  split; [intros E0; rewrite E0 in El; cbn in El; lia|]. split; [lia|by apply unchanged_keeps].
Qed.

Lemma get_chunks_spec v h i l k lbs s : ec_wf s -> drop k (ec_blocks s i) = l ->
  block_id <$> lbs = l.*1 -> Forall (fun lb => 0 < lb_size lb <= BLOCK_SIZE) lbs ->
  Forall (fun x => length x.2 = BS) l ->
  exists s', get_run lbs (mkN v (mkYfs s h)) (mkN v (mkYfs s' h)) (covers lbs l) /\ keeps s s'.
Proof using BL.
  revert k lbs s. induction l as [|[id d] l IH]; intros k lbs s Hwf Hl Hids Hsz Hlen;
    destruct lbs as [|lb lbs]; try done.
  { exists s. split; [constructor|by apply keeps_refl]. }
  injection Hids as Hid Hids. apply Forall_cons in Hsz as [Hsz1 Hsz], Hlen as [Hd Hlen].
  assert (ec_blocks s i !! k = Some (id, d)) as Hk.
  { rewrite <-(Nat.add_0_r k), <-lookup_drop, Hl. done. }
  destruct (read_chunk_spec h s i k id d (lb_size lb)) as (s1 & block & E1 & Eb & Hne & Hb & Hk1); [done|done|done|done|].
  destruct (IH (Datatypes.S k) lbs s1) as (s2 & E2 & Hk2); try done; [by eapply keeps_wf| |].
  { rewrite (proj2 Hk1), <-Nat.add_1_r, <-drop_drop, Hl. done. }
  exists s2. split; [|by eapply keeps_trans]. change (covers (lb :: lbs) ((id, d) :: l)) with
    (take (Z.to_nat (lb_size lb)) d ++ covers lbs l). rewrite <-Eb.
  eapply get_run_cons; [by rewrite Hid|done|done|done].
Qed.

Lemma locked_keeps {A} (m : M S A) i h s s' (a : A) : i ∉ h ->
  m (mkYfs s ({[i]} ∪ h)) = Ret (mkYfs s' ({[i]} ∪ h), a) ->
  (_ ← acquire i; r ← m; _ ← release i; ret r) (mkYfs s h) = Ret (mkYfs s' h, a).
Proof using Type. intros Hi E. by apply (locked_run i m (fun r => r) (mkYfs s h)). Qed.

Lemma PBGetBlockLocations_spec v h s src i p c : ec_wf s -> resolves s src (Some (i, p)) ->
  ec_file s i = Some (extent_protocol.T_FILE, c) -> i ∉ h ->
  block_count (Z.of_nat (length c)) <= MAXFILE ->
  exists s' lbs, PBGetBlockLocations junk junk_attr src (mkN v (mkYfs s h)) =
      Ret (mkN v (mkYfs s' h), inr (Some (mkLocations (Z.of_nat (length c)) lbs))) /\
    keeps s s' /\ block_id <$> lbs = (ec_blocks s i).*1 /\
    (forall j lb, lbs !! j = Some lb ->
       lb_offset lb = Z.of_nat j * BLOCK_SIZE /\ 0 < lb_size lb <= BLOCK_SIZE /\
       locs lb = GetDatanodes v) /\
    covers lbs (ec_blocks s i) = c.
Proof using BL.
  intros Hwf Hr Hf Hi Hmax.
  destruct (RecursiveLookup_spec junk v h s src _ Hwf Hr) as (s1 & E1 & Hk1).
  destruct (is_keeps s1 ({[i]} ∪ h) i extent_protocol.T_FILE c extent_protocol.T_FILE) as (s2 & E2 & Hk2);
    [by eapply keeps_wf|by eapply keeps_file|done|]. change (_ =? _) with true in E2.
  destruct (getattr_keeps s2 ({[i]} ∪ h) i extent_protocol.T_FILE c extent_protocol.attr_zero)
    as (s3 & a & E3 & _ & Ea & Hk3);
    [by eapply keeps_wf|by eapply keeps_file, keeps_file|done|].
  pose proof (keeps_trans _ _ _ Hk1 (keeps_trans _ _ _ Hk2 Hk3)) as Hk.
  destruct (GetBlockLocations_spec junk_attr v h s3 i extent_protocol.T_FILE c) as (s4 & lbs & E4 & Hk4 & Hids & Hall & Hcov);
    [by eapply keeps_wf|by eapply keeps_file|done|done|].
  exists s4, lbs. rewrite (proj2 Hk) in Hids, Hcov.
  split; [|split; [by eapply keeps_trans|done]]. unfold PBGetBlockLocations.
  rewrite (NM_bind_Ret _ _ _ _ _ E1).
  rewrite (NM_bind_Ret _ _ _ _ _ (lift_Ret (isfile i) _ _ _ _ (locked_keeps _ i h _ _ _ Hi E2))).
  cbn [negb]. set (info := mkFileinfo _ _ _ _).
  assert (exists g, getfile i info (mkYfs s2 h) = Ret (mkYfs s3 h, (OK, g)) /\ f_size g = Z.of_nat (length c))
    as (g & E5 & Eg).
  { exists (mkFileinfo (extent_protocol.a_size a) (extent_protocol.a_atime a)
      (extent_protocol.a_mtime a) (extent_protocol.a_ctime a)). split; [|exact Ea]. unfold getfile.
    rewrite (M_bind_Ret _ _ _ _ _ (acquire_Ret i (mkYfs s2 h) Hi)). unfold get_attr. cbn [ys held].
    rewrite (M_bind_Ret _ _ _ _ _ E3). cbv zeta.
    rewrite (M_bind_Ret _ _ _ _ _ (release_Ret i (mkYfs s3 ({[i]} ∪ h)) (held_self i _))).
    cbn [ys held]. by rewrite release_held. }
  rewrite (NM_bind_Ret _ _ _ _ _ (lift_Ret _ _ _ _ _ E5)). cbn.
  rewrite (NM_bind_Ret _ _ _ _ _ E4), Eg. done.
Qed.

(** The runs of the whole protocol. *)
Definition fetch_run (src : list byte) (n1 n' : nstate S) (size : Z) (data : list byte) : Prop :=
  exists y2 lbs,
    PBGetBlockLocations junk junk_attr src n1 = Ret (mkN (nn n1) y2, inr (Some (mkLocations size lbs))) /\
    Forall (lb_ok (nn n1)) lbs /\ Z.of_nat (length lbs) <= MAXFILE /\ get_run lbs (mkN (nn n1) y2) n' data.

Lemma hdfs_get_spec v h s src i p c : ec_wf s -> resolves s src (Some (i, p)) ->
  ec_file s i = Some (extent_protocol.T_FILE, c) -> i ∉ h ->
  block_count (Z.of_nat (length c)) <= MAXFILE ->
  exists s', fetch_run src (mkN v (mkYfs s h)) (mkN v (mkYfs s' h)) (Z.of_nat (length c)) c /\ keeps s s'.
Proof using BL.
  intros Hwf Hr Hf Hi Hmax.
  destruct (PBGetBlockLocations_spec v h s src i p c) as (s1 & lbs & E1 & Hk1 & Hids & Hall & Hcov);
    try done. destruct (law_blocks s i _ c Hwf Hf) as (Hn & _ & HF).
  destruct (get_chunks_spec v h i (ec_blocks s i) 0 lbs s1) as (s2 & E2 & Hk2); try done;
    [by eapply keeps_wf|by rewrite drop_0, (proj2 Hk1)| |].
  { apply Forall_lookup. intros j lb Hj. by apply Hall in Hj as (_ & ? & _). }
  rewrite Hcov in E2. exists s2. split; [|by eapply keeps_trans].
  assert (Z.of_nat (length lbs) <= MAXFILE) as Hl.
  { rewrite <-(length_fmap block_id), Hids, length_fmap. lia. }
  eexists _, lbs. split; [exact E1|]. split; [|split; [done|exact E2]].
  apply Forall_lookup. intros j lb Hj. destruct (Hall j lb Hj) as (Eo & Hsz & Hlocs).
  assert (exists d, ec_blocks s i !! j = Some (block_id lb, d)) as [d Hd].
  { assert ((ec_blocks s i).*1 !! j = Some (block_id lb)) as H by (by rewrite <-Hids, list_lookup_fmap, Hj).
    rewrite list_lookup_fmap in H. destruct (ec_blocks s i !! j) as [[id d]|]; [|done]. injection H as ->. by exists d. }
  split; [by eapply law_block_range| |done|done].
  apply lookup_lt_Some in Hj. rewrite Eo. pose proof MAXFILE_val. pose proof BLOCK_SIZE_val. nia.
Qed.

(** The bytes of [n] chunks need [n] blocks. *)
Lemma chunks_length cs : chunks_ok cs -> cs <> [] ->
  Z.of_nat (length (concat cs)) <= Z.of_nat (length cs) * BLOCK_SIZE.
Proof using Type.
  pose proof BS_BLOCK_SIZE. induction cs as [|c cs IH]; intros Hok Hne; [done|].
  apply chunks_ok_cons in Hok as (Hc & _ & Hok). cbn [concat length]. rewrite length_app.
  destruct cs as [|c' cs]; [cbn; lia|]. specialize (IH Hok ltac:(done)). cbn [length] in *. lia.
Qed.

Lemma chunks_block_count cs : chunks_ok cs -> cs <> [] -> Z.of_nat (length cs) <= MAXFILE ->
  block_count (Z.of_nat (length (concat cs))) <= MAXFILE.
Proof using Type.
  intros Hok Hne Hmax. etrans; [|exact Hmax]. apply block_count_le; [lia|].
  by apply chunks_length.
Qed.
End hdfs.
