(* ===== verification/NamespaceFacts.v ===== *)
(** * Deleting, renaming and making directories through the name node

    [PBDelete], [Rename] and [PBMkdirs]: what they do to the tree of
    directories. *)

From S2P Require Import Prelude Disk Protocol Inode InodeFacts FileRead FileWrite FileRemove.
From S2P Require Import DirFormat DirFacts Extent BlockFacts Yfs YfsFacts.
From S2P Require Import Namenode NamenodeFacts HdfsFacts.

Section namespace.
Context {S : Type} `{EC : !ExtentClient S, EL : !ExtentLaws S, BL : !BlockLaws S}.
Context (junk : Z) (junk_attr : extent_protocol.attr).

(* ------------------------------------------------------------------ *)
(** ** Deleting *)

(** Something that is not a directory and whose blocks [remove] can free. *)
Definition removable (s : S) (i : Z) : Prop :=
  exists t c, ec_file s i = Some (t, c) /\ 0 <= t /\ t <> extent_protocol.T_DIR /\
    Z.of_nat (length c) mod BLOCK_SIZE <> 0.

Lemma Isdir_run v h s i t c : ec_wf s -> ec_file s i = Some (t, c) -> 0 <= t ->
  exists s', Isdir i (mkN v (mkYfs s h)) =
    Ret (mkN v (mkYfs s' h), inr (t =? extent_protocol.T_DIR)) /\ same s s'.
Proof using EL.
  intros Hwf Hf Ht. destruct (run_is s h i t c extent_protocol.T_DIR Hwf Hf Ht) as (s' & E & Hs).
  exists s'. split; [|done]. by apply lift_Ret.
Qed.

Lemma Readdir_run v h s p es : ec_wf s -> is_dir s p es ->
  exists s', Readdir junk p (mkN v (mkYfs s h)) = Ret (mkN v (mkYfs s' h), inr (true, es)) /\ same s s'.
Proof using EL.
  intros Hwf Hd. destruct (run_readdir junk s h p es [] Hwf Hd) as (s' & E & Hs).
  exists s'. split; [|done]. unfold Readdir.
  by rewrite (NM_bind_Ret _ _ _ _ _ (lift_Ret _ _ _ _ _ E)).
Qed.

Lemma Unlink_run v h s p pre post name i t c : ec_wf s -> p <> i ->
  is_dir s p (pre ++ (name, i) :: post) -> assoc name (pre ++ (name, i) :: post) = Some i ->
  str_find name (dir_encode (pre ++ (name, i) :: post)) 0 = Some (entry_pos pre) ->
  block_count (Z.of_nat (length (dir_encode (pre ++ (name, i) :: post)))) <= NDIRECT ->
  ec_file s i = Some (t, c) -> Z.of_nat (length c) mod BLOCK_SIZE <> 0 ->
  exists s', Unlink junk p name (mkN v (mkYfs s h)) = Ret (mkN v (mkYfs s' h), inr true) /\ ec_wf s' /\
    is_dir s' p (pre ++ post) /\ ec_file s' i = None /\
    (forall j, j <> p -> j <> i -> ec_file s' j = ec_file s j).
Proof using EL.
  intros Hwf Hpi Hd Ha Hfind Hn Hf Hc.
  assert (name_ok name) as Hname by (destruct Hd as [_ [_ [[? _] _]%Forall_cons]%Forall_app]; done).
  destruct (nlock_unlink_spec junk s h p pre post name i t c) as (s' & E & Hs); [done..|].
  exists s'. split; [|done]. unfold Unlink. rewrite cstr_id by apply Hname.
  by rewrite (NM_bind_Ret _ _ _ _ _ (lift_Ret _ _ _ _ _ E)).
Qed.

(** A file is deleted by its parent. *)
Lemma RecursiveDelete_file fuel v h s i : ec_wf s -> removable s i ->
  exists s', RecursiveDelete junk fuel i (mkN v (mkYfs s h)) = Ret (mkN v (mkYfs s' h), inr true) /\
    same s s'.
Proof using EL.
  intros Hwf (t & c & Hf & Ht & Hdir & _).
  destruct (Isdir_run v h s i t c Hwf Hf Ht) as (s' & E & Hs). exists s'. split; [|done].
  destruct fuel; cbn [RecursiveDelete]; rewrite (NM_bind_Ret _ _ _ _ _ E);
    (destruct (Z.eqb_spec t extent_protocol.T_DIR); [done|]); done.
Qed.

Lemma removable_same s s' i : same s s' -> removable s i -> removable s' i.
Proof using Type. intros (_ & Hj & _) (t & c & Hf & H). exists t, c. by rewrite Hj. Qed.

(** The first entry of a directory is found where it is. *)
Lemma find_first name i post :
  str_find name (dir_encode ((name, i) :: post)) 0 = Some (entry_pos []).
Proof using Type.
  pose proof (dir_encode_split [] post (name, i)) as E. cbn [app] in E. rewrite E.
  unfold entry_bytes. cbn [fst snd]. rewrite <-!app_assoc.
  assert (forall l, is_prefix name (name ++ l) = true) as Hp.
  { intros l. clear E. induction name as [|x name IH]; [by destruct l|].
    cbn. by rewrite bool_decide_true, IH. }
  set (l := _ ++ _). unfold str_find. destruct (length l) eqn:El; cbn [find_from];
    rewrite drop_0; unfold l; by rewrite Hp.
Qed.

(** The entries are deleted one after the other, each of them the first one of
    the directory at its turn. *)
Lemma delete_entries_spec fuel v h d es s : ec_wf s -> is_dir s d es ->
  block_count (Z.of_nat (length (dir_encode es))) <= NDIRECT ->
  Forall (fun e => removable s e.2 /\ (e.2 ∉ h) /\ e.2 <> d) es -> NoDup es.*2 ->
  exists s', delete_entries junk (RecursiveDelete junk fuel) d es (mkN v (mkYfs s h)) =
      Ret (mkN v (mkYfs s' h), inr true) /\
    ec_wf s' /\ is_dir s' d [] /\ (forall e, e ∈ es -> ec_file s' e.2 = None) /\
    (forall j, j <> d -> j ∉ es.*2 -> ec_file s' j = ec_file s j).
Proof using EL.
  revert s. induction es as [|[name i] es IH]; intros s Hwf Hd Hn HF Hnd.
  { exists s. cbn. do 3 (split; [done|]). split; [|done]. intros e He. by apply elem_of_nil in He. }
  apply Forall_cons in HF as [(Hrem & Hih & Hid) HF]. cbn in Hrem, Hih, Hid.
  apply NoDup_cons in Hnd as [Hi Hnd].
  set (h1 := {[i]} ∪ h).
  destruct (RecursiveDelete_file fuel v h1 s i Hwf Hrem) as (s1 & E1 & Hs1).
  pose proof Hs1 as (Hwf1 & Hj1 & _).
  destruct (removable_same _ _ _ Hs1 Hrem) as (t & c & Hf1 & Ht & _ & Hmod).
  destruct (Unlink_run v h1 s1 d [] es name i t c) as (s2 & E2 & Hwf2 & Hd2 & Hi2 & Ho2); try done.
  { by eapply is_dir_same. }
  { cbn. by rewrite decide_True. }
  { apply find_first. }
  cbn [app] in Hd2.
  destruct (IH s2) as (s3 & E3 & Hwf3 & Hd3 & Hes3 & Ho3); try done.
  { etrans; [|exact Hn]. apply block_count_mono. pose proof (dir_encode_shrink [] es (name, i)) as Hsh.
    cbn [app] in Hsh. lia. }
  { apply Forall_forall. intros e He. rewrite Forall_forall in HF. destruct (HF e He) as (Hr & ? & ?).
    split; [|done]. destruct Hr as (t' & c' & Hf' & Hr). exists t', c'. split; [|done].
    rewrite Ho2, Hj1; [done|done|]. intros E. apply Hi. apply list_elem_of_fmap. by exists e. }
  exists s3. split; [|split; [done|split; [done|split]]].
  - cbn [delete_entries].
    rewrite (NM_bind_Ret _ _ _ _ _ (lift_Ret _ _ _ _ _ (acquire_Ret i (mkYfs s h) Hih))).
    cbn [ys held]. fold h1. rewrite (NM_bind_Ret _ _ _ _ _ E1). cbn [negb].
    rewrite (NM_bind_Ret _ _ _ _ _ E2). cbn [negb].
    rewrite (NM_bind_Ret _ _ _ _ _ (lift_Ret _ _ _ _ _ (release_Ret i (mkYfs s2 h1) (held_self i _)))).
    unfold h1. cbn [ys held]. by rewrite release_held.
  - intros e [->|He]%elem_of_cons; [|by apply Hes3]. cbn. by rewrite Ho3.
  - intros j Hjd Hj. cbn in Hj. apply not_elem_of_cons in Hj as [Hji Hjes].
    by rewrite Ho3, Ho2, Hj1.
Qed.

Lemma RecursiveDelete_dir fuel v h d es s : ec_wf s -> is_dir s d es ->
  block_count (Z.of_nat (length (dir_encode es))) <= NDIRECT ->
  Forall (fun e => removable s e.2 /\ (e.2 ∉ h) /\ e.2 <> d) es -> NoDup es.*2 ->
  exists s', RecursiveDelete junk (Datatypes.S fuel) d (mkN v (mkYfs s h)) =
      Ret (mkN v (mkYfs s' h), inr true) /\
    ec_wf s' /\ is_dir s' d [] /\ (forall e, e ∈ es -> ec_file s' e.2 = None) /\
    (forall j, j <> d -> j ∉ es.*2 -> ec_file s' j = ec_file s j).
Proof using EL.
  intros Hwf Hd Hn HF Hnd. pose proof Hd as [Hfd _].
  destruct (Isdir_run v h s d _ _ Hwf Hfd) as (s1 & E1 & Hs1); [done|]. change (_ =? _) with true in E1.
  destruct (Readdir_run v h s1 d es) as (s2 & E2 & Hs2); [apply Hs1|by eapply is_dir_same|].
  pose proof (same_trans _ _ _ Hs1 Hs2) as Hs. pose proof Hs as (Hwf2 & Hj2 & _).
  destruct (delete_entries_spec fuel v h d es s2) as (s3 & E3 & Hwf3 & Hd3 & Hes3 & Ho3); try done.
  { by eapply is_dir_same. }
  { eapply Forall_impl; [done|]. intros e (? & ? & ?). split; [|done]. by eapply removable_same. }
  exists s3. split; [|do 3 (split; [done|])].
  - cbn [RecursiveDelete]. rewrite (NM_bind_Ret _ _ _ _ _ E1). cbn [negb].
    rewrite (NM_bind_Ret _ _ _ _ _ E2). exact E3.
  - intros j Hjd Hj. by rewrite Ho3, Hj2.
Qed.

Lemma DualLock_run v h (s : S) a b : a <> b -> a ∉ h -> b ∉ h ->
  DualLock a b (mkN v (mkYfs s h)) = Ret (mkN v (mkYfs s ({[a]} ∪ ({[b]} ∪ h))), inr tt).
Proof using Type.
  intros Hab Ha Hb. unfold DualLock. destruct (Z.ltb_spec a b); [|destruct (Z.ltb_spec b a); [|lia]].
  - rewrite (NM_bind_Ret _ _ _ _ _ (lift_Ret _ _ _ _ _ (acquire_Ret a (mkYfs s h) Ha))).
    assert (b ∉ {[a]} ∪ h) as Hb' by (rewrite elem_of_union, elem_of_singleton; intros []; congruence).
    rewrite (lift_Ret _ _ _ _ _ (acquire_Ret b (mkYfs s ({[a]} ∪ h)) Hb')). cbn [ys held].
    by rewrite !(assoc_L (∪)), (comm_L (∪) {[b]}).
  - rewrite (NM_bind_Ret _ _ _ _ _ (lift_Ret _ _ _ _ _ (acquire_Ret b (mkYfs s h) Hb))).
    assert (a ∉ {[b]} ∪ h) as Ha' by (rewrite elem_of_union, elem_of_singleton; intros []; congruence).
    by rewrite (lift_Ret _ _ _ _ _ (acquire_Ret a (mkYfs s ({[b]} ∪ h)) Ha')).
Qed.

Lemma DualUnlock_run v h (s : S) a b : a <> b -> a ∉ h -> b ∉ h ->
  DualUnlock a b (mkN v (mkYfs s ({[a]} ∪ ({[b]} ∪ h)))) = Ret (mkN v (mkYfs s h), inr tt).
Proof using Type.
  intros Hab Ha Hb. unfold DualUnlock. destruct (Z.eqb_spec a b); [done|].
  rewrite (NM_bind_Ret _ _ _ _ _ (lift_Ret _ _ _ _ _
    (release_Ret a (mkYfs s ({[a]} ∪ ({[b]} ∪ h))) (held_self a _)))).
  cbn [ys held]. rewrite release_held by (rewrite elem_of_union, elem_of_singleton; intros []; congruence).
  rewrite (lift_Ret _ _ _ _ _ (release_Ret b (mkYfs s ({[b]} ∪ h)) (held_self b _))).
  cbn [ys held]. by rewrite release_held.
Qed.

(** The name after the last slash. *)
Lemma rfind_slash_spec pre seg : slash ∉ seg -> rfind_slash (pre ++ slash :: seg) = Some (length pre).
Proof using Type.
  intros Hseg. assert (rfind_slash seg = None) as E.
  { clear pre. induction seg as [|c seg IH]; [done|]. apply not_elem_of_cons in Hseg as [Hc Hseg].
    cbn. rewrite IH by done. by rewrite decide_False. }
  induction pre as [|c pre IH]; cbn; [by rewrite E, decide_True|by rewrite IH].
Qed.

Lemma last_segment l : (slash ∉ List.last (segments l) []) /\
  (l = List.last (segments l) [] \/ exists pre, l = pre ++ slash :: List.last (segments l) []).
Proof using Type.
  induction l as [|c l [IH1 IH2]]; [split; [apply not_elem_of_nil|by left]|].
  cbn [segments]. destruct (decide (c = slash)) as [->|Hc].
  - rewrite last_cons_ne by apply segments_not_nil. split; [done|]. right.
    destruct IH2 as [E|[pre E]]; [exists []|exists (slash :: pre)]; cbn; by rewrite E at 1.
  - destruct (segments l) as [|seg segs] eqn:El; [by apply segments_not_nil in El|].
    destruct segs as [|seg' segs].
    + cbn in IH1 |- *. apply segments_single in El as ->. split; [|by left].
      by apply not_elem_of_cons.
    + rewrite last_cons_ne in IH1, IH2 by done. rewrite last_cons_ne by done. split; [done|].
      destruct IH2 as [E|[pre E]]; [|right; exists (c :: pre); cbn; by rewrite E at 1].
      exfalso. assert (slash ∉ l) as Hl by (by rewrite E).
      rewrite segments_one in El by done. done.
Qed.

Lemma base_name_basename src : char_at src 0 = slash -> base_name src = basename src.
Proof using Type.
  intros Hc. destruct src as [|x src]; [done|]. change x with (char_at (x :: src) 0). rewrite Hc.
  clear Hc x. unfold basename. cbn [drop].
  destruct (last_segment src) as [Hs E]. set (seg := List.last (segments src) []) in *.
  assert (exists pre, slash :: src = pre ++ slash :: seg) as [pre ->].
  { destruct E as [E|[pre E]]; [exists []|exists (slash :: pre)]; cbn; by rewrite E. }
  unfold base_name. rewrite rfind_slash_spec by done.
  rewrite Nat.add_1_r. induction pre as [|y pre IH]; [done|]. exact IH.
Qed.

(** The path of an entry of a directory that a path leads to. *)
Lemma entry_resolves s src p q es i : char_at src 0 = slash ->
  resolve s (1, 1) (dirname src) (Some (p, q)) -> is_dir s p es -> basename src <> [] ->
  name_ok (basename src) -> assoc (basename src) es = Some i -> resolves s src (Some (i, p)).
Proof using Type.
  intros Hc Hr Hd Hne Hname Ha. split; [done|]. rewrite (segments_split (drop 1 src)).
  fold (dirname src) (basename src). eapply resolve_app; [exact Hr|].
  eapply resolve_step; [done|exact Hd| |constructor]. by rewrite cstr_id by apply Hname.
Qed.

Lemma PBDelete_file_spec v h s src recursive p q pre post i : ec_wf s -> char_at src 0 = slash ->
  resolve s (1, 1) (dirname src) (Some (p, q)) -> basename src <> [] ->
  is_dir s p (pre ++ (basename src, i) :: post) ->
  assoc (basename src) (pre ++ (basename src, i) :: post) = Some i ->
  str_find (basename src) (dir_encode (pre ++ (basename src, i) :: post)) 0 = Some (entry_pos pre) ->
  block_count (Z.of_nat (length (dir_encode (pre ++ (basename src, i) :: post)))) <= NDIRECT ->
  removable s i -> i ∉ h -> p ∉ h ->
  exists s', PBDelete junk src recursive (mkN v (mkYfs s h)) = Ret (mkN v (mkYfs s' h), inr true) /\
    ec_wf s' /\ is_dir s' p (pre ++ post) /\ ec_file s' i = None /\
    (forall j, j <> p -> j <> i -> ec_file s' j = ec_file s j).
Proof using BL.
  intros Hwf Hc Hr Hne Hd Ha Hfind Hn Hrem Hi Hp.
  assert (name_ok (basename src)) as Hname
    by (destruct Hd as [_ [_ [[? _] _]%Forall_cons]%Forall_app]; done).
  destruct (RecursiveLookup_spec junk v h s src (Some (i, p)) Hwf) as (s1 & E1 & Hk1);
    [by eapply entry_resolves|]. destruct Hk1 as [Hs1 _].
  set (h2 := {[i]} ∪ ({[p]} ∪ h)).
  assert (exists s2, (if recursive then RecursiveDelete junk (Z.to_nat INODE_NUM) i else nret true)
    (mkN v (mkYfs s1 h2)) = Ret (mkN v (mkYfs s2 h2), inr true) /\ same s1 s2) as (s2 & E2 & Hs2).
  { destruct recursive; [apply RecursiveDelete_file; [apply Hs1|by eapply removable_same]|].
    exists s1. split; [done|]. by split; [apply Hs1|]. }
  pose proof (same_trans _ _ _ Hs1 Hs2) as Hs02.
  destruct (removable_same _ _ _ Hs02 Hrem) as (t & c & Hf2 & Ht & Hdir & Hmod).
  destruct (Isdir_run v h2 s2 i t c) as (s3 & E3 & Hs3); [apply Hs02|done|done|].
  destruct (Z.eqb_spec t extent_protocol.T_DIR) as [|_]; [done|].
  pose proof (same_trans _ _ _ Hs02 Hs3) as Hs. pose proof Hs as (Hwf3 & Hj3 & _).
  assert (p <> i) as Hpi.
  { intros ->. destruct Hd as [Hd _], Hrem as (t' & c' & Hf & _ & Hdir' & _). congruence. }
  destruct (Unlink_run v h2 s3 p pre post (basename src) i t c) as (s4 & E4 & Hwf4 & Hd4 & Hi4 & Ho4);
    try done; [by eapply is_dir_same|destruct Hs3 as (_ & -> & _); done|].
  exists s4. split; [|split; [done|split; [done|split; [done|]]]].
  - unfold PBDelete. rewrite (NM_bind_Ret _ _ _ _ _ E1).
    rewrite (NM_bind_Ret _ _ _ _ _ (DualLock_run v h s1 i p (not_eq_sym Hpi) Hi Hp)).
    rewrite (NM_bind_Ret _ _ _ _ _ E2). cbn [negb]. rewrite (NM_bind_Ret _ _ _ _ _ E3).
    rewrite nm_ret_l. cbn [length negb orb]. rewrite bool_decide_false by lia.
    rewrite base_name_basename by done. rewrite (NM_bind_Ret _ _ _ _ _ E4).
    rewrite (NM_bind_Ret _ _ _ _ _ (DualUnlock_run v h s4 i p (not_eq_sym Hpi) Hi Hp)). done.
  - intros j Hjp Hji. by rewrite Ho4, Hj3.
Qed.

(* ------------------------------------------------------------------ *)
(** ** Making directories *)

(** A component that its directory does not have ends the walk. *)
Lemma walk_missing {B} (k : option (Z * nat) -> NM S B) v h s src cp pre c rest p q es : ec_wf s ->
  char_at src 0 = slash -> dirname src = pre ++ c :: rest ->
  resolve s (1, 1) pre (Some (p, q)) -> is_dir s p es -> c <> [] -> assoc (cstr c) es = None ->
  exists s', (r ← path_loop (length src) src 1 1 1 (create_step junk cp); k r) (mkN v (mkYfs s h)) =
      Ret (mkN v (mkYfs s' h), inl Traverse_failed) /\ keeps s s'.
Proof using BL.
  intros Hwf Hc Hdir Hr Hd Hcne Ha.
  destruct (path_prefix src 1 (create_step (S := S) junk cp) Hc) as (Eloop & _).
  destruct (each_create junk v h s (1, 1) pre (p, q) cp Hr s) as (s1 & E1 & Hk1);
    [by apply keeps_refl|]. cbn [fst] in E1.
  destruct (lookup_keeps junk s1 h p es (cstr c) false p) as (s2 & E2 & Hk2);
    [by eapply keeps_wf|by eapply keeps_dir|].
  rewrite cstr_cstr in E2. unfold lookup_result in E2. rewrite Ha in E2.
  exists s2. split; [|by eapply keeps_trans].
  rewrite (nm_bind_proper _ _ _ _ _ (fun _ => reflexivity _) _ _ Eloop), nm_assoc, Hdir.
  assert (each (c :: rest) p (create_step junk cp) (mkN v (mkYfs s1 h)) =
    Ret (mkN v (mkYfs s2 h), inl Traverse_failed)) as E3.
  { cbn [each]. rewrite decide_False by done. unfold create_step, lookup. rewrite nm_assoc.
    by rewrite (NM_bind_Ret _ _ _ _ _ (lift_Ret _ _ _ _ _ E2)). }
  rewrite (nm_bind_proper _ _ _ _ _ (fun _ => reflexivity _) _ _ (each_app pre (c :: rest) 1 _)).
  rewrite nm_assoc, (NM_bind_Ret _ _ _ _ _ E1). by rewrite (NM_bind_throw _ _ _ _ _ E3).
Qed.

Lemma PBMkdirs_spec v h s src cp p q es i : ec_wf s -> char_at src 0 = slash ->
  resolve s (1, 1) (dirname src) (Some (p, q)) -> is_dir s p es -> p ∉ h ->
  basename src <> [] -> name_ok (basename src) -> assoc (basename src) es = None ->
  first_free s i -> entry_fits s es (basename src) i ->
  exists s', PBMkdirs junk src cp (mkN v (mkYfs s h)) = Ret (mkN v (mkYfs s' h), inr true) /\
    created s s' p es (basename src) i extent_protocol.T_DIR [].
Proof using BL.
  intros Hwf Hc Hr Hd Hp Hne Hname Ha Hfree Hfit.
  destruct (path_prefix src 1 (create_step (S := S) junk cp) Hc) as (Eloop & Edrop & Hlen).
  destruct (each_create junk v h s (1, 1) (dirname src) (p, q) cp Hr s) as (s1 & E1 & Hk1);
    [by apply keeps_refl|]. cbn [fst] in E1.
  destruct (mkdir_spec junk (mkYfs s1 h) p es (basename src) i p) as (s2 & E2 & Hcr);
    try done; [by eapply keeps_wf|by eapply keeps_dir|by eapply first_free_keeps| |].
  { unfold entry_fits in *. destruct Hk1 as [(_ & _ & Er) _]. cbn. by rewrite Er. }
  cbn [ys held] in E2, Hcr. exists s2. split.
  - unfold PBMkdirs. rewrite bool_decide_true by done. cbn [negb].
    rewrite (nm_bind_proper _ _ _ _ _ (fun _ => reflexivity _) _ _ Eloop), nm_assoc.
    rewrite (NM_bind_Ret _ _ _ _ _ E1), nm_ret_l. cbn [fmap option_fmap option_map].
    rewrite decide_True; [|destruct (basename src); [done|cbn [length] in *; lia]].
    rewrite Edrop, cstr_id by apply Hname. unfold Mkdir. rewrite cstr_id by apply Hname.
    rewrite nm_assoc. by rewrite (NM_bind_Ret _ _ _ _ _ (lift_Ret _ _ _ _ _ E2)).
  - destruct Hk1 as [(_ & Hj & Er) _], Hcr as (? & ? & ? & Ho & Er2).
    split; [done|]. split; [done|]. split; [done|]. split; [|by rewrite Er2, Er].
    intros j Hjp Hji. by rewrite Ho, Hj.
Qed.

(* ------------------------------------------------------------------ *)
(** ** Renaming *)

Lemma find_entry_assoc es name : find_entry es name = assoc name es.
Proof using Type. induction es as [|[n i] es IH]; cbn; [done|]. by destruct (decide (n = name)). Qed.

Lemma rename_insert_spec es name i :
  rename_insert (dir_encode es) name i = dir_encode (es ++ [(name, i)]).
Proof using Type.
  rewrite <-dir_append_spec. unfold rename_insert, dir_append, inum2str.
  destruct (decide (length (dir_encode es) = 0%nat)) as [E|]; [|done].
  by apply nil_length_inv in E as ->.
Qed.

(** What is left of the source directory is the encoding of [es']. *)
Lemma rename_source v h s p name es es' i : ec_wf s -> is_dir s p es -> name_ok name ->
  assoc name es = Some i -> rename_erase (dir_encode es) name = Ret (dir_encode es') ->
  Forall entry_ok es' -> (length (dir_encode es') <= length (dir_encode es))%nat ->
  block_count (Z.of_nat (length (dir_encode es))) <= NDIRECT ->
  exists s', ec_wf s' /\ is_dir s' p es' /\ (forall j, j <> p -> ec_file s' j = ec_file s j) /\
    ec_room s <= ec_room s' /\
    forall dst_dir_ino dst_name, Rename junk p name dst_dir_ino dst_name (mkN v (mkYfs s h)) =
      ('(r, dst_entry) ←
          (if p =? dst_dir_ino then nret (true, dir_encode es')
           else '(st, d) ← lift (ec (ec_get dst_dir_ino []));
                nret (st =? extent_protocol.OK, d));
        _ ← lift (ec (ec_put dst_dir_ino (rename_insert dst_entry dst_name i)));
        nret r) (mkN v (mkYfs s' h)).
Proof using EL.
  intros Hwf Hd Hname Ha He Hok Hlen Hn. pose proof Hd as [Hf Hes].
  destruct (run_lookup junk s h p es name false 0 Hwf Hd) as (s1 & E1 & Hs1).
  rewrite (lookup_old _ _ i) in E1 by done.
  destruct (run_readdir junk s1 h p es []) as (s2 & E2 & Hs2); [apply Hs1|by eapply is_dir_same|].
  pose proof (same_trans _ _ _ Hs1 Hs2) as Hs02.
  destruct (run_get s2 h p extent_protocol.T_DIR (dir_encode es) []) as (s3 & E3 & Hs3);
    [apply Hs02|destruct Hs02 as (_ & -> & _); done|].
  pose proof (same_trans _ _ _ Hs02 Hs3) as (Hwf3 & Hj3 & Er3).
  assert (block_count (Z.of_nat (length (dir_encode es'))) <=
    block_count (Z.of_nat (length (dir_encode es)))) as Hle by (apply block_count_mono; lia).
  destruct (run_put s3 h p extent_protocol.T_DIR (dir_encode es) (dir_encode es'))
    as (s4 & E4 & Hwf4 & Hf4 & Hj4 & Er4); [done|by rewrite Hj3|lia| |].
  { pose proof (law_room s3). unfold blocks_for. case_tests. }
  exists s4. split; [done|]. split; [done|]. split; [intros j Hj; by rewrite Hj4, Hj3|].
  split; [rewrite Er3 in Er4; revert Er4; unfold blocks_for; case_tests|].
  intros p2 dst. unfold Rename. rewrite cstr_id by apply Hname.
  rewrite (NM_bind_Ret _ _ _ _ _ (lift_Ret _ _ _ _ _ E1)). cbn [negb].
  rewrite (NM_bind_Ret _ _ _ _ _ (lift_Ret _ _ _ _ _ E2)).
  rewrite (NM_bind_Ret _ _ _ _ _ (lift_Ret _ _ _ _ _ E3)). cbn [app].
  rewrite find_entry_assoc, Ha, He.
  rewrite (NM_bind_Ret (lift (fail (Ret (dir_encode es')))) _ _ _ _ eq_refl). cbn [nn fs].
  by rewrite (NM_bind_Ret _ _ _ _ _ (lift_Ret _ _ _ _ _ E4)).
Qed.

Lemma Rename_same v h s p name dst es es' i : ec_wf s -> is_dir s p es -> name_ok name ->
  name_ok dst -> assoc name es = Some i -> rename_erase (dir_encode es) name = Ret (dir_encode es') ->
  Forall entry_ok es' -> (length (dir_encode es') <= length (dir_encode es))%nat ->
  block_count (Z.of_nat (length (dir_encode es))) <= NDIRECT ->
  block_count (Z.of_nat (length (dir_encode (es' ++ [(dst, i)])))) <= NDIRECT -> NDIRECT <= ec_room s ->
  exists s', Rename junk p name p dst (mkN v (mkYfs s h)) = Ret (mkN v (mkYfs s' h), inr true) /\
    ec_wf s' /\ is_dir s' p (es' ++ [(dst, i)]) /\ (forall j, j <> p -> ec_file s' j = ec_file s j).
Proof using EL.
  intros Hwf Hd Hname Hdst Ha He Hok Hlen Hn Hn' Hroom.
  destruct (rename_source v h s p name es es' i) as (s1 & Hwf1 & Hd1 & Hj1 & Er1 & E1); try done.
  pose proof Hd1 as [Hf1 _].
  destruct (run_put s1 h p extent_protocol.T_DIR (dir_encode es') (dir_encode (es' ++ [(dst, i)])))
    as (s2 & E2 & Hwf2 & Hf2 & Hj2 & _); [done|done|done| |].
  { pose proof (block_count_bounds (Z.of_nat (length (dir_encode es')))). unfold blocks_for. case_tests. }
  exists s2. rewrite E1, Z.eqb_refl, nm_ret_l, rename_insert_spec.
  rewrite (NM_bind_Ret _ _ _ _ _ (lift_Ret _ _ _ _ _ E2)). split; [done|]. split; [done|].
  split; [|intros j Hj; by rewrite Hj2, Hj1]. split; [done|]. apply Forall_app. split; [done|].
  apply Forall_singleton. split; [done|]. cbn. destruct Hd as [_ Hes]. by apply (assoc_ok name es).
Qed.

Lemma Rename_other v h s p q name dst es es' ds i : ec_wf s -> is_dir s p es -> is_dir s q ds -> p <> q ->
  name_ok name -> name_ok dst -> assoc name es = Some i ->
  rename_erase (dir_encode es) name = Ret (dir_encode es') ->
  Forall entry_ok es' -> (length (dir_encode es') <= length (dir_encode es))%nat ->
  block_count (Z.of_nat (length (dir_encode es))) <= NDIRECT ->
  block_count (Z.of_nat (length (dir_encode (ds ++ [(dst, i)])))) <= NDIRECT -> NDIRECT <= ec_room s ->
  exists s', Rename junk p name q dst (mkN v (mkYfs s h)) = Ret (mkN v (mkYfs s' h), inr true) /\
    ec_wf s' /\ is_dir s' p es' /\ is_dir s' q (ds ++ [(dst, i)]) /\
    (forall j, j <> p -> j <> q -> ec_file s' j = ec_file s j).
Proof using EL.
  intros Hwf Hd Hq Hpq Hname Hdst Ha He Hok Hlen Hn Hn' Hroom.
  destruct (rename_source v h s p name es es' i) as (s1 & Hwf1 & Hd1 & Hj1 & Er1 & E1); try done.
  pose proof Hq as [Hfq Hds].
  destruct (run_get s1 h q extent_protocol.T_DIR (dir_encode ds) []) as (s2 & E2 & Hwf2 & Hj2 & Er2);
    [done|by rewrite Hj1|].
  destruct (run_put s2 h q extent_protocol.T_DIR (dir_encode ds) (dir_encode (ds ++ [(dst, i)])))
    as (s3 & E3 & Hwf3 & Hf3 & Hj3 & _); [done|by rewrite Hj2, Hj1|done| |].
  { pose proof (block_count_bounds (Z.of_nat (length (dir_encode ds)))). unfold blocks_for. case_tests. }
  exists s3. rewrite E1. destruct (Z.eqb_spec p q); [done|]. rewrite nm_assoc.
  rewrite (NM_bind_Ret _ _ _ _ _ (lift_Ret _ _ _ _ _ E2)), nm_ret_l, rename_insert_spec.
  rewrite (NM_bind_Ret _ _ _ _ _ (lift_Ret _ _ _ _ _ E3)). split; [done|]. split; [done|].
  split; [by destruct Hd1; split; [rewrite Hj3, Hj2|]|]. split.
  - split; [done|]. apply Forall_app. split; [done|]. apply Forall_singleton. split; [done|].
    destruct Hd as [_ Hes]. by apply (assoc_ok name es).
  - intros j Hjp Hjq. by rewrite Hj3, Hj2, Hj1.
Qed.
End namespace.

(* ------------------------------------------------------------------ *)
(** ** Cutting an entry out of the source directory *)

Lemma first_semi (l l' r r' : list byte) : l ++ semi :: r = l' ++ semi :: r' -> semi ∉ l -> semi ∉ l' ->
  length l = length l'.
Proof.
  revert l'. induction l as [|c l IH]; intros [|c' l'] E Hl Hl'; cbn in *; [done| | |].
  - injection E as E _. exfalso. apply Hl'. rewrite E. left.
  - injection E as E _. exfalso. apply Hl. rewrite E. left.
  - injection E as _ E. f_equal. apply (IH l' E); intros ?; [apply Hl|apply Hl']; by right.
Qed.

Lemma find_z_semi d pos l rest : drop pos d = l ++ semi :: rest -> semi ∉ l -> (pos <= length d)%nat ->
  find_z [semi] d (Z.of_nat pos) = Z.of_nat (pos + length l).
Proof.
  intros Hd Hl Hpos. unfold find_z. destruct (Z.ltb_spec (Z.of_nat (length d)) (Z.of_nat pos)); [lia|].
  rewrite Nat2Z.id. pose proof (str_find_one semi d pos Hpos) as Hf.
  destruct (str_find [semi] d pos) as [q|].
  - destruct Hf as (l' & E & Hl' & ->). rewrite Hd in E. f_equal. f_equal.
    symmetry. by eapply first_semi.
  - exfalso. apply Hf. rewrite Hd. apply elem_of_app. right. left.
Qed.

Lemma find_z_none d pos : (pos <= length d)%nat -> semi ∉ drop pos d ->
  find_z [semi] d (Z.of_nat pos) = npos.
Proof.
  intros Hpos Hd. unfold find_z. destruct (Z.ltb_spec (Z.of_nat (length d)) (Z.of_nat pos)); [done|].
  rewrite Nat2Z.id. pose proof (str_find_one semi d pos Hpos) as Hf.
  destruct (str_find [semi] d pos) as [q|]; [|done].
  destruct Hf as (l' & E & _). exfalso. apply Hd. rewrite E. apply elem_of_app. right. left.
Qed.

(** The positions in the directory of an entry that the search for its name
    finds. *)
Section cut.
Context (pre post : list (list byte * Z)) (name : list byte) (i : Z).
Let d : list byte := dir_encode (pre ++ (name, i) :: post).
Let start : nat := entry_pos pre.
Context (Hname : (semi ∉ name)) (Hi : 0 <= i).
Context (Hfind : str_find name d 0 = Some start) (Hlen : Z.of_nat (length d) < 2 ^ 32 - 1).

Let head_bytes : list byte := match pre with [] => [] | _ => dir_encode pre ++ [semi] end.
Let tail_bytes : list byte := match post with [] => [] | _ => semi :: dir_encode post end.

Lemma cut_split : d = head_bytes ++ name ++ semi :: filename i ++ tail_bytes /\ length head_bytes = start.
Proof using Type.
  split; [|apply length_prefix]. unfold d. rewrite dir_encode_split. unfold entry_bytes.
  cbn [fst snd]. by rewrite <-!app_assoc.
Qed.

Lemma cut_length : length d = (start + length name + 1 + length (filename i) + length tail_bytes)%nat.
Proof using Type.
  clear Hfind Hlen. destruct cut_split as [-> E]. rewrite !length_app, E. cbn [length]. rewrite length_app. lia.
Qed.

(** [src_begin], [first_dot] and [second_dot]. *)
Lemma cut_positions :
  u32 (find_z name d 0) = Z.of_nat start /\
  u32 (find_z [semi] d (Z.of_nat start)) = Z.of_nat (start + length name) /\
  u32 (find_z [semi] d (u32 (Z.of_nat (start + length name) + 1))) =
    match post with
    | [] => 2 ^ 32 - 1
    | _ => Z.of_nat (start + length name + 1 + length (filename i))
    end.
Proof using Hname Hi Hfind Hlen.
  destruct cut_split as [E Eh]. pose proof cut_length as El.
  split; [|split].
  - unfold find_z. destruct (Z.ltb_spec (Z.of_nat (length d)) 0); [lia|].
    change (Z.to_nat 0) with 0%nat. rewrite Hfind. rewrite u32_id; lia.
  - rewrite (find_z_semi d start name (filename i ++ tail_bytes)); [rewrite u32_id; lia| |done|lia].
    rewrite E. by apply drop_app_length'.
  - rewrite (u32_id (_ + 1)) by lia.
    replace (Z.of_nat (start + length name) + 1) with (Z.of_nat (start + length name + 1)) by lia.
    assert (drop (start + length name + 1) d = filename i ++ tail_bytes) as Ed.
    { rewrite E. rewrite <-Nat.add_assoc, drop_app_add' by done. rewrite drop_app_add' by done. done. }
    pose proof (semi_digits i Hi) as Hsd. destruct post.
    + rewrite find_z_none; [done|lia|]. rewrite Ed. unfold tail_bytes. by rewrite app_nil_r.
    + rewrite (find_z_semi d _ (filename i) (dir_encode (p :: l))); [rewrite u32_id; lia|done|done|lia].
Qed.
End cut.

(** The last entry of a directory is cut out as it should be. *)
Lemma rename_erase_last es name i : semi ∉ name -> 0 <= i ->
  str_find name (dir_encode (es ++ [(name, i)])) 0 = Some (entry_pos es) ->
  Z.of_nat (length (dir_encode (es ++ [(name, i)]))) < 2 ^ 32 - 1 ->
  rename_erase (dir_encode (es ++ [(name, i)])) name = Ret (dir_encode es).
Proof.
  intros Hname Hi Hfind Hlen. unfold rename_erase.
  destruct (cut_positions es [] name i Hname Hi Hfind Hlen) as (-> & -> & ->).
  destruct (cut_split es [] name i) as [E Eh]. pose proof (cut_length es [] name i) as El. cbv zeta in *.
  cbn match in El. cbn [length] in El.
  set (d := dir_encode (es ++ [(name, i)])) in *. unfold npos.
  destruct (Z.eqb_spec (Z.of_nat (entry_pos es)) (2 ^ 64 - 1)); [lia|]. cbn [negb].
  destruct (Z.eqb_spec (Z.of_nat (entry_pos es + length name)) (2 ^ 64 - 1)); [lia|]. cbn [negb].
  change (2 ^ 32 - 1 =? 2 ^ 64 - 1) with false. cbn [negb]. unfold erase_z, str_erase.
  destruct (Z.eqb_spec (Z.of_nat (entry_pos es)) 0) as [Ez|Ez]; cbn [negb].
  - destruct es; [|cbn [entry_pos] in Ez; lia]. rewrite u32_id by lia.
    destruct (Z.ltb_spec (Z.of_nat (length d)) (Z.of_nat (entry_pos []))); [lia|].
    destruct (Nat.ltb_spec (length d) (Z.to_nat (Z.of_nat (entry_pos [])))); [lia|].
    cbn [entry_pos]. rewrite drop_ge by lia. done.
  - rewrite !u32_id by lia. destruct (Z.ltb_spec (Z.of_nat (length d)) (Z.of_nat (entry_pos es) - 1)); [lia|].
    destruct (Nat.ltb_spec (length d) (Z.to_nat (Z.of_nat (entry_pos es) - 1))); [lia|].
    rewrite (drop_ge d) by lia. rewrite app_nil_r, E. f_equal.
    destruct es as [|e es]; [done|]. rewrite <-app_assoc. apply take_app_length'.
    cbn [entry_pos]. lia.
Qed.

(** The digits of [10 * j + k]. *)
Lemma dec_loop_acc fuel z acc : dec_loop fuel z acc = dec_loop fuel z [] ++ acc.
Proof.
  revert z acc. induction fuel as [|fuel IH]; intros z acc; cbn [dec_loop]; [done|].
  destruct (z <? 10); [done|]. rewrite (IH _ (_ :: acc)), (IH _ [_]). by rewrite <-app_assoc.
Qed.

Lemma dec_loop_S fuel z acc : dec_loop (Datatypes.S fuel) z acc =
  if z <? 10 then digit (z mod 10) :: acc else dec_loop fuel (z / 10) (digit (z mod 10) :: acc).
Proof. done. Qed.

Lemma dec_loop_fuel fuel z : 0 <= z < 10 ^ Z.of_nat fuel -> (0 < fuel)%nat ->
  dec_loop (Datatypes.S fuel) z [] = dec_loop fuel z [].
Proof.
  revert z. induction fuel as [|fuel IH]; intros z Hz Hf; [lia|].
  rewrite (dec_loop_S (Datatypes.S fuel)), (dec_loop_S fuel z).
  destruct (Z.ltb_spec z 10) as [|H10]; [done|].
  rewrite (dec_loop_acc (Datatypes.S fuel)), (dec_loop_acc fuel). f_equal.
  assert (0 < fuel)%nat as Hf'.
  { destruct fuel; [|lia]. change (10 ^ Z.of_nat 1) with 10 in Hz. lia. }
  apply IH; [|done]. rewrite Nat2Z.inj_succ, Z.pow_succ_r in Hz by lia.
  split; [apply Z.div_pos; lia|apply Z.div_lt_upper_bound; lia].
Qed.

Lemma filename_snoc z : 10 <= z < 2 ^ 64 -> filename z = filename (z / 10) ++ [digit (z mod 10)].
Proof.
  intros Hz. unfold filename. rewrite (dec_loop_S 19 z []).
  destruct (Z.ltb_spec z 10); [lia|]. rewrite dec_loop_acc.
  rewrite <-(dec_loop_fuel 19 (z / 10)); [done| |lia]. change (10 ^ Z.of_nat 19) with 10000000000000000000.
  split; [apply Z.div_pos; lia|apply Z.div_lt_upper_bound; lia].
Qed.

Lemma filename_last z : 0 <= z < 2 ^ 64 -> exists ds, filename z = ds ++ [digit (z mod 10)].
Proof.
  intros Hz. destruct (Z.ltb_spec z 10) as [H|H].
  - exists []. unfold filename. rewrite (dec_loop_S 19 z []).
    destruct (Z.ltb_spec z 10); [done|lia].
  - eexists. apply filename_snoc. lia.
Qed.

Lemma filename_append j k : 1 <= j -> 0 <= k < 10 -> 10 * j + k < 2 ^ 64 ->
  filename (10 * j + k) = filename j ++ [digit k].
Proof.
  intros Hj Hk Hb. rewrite filename_snoc by lia. f_equal.
  - f_equal. rewrite Z.mul_comm, Z.div_add_l, Z.div_small; lia.
  - do 2 f_equal. rewrite Z.add_comm, Z.mul_comm, Z.mod_add, Z.mod_small; lia.
Qed.

(** An entry between two others is not: the last digit of its inode number
    stays behind the inode number of the entry before it. *)
Lemma rename_erase_middle pre n0 j post name i : post <> [] -> semi ∉ name -> 0 <= i < 2 ^ 64 -> 1 <= j ->
  10 * j + i mod 10 < 2 ^ 64 ->
  let es := (pre ++ [(n0, j)]) ++ (name, i) :: post in
  str_find name (dir_encode es) 0 = Some (entry_pos (pre ++ [(n0, j)])) ->
  Z.of_nat (length (dir_encode es)) < 2 ^ 32 - 1 ->
  rename_erase (dir_encode es) name = Ret (dir_encode (pre ++ (n0, 10 * j + i mod 10) :: post)).
Proof.
  intros Hpost Hname Hi Hj Hb es Hfind Hlen. subst es. unfold rename_erase.
  pose proof (Z.mod_pos_bound i 10 ltac:(lia)) as Hmod.
  set (hd := pre ++ [(n0, j)]) in *.
  destruct (cut_positions hd post name i Hname (proj1 Hi) Hfind Hlen) as (-> & -> & ->).
  destruct (cut_split hd post name i) as [E Eh]. pose proof (cut_length hd post name i) as El. cbv zeta in *.
  destruct post as [|e post]; [done|]. set (tl := e :: post) in *. set (d := dir_encode (hd ++ (name, i) :: tl)) in *.
  assert (entry_pos hd = Datatypes.S (length (dir_encode hd))) as Ep by (subst hd; by destruct pre).
  destruct (filename_last i Hi) as [ds Hds].
  assert (d = dir_encode hd ++ ((semi :: name ++ semi :: ds) ++ digit (i mod 10) :: semi :: dir_encode tl)) as Ed.
  { rewrite E. destruct hd; [by destruct pre|]. rewrite Hds. cbn [app].
    repeat (rewrite <-?app_assoc; cbn [app]). done. }
  assert (length (filename i) = Datatypes.S (length ds)) as Elf by (rewrite Hds, length_app; cbn; lia).
  unfold npos. do 3 (match goal with |- context [(?a =? 2 ^ 64 - 1)] =>
    destruct (Z.eqb_spec a (2 ^ 64 - 1)); [lia|] end; cbn [negb]).
  destruct (Z.eqb_spec (Z.of_nat (entry_pos hd)) 0); [lia|]. cbn [negb].
  rewrite !u32_id by lia. unfold erase_z, str_erase.
  destruct (Z.ltb_spec (Z.of_nat (length d)) (Z.of_nat (entry_pos hd) - 1)); [lia|].
  rewrite Z.min_l by lia.
  replace (Z.to_nat (Z.of_nat (entry_pos hd) - 1)) with (length (dir_encode hd)) by lia.
  replace (Z.to_nat (Z.of_nat (entry_pos hd + length name + 1 + length (filename i)) -
    Z.of_nat (entry_pos hd))) with (length (semi :: name ++ semi :: ds)).
  2: { cbn [length]. rewrite length_app. cbn [length]. lia. }
  destruct (Nat.ltb_spec (length d) (length (dir_encode hd))); [lia|].
  rewrite Ed. rewrite take_app_length, drop_app_add, drop_app_length. f_equal.
  replace (pre ++ (n0, 10 * j + i mod 10) :: tl) with ((pre ++ [(n0, 10 * j + i mod 10)]) ++ tl)
    by (by rewrite <-app_assoc).
  rewrite (dir_encode_app _ tl); [|by destruct pre|done].
  subst hd. rewrite !(dir_encode_split pre []). unfold entry_bytes. cbn [fst snd].
  rewrite filename_append by lia. rewrite !app_nil_r, <-!app_assoc. done.
Qed.

Lemma length_dir_split pre post e : length (dir_encode (pre ++ e :: post)) =
  (entry_pos pre + length (entry_bytes e) +
   match post with [] => 0 | _ => Datatypes.S (length (dir_encode post)) end)%nat.
Proof. rewrite dir_encode_split, !length_app, length_prefix. destruct post; cbn [length]; lia. Qed.

(** Facts that the directory itself gives. *)
Section entries.
Context {S : Type} `{!ExtentClient S, !ExtentLaws S}.

Lemma last_entry_ok (s : S) p es name i : is_dir s p (es ++ [(name, i)]) ->
  name_ok name /\ 0 <= i < 2 ^ 64 /\ Forall entry_ok es.
Proof using Type. by intros [_ [Hes [[Hn Hi] _]%Forall_cons]%Forall_app]. Qed.

Lemma middle_entry_ok (s : S) p pre n0 j name i post : 1 <= j -> 10 * j + i mod 10 < 2 ^ 64 ->
  is_dir s p ((pre ++ [(n0, j)]) ++ (name, i) :: post) ->
  name_ok name /\ 0 <= i < 2 ^ 64 /\ Forall entry_ok (pre ++ (n0, 10 * j + i mod 10) :: post) /\
  (length (dir_encode (pre ++ (n0, (10 * j + i mod 10)%Z) :: post)) <=
   length (dir_encode ((pre ++ [(n0, j)]) ++ (name, i) :: post)))%nat.
Proof using Type.
  intros Hj Hb [_ Hes]. apply Forall_app in Hes as [[Hpre [[Hn0 _] _]%Forall_cons]%Forall_app Hes].
  apply Forall_cons in Hes as [[Hn Hi] Hpost]. cbn in Hn0, Hn, Hi.
  pose proof (Z.mod_pos_bound i 10 ltac:(lia)). split; [done|]. split; [done|]. split.
  - apply Forall_app. split; [done|]. constructor; [|done]. split; [done|]. cbn. lia.
  - rewrite <-app_assoc. cbn [app]. rewrite !length_dir_split.
    pose proof (length_dir_split [] post (name, i)) as E. cbn [app] in E. rewrite E.
    unfold entry_bytes. cbn [fst snd]. rewrite filename_append, !length_app by lia. cbn [length]. lia.
Qed.
End entries.

(** Directories of the sizes that the client can write are short. *)
Lemma small_directory d : block_count (Z.of_nat (length d)) <= NDIRECT ->
  Z.of_nat (length (d : list byte)) < 2 ^ 32 - 1.
Proof.
  intros H. apply block_count_le in H; [|lia]. pose proof NDIRECT_val. pose proof BLOCK_SIZE_val. nia.
Qed.
