(* ===== verification/HdfsTheorems.v ===== *)
(** * Theorems on the name node and the data nodes

    The properties of the HDFS interface, stated against the interfaces of
    [Extent] and [BlockFacts]; the witnesses run on a network that loses no
    call and the disk of [FileTheorems]. *)

From S2P Require Import Prelude Disk Protocol Inode InodeFacts FileRead FileWrite FileTheorems.
From S2P Require Import Extent ExtentFacts BlockFacts DirFormat DirFacts Yfs YfsFacts YfsTheorems.
From S2P Require Import WireFormat GeneratedCode Protos Messages Datanode DatanodeFacts Namenode MemberFacts NamenodeFacts HdfsFacts NamespaceFacts.

#[local] Instance demo_block_laws : BlockLaws world := extent_block_laws demo_net (fun _ => eq_refl) demo_readable.

(** The path "/a", a data node and a name node without files. *)
Definition path_a : list byte := [slash; "a"%byte].
Definition demo_dn : DatanodeID :=
  new_message proto.DatanodeIDProto
    |> set_bytes 1 name_a |> set_bytes 2 name_a |> set_bytes 3 [] |> set_int 4 50010 |> set_int 5 0 |> set_int 6 0.
Definition demo_nn : namenode := nn_init demo_dn.

(** The root directory with the entries [es]. *)
Lemma demo_root_dir es : Forall entry_ok es -> block_count (Z.of_nat (length (dir_encode es))) = 1 ->
  exists s, ec_wf s /\ is_dir s 1 es /\ (forall j, j <> 1 -> ec_file s j = ec_file demo_world j) /\
    ec_room s = 1019.
Proof.
  intros Hok Hn. destruct (run_put demo_world ∅ 1 extent_protocol.T_DIR [] (dir_encode es))
    as (s & _ & Hwf & Hf & Ho & Hr); [apply demo_wf|apply demo_is_dir|rewrite Hn; done| |].
  { rewrite Hn, demo_room. done. }
  exists s. rewrite Hn, demo_room in Hr. change (blocks_for _) with 0 in Hr.
  split; [done|]. split; [done|]. split; [done|]. lia.
Qed.

(* ------------------------------------------------------------------ *)
(** ** Files *)

(** The file "/a" with three zero bytes. *)
Lemma demo_file : exists s, ec_wf s /\ is_dir s 1 [(name_a, 2)] /\
  ec_file s 2 = Some (extent_protocol.T_FILE, [x00; x00; x00]) /\ resolves s path_a (Some (2, 1)).
Proof.
  destruct demo_a as (s & Hwf & Hd & Hf & Hr).
  destruct (setattr_spec (mkYfs s ∅) 2 extent_protocol.T_FILE [] 3) as (s1 & _ & Hwf1 & Hf1 & Hj1);
    [exact Hwf|apply not_elem_of_empty|exact Hf|discriminate|cbn [ys]; rewrite Hr; discriminate|].
  assert (is_dir s1 1 [(name_a, 2)]) as Hd1.
  { split; [cbn [ys] in Hj1; rewrite Hj1 by discriminate; apply Hd|apply Hd]. }
  exists s1. split; [done|]. split; [done|]. split; [done|].
  apply (entry_resolves s1 path_a 1 1 [(name_a, 2)] 2);
    [reflexivity|constructor|done|discriminate|apply name_a_ok|reflexivity].
Qed.

(** C17. [RecursiveLookup] implements the walk along the components of a path:
    empty components are skipped, each other one is looked up in the directory
    reached so far, and the result is the last inode with the one before it, or
    none when a component is missing or is looked up in something that is not a
    directory. *)
Theorem recursive_lookup_refines {S} `{!ExtentClient S, !ExtentLaws S, !BlockLaws S} junk
    v h (s : S) path r :
  ec_wf s -> resolves s path r ->
  exists s', RecursiveLookup junk path (mkN v (mkYfs s h)) = Ret (mkN v (mkYfs s' h), inr r) /\ keeps s s'.
Proof. apply RecursiveLookup_spec. Qed.

Lemma recursive_lookup_refines_witness : exists s s',
  RecursiveLookup 0 path_a (mkN demo_nn (mkYfs s ∅)) = Ret (mkN demo_nn (mkYfs s' ∅), inr (Some (2, 1))).
Proof.
  destruct demo_file as (s & Hwf & _ & _ & Hr). exists s.
  destruct (recursive_lookup_refines 0 demo_nn ∅ s path_a (Some (2, 1)) Hwf Hr) as (s' & E & _).
  exists s'. exact E.
Defined.

(* ------------------------------------------------------------------ *)
(** ** The name space *)

(** [PBDelete] of a file whose size is not a multiple of the block size:
    the entry leaves the directory, the inode is removed, every other file is
    unchanged, and both locks are released. *)
Theorem delete_file {S} `{!ExtentClient S, !ExtentLaws S, !BlockLaws S} junk
    v h (s : S) src recursive p q pre post i :
  ec_wf s -> char_at src 0 = slash -> resolve s (1, 1) (dirname src) (Some (p, q)) ->
  basename src <> [] -> is_dir s p (pre ++ (basename src, i) :: post) ->
  assoc (basename src) (pre ++ (basename src, i) :: post) = Some i ->
  str_find (basename src) (dir_encode (pre ++ (basename src, i) :: post)) 0 = Some (entry_pos pre) ->
  block_count (Z.of_nat (length (dir_encode (pre ++ (basename src, i) :: post)))) <= NDIRECT ->
  removable s i -> i ∉ h -> p ∉ h ->
  exists s', PBDelete junk src recursive (mkN v (mkYfs s h)) = Ret (mkN v (mkYfs s' h), inr true) /\
    ec_wf s' /\ is_dir s' p (pre ++ post) /\ ec_file s' i = None /\
    (forall j, j <> p -> j <> i -> ec_file s' j = ec_file s j).
Proof. apply PBDelete_file_spec. Qed.

Lemma demo_removable s : ec_file s 2 = Some (extent_protocol.T_FILE, [x00; x00; x00]) -> removable s 2.
Proof. intros Hf. eexists _, _. split; [exact Hf|]. done. Qed.

Lemma delete_file_witness : exists s s',
  PBDelete 0 path_a true (mkN demo_nn (mkYfs s ∅)) = Ret (mkN demo_nn (mkYfs s' ∅), inr true) /\
  ec_file s' 2 = None.
Proof.
  destruct demo_file as (s & Hwf & Hd & Hf & _). exists s.
  destruct (delete_file 0 demo_nn ∅ s path_a true 1 1 [] [] 2) as (s' & E & _ & _ & Hn & _);
    [exact Hwf|reflexivity|constructor|discriminate|exact Hd|reflexivity|reflexivity|discriminate
    |by apply demo_removable|apply not_elem_of_empty|apply not_elem_of_empty|].
  exists s'. exact (conj E Hn).
Defined.

(** C16. [RecursiveDelete] of a directory whose entries are files with different
    inodes that are not locked, each with a size that is not a multiple of the
    block size (so no empty files, whose removal frees a block of another file,
    [remove_empty_corrupts]): the directory is empty afterwards, all its files
    are removed, and nothing else changes.  Every entry is the first one of the
    directory when it is deleted, so that the search for its name finds it
    whatever the other names are.  The extent service keeps
    [ExtentLaws], as the code's does when no call is lost and a block can be
    read behind a string ([extent_client_laws]). *)
Theorem recursive_delete_dir {S} `{!ExtentClient S, !ExtentLaws S} junk fuel v h d es (s : S) :
  ec_wf s -> is_dir s d es -> block_count (Z.of_nat (length (dir_encode es))) <= NDIRECT ->
  Forall (fun e => removable s e.2 /\ (e.2 ∉ h) /\ e.2 <> d) es -> NoDup es.*2 ->
  exists s', RecursiveDelete junk (Datatypes.S fuel) d (mkN v (mkYfs s h)) =
      Ret (mkN v (mkYfs s' h), inr true) /\
    ec_wf s' /\ is_dir s' d [] /\ (forall e, e ∈ es -> ec_file s' e.2 = None) /\
    (forall j, j <> d -> j ∉ es.*2 -> ec_file s' j = ec_file s j).
Proof. apply RecursiveDelete_dir. Qed.

Lemma recursive_delete_dir_witness : exists s s',
  RecursiveDelete 0 1 1 (mkN demo_nn (mkYfs s ∅)) = Ret (mkN demo_nn (mkYfs s' ∅), inr true) /\
  is_dir s' 1 [] /\ ec_file s' 2 = None.
Proof.
  destruct demo_file as (s & Hwf & Hd & Hf & _). exists s.
  destruct (recursive_delete_dir 0 0 demo_nn ∅ 1 [(name_a, 2)] s) as (s' & E & _ & Hd' & Hn & _);
    [exact Hwf|exact Hd|discriminate| |apply NoDup_singleton|].
  { apply Forall_singleton. split; [by apply demo_removable|].
    split; [apply not_elem_of_empty|discriminate]. }
  exists s'. exact (conj E (conj Hd' (Hn (name_a, 2) (list_elem_of_here _ _)))).
Defined.

(** C32. [Rename] of the last entry of a directory to another directory, where
    the name does not occur as a string before its entry, the new name holds
    neither the separator nor a zero byte, both directories have at most
    [NDIRECT] blocks and as many blocks are free: the entry leaves the source
    directory, the destination has it under the new name with the same inode,
    and nothing else changes.  The extent service keeps
    [ExtentLaws], as the code's does when no call is lost and a block can be
    read behind a string ([extent_client_laws]). *)
Theorem rename_last_entry {S} `{!ExtentClient S, !ExtentLaws S} junk v h (s : S) p q name dst es ds i :
  ec_wf s -> is_dir s p (es ++ [(name, i)]) -> is_dir s q ds -> p <> q -> name_ok dst ->
  assoc name (es ++ [(name, i)]) = Some i ->
  str_find name (dir_encode (es ++ [(name, i)])) 0 = Some (entry_pos es) ->
  block_count (Z.of_nat (length (dir_encode (es ++ [(name, i)])))) <= NDIRECT ->
  block_count (Z.of_nat (length (dir_encode (ds ++ [(dst, i)])))) <= NDIRECT -> NDIRECT <= ec_room s ->
  exists s', Rename junk p name q dst (mkN v (mkYfs s h)) = Ret (mkN v (mkYfs s' h), inr true) /\
    ec_wf s' /\ is_dir s' p es /\ is_dir s' q (ds ++ [(dst, i)]) /\
    (forall j, j <> p -> j <> q -> ec_file s' j = ec_file s j).
Proof.
  intros Hwf Hd Hq Hpq Hdst Ha Hfind Hn Hn' Hroom.
  destruct (last_entry_ok s p es name i Hd) as (Hname & Hi & Hok).
  eapply Rename_other; try done.
  - apply rename_erase_last; [apply Hname|lia|done|by apply small_directory].
  - pose proof (dir_encode_shrink es [] (name, i)) as H. by rewrite app_nil_r in H.
Qed.

Definition name_b : list byte := ["b"%byte].
Definition name_c : list byte := ["c"%byte].

Lemma demo_entry name i : name ∈ [name_a; name_b; name_c] -> 0 <= i < 2 ^ 64 -> entry_ok (name, i).
Proof.
  intros Hn Hi. split; [|done]. cbn.
  repeat (apply elem_of_cons in Hn as [->|Hn]; [by split; intros [?|?%elem_of_nil]%elem_of_cons|]).
  by apply elem_of_nil in Hn.
Qed.

Lemma rename_last_entry_witness : exists s s',
  Rename 0 1 name_b 2 name_c (mkN demo_nn (mkYfs s ∅)) = Ret (mkN demo_nn (mkYfs s' ∅), inr true) /\
  is_dir s' 1 [(name_a, 2)] /\ is_dir s' 2 [(name_c, 5)].
Proof.
  destruct (mkdir_spec 0 demo_yfs 1 [] name_a 2 0) as (s0 & _ & Hc); [apply demo_wf
    |apply demo_unlocked|apply demo_is_dir|apply name_a_ok|reflexivity
    |apply demo_first_free|apply demo_fits|].
  destruct Hc as (Hwf0 & Hd0 & Hf0 & _ & Hr0). cbn [demo_yfs ys app] in *. rewrite demo_room in Hr0.
  change (block_count (Z.of_nat (length (dir_encode [(name_a, 2)])))) with 1 in Hr0.
  change (block_count (Z.of_nat (length []))) with 0 in Hr0.
  change (blocks_for (Z.of_nat (length (dir_encode [])))) with 0 in Hr0.
  set (es := [(name_a, 2); (name_b, 5)]).
  destruct (run_put s0 ∅ 1 extent_protocol.T_DIR (dir_encode [(name_a, 2)]) (dir_encode es))
    as (s & _ & Hwf & Hf & Ho & Hr); [exact Hwf0|apply Hd0|discriminate| |].
  { replace (ec_room s0) with 1019 by lia. discriminate. }
  change (block_count (Z.of_nat (length (dir_encode es)))) with 1 in Hr.
  change (blocks_for (Z.of_nat (length (dir_encode [(name_a, 2)])))) with 1 in Hr.
  exists s. destruct (rename_last_entry 0 demo_nn ∅ s 1 2 name_b name_c [(name_a, 2)] [] 5)
    as (s' & E & _ & H1 & H2 & _);
    [exact Hwf|split; [exact Hf|repeat constructor; apply demo_entry; try done; set_solver]
    |split; [by rewrite Ho|constructor]|discriminate
    |apply (demo_entry name_c 0); [set_solver|done]|reflexivity|reflexivity|discriminate|discriminate| |].
  { replace (ec_room s) with 1019 by lia. discriminate. }
  exists s'. exact (conj E (conj H1 H2)).
Defined.

(** [Rename] of an entry between two others corrupts the directory: the
    last digit of the entry's inode number stays behind, so that the entry
    before it, of inode [j], then names inode [10 * j + i mod 10]. *)
Theorem rename_middle_corrupts {S} `{!ExtentClient S, !ExtentLaws S} junk v h (s : S) p name dst pre n0 j i post :
  post <> [] -> 1 <= j -> 10 * j + i mod 10 < 2 ^ 64 ->
  let es := (pre ++ [(n0, j)]) ++ (name, i) :: post in
  let es' := pre ++ (n0, 10 * j + i mod 10) :: post in
  ec_wf s -> is_dir s p es -> name_ok dst -> assoc name es = Some i ->
  str_find name (dir_encode es) 0 = Some (entry_pos (pre ++ [(n0, j)])) ->
  block_count (Z.of_nat (length (dir_encode es))) <= NDIRECT ->
  block_count (Z.of_nat (length (dir_encode (es' ++ [(dst, i)])))) <= NDIRECT -> NDIRECT <= ec_room s ->
  exists s', Rename junk p name p dst (mkN v (mkYfs s h)) = Ret (mkN v (mkYfs s' h), inr true) /\
    ec_wf s' /\ is_dir s' p (es' ++ [(dst, i)]) /\ (forall k, k <> p -> ec_file s' k = ec_file s k).
Proof.
  intros Hpost Hj Hb es es' Hwf Hd Hdst Ha Hfind Hn Hn' Hroom.
  destruct (middle_entry_ok s p pre n0 j name i post Hj Hb Hd) as (Hname & Hi & Hok & Hlen).
  eapply Rename_same; try done. apply rename_erase_middle; try done; [apply Hname|].
  by apply small_directory.
Qed.

Lemma rename_middle_corrupts_witness : exists s s',
  is_dir s 1 [(name_a, 2); (name_b, 3); (name_c, 4)] /\
  Rename 0 1 name_b 1 name_b (mkN demo_nn (mkYfs s ∅)) = Ret (mkN demo_nn (mkYfs s' ∅), inr true) /\
  is_dir s' 1 [(name_a, 23); (name_c, 4); (name_b, 3)].
Proof.
  destruct (demo_root_dir [(name_a, 2); (name_b, 3); (name_c, 4)]) as (s & Hwf & Hd & _ & Hr);
    [repeat constructor; apply demo_entry; try done; set_solver|reflexivity|].
  exists s. destruct (rename_middle_corrupts 0 demo_nn ∅ s 1 name_b name_b [] name_a 2 3 [(name_c, 4)])
    as (s' & E & _ & H & _); [discriminate|discriminate|reflexivity|exact Hwf|exact Hd
    |apply (demo_entry name_b 0); [set_solver|done]|reflexivity|reflexivity|discriminate|discriminate| |].
  { rewrite Hr. discriminate. }
  exists s'. exact (conj Hd (conj E H)).
Defined.

(** [PBMkdirs] and [PBCreate] never make a missing parent directory, not
    even when the request asks for it with createparent: the lookup of a
    missing component is reported as an error, and the request ends with
    "Traverse failed" and without a change. *)
Theorem missing_parent_fails {S} `{!ExtentClient S, !ExtentLaws S, !BlockLaws S} junk
    v h (s : S) src createparent pre c rest p q es :
  ec_wf s -> char_at src 0 = slash -> dirname src = pre ++ c :: rest ->
  resolve s (1, 1) pre (Some (p, q)) -> is_dir s p es -> c <> [] -> assoc (cstr c) es = None ->
  (exists s', PBMkdirs junk src createparent (mkN v (mkYfs s h)) =
     Ret (mkN v (mkYfs s' h), inl Traverse_failed) /\ keeps s s') /\
  (exists s', PBCreate junk src createparent (mkN v (mkYfs s h)) =
     Ret (mkN v (mkYfs s' h), inl Traverse_failed) /\ keeps s s').
Proof.
  intros Hwf Hc Hdir Hr Hd Hne Ha. unfold PBMkdirs, PBCreate. rewrite bool_decide_true by done.
  split; by eapply walk_missing.
Qed.

Definition path_a_b : list byte := [slash; "a"%byte; slash; "b"%byte].

Lemma missing_parent_fails_witness : exists s', PBMkdirs 0 path_a_b true (mkN demo_nn (mkYfs demo_world ∅)) =
  Ret (mkN demo_nn (mkYfs s' ∅), inl Traverse_failed).
Proof.
  destruct (missing_parent_fails 0 demo_nn ∅ demo_world path_a_b true [] name_a [] 1 1 [])
    as ((s' & E & _) & _); [apply demo_wf|reflexivity|reflexivity|constructor|apply demo_is_dir
    |discriminate|reflexivity|].
  exists s'. exact E.
Defined.

(** [PBMkdirs] of a path whose parent exists: the directory has a new,
    empty directory under the last component, and nothing else changes. *)
Theorem mkdirs_creates {S} `{!ExtentClient S, !ExtentLaws S, !BlockLaws S} junk
    v h (s : S) src createparent p q es i :
  ec_wf s -> char_at src 0 = slash -> resolve s (1, 1) (dirname src) (Some (p, q)) -> is_dir s p es ->
  p ∉ h -> basename src <> [] -> name_ok (basename src) -> assoc (basename src) es = None ->
  first_free s i -> entry_fits s es (basename src) i ->
  exists s', PBMkdirs junk src createparent (mkN v (mkYfs s h)) = Ret (mkN v (mkYfs s' h), inr true) /\
    is_dir s' p (es ++ [(basename src, i)]) /\ is_dir s' i [] /\ resolves s' src (Some (i, p)) /\
    (forall j, j <> p -> j <> i -> ec_file s' j = ec_file s j).
Proof.
  intros Hwf Hc Hr Hd Hp Hne Hname Ha Hfree Hfit. pose proof Hfree as (_ & Hnone & _).
  destruct (PBMkdirs_spec junk v h s src createparent p q es i) as (s' & E & Hcr); try done.
  pose proof Hcr as (_ & Hd' & Hf' & Ho & _). exists s'. split; [done|]. split; [done|].
  split; [split; [done|constructor]|]. split; [by eapply created_resolves|done].
Qed.

Lemma mkdirs_creates_witness : exists s', PBMkdirs 0 path_a false (mkN demo_nn (mkYfs demo_world ∅)) =
  Ret (mkN demo_nn (mkYfs s' ∅), inr true) /\ resolves s' path_a (Some (2, 1)).
Proof.
  destruct (mkdirs_creates 0 demo_nn ∅ demo_world path_a false 1 1 [] 2) as (s' & E & _ & _ & Hr & _);
    [apply demo_wf|reflexivity|constructor|apply demo_is_dir|apply not_elem_of_empty|discriminate
    |apply name_a_ok|reflexivity|apply demo_first_free|apply demo_fits|].
  exists s'. exact (conj E Hr).
Defined.

(* ------------------------------------------------------------------ *)
(** ** Data nodes *)

(** C18. The data nodes that the name node reports refine the history of
    heartbeats: after any sequence of clock rounds, heartbeats and
    registrations with fewer than 2^31 rounds, a data node is reported exactly
    when at least three rounds have passed since the start and it was heard in
    the last three of them.  The std::map stays sorted without duplicates. *)
Theorem datanodes_refine master tr id :
  let v := foldl nn_exec (nn_init master) tr in
  let m := foldl spec_exec spec_init tr in
  now m < 2 ^ 31 -> map_ok (datanode v) /\ (reported v id <-> alive m id).
Proof.
  intros v m Hb. assert (sim v m) as Hs by (apply sim_run; [apply sim_init|done|done]).
  pose proof (spec_now spec_init tr). split; [apply Hs|]. apply sim_reported; [done|]. by split.
Qed.

Lemma datanodes_refine_witness :
  reported (foldl nn_exec (nn_init demo_dn) [Tick; Tick; Register true demo_dn; Tick; Tick]) demo_dn /\
  ~ reported (foldl nn_exec (nn_init demo_dn) [Tick; Register true demo_dn; Tick; Tick; Tick; Tick]) demo_dn.
Proof.
  split.
  - apply (datanodes_refine demo_dn [Tick; Tick; Register true demo_dn; Tick; Tick] demo_dn); [reflexivity|].
    split; [discriminate|]. exists 2. split; [reflexivity|discriminate].
  - intros H. apply (datanodes_refine demo_dn [Tick; Register true demo_dn; Tick; Tick; Tick; Tick] demo_dn)
      in H as (_ & t & Ht & Hle); [|reflexivity].
    change (Some 1 = Some t) in Ht. injection Ht as <-. by apply Hle.
Defined.
