(* ===== verification/ReplyFacts.v ===== *)
(** * Facts about the name node's replies

    The messages that a client gets when it writes and reads a file can be
    sent, and carry what the handlers of [Namenode] computed. *)

From S2P Require Import Prelude Disk Protocol Inode InodeFacts DirFormat Extent Yfs Protobuf ProtobufFacts WireFormat.
From S2P Require Import WireFormatFacts GeneratedCode GeneratedFacts Protos Hrpc HrpcFacts Messages MessageFacts.
From S2P Require Import MessageSize BlockFacts Namenode NamenodeFacts HdfsFacts NameServer NameServerFacts NameService.
From S2P Require Import Datanode DataServer OpRequests OpRequestFacts.
Import name_service.

(** A location of a block. *)
Definition loc_info (loc : DatanodeID) : msg proto.DatanodeInfoProto :=
  new_message proto.DatanodeInfoProto |> set_message 1 loc |> set_bytes 8 (text "/default-rack").

Lemma add_locations a b c d e f g k u ls :
  foldl add_location (mkMsg (generated.mkMessage [a; b; c; d; e; f; g; k] u)) ls =
  mkMsg (generated.mkMessage [a; b; c ++ ((fun l => generated.message_value (body (loc_info l))) <$> ls); d; e;
    f ++ ((fun _ => VBool false) <$> ls); g ++ ((fun _ => VInt RAM_DISK) <$> ls);
    k ++ ((fun l => VBytes (hostname l)) <$> ls)] u).
Proof.
  revert c f g k. induction ls as [|l ls IH]; intros c f g k; [by rewrite !app_nil_r|].
  cbn [foldl fmap list_fmap]. rewrite !(cons_middle _ _ (_ <$> ls)), !app_assoc.
  exact (IH (c ++ [_]) (f ++ [_]) (g ++ [_]) (k ++ [_])).
Qed.

Definition block_token : msg proto.TokenProto :=
  new_message proto.TokenProto |> set_bytes 1 [] |> set_bytes 2 [] |> set_bytes 3 [] |> set_bytes 4 [].

(** The description of a block, field by field. *)
Lemma ConvertLocatedBlock_fields lb : ConvertLocatedBlock lb =
  new_message proto.LocatedBlockProto
    |> set_message 1 (yfs_block (block_id lb) (lb_size lb))
    |> set_int 2 (lb_offset lb)
    |> set_values 3 ((fun l => generated.message_value (body (loc_info l))) <$> locs lb)
    |> set_bool 4 false
    |> set_message 5 block_token
    |> set_values 6 ((fun _ => VBool false) <$> locs lb)
    |> set_values 7 ((fun _ => VInt RAM_DISK) <$> locs lb)
    |> set_values 8 ((fun l => VBytes (hostname l)) <$> locs lb).
Proof. unfold ConvertLocatedBlock. exact (f_equal (set_bool 4 false) (add_locations _ _ [] _ _ [] [] [] _ (locs lb))). Qed.

Section sizes.
Context `{PR : !ProtobufRuntime, WR : !WireRuntime, RL : !RuntimeLaws, WL : !WireLaws}.

Lemma loc_info_small (l : DatanodeID) : small 1024 l -> small 1280 (loc_info l).
Proof using Type.
  intros (Ht & Hi & Hc). unfold loc_info. split; [|split].
  - by typed_fields.
  - by init_fields.
  - compute_cost_with l. lia.
Qed.

Lemma values_cost_all {A} (f : A -> value) b (l : list A) : Forall (fun x => cost (f x) <= b) l ->
  values_cost (f <$> l) <= Z.of_nat (length l) * (2 + b).
Proof using Type.
  induction 1 as [|x l Hx _ IH]; [done|]. unfold values_cost in *. cbn [fmap list_fmap foldr length]. lia.
Qed.

(** A name node with few data nodes, of bounded descriptions. *)
Definition nodes_ok (v : namenode) : Prop :=
  Forall (fun e => small 1024 e.1) (datanode v) /\ (length (datanode v) <= 16)%nat.

Lemma nodes_ok_same v v' : same_nodes v v' -> nodes_ok v -> nodes_ok v'.
Proof using Type. intros [E _] H. unfold nodes_ok. by rewrite E. Qed.

Lemma alive_ok v : nodes_ok v -> Forall (small 1024) (GetDatanodes v) /\ (length (GetDatanodes v) <= 16)%nat.
Proof using Type.
  intros [Hs Hl]. unfold GetDatanodes. split.
  - apply Forall_fmap, Forall_forall. intros e [_ He]%list_elem_of_filter. by eapply Forall_forall in Hs.
  - rewrite length_fmap. etransitivity; [apply length_filter|done].
Qed.

(** The description of a block. *)
Lemma ConvertLocatedBlock_small v lb : nodes_ok v -> lb_ok v lb -> small 48000 (ConvertLocatedBlock lb).
Proof using Type.
  intros Hv [Hid Hoff Hlen Hlocs]. destruct (alive_ok v Hv) as [Hs Hn]. rewrite <-Hlocs in Hs, Hn.
  pose proof BLOCK_NUM_val. pose proof BLOCK_SIZE_val.
  destruct (yfs_block_small (block_id lb) (lb_size lb)) as (Ht & Hi & Hc); [lia|lia|].
  assert (Forall (fun l => small 1280 (loc_info l)) (locs lb)) as Hl
    by (eapply Forall_impl; [exact Hs|]; intros l; apply loc_info_small).
  assert (Forall (fun l => Z.of_nat (length (hostname l)) < 1024) (locs lb)) as Hh.
  { eapply Forall_impl; [exact Hs|]. intros l (_ & _ & Hl1).
    pose proof (get_bytes_cost 2 l (cost_nonneg _)). unfold hostname. lia. }
  rewrite ConvertLocatedBlock_fields. split; [|split].
  - typed_fields; [exact Ht|apply typed_u64; lia|..]; apply Forall_fmap; try by apply Forall_true.
    + eapply Forall_impl; [exact Hl|]. by intros l (Hl1 & _).
    + eapply Forall_impl; [exact Hh|]. cbn beta. intros l Hl1. apply typed_bytes; [auto|]. lia.
  - init_fields; apply Forall_fmap; try by apply Forall_true. eapply Forall_impl; [exact Hl|]. by intros l (_ & Hl1 & _).
  - pose proof (values_cost_all (fun l => generated.message_value (body (loc_info l))) 1280 (locs lb)
      ltac:(eapply Forall_impl; [exact Hl|]; intros l (_ & _ & Hl1); cbv beta; unfold msg_cost in Hl1; lia)) as H1.
    pose proof (values_cost_all (fun _ : DatanodeID => VBool false) 1 (locs lb) ltac:(by apply Forall_true)) as H2.
    pose proof (values_cost_all (fun _ : DatanodeID => VInt RAM_DISK) 10 (locs lb) ltac:(by apply Forall_true)) as H3.
    pose proof (values_cost_all (fun l => VBytes (hostname l)) 1030 (locs lb)
      ltac:(eapply Forall_impl; [exact Hh|]; intros l Hl1; cbv beta in *; cbn [cost]; lia)) as H4.
    unfold values_cost in *. revert H1 H2 H3 H4.
    generalize ((fun l => generated.message_value (body (loc_info l))) <$> locs lb)
      ((fun _ : DatanodeID => VBool false) <$> locs lb) ((fun _ : DatanodeID => VInt RAM_DISK) <$> locs lb)
      ((fun l => VBytes (hostname l)) <$> locs lb). intros vs1 vs2 vs3 vs4 H1 H2 H3 H4.
    compute_cost_with (yfs_block (block_id lb) (lb_size lb)). change (Z.of_nat 0) with 0. lia.
Qed.

(** The blocks of a file. *)
Lemma located_small v l : nodes_ok v -> Forall (lb_ok v) (lblocks l) -> Z.of_nat (length (lblocks l)) <= MAXFILE ->
  0 <= filelength l < 2 ^ 64 -> small (2 ^ 28) (located l).
Proof using Type.
  intros Hv Hl Hn Hlen. pose proof MAXFILE_val.
  assert (Forall (small 48000) (ConvertLocatedBlock <$> lblocks l)) as Hs.
  { apply Forall_fmap. eapply Forall_impl; [exact Hl|]. intros lb. by apply ConvertLocatedBlock_small. }
  assert (Forall (fun m => msg_cost m <= 48000) (ConvertLocatedBlock <$> lblocks l)) as Hc.
  { eapply Forall_impl; [exact Hs|]. intros m (_ & _ & Hm). lia. }
  apply parts_cost in Hc. rewrite length_fmap in Hc. unfold located. cbv zeta.
  revert Hs Hc. generalize (ConvertLocatedBlock <$> lblocks l). intros bs Hs Hc.
  assert (forall b, last bs = Some b -> small 48000 b) as Hb.
  { intros b Eb. apply last_Some in Eb as [bs' ->]. apply Forall_app in Hs as [_ Hs]. by inversion Hs. }
  assert (Forall (fun v => typed (TYPE_MESSAGE proto.LocatedBlockProto) v = true)
    ((fun b => generated.message_value (body b)) <$> bs)) as Ht
    by (apply typed_parts; eapply Forall_impl; [exact Hs|]; by intros m (Hm & _)).
  assert (Forall (fun v => generated.value_initialized (TYPE_MESSAGE proto.LocatedBlockProto) v = true)
    ((fun b => generated.message_value (body b)) <$> bs)) as Hi
    by (apply Forall_fmap; eapply Forall_impl; [exact Hs|]; by intros m (_ & Hm & _)).
  unfold values_cost in Hc. revert Ht Hi Hc. clear Hs.
  generalize ((fun b : msg proto.LocatedBlockProto => generated.message_value (body b)) <$> bs). intros vs Ht Hi Hc.
  destruct (last bs) as [b|]; [destruct (Hb b eq_refl) as (Htb & Hib & Hcb)|]; (split; [|split]).
  - typed_fields; [by apply typed_u64|done|exact Htb].
  - by init_fields.
  - compute_cost_with b. lia.
  - typed_fields; [by apply typed_u64|done].
  - by init_fields.
  - compute_cost. lia.
Qed.

Lemma file_status_small st : file_stat 0 st -> small 1024 (file_status st []).
Proof using Type.
  intros (mtime & atime & ->). unfold u64.
  pose proof (Z.mod_pos_bound mtime (2 ^ 64) ltac:(lia)). pose proof (Z.mod_pos_bound atime (2 ^ 64) ltac:(lia)).
  unfold file_status. split; [|split].
  - typed_fields; by apply typed_u64.
  - init_fields.
  - compute_cost. lia.
Qed.

(** A response with one message. *)
Lemma optional_spec {fields sub lab} b (x : msg sub) : fields = [(1, lab, TYPE_MESSAGE sub)] ->
  lab = LABEL_OPTIONAL \/ lab = LABEL_REQUIRED -> small b x ->
  small (b + 32) (optional (fields := fields) (Some x)) /\
  get_message sub 1 (optional (fields := fields) (Some x)) = x.
Proof using Type.
  intros -> Hlab (Ht & Hi & Hc). split; [|by destruct x as [[]]]. unfold optional. split; [|split].
  - by destruct Hlab as [-> | ->]; typed_fields.
  - by destruct Hlab as [-> | ->]; init_fields.
  - compute_cost_with x. change (Z.of_nat 0) with 0. lia.
Qed.
End sizes.
