(* ===== verification/HdfsWire.v ===== *)
(** * A file over the wire

    What the threads of the name node and of a data node answer to the requests
    that store and fetch a file, for every request with the right fields. *)

From S2P Require Import Prelude Disk Protocol Inode InodeFacts DirFormat Extent Yfs YfsFacts Protobuf ProtobufFacts.
From S2P Require Import WireFormat WireFormatFacts GeneratedCode GeneratedFacts Protos Hrpc HrpcFacts Messages MessageFacts.
From S2P Require Import MessageSize BlockFacts Namenode NamenodeFacts HdfsFacts NameServer NameServerFacts NameService.
From S2P Require Import Datanode DatanodeFacts DataServer DataServerFacts OpRequestFacts ReplyFacts.
Import name_server name_service data_server.

(** What a located block says. *)
Definition located_id (b : msg proto.LocatedBlockProto) : Z := get_int 2 0 (get_message proto.ExtendedBlockProto 1 b).
Definition located_size (b : msg proto.LocatedBlockProto) : Z := get_int 4 0 (get_message proto.ExtendedBlockProto 1 b).

Section exchanges.
Context {S : Type} `{!ExtentClient S, PR : !ProtobufRuntime, WR : !WireRuntime, FP : !FailedParse}.
Context {RL : RuntimeLaws} {WL : WireLaws}.
Context (junk : Z) (junk_attr : extent_protocol.attr) (dial : target -> option (list byte)).

(** The process of the name node, with no registration pending. *)
Definition at_ (n : nstate S) : process (S := S) := mkProcess n [].

(** A new connection to the name node with one request of method [m], any that
    satisfies [P], in one segment: the thread takes the process from [n] to [n']
    and sends back bytes that are read as status SUCCESS and the response [resp]. *)
Definition answers (m : method) (P : Req m -> Prop) (n n' : nstate S) (resp : Resp m) : Prop :=
  forall rpc hd (req : Req m), request_ok (mkRequest rpc hd m req) -> 0 <= callid rpc ->
    Z.of_nat (length (clientid rpc)) < 2 ^ 27 -> P req ->
    exists out, name_server.worker (handler junk junk_attr) [hello; HrpcWrite3 rpc hd req] (at_ n) = Ret (at_ n', out) /\
      HrpcRead2 (T1 := msg proto.RpcResponseHeaderProto) (T2 := Resp m) [out] =
        Ret (Some (name_server.response rpc name_server.SUCCESS, resp, []), []).

(** A new connection to a data node, with the store [y]: any request to write
    block [id] without targets, and the packets of [data]. *)
Definition block_stored (id : Z) (data : list byte) (y y' : yfs S) : Prop :=
  exists w, write_stream (block_packets 0 data) = Ret w /\
    forall req : msg proto.OpWriteBlockProto, sendable (2 ^ 31) req -> ow_blockid req = id -> ow_targets req = [] ->
      serve_connection dial (op_bytes 80 ++ write_delimited req ++ w) y = Ret (y', (write_answer [], [])).

(** Any request to read [len] bytes of block [id]: the packets that come back are
    those of [data]. *)
Definition block_fetched (id len : Z) (data : list byte) (y y' : yfs S) : Prop :=
  exists w, write_stream (block_packets 0 data) = Ret w /\
    forall req : msg proto.OpReadBlockProto, sendable (2 ^ 31) req -> or_blockid req = id -> or_offset req = 0 ->
      or_len req = len ->
      serve_connection dial (op_bytes 81 ++ write_delimited req) y =
        Ret (y', (write_delimited (data_server.read_response 0) ++ w, [])).

(** The blocks of a file are added one after the other: the name node gives a
    block, and a data node stores the chunk in the block of that number. *)
Inductive blocks_stored (src : list byte) : list (list byte) -> nstate S -> nstate S -> Prop :=
| blocks_stored_nil n : blocks_stored src [] n n
| blocks_stored_cons chunk cs n n1 y2 resp n' :
    answers AddBlock (fun req => get_bytes 1 req = src) n n1 resp ->
    block_stored (located_id (get_message proto.LocatedBlockProto 1 resp)) chunk (fs n1) y2 ->
    blocks_stored src cs (mkN (nn n1) y2) n' -> blocks_stored src (chunk :: cs) n n'.

(** A file is created, its blocks are stored, and it is completed with the number
    of bytes of the last block. *)
Definition file_stored (src : list byte) (cs : list (list byte)) (n n' : nstate S) : Prop :=
  exists n1 n2 created,
    answers Create (fun req => get_bytes 1 req = src /\ get_bool 5 false req = false) n n1 created /\
    blocks_stored src cs n1 n2 /\
    answers Complete (fun req => get_bytes 1 req = src /\ has 3 req = true /\
        get_int 4 0 (get_message proto.ExtendedBlockProto 3 req) = Z.of_nat (length (List.last cs []))) n2 n'
      (result (m := Complete) true).

(** The data of the located blocks [bs]. *)
Inductive blocks_fetched : list (msg proto.LocatedBlockProto) -> nstate S -> nstate S -> list byte -> Prop :=
| blocks_fetched_nil n : blocks_fetched [] n n []
| blocks_fetched_cons b bs n y1 block n' data :
    block_fetched (located_id b) (located_size b) block (fs n) y1 ->
    blocks_fetched bs (mkN (nn n) y1) n' data -> blocks_fetched (b :: bs) n n' (block ++ data).

(** The name node gives the length of the file and its blocks, and a data node
    the data of each. *)
Definition file_fetched (src : list byte) (n n' : nstate S) (size : Z) (data : list byte) : Prop :=
  exists n1 resp (l := get_message proto.LocatedBlocksProto 1 resp),
    answers GetBlockLocations (fun req => get_bytes 1 req = src) n n1 resp /\
    get_int 1 0 l = size /\ blocks_fetched (get_messages proto.LocatedBlockProto 2 l) n1 n' data.

(* ------------------------------------------------------------------ *)
(** ** The name node *)

Lemma response_fits m : class_fits (response_class m) = true.
Proof using Type. destruct m; vm_compute; reflexivity. Qed.

(** The bytes of a handler's response: the reader refuses one in which a required
    field is missing. *)
Lemma worker_response rpc hd m (req : Req m) n n' (resp : Resp m) :
  request_ok (mkRequest rpc hd m req) -> 0 <= callid rpc -> Z.of_nat (length (clientid rpc)) < 2 ^ 27 ->
  starts req = [] -> PB junk junk_attr m req n = Ret (n', inr resp) -> fits (2 ^ 29) resp ->
  exists out, name_server.worker (handler junk junk_attr) [hello; HrpcWrite3 rpc hd req] (at_ n) = Ret (at_ n', out) /\
    HrpcRead2 (T1 := msg proto.RpcResponseHeaderProto) (T2 := Resp m) [out] =
      Ret (if initialized resp then Some (name_server.response rpc name_server.SUCCESS, resp, []) else None, []).
Proof using RL WL.
  intros Hq Hc Hl Hst E Hf. exists (HrpcWrite2 (name_server.response rpc name_server.SUCCESS) resp). split.
  - assert (handler junk junk_attr m req (at_ n) = Ret (at_ n', inl resp)) as Eh.
    { unfold handler, at_. cbn [state started]. rewrite E, bind_Ret, Hst. reflexivity. }
    exact (worker_request _ (mkRequest rpc hd m req) _ _ _ Hq Hc Eh).
  - rewrite <-(app_nil_r (HrpcWrite2 _ _)). apply HrpcRead2_write2; [|exact Hf].
    apply success_sendable; [|exact Hl]. apply Hq.
Qed.

Lemma answers_PB m (P : Req m -> Prop) n n' (resp : Resp m) :
  (forall req : Req m, starts req = []) -> small (2 ^ 29) resp ->
  (forall req, P req -> PB junk junk_attr m req n = Ret (n', inr resp)) -> answers m P n n' resp.
Proof using RL WL.
  intros Hst Hs E rpc hd req Hq Hc Hl HP.
  destruct (small_sendable (2 ^ 29) resp (response_fits m) Hs) as [Hf Hi].
  destruct (worker_response rpc hd m req n n' resp Hq Hc Hl (Hst req) (E req HP) Hf) as (out & E1 & E2).
  exists out. split; [exact E1|]. rewrite E2, Hi. reflexivity.
Qed.

Lemma located_block lb : located_id (ConvertLocatedBlock lb) = block_id lb /\
  located_size (ConvertLocatedBlock lb) = lb_size lb.
Proof using Type. rewrite ConvertLocatedBlock_fields. done. Qed.

Lemma located_fields l : get_int 1 0 (located l) = filelength l /\
  get_messages proto.LocatedBlockProto 2 (located l) = ConvertLocatedBlock <$> lblocks l.
Proof using Type.
  unfold located, get_messages. cbv zeta. generalize (ConvertLocatedBlock <$> lblocks l). intros bs.
  assert (forall m : msg proto.LocatedBlocksProto, values 2 m = ((fun b => generated.message_value (body b)) <$> bs) ->
    as_msg proto.LocatedBlockProto <$> values 2 m = bs) as H.
  { intros m ->. rewrite <-list_fmap_compose. rewrite <-(list_fmap_id bs) at 2. apply list_fmap_ext. by intros _ [[vs u]] _. }
  by destruct (last bs); (split; [done|apply H]).
Qed.

(* ------------------------------------------------------------------ *)
(** ** Data nodes *)

Lemma block_stored_spec id chunk y y' : (length chunk <= BS)%nat ->
  write_packets id 0 (fun _ => None) (block_packets 0 chunk) [] y =
    Ret (y', ([mkAck 0 [Datanode.SUCCESS]; mkAck 1 [Datanode.SUCCESS]], true)) ->
  block_stored id chunk y y'.
Proof using RL WL.
  intros Hlen E. pose proof BS_BLOCK_SIZE. destruct (block_stream 0 chunk) as (w & Hw); [lia|lia|].
  exists w. split; [exact Hw|]. intros req Hreq Hid Ht.
  pose proof (serve_write_spec dial y y' id 0 chunk w [] req E ltac:(lia) ltac:(lia) Hw Hreq Hid Ht) as Es.
  rewrite app_nil_r in Es. exact (serve_one dial 80 (serve_write dial) _ _ _ _ (or_introl eq_refl) Es).
Qed.

Lemma block_fetched_spec id len y y' block : ReadBlock (u32 id) 0 len y = Ret (y', block) -> block <> [] ->
  Z.of_nat (length block) <= BLOCK_SIZE -> block_fetched id len block y y'.
Proof using RL WL.
  intros E Hne Hlen. destruct (block_stream 0 block) as (w & Hw); [lia|lia|]. exists w. split; [exact Hw|].
  intros req Hreq Hid Hoff Hl. pose proof (serve_read_spec y y' req block [] w) as Es.
  rewrite Hid, Hoff, Hl in Es. specialize (Es E ltac:(lia) Hne Hlen Hreq Hw). rewrite app_nil_r in Es.
  exact (serve_one dial 81 serve_read _ _ _ _ (or_intror (or_intror eq_refl)) Es).
Qed.

(* ------------------------------------------------------------------ *)
(** ** Files *)

Lemma blocks_stored_spec src cs n n' : put_run junk junk_attr src cs n n' -> nodes_ok (nn n) ->
  blocks_stored src cs n n'.
Proof using RL WL.
  induction 1 as [n|chunk cs v v1 y y1 y2 lb n' E Hlb Hsn Hlen Ew Hr IH]; intros Hv; [constructor|].
  pose proof (ConvertLocatedBlock_small v lb Hv Hlb) as Hs.
  destruct (optional_spec (fields := response_class AddBlock) 48000 _ eq_refl (or_intror eq_refl) Hs) as [Ho Eg].
  apply (blocks_stored_cons src chunk cs _ (mkN v1 y1) y2 (optional (Some (ConvertLocatedBlock lb)))).
  - apply answers_PB; [reflexivity|eapply small_le; [|exact Ho]; lia|]. intros req Hreq.
    cbn [PB]. rewrite Hreq. by rewrite (NM_bind_Ret _ _ _ _ _ E).
  - rewrite Eg, (proj1 (located_block lb)). by apply block_stored_spec.
  - apply IH. by eapply nodes_ok_same.
Qed.

Lemma file_stored_spec src cs v y n' : file_run junk junk_attr src cs v y n' -> nodes_ok v ->
  file_stored src cs (mkN v y) n'.
Proof using RL WL.
  intros (v1 & y1 & st & v2 & y2 & E1 & Hst & Hs1 & E2 & _ & E3 & _) Hv.
  destruct (optional_spec (fields := response_class Create) 1024 _ eq_refl (or_introl eq_refl)
    (file_status_small st Hst)) as [Ho _].
  exists (mkN v1 y1), (mkN v2 y2), (optional (Some (file_status st []))). split; [|split].
  - apply answers_PB; [reflexivity|eapply small_le; [|exact Ho]; lia|]. intros req [Hreq Hcp].
    cbn [PB]. rewrite Hreq, Hcp. by rewrite (NM_bind_Ret _ _ _ _ _ E1).
  - apply blocks_stored_spec; [exact E2|]. by eapply nodes_ok_same.
  - apply answers_PB; [reflexivity|split; [vm_compute; reflexivity|split; vm_compute; reflexivity]|].
    intros req (Hreq & H3 & Hl). cbn [PB]. rewrite Hreq, H3, Hl. by rewrite (NM_bind_Ret _ _ _ _ _ E3).
Qed.

Lemma blocks_fetched_spec lbs n n' data : get_run lbs n n' data ->
  blocks_fetched (ConvertLocatedBlock <$> lbs) n n' data.
Proof using RL WL.
  induction 1 as [n|lb lbs v y y1 block n' data E Hne Hlen _ IH]; [constructor|]. cbn [fmap list_fmap].
  apply blocks_fetched_cons with y1; [|exact IH]. destruct (located_block lb) as [-> ->]. by apply block_fetched_spec.
Qed.

Lemma file_fetched_spec src n n' size data : fetch_run junk junk_attr src n n' size data -> nodes_ok (nn n) ->
  0 <= size < 2 ^ 64 -> file_fetched src n n' size data.
Proof using RL WL.
  intros (y2 & lbs & E1 & Hok & Hl & E2) Hv Hsize. set (l := mkLocations size lbs) in *.
  destruct (optional_spec (fields := response_class GetBlockLocations) (2 ^ 28) _ eq_refl (or_introl eq_refl)
    (located_small (nn n) l Hv Hok Hl Hsize)) as [Ho Eg].
  exists (mkN (nn n) y2), (optional (Some (located l))). cbv zeta. rewrite Eg.
  destruct (located_fields l) as [-> ->]. split; [|split; [reflexivity|by apply blocks_fetched_spec]].
  apply answers_PB; [reflexivity|eapply small_le; [|exact Ho]; lia|]. intros req Hreq.
  cbn [PB]. rewrite Hreq. by rewrite (NM_bind_Ret _ _ _ _ _ E1).
Qed.
End exchanges.
