(* ===== verification/WireTheorems.v ===== *)
(** * Theorems on messages and connections

    The properties of the wire formats (packet headers, packet streams, HDFS
    frames), of remote calls, of the blocking queue and of the cache of
    connections.  The functions of the protobuf runtime that have no source
    are parameters with laws; the runs instantiate them. *)

From S2P Require Import Prelude Disk Protocol Inode InodeFacts FileRead FileRemove FileTheorems Extent ExtentFacts.
From S2P Require Import FileWrite BlockFacts DirFormat Yfs YfsFacts YfsTheorems LockServer Rpc Fifo LockClient Handle.
From S2P Require Import Protobuf ProtobufFacts WireFormat Runtime Hrpc HrpcFacts Datanode DatanodeFacts.
Import runtime.

(* ------------------------------------------------------------------ *)
(** ** Packets *)

(** A packet header with its four required fields survives serialising and
    parsing, takes the number of bytes that [ByteSize] computes, and exactly
    the 25 bytes that both ends of a connection expect when the optional field
    is not set. *)
Theorem packet_header_roundtrip `{!ProtobufRuntime, !RuntimeLaws} h : header_ok h ->
  parse_header (InternalSerializeWithCachedSizesToArray h) = Ret (h, true) /\
  Z.of_nat (length (InternalSerializeWithCachedSizesToArray h)) = ByteSize h /\
  (h_syncblock h = None -> ByteSize h = 25).
Proof.
  intros Hh. split; [by apply parse_serialize|]. split; [apply length_header|].
  destruct Hh as (off & seq & last & len & sync & -> & _). cbn. by intros ->.
Qed.

Lemma packet_header_roundtrip_witness :
  let h := mkPacketHeader (Some 512) (Some 3) (Some true) (Some (-1)) None [] in
  parse_header (InternalSerializeWithCachedSizesToArray h) = Ret (h, true).
Proof.
  intros h. apply (packet_header_roundtrip h). exists 512, 3, true, (-1), None. split; [reflexivity|].
  lia.
Defined.

(** Parsing a packet header ends on every input, with success or failure:
    the loop of the generated parser takes bytes from the input in every turn. *)
Theorem header_parse_terminates `{!ProtobufRuntime, !RuntimeProgress} l h : header_typed h ->
  exists r, MergePartialFromCodedStream l h = Ret r.
Proof. intros Hh. destruct (merge_parses (S (length l)) l h) as (h' & r & E & _); [lia|done|]. by exists (h', r). Qed.

Lemma header_parse_terminates_witness : exists r,
  MergePartialFromCodedStream (replicate 30 x09) header_default = Ret r.
Proof. apply (header_parse_terminates (replicate 30 x09) header_default). by split. Defined.

(** C20. The packets of a block, written to a connection, are read back with
    their offsets, numbers and data, up to the packet that is marked as the
    last one. *)
Theorem packet_stream_roundtrip `{!ProtobufRuntime, !RuntimeLaws} ps : Forall packet_ok ps -> ends_last ps ->
  exists w, write_stream ps = Ret w /\
    forall fuel rest, (length ps <= fuel)%nat -> read_stream fuel (w ++ rest) = Ret (Some (ps, rest)).
Proof. apply read_write_stream. Qed.

Lemma packet_stream_roundtrip_witness :
  let ps := [mkPacket 0 0 false ["a"%byte; "b"%byte]; mkPacket 2 1 true []] in
  exists w, write_stream ps = Ret w /\
    forall fuel rest, (2 <= fuel)%nat -> read_stream fuel (w ++ rest) = Ret (Some (ps, rest)).
Proof.
  intros ps. apply (packet_stream_roundtrip ps); [|by split].
  repeat constructor; discriminate.
Defined.

(* ------------------------------------------------------------------ *)
(** ** HDFS frames *)

(** A frame whose body arrives in two pieces is refused: [HrpcRead] takes
    the first piece for a failure, and the rest of the body stays on the
    socket, where the next request is expected. *)
Theorem split_frame_refused body1 body2 fd : Z.of_nat (length (body1 ++ body2)) < 2 ^ 32 ->
  body1 <> [] -> body2 <> [] ->
  HrpcRead ((be_bytes 4 (Z.of_nat (length (body1 ++ body2))) ++ body1) :: body2 :: fd) =
  (None, body2 :: fd).
Proof. apply HrpcRead_split. Qed.

Lemma split_frame_refused_witness :
  HrpcRead ([x00; x00; x00; x02; "a"%byte] :: [["b"%byte]]) = (None, [["b"%byte]]).
Proof. apply (split_frame_refused ["a"%byte] ["b"%byte] []); [reflexivity|discriminate|discriminate]. Defined.

(** [ReadVariant] reads what [WriteVarint32] writes, but only below 2^31:
    the seven bits of the last byte are shifted as an [int], and larger values
    come back with their sign extended to 64 bits. *)
Theorem read_variant_bounds v rest : 0 <= v < 2 ^ 32 ->
  exists u, ReadVariant (WriteVarint32ToArray v ++ rest) = Ret (Some (u, rest)) /\
    (u = v <-> v < 2 ^ 31).
Proof.
  intros Hv. exists (sign_extend v). split; [by apply ReadVariant_write|].
  unfold sign_extend. destruct (Z.ltb_spec v (2 ^ 31)); lia.
Qed.

Lemma read_variant_bounds_witness :
  exists u, ReadVariant (WriteVarint32ToArray (2 ^ 31) ++ []) = Ret (Some (u, [])) /\ u <> 2 ^ 31.
Proof.
  destruct (read_variant_bounds (2 ^ 31) []) as (u & E & Hu); [lia|].
  exists u. split; [exact E|]. lia.
Defined.

(* ------------------------------------------------------------------ *)
(** ** Remote calls *)

(** A remote call over a connection that delivers it runs the method on
    the arguments of the caller and gives it the method's status and result;
    with a negative status the variable of the caller keeps its value.  When
    the server's argument types leave bytes of the request over, the method
    does not run and the call reports [unmarshal_args_failure]. *)
Theorem rpc_call_correct {S A A' R} `{!OkDone, !OkDoneLaws, !Marshal A, !MarshalLaws A}
    `{!Marshal A', !Marshal R, !MarshalLaws R} (meth : A -> R -> S -> outcome (S * (Z * R)))
    (meth' : A' -> R -> S -> outcome (S * (Z * R))) a a0 a0' r r0 s s' b r' x l :
  wire_ok a -> fresh_out a0 -> fresh_out r -> wire_ok r' ->
  meth a r0 s = Ret (s', (b, r')) ->
  get a0' (mkU (put a) true) = (x, mkU l true) -> l <> [] ->
  call (handler_fn meth a0 r0) a r s = Ret (s', (b, if b <? 0 then r else r')) /\
  call (handler_fn meth' a0' r0) a r s = Ret (s, (-2, r)).
Proof.
  intros Ha Ha0 Hr Hr' E Eg Hl. split; [by apply call_transparent|].
  unfold call, handler_fn. by rewrite Eg, okdone_rest.
Qed.

(** Integers of [n] bytes, most significant byte first. *)
Definition int_marshal (n : nat) : Marshal Z := {|
  put z := be_bytes n z;
  get old u := if (length (u_buf u) <? n)%nat then (old, mkU (u_buf u) false)
               else (be_val (take n (u_buf u)), mkU (drop n (u_buf u)) (u_ok u))
|}.

#[local] Instance int_laws n : @MarshalLaws Z (int_marshal n).
Proof.
  refine {| wire_ok z := 0 <= z < 256 ^ Z.of_nat n; fresh_out _ := True |}.
  intros z old rest Hz _. cbn [put get int_marshal u_buf u_ok]. rewrite length_app, length_be_bytes.
  destruct (Nat.ltb_spec (n + length rest) n); [lia|].
  rewrite take_app_length', drop_app_length' by (by rewrite length_be_bytes).
  rewrite be_val_bytes, Z.mod_small by exact Hz. done.
Defined.

#[local] Instance demo_okdone : OkDone := fun u => u_ok u && bool_decide (u_buf u = []).
#[local] Instance demo_okdone_laws : OkDoneLaws.
Proof. split; [done|]. intros l Hl. cbn. by rewrite bool_decide_false. Qed.

#[local] Instance demo_int : Marshal Z := int_marshal 4.

(** A counter whose method adds its argument. *)
Definition add_meth (a r : Z) (s : Z) : outcome (Z * (Z * Z)) := Ret (s + a, (0, s)).

Lemma rpc_call_correct_witness :
  @call Z (Z * Z) Z _ _ _ (handler_fn (fun a r s => add_meth a.1 r s) (0, 0) 0) (5, 6) 0 10 =
    Ret (15, (0, 10)) /\
  @call Z (Z * Z) Z _ _ _ (handler_fn add_meth 0 0) (5, 6) 0 10 = Ret (10, (-2, 0)).
Proof.
  apply (rpc_call_correct (fun (a : Z * Z) r s => add_meth a.1 r s) add_meth (5, 6) (0, 0) 0 0 0 10 15 0
    10 5 (be_bytes 4 6)); cbn; try done; lia.
Defined.

(** C33. [get_block_ids] of the extent client, as [Extent] has it, is what the
    call templates compute with the list operators of marshall.h: the block
    numbers of the reply are appended to the list of the caller. *)
Theorem get_block_ids_wire N `{!OkDone, !OkDoneLaws} (u64m u32m : Marshal Z)
    {L64 : @MarshalLaws Z u64m} {L32 : @MarshalLaws Z u32m} junk eid block_ids w st ids :
  (forall z, 0 <= z < 2 ^ 32 -> @wire_ok Z u32m L32 z) -> (forall z, @fresh_out Z u32m L32 z) ->
  @wire_ok Z u64m L64 eid -> @fresh_out Z u64m L64 junk -> Forall (@wire_ok Z u32m L32) ids ->
  Z.of_nat (length ids) < 2 ^ 32 -> call_fate N (w_calls w) = Delivered ->
  extent_server.get_block_ids (srv_env N (w_calls w)) (w_disk w) eid [] = Ret (st, ids) ->
  @call world Z (list Z) _ u64m (@list_marshal u32m junk Z u32m junk)
    (@handler_fn world Z (list Z) _ u64m (@list_marshal u32m junk Z u32m junk)
      (fun eid r w =>
        reply ← extent_server.get_block_ids (srv_env N (w_calls w)) (w_disk w) eid r;
        Ret (mkWorld (w_disk w) (Datatypes.S (w_calls w)), reply)) junk [])
    eid block_ids w =
  extent_client.get_block_ids N eid block_ids w.
Proof.
  intros Hw Hf Heid Hj Hids Hlen Hfate E.
  assert (st = extent_protocol.OK) as ->.
  { unfold extent_server.get_block_ids in E.
    destruct (Inode.get_block_ids _ _ _ _); [|done..]. by injection E as <- <-. }
  unfold extent_client.get_block_ids, extent_client.call. rewrite Hfate, E.
  unfold call, handler_fn. rewrite (get_all eid junk) by done. rewrite okdone_end. cbn [negb].
  rewrite E, !bind_Ret. cbn [Z.ltb Z.compare extent_protocol.OK].
  change (get block_ids (mkU (put ids) true))
    with (@list_get u32m junk Z u32m junk block_ids (mkU (@list_put u32m Z u32m ids) true)).
  rewrite <-(app_nil_r (@list_put u32m Z u32m ids)).
  rewrite (@list_get_put u32m L32 junk Hw Hf Z u32m L32 junk ids block_ids []) by done.
  by rewrite okdone_end.
Qed.

Lemma demo_block_ids : extent_server.get_block_ids demo_env demo_disk 1 [] = Ret (extent_protocol.OK, []).
Proof.
  pose proof demo_ok as Hfs. pose proof demo_live as Hl.
  pose proof (length_content demo_disk 1 Hfs Hl) as Hc. pose proof (length_file_ids demo_disk 1 Hfs Hl) as Hn.
  pose proof demo_root as (_ & _ & E)%file_Some. rewrite <-E in Hc. cbn [length] in Hc.
  rewrite <-Hc in Hn. change (block_count (Z.of_nat 0)) with 0 in Hn.
  unfold extent_server.get_block_ids. change (extent_server.mask 1) with 1.
  rewrite get_block_ids_spec by assumption.
  destruct (file_ids demo_disk (ino_at demo_disk 1)); [reflexivity|]. cbn [length] in Hn. lia.
Qed.

Lemma get_block_ids_wire_witness :
  @call world Z (list Z) _ (int_marshal 8) (@list_marshal (int_marshal 4) 0 Z (int_marshal 4) 0)
    (@handler_fn world Z (list Z) _ (int_marshal 8) (@list_marshal (int_marshal 4) 0 Z (int_marshal 4) 0)
      (fun eid r w =>
        reply ← extent_server.get_block_ids (srv_env demo_net (w_calls w)) (w_disk w) eid r;
        Ret (mkWorld (w_disk w) (Datatypes.S (w_calls w)), reply)) 0 [])
    1 [7] demo_world =
  extent_client.get_block_ids demo_net 1 [7] demo_world.
Proof.
  apply (@get_block_ids_wire demo_net _ _ (int_marshal 8) (int_marshal 4) (int_laws 8) (int_laws 4)
    0 1 [7] demo_world extent_protocol.OK []);
    [intros z Hz; exact Hz|intros z; exact I|split; [discriminate|reflexivity]|exact I|constructor
    |reflexivity|reflexivity|exact demo_block_ids].
Defined.

(** A lock acquired through [lock_client] is granted when it is free; the
    value returned as the status is the lock's number, so it is OK only for
    numbers that are zero modulo 2^32.  Releasing it works the same way, and a
    second release stops the client. *)
Theorem lock_client_correct `{!OkDone, !OkDoneLaws} `{Args : !Marshal (Z * Z), !MarshalLaws (Z * Z)}
    `{Int : !Marshal Z, LI : !MarshalLaws Z} cl_id ja j lid (s : lock_server.server) :
  fresh_out ja -> fresh_out j -> wire_ok (cl_id, lid) -> wire_ok (sint 32 lid) -> 0 <= cl_id ->
  lock_server.lock_map s !! lid = None ->
  exists s1 s2, lock_client.acquire cl_id ja j lid s = Ret (s1, sint 32 lid) /\
    lock_server.lock_map s1 !! lid = Some (lock_server.mkConfig true cl_id) /\
    (sint 32 lid = lock_protocol.OK <-> lid mod 2 ^ 32 = 0) /\
    lock_client.acquire cl_id ja j lid s1 = Stuck /\
    lock_client.release cl_id ja j lid s1 = Ret (s2, sint 32 lid) /\
    lock_server.nacquire s2 = lock_server.nacquire s /\
    lock_client.release cl_id ja j lid s2 = Abort.
Proof.
  intros Hja Hj Ha Hr Hid Hm.
  assert ((cl_id <? 0) = false) as Eid by (by apply Z.ltb_ge).
  set (s1 := lock_server.mkServer (<[lid := lock_server.mkConfig true cl_id]> (lock_server.lock_map s))
    (lock_server.nacquire s + 1)).
  set (s2 := lock_server.mkServer (<[lid := lock_server.mkConfig false cl_id]> (lock_server.lock_map s1))
    (lock_server.nacquire s1 - 1)).
  assert (lock_server.lock_map s1 !! lid = Some (lock_server.mkConfig true cl_id)) as H1
    by apply lookup_insert_eq.
  exists s1, s2. split; [|split; [exact H1|split; [|split; [|split; [|split]]]]].
  - unfold lock_client.acquire.
    rewrite (lock_client.verified_spec _ _ _ Hja Hj _ lid s s1 lock_protocol.OK (sint 32 lid)); try done.
    unfold lock_client.srv_acquire, lock_server.acquire. cbn [fst snd]. by rewrite Eid, Hm.
  - unfold sint, lock_protocol.OK. pose proof (Z.mod_pos_bound lid (2 ^ 32) ltac:(lia)). cbv zeta.
    destruct (Z.ltb_spec (lid mod 2 ^ 32) (2 ^ (32 - 1))); lia.
  - unfold lock_client.acquire, lock_client.verified, call, handler_fn.
    rewrite get_all, okdone_end by done. cbn [negb]. unfold lock_client.srv_acquire, lock_server.acquire.
    cbn [fst snd]. by rewrite Eid, H1.
  - unfold lock_client.release.
    rewrite (lock_client.verified_spec _ _ _ Hja Hj _ lid s1 s2 lock_protocol.OK (sint 32 lid)); try done.
    unfold lock_client.srv_release, lock_server.release. cbn [fst snd]. by rewrite Eid, H1.
  - cbn. lia.
  - unfold lock_client.release.
    rewrite (lock_client.verified_spec _ _ _ Hja Hj _ lid s2 s2 lock_protocol.RETRY (sint 32 lid)); try done.
    unfold lock_client.srv_release, lock_server.release. cbn [fst snd]. rewrite Eid.
    unfold s2. cbn [lock_server.lock_map]. by rewrite lookup_insert_eq.
Qed.

Lemma lock_client_correct_witness : exists s1 s2,
  lock_client.acquire 3 (0, 0) 0 9 lock_server.init = Ret (s1, 9) /\
  lock_client.release 3 (0, 0) 0 9 s1 = Ret (s2, 9) /\
  lock_client.release 3 (0, 0) 0 9 s2 = Abort.
Proof.
  destruct (lock_client_correct (Int := demo_int) 3 (0, 0) 0 9 lock_server.init)
    as (s1 & s2 & E1 & _ & _ & _ & E2 & _ & E3);
    [split; exact I|exact I|split; (split; [discriminate|reflexivity])|split; [discriminate|reflexivity]
    |discriminate|reflexivity|].
  exists s1, s2. exact (conj E1 (conj E2 E3)).
Defined.

(* ------------------------------------------------------------------ *)
(** ** The blocking queue and the cache of connections *)

(** C22. The queue under every schedule of its callers: elements leave in the
    order in which they entered and none is lost, a queue with a limit never
    exceeds it, and no wake-up is lost: when nobody that was woken is still to
    run, a producer sleeps only if the queue is full, and a consumer only if
    it is empty. *)
Theorem fifo_correct {T} limit (evs : list (@fifo.event T)) (f := fifo.run evs (fifo.init limit)) :
  0 <= limit < 2 ^ 31 ->
  fifo.enqueued f = fifo.dequeued f ++ fifo.q_ f /\
  (0 < limit -> Z.of_nat (length (fifo.q_ f)) <= limit) /\
  (fifo.wait_space f <> [] -> fifo.ready_enq f = [] -> Z.of_nat (length (fifo.q_ f)) = limit) /\
  (fifo.wait_item f <> 0%nat -> fifo.ready_deq f = 0%nat -> fifo.q_ f = []).
Proof.
  intros Hlim. destruct (fifo.run_fifo_ok evs _ (fifo.init_fifo_ok limit)) as [Ho Hm Hc Hu Hs Hi].
  assert (fifo.max_ f = limit) as Emax.
  { unfold f. rewrite fifo.run_max. apply u32_id. lia. }
  fold f in Ho, Hm, Hc, Hu, Hs, Hi. rewrite Emax in *. split; [done|]. split; [intros; apply Hc; lia|].
  split.
  - intros Hw Hr. specialize (Hs Hw). rewrite Hr in Hs. cbn in Hs. unfold fifo.free_places in Hs.
    destruct (Z.eq_dec limit 0) as [E|E]; [by rewrite (Hu E) in Hw|]. specialize (Hc E). lia.
  - intros Hw Hr. specialize (Hi Hw). apply nil_length_inv. lia.
Qed.

Lemma fifo_correct_witness :
  let f := fifo.run [fifo.Enq 1 true; fifo.Enq 2 true; fifo.Deq 0; fifo.ResumeEnq 0; fifo.Deq 0; fifo.Deq 0]
    (fifo.init 1) in
  fifo.enqueued f = [1; 2] /\ fifo.dequeued f = [1; 2] /\ fifo.q_ f = [] /\ fifo.wait_item f = 1%nat.
Proof.
  intros f. destruct (fifo_correct 1 [fifo.Enq 1 true; fifo.Enq 2 true; fifo.Deq 0; fifo.ResumeEnq 0;
    fifo.Deq 0; fifo.Deq 0]) as (_ & _ & _ & Hq); [split; [discriminate|reflexivity]|].
  split; [reflexivity|]. split; [reflexivity|]. split; [apply Hq; [discriminate|reflexivity]|reflexivity].
Defined.

(** C21. A process makes handles by the constructor, destroys them, binds them
    (other threads run while [bind] waits), uses the connections it got, and
    deletes names, in any order; it does not copy a handle, and does not destroy
    or bind it while a thread is in its [safebind].  In fewer than 2^31 such
    steps no freed [hinfo] object or connection is touched, no locked mutex is
    destroyed and no reference count overflows: every step succeeds; the pointers
    of the live handles are valid, the count of an object is the number of
    handles that have it, and the connection that a handle got is live. *)
Theorem handles_safe es : Z.of_nat (length es) < 2 ^ 31 ->
  exists p, handle.run handle.process_init es = Ret p /\
  (forall k hd h, handle.handles p !! k = Some hd -> handle.hp hd = Some h ->
     exists x, handle.heap (handle.mgr p) !! h = Some x /\
       handle.refcnt x = handle.users h (handle.handles p) /\ 0 < handle.refcnt x) /\
  (forall k hd c, handle.handles p !! k = Some hd -> handle.got hd = Some c -> c ∈ handle.conns (handle.mgr p)) /\
  (forall name h, handle.hmap (handle.mgr p) !! name = Some h ->
     is_Some (handle.heap (handle.mgr p) !! h)).
Proof.
  intros Hn. destruct (handle.run_ok es handle.process_init handle.process_init_ok) as (p & E & Hok); [done|].
  exists p. split; [done|]. split_and!.
  - intros k hd h Hd Hp. destruct (handle.ok_live p Hok k hd h Hd Hp) as [x Hx]. exists x. split; [done|].
    rewrite (handle.ok_users p Hok h x Hx). split; [done|]. apply handle.users_live. by exists k, hd.
  - intros k hd c Hd Hg. by apply (handle.got_live p Hok k hd).
  - intros name h Hm. destruct (handle.ok_hmap p Hok name h Hm) as (x & Hx & _). by exists x.
Qed.

(** Two handles share an object; one binds it and calls, the name is deleted, the
    first handle goes, the second is still valid and is not bound again; when it
    goes too the object and the connection are freed. *)
Definition demo_handles : list handle.event :=
  [handle.New 1 "a"; handle.New 2 "a"; handle.Bind 1; handle.Bind 2; handle.BindEnd 1 0; handle.Call 1;
   handle.Delete "a"; handle.Done 1; handle.Bind 2; handle.Call 2; handle.New 3 "a"].

Lemma handles_safe_witness : exists p, handle.run handle.process_init demo_handles = Ret p /\
  (exists hd h x, handle.handles p !! 2%nat = Some hd /\ handle.hp hd = Some h /\
     handle.heap (handle.mgr p) !! h = Some x /\ handle.refcnt x = 1 /\ 0 < handle.refcnt x /\
     handle.del x = true) /\
  match handle.run p [handle.Done 2] with
  | Ret p' => handle.heap (handle.mgr p') = ∅ /\ handle.conns (handle.mgr p') = ∅
  | _ => False
  end.
Proof.
  destruct (handles_safe demo_handles) as (p & E & Hl & _); [reflexivity|]. exists p. split; [exact E|].
  assert (handle.run handle.process_init demo_handles = Ret p) as E' by exact E. vm_compute in E'.
  injection E' as <-. split; [|vm_compute; split; reflexivity].
  do 3 eexists. split; [vm_compute; reflexivity|]. split; [reflexivity|].
  destruct (Hl 2%nat _ _ eq_refl eq_refl) as (x & Hx & Hr & Hp). vm_compute in Hx. injection Hx as <-.
  split_and!; [vm_compute; reflexivity|reflexivity|exact Hp|reflexivity].
Defined.
