(* ===== verification/ServerTheorems.v ===== *)
(** * Theorems on the servers of HDFS

    What the threads of the data node and of the name node do with the bytes of
    a connection: requests, replies and packets are objects of the generated
    message classes.  The functions of the protobuf runtime that have no source
    are parameters with laws; the runs instantiate them. *)

From S2P Require Import Prelude Disk Protocol Inode InodeFacts FileRead FileRemove FileTheorems Extent ExtentFacts.
From S2P Require Import FileWrite BlockFacts DirFormat DirFacts Yfs YfsFacts YfsTheorems Protobuf ProtobufFacts.
From S2P Require Import WireFormat WireFormatFacts GeneratedCode GeneratedFacts Runtime Protos Hrpc HrpcFacts Messages.
From S2P Require Import MessageFacts MessageSize NameServer NameServerFacts Datanode DatanodeFacts DataServer.
From S2P Require Import DataServerFacts Namenode NameService OpRequests OpRequestFacts RecoveryFacts.
From Stdlib Require String.

(* ------------------------------------------------------------------ *)
(** ** The data node's connections *)

Section data_node.
Import data_server.
Context {S : Type} `{!ExtentClient S, PR : !ProtobufRuntime, WR : !WireRuntime, FP : !FailedParse}.
Context (dial : target -> option (list byte)).

Section laws.
Context {RL : RuntimeLaws} {WL : WireLaws} `{!ExtentLaws S, !BlockLaws S}.

(** C5. A connection to a data node on which a client writes [data] to part of
    a block and then reads that part: the bytes that come back are the
    acknowledgements of the packets and the packets of exactly the data that
    was written; the block keeps its other bytes, and all other blocks and
    files are unchanged. *)
Theorem block_write_read (s : S) h id d off data (n := Z.of_nat (length data))
    (wr : msg proto.OpWriteBlockProto) (rd : msg proto.OpReadBlockProto) :
  ec_wf s -> ec_raw s id d -> 0 <= off -> off + n <= BLOCK_SIZE -> data <> [] ->
  sendable (2 ^ 31) wr -> ow_blockid wr = id -> ow_targets wr = [] ->
  sendable (2 ^ 31) rd -> or_blockid rd = id -> or_offset rd = off -> or_len rd = n ->
  exists w s', write_stream (block_packets off data) = Ret w /\
    serve_connection dial
      (op_bytes 80 ++ write_delimited wr ++ w ++ op_bytes 81 ++ write_delimited rd) (mkYfs s h) =
    Ret (mkYfs s' h, (write_answer [] ++ write_delimited (read_response off) ++ w, [])) /\
    block_put s s' id (overlay d off data).
Proof using RL WL.
  intros Hwf Hk Hoff Hlen Hne Hw1 Hw2 Hw3 Hr1 Hr2 Hr3 Hr4.
  destruct (block_stream off data Hoff Hlen) as (w & Hw).
  destruct (connection_write_read dial s h id d off data w wr rd) as (s' & E & Hs); try done.
  by exists w, s'.
Qed.

(** C6. A write with any number of targets: every data node of the pipeline
    stores the data, passes the request without its first target and the packets
    on to that target, reads its acknowledgements, and adds its own success; the
    client gets the successes of all of them. *)
Theorem block_replicated (stores : list (yfs S)) off data (req : msg proto.OpWriteBlockProto) :
  Forall (has_block (ow_blockid req)) stores -> sendable (2 ^ 31) req ->
  length stores = Datatypes.S (length (ow_targets req)) -> Z.of_nat (length stores) < 2 ^ 28 ->
  0 <= off -> off + Z.of_nat (length data) <= BLOCK_SIZE ->
  exists w stores', write_stream (block_packets off data) = Ret w /\
    pipeline (op_bytes 80 ++ write_delimited req ++ w) stores stores'
      (write_answer (replicate (length (ow_targets req)) Datanode.SUCCESS)) /\
    Forall2 (block_written (ow_blockid req) off data) stores stores'.
Proof using RL WL.
  intros Hs Hreq Hl Hb Hoff Hlen. destruct (block_stream off data Hoff Hlen) as (w & Hw).
  destruct (pipeline_write (ow_blockid req) off data w req stores) as (stores' & Hp & Hset); try done.
  by exists w, stores'.
Qed.

(** The transfer of a block, with which the name node fills a new data node:
    the bytes that go to the target make it store the same block, and the
    first node's store does not change. *)
Theorem block_transferred dial2 x (s1 s2 : S) h1 h2 d1 d2
    (req : msg proto.OpTransferBlockProto) (id := ot_blockid req) :
  ec_wf s1 -> ec_raw s1 id d1 -> ec_wf s2 -> ec_raw s2 id d2 ->
  sendable (2 ^ 31) req -> ot_targets req = [x] -> message_size (mirror_request req) < 2 ^ 31 ->
  dial x = Some (write_answer []) ->
  exists bytes s1' s2',
    serve_connection dial (op_bytes 86 ++ write_delimited req) (mkYfs s1 h1) =
      Ret (mkYfs s1' h1, (response Datanode.SUCCESS, [(x, bytes)])) /\
    serve_connection dial2 bytes (mkYfs s2 h2) = Ret (mkYfs s2' h2, (write_answer [], [])) /\
    unchanged s1 s1' /\ block_put s2 s2' id d1.
Proof using RL WL.
  intros Hwf1 Hk1 Hwf2 Hk2 Hreq Hx Hm Hdial.
  destruct (transfer_block dial dial2 x s1 s2 h1 h2 d1 d2 req) as (bytes & s1' & s2' & E1 & E2 & Hu & _ & Hs); try done.
  by exists bytes, s1', s2'.
Qed.

(** C7. A data node that registers late gets the blocks that this name node has
    given to files so far, if none is given while it registers: the thread of the
    registration sends the first data node one transfer per block, the
    first data node serves them and its store does not change, and the new
    data node, serving what the first one sends, ends with the first node's
    content in each of those blocks and with its own in all others.  What each
    party answers is what the other was assumed to receive. *)
Theorem recovery_copies (id : DatanodeID) (v : namenode) (s1 s2 : S) h1 h2
    (first := (ipaddr (master_datanode v), xferport (master_datanode v))) (new := (ipaddr id, xferport id)) :
  5 < heartbeat_count v -> small (2 ^ 27) id -> dial first = Some (response Datanode.SUCCESS) ->
  ec_wf s1 -> ec_wf s2 ->
  (forall bid, bid ∈ HDFS_block v -> (exists d, ec_raw s1 bid d) /\ (exists d, ec_raw s2 bid d)) ->
  exists v' sent fwd s1' s2',
    name_service._RegisterDatanode dial id v = Ret (v', sent) /\ Forall (fun e => e.1 = first) sent /\
    serve_all (reaches new (write_answer [])) (snd <$> sent) (mkYfs s1 h1) =
      Ret (mkYfs s1' h1, (replicate (length sent) (response Datanode.SUCCESS), (fun b => (new, b)) <$> fwd)) /\
    serve_all (fun _ => None) fwd (mkYfs s2 h2) =
      Ret (mkYfs s2' h2, (replicate (length sent) (write_answer []), [])) /\
    (forall bid e, ec_raw s1' bid e <-> ec_raw s1 bid e) /\
    forall bid e, ec_raw s2' bid e <-> if decide (bid ∈ HDFS_block v) then ec_raw s1 bid e else ec_raw s2 bid e.
Proof using RL WL.
  intros Hc Hid Hd Hwf1 Hwf2 Hraw. destruct (copied_blocks id v Hc) as (bids & Ec & Hin).
  destruct (copies_spec id Hid bids s1 s2 h1 h2 Hwf1 Hwf2) as (fwd & s1' & s2' & E1 & E2 & _ & _ & Hr1 & _ & Hr2).
  { apply Forall_forall. intros bid Hb. by apply Hraw, Hin. }
  eexists (RegisterDatanode id v).1, _, fwd, s1', s2'. split; [|split; [|split; [|split; [|split; [done|]]]]].
  - unfold name_service._RegisterDatanode. rewrite (surjective_pairing (RegisterDatanode id v)), Ec.
    by rewrite (proj1 (replicate_blocks_spec dial (master_datanode v) id bids Hd)), bind_Ret.
  - by apply Forall_fmap, Forall_true.
  - rewrite <-list_fmap_compose, length_fmap. exact E1.
  - rewrite length_fmap. exact E2.
  - intros bid e. rewrite Hr2. by destruct (decide (bid ∈ bids)) as [Hb|Hb]; rewrite Hin in Hb; [rewrite decide_True|rewrite decide_False].
Qed.
End laws.

(** C35. The thread of a connection to a data node ends on every input, if the
    calls of the extent client do: whatever bytes a client or another data
    node sends, every operation and every packet takes some of them. *)
Theorem data_server_terminates {RP : RuntimeProgress} {WP : WireProgress} {FL : FailedParseLaws}
    (ins : list byte) (y : yfs S) :
  (forall id l s, ec_read_block id l s <> Stuck) -> (forall id l s, ec_write_block id l s <> Stuck) ->
  serve_connection dial ins y <> Stuck.
Proof using Type. intros Hr Hw. apply worker_safe; try done. lia. Qed.
End data_node.

(* ------------------------------------------------------------------ *)
(** ** The name node's connections *)

Import name_server.

Section name_node.
Context `{PR : !ProtobufRuntime, WR : !WireRuntime}.
Context {S : Type} (PB : forall m, Req m -> S -> outcome (S * (Resp m + list byte))).

(** C19. The thread of a connection to the name node reads the header and every
    request of the connection, if each of them arrives in one segment: it runs the
    handler of the method named in each, in order, and sends back the replies of
    the handlers, a response or the message of an exception; for a request with a
    negative call number it runs no handler and sends nothing. *)
Theorem name_server_serves {RL : RuntimeLaws} {WL : WireLaws} qs s s' out :
   Forall request_ok qs -> handle_all PB qs s = Ret (s', out) ->
  worker PB (hello :: (request_bytes <$> qs)) s = Ret (s', out).
Proof using Type. apply worker_requests. Qed.

(** C34. The loop of a connection's thread ends on every input: whatever bytes a
    client sends, in whatever segments, each turn takes some of them or is the
    last one.  If the thread does wait for ever, one of the handlers does, in a
    state to which the handlers before it led. *)
Theorem name_server_terminates {RP : RuntimeProgress} {WP : WireProgress} fd s : worker PB fd s = Stuck ->
  exists m req s', handled PB s s' /\ PB m req s' = Stuck.
Proof using Type.
  unfold worker. destruct (ReadHeader fd) as [ok fd']. destruct ok; cbn [negb]; [|discriminate].
  apply serve_total. lia.
Qed.

(** A data node's registration and its heartbeat over a new connection: the
    method names are found although their case differs, the handler runs on
    the data node's message, and the data node takes the reply for success
    exactly when the handler did not throw. *)
Theorem datanode_rpc {RL : RuntimeLaws} {WL : WireLaws} uuid hostname (id : msg proto.DatanodeIDProto) s0 s1 s2 r1 r2
    (rpc := dn_rpc_header uuid)
    (master := bool_decide (hostname = String.list_byte_of_string "name"%string)) :
  Z.of_nat (length uuid) < 2 ^ 27 -> small (2 ^ 27) id ->
  reply_ok rpc r1 -> reply_ok rpc r2 ->
  PB RegisterDatanode (register_request master id) s0 = Ret (s1, r1) ->
  PB DatanodeHeartbeat (heartbeat_request id) s1 = Ret (s2, r2) ->
  RegisterOnNamenode (connect PB s0) uuid hostname id = Ret (s1, succeeded r1) /\
  SendHeartbeat (connect PB s1) uuid id = Ret (s2, succeeded r2).
Proof using Type.
  intros Hu Hid Hr1 Hr2 E1 E2. pose proof (dn_rpc_header_sendable uuid Hu) as Hrpc. split.
  - unfold RegisterOnNamenode. set (q := mkRequest rpc register_header RegisterDatanode (register_request master id)).
    assert (request_ok q) as Hq.
    { split; [reflexivity|]. split; [exact Hrpc|].
      split; [apply request_header_sendable; reflexivity|apply register_request_sendable; exact Hid]. }
    change (HrpcWrite3 _ _ _) with (request_bytes q).
    exact (exchange_request PB q s0 s1 r1 Hq ltac:(discriminate) E1 Hr1).
  - unfold SendHeartbeat. set (q := mkRequest rpc heartbeat_header DatanodeHeartbeat (heartbeat_request id)).
    assert (request_ok q) as Hq.
    { split; [reflexivity|]. split; [exact Hrpc|].
      split; [apply request_header_sendable; reflexivity|apply heartbeat_request_sendable; exact Hid]. }
    change (HrpcWrite3 _ _ _) with (request_bytes q).
    exact (exchange_request PB q s1 s2 r2 Hq ltac:(discriminate) E2 Hr2).
Qed.
End name_node.

(* ------------------------------------------------------------------ *)
(** ** Runs *)

Section data_node_runs.
Import runtime data_server op_requests.

#[local] Instance demo_failed : FailedParse := fun _ _ => [].
#[local] Instance demo_failed_laws : FailedParseLaws.
Proof. intros fields l. cbn. lia. Qed.
#[local] Instance demo_blocks : BlockLaws world := extent_block_laws demo_net (fun _ => eq_refl) demo_readable.

(** The block of the root directory. *)
Lemma demo_block : exists s id d, ec_wf s /\ ec_raw s id d /\ 0 <= id < 2 ^ 64.
Proof.
  destruct demo_a as (s & Hwf & [Hf _] & _). destruct (law_blocks s 1 _ _ Hwf Hf) as (Hn & _ & _).
  change (block_count (Z.of_nat (length (DirFacts.dir_encode [(name_a, 2)])))) with 1 in Hn.
  destruct (ec_blocks s 1) as [|[id d] l] eqn:Eb; [cbn in Hn; lia|].
  assert (ec_blocks s 1 !! 0%nat = Some (id, d)) as Hk by (rewrite Eb; reflexivity).
  exists s, id, d. split; [done|]. split; [by eapply law_raw_block|].
  pose proof (law_block_range s 1 0 id d Hwf Hk). rewrite BLOCK_NUM_val in *. lia.
Qed.

Definition demo_id : msg proto.DatanodeIDProto :=
  new_message proto.DatanodeIDProto
    |> set_bytes 1 name_a |> set_bytes 2 name_a |> set_bytes 3 [] |> set_int 4 50010 |> set_int 5 0 |> set_int 6 0.
Definition demo_info : msg proto.DatanodeInfoProto := new_message proto.DatanodeInfoProto |> set_message 1 demo_id.

Lemma demo_id_small : small 256 demo_id.
Proof. split; [vm_compute; reflexivity|split; vm_compute; reflexivity]. Qed.
Lemma demo_info_small : small 512 demo_info.
Proof. split; [vm_compute; reflexivity|split; vm_compute; reflexivity]. Qed.

Lemma demo_write_sendable id targets : 0 <= id < 2 ^ 64 -> (length targets <= 10)%nat ->
  Forall (small 512) targets -> sendable (2 ^ 31) (write_op id targets).
Proof.
  intros Hid Hl Hx. apply small_sendable; [vm_compute; reflexivity|].
  destruct (write_op_small id targets 512 Hid Hx) as (Ht & Hi & Hc). split; [done|]. split; [done|]. lia.
Qed.

Lemma block_write_read_witness : exists s id d w s',
  ec_raw s id d /\ write_stream (block_packets 0 name_a) = Ret w /\
  serve_connection (fun _ => None)
    (op_bytes 80 ++ write_delimited (write_op id []) ++ w ++
     op_bytes 81 ++ write_delimited (read_op id 0 1)) (mkYfs s ∅) =
  Ret (mkYfs s' ∅, (write_answer [] ++ write_delimited (data_server.read_response 0) ++ w, [])) /\
  block_put s s' id (overlay d 0 name_a).
Proof.
  destruct demo_block as (s & id & d & Hwf & Hk & Hid).
  destruct (block_write_read (fun _ => None) s ∅ id d 0 name_a (write_op id []) (read_op id 0 1)) as (w & s' & Hw & E & Hs).
  - exact Hwf.
  - exact Hk.
  - discriminate.
  - rewrite BLOCK_SIZE_val. discriminate.
  - discriminate.
  - apply demo_write_sendable; [exact Hid|cbn; lia|constructor].
  - reflexivity.
  - reflexivity.
  - apply small_sendable; [vm_compute; reflexivity|].
    destruct (read_op_small id 0 1 Hid) as (Ht & Hi & Hc); [lia|lia|]. split; [done|]. split; [done|]. lia.
  - reflexivity.
  - reflexivity.
  - reflexivity.
  - exists s, id, d, w, s'. exact (conj Hk (conj Hw (conj E Hs))).
Defined.

Lemma block_replicated_witness : exists s id w stores',
  write_stream (block_packets 0 name_a) = Ret w /\
  pipeline (op_bytes 80 ++ write_delimited (write_op id [demo_info; demo_info]) ++ w) (replicate 3 (mkYfs s ∅)) stores'
    (write_answer [Datanode.SUCCESS; Datanode.SUCCESS]) /\
  Forall2 (block_written id 0 name_a) (replicate 3 (mkYfs s ∅)) stores'.
Proof.
  destruct demo_block as (s & id & d & Hwf & Hk & Hid).
  destruct (block_replicated (replicate 3 (mkYfs s ∅)) 0 name_a (write_op id [demo_info; demo_info]))
    as (w & stores' & H).
  - repeat (constructor; [split; [exact Hwf|exists d; exact Hk]|]). constructor.
  - apply demo_write_sendable; [exact Hid|cbn; lia|]. constructor; [apply demo_info_small|].
    constructor; [apply demo_info_small|constructor].
  - reflexivity.
  - reflexivity.
  - discriminate.
  - rewrite BLOCK_SIZE_val. discriminate.
  - exists s, id, w, stores'. exact H.
Defined.

Lemma block_transferred_witness : exists s id d bytes s1' s2',
  serve_connection (fun _ => Some (write_answer []))
    (op_bytes 86 ++ write_delimited (name_service.transfer_request id demo_id)) (mkYfs s ∅) =
    Ret (mkYfs s1' ∅, (data_server.response Datanode.SUCCESS, [((name_a, 50010), bytes)])) /\
  serve_connection (fun _ => None) bytes (mkYfs s ∅) = Ret (mkYfs s2' ∅, (write_answer [], [])) /\
  unchanged s s1' /\ block_put s s2' id d.
Proof.
  destruct demo_block as (s & id & d & Hwf & Hk & Hid).
  destruct (block_transferred (fun _ => Some (write_answer [])) (fun _ => None) (name_a, 50010) s s ∅ ∅ d d
    (name_service.transfer_request id demo_id)) as (bytes & s1' & s2' & H).
  - exact Hwf.
  - exact Hk.
  - exact Hwf.
  - exact Hk.
  - apply small_sendable; [vm_compute; reflexivity|].
    destruct (transfer_request_small id demo_id 256 Hid demo_id_small) as (Ht & Hi & Hc).
    split; [done|]. split; [done|]. lia.
  - reflexivity.
  - apply (mirror_request_size id demo_id 256); [exact Hid|apply demo_id_small|discriminate].
  - reflexivity.
  - exists s, id, d, bytes, s1', s2'. exact H.
Defined.

Lemma recovery_copies_witness : exists s bid (sent : list (target * list byte)) fwd s1' s2',
  serve_all (reaches (name_a, 50010) (write_answer [])) (snd <$> sent) (mkYfs s ∅) =
    Ret (mkYfs s1' ∅, (replicate (length sent) (data_server.response Datanode.SUCCESS), (fun b => ((name_a, 50010), b)) <$> fwd)) /\
  serve_all (fun _ => None) fwd (mkYfs s ∅) = Ret (mkYfs s2' ∅, (replicate (length sent) (write_answer []), [])) /\
  forall e, ec_raw s2' bid e <-> ec_raw s bid e.
Proof.
  destruct demo_block as (s & bid & d & Hwf & Hk & Hid).
  destruct (recovery_copies (fun _ => Some (data_server.response Datanode.SUCCESS)) demo_id
    (mkNameNode demo_id ∅ {[bid]} [] 6) s s ∅ ∅) as (v' & sent & fwd & s1' & s2' & _ & _ & E1 & E2 & _ & H).
  - reflexivity.
  - destruct demo_id_small as (Ht & Hi & Hc). split; [exact Ht|]. split; [exact Hi|]. lia.
  - reflexivity.
  - exact Hwf.
  - exact Hwf.
  - intros b Hb. cbn in Hb. apply elem_of_singleton in Hb as ->. split; exists d; exact Hk.
  - exists s, bid, sent, fwd, s1', s2'. split; [exact E1|]. split; [exact E2|]. intros e. rewrite H.
    rewrite decide_True; [reflexivity|]. cbn. apply elem_of_singleton. reflexivity.
Defined.

Lemma data_server_terminates_witness :
  serve_connection (fun _ => None) (op_bytes 80 ++ replicate 40 x01) (mkYfs demo_world ∅) <> Stuck.
Proof.
  apply (data_server_terminates (fun _ => None)).
  - intros id l s. discriminate.
  - intros id l s. cbn. unfold extent_client.write_block, extent_client.call, extent_client.no_out,
      extent_server.write_block, im_write_block, write_block, disk_write_block.
    by repeat (case_match; cbn).
Defined.
End data_node_runs.

Section name_node_runs.
Import runtime.

(** Handlers that count the requests, and refuse all of [Delete]. *)
Definition demo_PB (m : method) (req : Req m) (n : nat) : outcome (nat * (Resp m + list byte)) :=
  Ret (S n, match m with Delete => inr ["e"%byte] | _ => inl (new_message _) end).

Definition demo_request : request :=
  mkRequest (dn_rpc_header ["i"%byte]) (request_header (method_name Delete) []) Delete
    (new_message _ |> set_bytes 1 ["q"%byte] |> set_bool 2 false).

Lemma demo_request_ok : request_ok demo_request.
Proof.
  split; [reflexivity|].
  split; [apply dn_rpc_header_sendable; reflexivity|].
  split; [apply request_header_sendable; reflexivity|].
  split; [split; [split; vm_compute; reflexivity|vm_compute; reflexivity]|vm_compute; reflexivity].
Qed.

(** A frame with call number -4, a ping. *)
Definition demo_ping : request :=
  mkRequest (dn_rpc_header ["i"%byte] |> set_int 3 (-4)) (request_header [] []) Delete
    (new_message _ |> set_bytes 1 [] |> set_bool 2 false).

Lemma demo_ping_ok : request_ok demo_ping.
Proof.
  split; [intros H; destruct (Z.le_ngt 0 (-4)) as [Hn _]; by destruct (Hn H)|].
  split; [split; [split; [split; vm_compute; reflexivity|vm_compute; reflexivity]|vm_compute; reflexivity]|].
  split; [apply request_header_sendable; reflexivity|].
  split; [split; [split; vm_compute; reflexivity|vm_compute; reflexivity]|vm_compute; reflexivity].
Qed.

Lemma name_server_serves_witness :
  worker demo_PB (hello :: (request_bytes <$> [demo_request; demo_ping; demo_request])) 0%nat =
  Ret (2%nat, let reply := HrpcWrite1 (error_response (dn_rpc_header ["i"%byte]) ["e"%byte]) in reply ++ reply ++ []).
Proof.
  apply (name_server_serves demo_PB [demo_request; demo_ping; demo_request]).
  - constructor; [apply demo_request_ok|]. constructor; [apply demo_ping_ok|]. constructor; [apply demo_request_ok|constructor].
  - reflexivity.
Defined.

(** Handlers that wait for ever on the second request. *)
Definition demo_waits (m : method) (req : Req m) (n : nat) : outcome (nat * (Resp m + list byte)) :=
  match n with O => Ret (1%nat, inl (new_message _)) | _ => Stuck end.

Lemma name_server_terminates_witness :
  worker demo_waits [hello; request_bytes demo_request; request_bytes demo_request] 0%nat = Stuck /\
  exists m req s', handled demo_waits 0%nat s' /\ demo_waits m req s' = Stuck.
Proof.
  assert (worker demo_waits [hello; request_bytes demo_request; request_bytes demo_request] 0%nat = Stuck) as E.
  { unfold worker. change (ReadHeader (hello :: ?fd)) with (true, fd). cbn [negb serve].
    rewrite (HandleRpc_request demo_waits demo_request) by (apply demo_request_ok || discriminate). cbn [demo_waits].
    rewrite !bind_Ret. cbn [negb Z.eqb]. destruct (length _) as [|fuel] eqn:El; [vm_compute in El; discriminate El|].
    cbn [serve]. by rewrite (HandleRpc_request demo_waits demo_request) by (apply demo_request_ok || discriminate). }
  split; [exact E|]. exact (name_server_terminates demo_waits _ _ E).
Defined.

Lemma datanode_rpc_witness :
  RegisterOnNamenode (connect demo_PB 0%nat) ["u"%byte] (String.list_byte_of_string "name"%string) demo_id =
    Ret (1%nat, true) /\
  SendHeartbeat (connect demo_PB 1%nat) ["u"%byte] demo_id = Ret (2%nat, true).
Proof.
  apply (datanode_rpc demo_PB ["u"%byte] (String.list_byte_of_string "name"%string) demo_id 0%nat 1%nat 2%nat
    (inl (new_message _)) (inl (new_message _))).
  - reflexivity.
  - destruct demo_id_small as (Ht & Hi & Hc). split; [exact Ht|]. split; [exact Hi|]. lia.
  - split; [reflexivity|]. split; [split; vm_compute; reflexivity|vm_compute; reflexivity].
  - split; [reflexivity|]. split; [split; vm_compute; reflexivity|vm_compute; reflexivity].
  - reflexivity.
  - reflexivity.
Defined.
End name_node_runs.
