(* ===== verification/HdfsWireTheorems.v ===== *)
(** * Theorems on files over the wire

    What the threads of the name node and of a data node answer when a file is
    stored and fetched over their connections, and the answers that are errors. *)

From S2P Require Import Prelude Disk Protocol Inode InodeFacts FileRead FileWrite FileTheorems Extent ExtentFacts.
From S2P Require Import BlockFacts DirFormat DirFacts Yfs YfsFacts YfsTheorems Protobuf ProtobufFacts WireFormat.
From S2P Require Import WireFormatFacts GeneratedCode GeneratedFacts Runtime Protos Hrpc HrpcFacts Messages MessageFacts.
From S2P Require Import MessageSize NameServer NameServerFacts Datanode DatanodeFacts DataServer DataServerFacts Namenode.
From S2P Require Import NamenodeFacts HdfsFacts NameService HdfsTheorems ReplyFacts HdfsWire.
From Stdlib Require String.
Import name_service.

Section files.
Context {S : Type} `{!ExtentClient S, !ExtentLaws S, BL : !BlockLaws S}.
Context `{PR : !ProtobufRuntime, WR : !WireRuntime, FP : !FailedParse} {RL : RuntimeLaws} {WL : WireLaws}.
Context (junk : Z) (junk_attr : extent_protocol.attr) (dial : data_server.target -> option (list byte)).

(** C4. A file is stored and fetched again over connections that carry bytes
    only.  The name node is sent a request to create the file, one for each of its
    blocks, and one to complete it; a data node the packets of every block; then
    the name node is asked for the locations, and a data node for each block.  For
    every such request with the right fields, on a connection of its own and each
    frame arriving in one segment, the threads of the servers answer with success;
    the name node's answers are read back, give the length of the file, and name
    the blocks to write and to read; and the packets of the blocks are those of
    exactly the bytes that were stored.  The directory has one more entry, every
    other file is unchanged, and nothing of the transfer (the lock, the pending
    write) is left.  This is for a new name with neither the separator ';' nor a
    zero byte in an existing directory that is not locked, a file of whole blocks
    but for the last, with at least one and at most [MAXFILE], room for it on the
    disk, at most 16 data nodes with short descriptions, and no request of another
    client in between.  The extent service keeps [ExtentLaws] and [BlockLaws], as
    the code's does when no call is lost and a block can be read behind a string
    ([extent_client_laws], [extent_block_laws]). *)
Theorem hdfs_wire_put_get v h (s : S) src p q es i cs :
  ec_wf s -> char_at src 0 = slash -> resolve s (1, 1) (dirname src) (Some (p, q)) -> is_dir s p es ->
  p ∉ h -> i ∉ h -> basename src <> [] -> name_ok (basename src) -> assoc (basename src) es = None ->
  first_free s i -> entry_fits s es (basename src) i -> pendingWrite v !! i = None ->
  cs <> [] -> chunks_ok cs -> Z.of_nat (length cs) <= MAXFILE ->
  Z.of_nat (length cs) + 1 + block_count (Z.of_nat (length (dir_encode (es ++ [(basename src, i)])))) <=
    ec_room s + blocks_for (Z.of_nat (length (dir_encode es))) -> nodes_ok v ->
  exists v1 s1 s2,
    file_stored junk junk_attr dial src cs (mkN v (mkYfs s h)) (mkN v1 (mkYfs s1 h)) /\
    file_fetched junk junk_attr dial src (mkN v1 (mkYfs s1 h)) (mkN v1 (mkYfs s2 h))
      (Z.of_nat (length (concat cs))) (concat cs) /\
    pendingWrite v1 = pendingWrite v /\ is_dir s2 p (es ++ [(basename src, i)]) /\
    ec_file s2 i = Some (extent_protocol.T_FILE, concat cs) /\
    (forall j, j <> p -> j <> i -> ec_file s2 j = ec_file s j).
Proof using BL RL WL.
  intros Hwf Hc Hr Hd Hp Hi Hne Hname Ha Hfree Hfit Hpend Hcs Hok Hmax Hroom Hv.
  destruct (hdfs_put_spec junk junk_attr v h s src p q es i cs)
    as (v1 & s1 & E1 & Hp1 & Hwf1 & Hd1 & Hf1 & Hr1 & Ho1); try assumption.
  destruct (hdfs_get_spec junk junk_attr v1 h s1 src i p (concat cs)) as (s2 & E2 & Hk2); try assumption.
  { by apply chunks_block_count. }
  pose proof (chunks_length cs Hok Hcs) as Hlen. pose proof MAXFILE_val. pose proof BLOCK_SIZE_val.
  exists v1, s1, s2. split; [by apply file_stored_spec|].
  split; [apply file_fetched_spec; [exact E2|by eapply nodes_ok_same; [eapply file_run_nodes|]|lia]|].
  split; [assumption|]. pose proof Hk2 as [(_ & Hj2 & _) _].
  split; [by eapply keeps_dir|]. split; [by rewrite Hj2|]. intros j Hjp Hji. by rewrite Hj2, Ho1.
Qed.

(** A request to add a block to a file that does not exist is answered with
    status SUCCESS and a response without its required block: the generated code
    that reads the answer refuses it. *)
Theorem add_block_missing v h (s : S) src rpc hd (req : Req name_server.AddBlock) :
  ec_wf s -> resolves s src None -> request_ok (mkRequest rpc hd name_server.AddBlock req) ->
  0 <= name_server.callid rpc -> Z.of_nat (length (name_server.clientid rpc)) < 2 ^ 27 -> get_bytes 1 req = src ->
  exists s' out,
    PB junk junk_attr name_server.AddBlock req (mkN v (mkYfs s h)) = Ret (mkN v (mkYfs s' h), inr (new_message _)) /\
    name_server.worker (handler junk junk_attr) [name_server.hello; HrpcWrite3 rpc hd req] (at_ (mkN v (mkYfs s h))) =
      Ret (at_ (mkN v (mkYfs s' h)), out) /\
    HrpcRead2 (T1 := msg proto.RpcResponseHeaderProto) (T2 := Resp name_server.AddBlock) [out] = Ret (None, []) /\
    keeps s s'.
Proof using BL RL WL.
  intros Hwf Hr Hq Hc Hl Hreq. destruct (RecursiveLookup_spec junk v h s src _ Hwf Hr) as (s1 & E1 & Hk1).
  assert (PB junk junk_attr name_server.AddBlock req (mkN v (mkYfs s h)) =
    Ret (mkN v (mkYfs s1 h), inr (new_message _))) as E.
  { cbn [PB]. rewrite Hreq. unfold PBAddBlock. rewrite !nm_assoc. by rewrite (NM_bind_Ret _ _ _ _ _ E1). }
  destruct (worker_response junk junk_attr rpc hd name_server.AddBlock req _ _ _ Hq Hc Hl eq_refl E) as (out & W & R).
  { split; [split; vm_compute; reflexivity|vm_compute; reflexivity]. }
  exists s1, out. split; [exact E|]. split; [exact W|]. split; [exact R|exact Hk1].
Qed.

(** A lock that is held makes [DualLock] wait. *)
Lemma dual_lock_waits v (s : S) h i p : i ∈ h -> DualLock i p (mkN v (mkYfs s h)) = Stuck.
Proof using Type.
  intros Hi.
  assert (forall l h', l ∈ h' -> @lift S _ (acquire l) (mkN v (mkYfs s h')) = Stuck) as Hw.
  { intros l h' Hl. unfold lift, acquire. cbn [fs held]. by rewrite decide_True. }
  unfold DualLock. destruct (i <? p); [by rewrite (NM_bind_Stuck _ _ _ (Hw i h Hi))|].
  destruct (p <? i); [|by apply Hw]. destruct (decide (p ∈ h)) as [Hp|Hp].
  - by rewrite (NM_bind_Stuck _ _ _ (Hw p h Hp)).
  - assert (@lift S _ (acquire p) (mkN v (mkYfs s h)) = Ret (mkN v (mkYfs s ({[p]} ∪ h)), inr tt)) as E.
    { unfold lift, acquire. cbn [fs held]. by rewrite decide_False. }
    rewrite (NM_bind_Ret _ _ _ _ _ E). apply Hw. by apply elem_of_union_r.
Qed.

(** A file that is still being written has its lock: a request to delete it waits
    for the lock, and with it the thread of its connection. *)
Theorem delete_pending_waits v h (s : S) src i p rpc hd (req : Req name_server.Delete) :
  ec_wf s -> resolves s src (Some (i, p)) -> i ∈ h ->
  request_ok (mkRequest rpc hd name_server.Delete req) -> 0 <= name_server.callid rpc -> get_bytes 1 req = src ->
  name_server.worker (handler junk junk_attr) [name_server.hello; HrpcWrite3 rpc hd req] (at_ (mkN v (mkYfs s h))) =
    Stuck.
Proof using BL RL WL.
  intros Hwf Hr Hi Hq Hc Hreq. destruct (RecursiveLookup_spec junk v h s src _ Hwf Hr) as (s1 & E1 & Hk1).
  refine (worker_waits _ (mkRequest rpc hd name_server.Delete req) _ Hq Hc _). cbn [q_method q_req]. unfold handler, at_.
  assert (PB junk junk_attr name_server.Delete req (mkN v (mkYfs s h)) = Stuck) as E; [|cbn [state]; by rewrite E].
  cbn [PB]. rewrite Hreq. unfold PBDelete. rewrite !nm_assoc, (NM_bind_Ret _ _ _ _ _ E1).
  by rewrite !nm_assoc, (NM_bind_Stuck _ _ _ (dual_lock_waits v s1 h i p Hi)).
Qed.
End files.

(** A request with a name that is no method's is answered with an error, and
    the thread closes the connection: whatever requests follow on it are not
    read. *)
Theorem unknown_method_closes `{PR : !ProtobufRuntime, WR : !WireRuntime} {RL : RuntimeLaws} {WL : WireLaws}
    {T X} `{!Message X, !MessageLaws X} PB (rpc : msg proto.RpcRequestHeaderProto) (hd : msg proto.RequestHeaderProto)
    (req : X) fd (s : T) :
  0 <= name_server.callid rpc -> name_server.find_method (name_server.methodname hd) = None ->
  sendable (2 ^ 29) rpc -> sendable (2 ^ 29) hd -> fits (2 ^ 29) req ->
  name_server.worker PB (name_server.hello :: HrpcWrite3 rpc hd req :: fd) s =
    Ret (s, HrpcWrite1 (name_server.error_response rpc (String.list_byte_of_string "Method not supported"%string)
              |> set_int 6 name_server.ERROR_NO_SUCH_METHOD)).
Proof.
  intros Hc Hm H1 H2 H3. unfold name_server.worker.
  change (name_server.ReadHeader (name_server.hello :: ?l)) with (true, l). cbn [negb name_server.serve].
  unfold name_server.HandleRpc. rewrite <-(app_nil_r (HrpcWrite3 rpc hd req)).
  rewrite HrpcRead1_write3, bind_Ret by (done || apply H2).
  rewrite (proj2 (Z.ltb_ge _ _)) by done.
  rewrite ReadDelimited_write, bind_Ret by (eapply sendable_le; [|done]; lia). by rewrite Hm.
Qed.

(* ------------------------------------------------------------------ *)
(** ** Runs *)

Section runs.
Import runtime.

#[local] Instance demo_failed : FailedParse := fun _ _ => [].
#[local] Instance demo_blocks : BlockLaws world := extent_block_laws demo_net (fun _ => eq_refl) demo_readable.

(** A name node with one data node. *)
Definition demo_alive : namenode := mkNameNode demo_dn ∅ ∅ [(demo_dn, 3)] 3.

Lemma demo_nodes : nodes_ok demo_alive.
Proof.
  split; [constructor; [|constructor]|cbn; lia]. split; [vm_compute; reflexivity|split; vm_compute; reflexivity].
Qed.

(** A request to create the file. *)
Definition demo_create : Req name_server.Create :=
  new_message proto.CreateRequestProto
    |> set_bytes 1 path_a
    |> set_message 2 (new_message proto.FsPermissionProto |> set_int 1 0x1b6)
    |> set_bytes 3 name_a |> set_int 4 1 |> set_bool 5 false |> set_int 6 1 |> set_int 7 BLOCK_SIZE.

Lemma demo_create_ok : request_ok (mkRequest (name_server.dn_rpc_header name_a)
  (name_server.request_header (name_server.method_name name_server.Create) []) name_server.Create demo_create).
Proof.
  split; [reflexivity|].
  split; [apply dn_rpc_header_sendable; reflexivity|].
  split; [apply request_header_sendable; reflexivity|].
  split; [split; [split; vm_compute; reflexivity|vm_compute; reflexivity]|vm_compute; reflexivity].
Qed.

(** The file is stored and fetched; the first request is one that a client might
    send, and its answer is read. *)
Lemma hdfs_wire_put_get_witness : exists v1 s1 s2 n1 out resp,
  file_stored 0 extent_protocol.attr_zero (fun _ => None) path_a [name_a] (mkN demo_alive (mkYfs demo_world ∅))
    (mkN v1 (mkYfs s1 ∅)) /\
  file_fetched 0 extent_protocol.attr_zero (fun _ => None) path_a (mkN v1 (mkYfs s1 ∅)) (mkN v1 (mkYfs s2 ∅)) 1 name_a /\
  name_server.worker (handler 0 extent_protocol.attr_zero)
    [name_server.hello; HrpcWrite3 (name_server.dn_rpc_header name_a)
       (name_server.request_header (name_server.method_name name_server.Create) []) demo_create]
    (at_ (mkN demo_alive (mkYfs demo_world ∅))) = Ret (at_ n1, out) /\
  HrpcRead2 (T1 := msg proto.RpcResponseHeaderProto) (T2 := Resp name_server.Create) [out] =
    Ret (Some (name_server.response (name_server.dn_rpc_header name_a) name_server.SUCCESS, resp, []), []).
Proof.
  destruct (hdfs_wire_put_get 0 extent_protocol.attr_zero (fun _ => None) demo_alive ∅ demo_world path_a 1 1 [] 2
    [name_a]) as (v1 & s1 & s2 & E1 & E2 & _);
    [apply demo_wf|reflexivity|constructor|apply demo_is_dir|apply not_elem_of_empty
    |apply not_elem_of_empty|discriminate|apply name_a_ok|reflexivity|apply demo_first_free
    |apply demo_fits|reflexivity|discriminate| |discriminate|rewrite demo_room; discriminate
    |apply demo_nodes|].
  { pose proof BS_BLOCK_SIZE. pose proof BLOCK_SIZE_val. cbn. lia. }
  destruct E1 as (n1 & n2 & resp & Hcreate & Hrest).
  destruct (Hcreate _ _ demo_create demo_create_ok) as (out & W & R);
    [discriminate|reflexivity|split; reflexivity|].
  exists v1, s1, s2, n1, out, resp. split; [exists n1, n2, resp; exact (conj Hcreate Hrest)|].
  exact (conj E2 (conj W R)).
Defined.
End runs.
